(* ===== verification/_CoqProject ===== *)
-Q . S2P
Prelude.v
Text.v
Sha256.v
Crypto.v
Canonical.v
Wallet.v
Gate.v
Chain.v
Validate.v
Eddsa.v
Portability.v
Mempool.v
Pow.v
Picojson.v
Bench.v
Json.v
Store.v
Keyfile.v
Node.v
Config.v
Rpc.v
Http.v
Cli.v
Daemon.v
Recovery.v
Threads.v
Lives.v
Payments.v
Frame.v
Backend.v
ServerM.v
Legacy.v
