(* ===== verification/Prelude.v ===== *)
(** * TxChain: a verification of the ledger, its node, its tools and its network

    This library models the C++ program TxChain, a small proof-of-work ledger
    with one coin, together with the first-generation coin network that shares
    its repository.  Every definition is a translation of code; the theorems
    say what the code guarantees.  This file is the prelude: notations, tactics,
    hint databases, bounded integers and byte arrays that the other files share.

    ** The program and the files that model it

    Bottom up; paths are relative to the root of the repository.

    - Prelude: [u64] and [u128] wrap-around, [arr n] for [std::array] of bytes,
      decimal printing.
    - Text: the C and C++ text functions the sources use ([strtoull],
      [strtol], [find], extraction from a stream).
    - Sha256: [third_party/sha256/sha256.c] and the facade
      [src/crypto/sha256.cpp]; the class [HashFn] is what the ledger needs of a
      hash and the vendored code is an instance of it.
    - Crypto: addresses, hex, leading zero bits and difficulty
      ([src/crypto/]); the class [Ed25519] stands for the signature backend.
    - Canonical: [Txn], [BlockHeader], [Block] and their only byte layout
      ([src/serialize/canonical.cpp]).
    - Wallet, Keyfile: keys and signing; the key file on disk
      ([src/wallet/wallet.cpp]).
    - Gate: the per-transaction gate [applyTxn] and the block gate
      [applyBlockTxns] ([src/chain/gate.cpp], [src/chain/genesis.cpp]).
    - Chain: the committed chain and its one write path [connectBlock]
      ([src/chain/chain.cpp]).
    - Validate: the from-genesis validator [replayFromGenesis] and the monitor
      contract ([src/chain/validate.cpp]).
    - Eddsa, Portability: the two Ed25519 backends ([src/crypto/ed25519_ref10.cpp]
      with the vendored [keypair.c], [sign.c], [verify.c], and
      [ed25519_sodium.cpp]); what the choice between them means for blocks,
      chains and chain files.
    - Mempool: admission, ordering, eviction ([src/mempool/mempool.cpp]).
    - Pow: candidate assembly, the nonce search, import by heaviest work
      ([src/pow/]).
    - Picojson, Json: the vendored JSON reader as the program uses it, with
      [outcome], the result of code that may fail ([Fail]), throw ([Throw]), run
      into undefined behaviour ([Undefined]) or, in the model only, run out of
      fuel ([NoFuel]); the block lines of the chain file and the field extractors
      ([third_party/json/picojson.h], [src/serialize/json.cpp]).
    - Store: append, rewrite and load of the chain file ([src/chain/store.cpp]).
    - Node, Config: boot, sealing, committing; the configuration
      ([src/node/node.cpp]).
    - Rpc, Http: the endpoints, and the transport that carries them
      ([src/rpc/]).
    - Cli: every verb of the tool [txchain] ([apps/txchain/main.cpp]).
    - Daemon, Recovery: the process [txnode] ([apps/txnode/main.cpp]); what it
      leaves on disk and what a restart makes of it.
    - Threads, Lives: the two threads of [txnode] access by access; a node over
      any number of lives.
    - Payments: what becomes of an accepted payment: nothing is lost, and the
      whole node is a queue served in batches; from the tool's command line to the
      chain.
    - Bench: the difficulty benchmark ([tools/mine_bench.cpp]).
    - Frame: the peer-to-peer frame codec ([src/p2p/frame.cpp]).
    - Backend, ServerM: the first-generation network: [serverA.cpp],
      [serverB.cpp], [serverC.cpp]; [serverM.cpp], [client.cpp], [monitor.cpp].
    - Legacy: the processes around them: sockets, failing calls, printed lines,
      exit codes.

    How they interact: a wallet signs a transaction over the canonical bytes;
    the node's RPC hands it to the mempool, which asks the gate; the block
    producer drains the mempool into a candidate, searches a nonce and gives
    the block to the chain, which runs the gate again and commits; the store
    appends the block as a JSON line; a later boot, the monitor and the import
    verb read the lines back and replay them from genesis with the same gate.
    In the network, the main server answers a client by querying the three
    backends, each over its own block file.

    ** How code becomes definitions

    A C++ method that changes an object is a function that returns the object
    after the call next to the method's result; early returns are [return_if].
    Unsigned integers are [Z] with the wrap-around of their width written at
    each operation; signed overflow and out-of-range casts are outcomes.
    [std::map] and [std::unordered_map] are finite maps, an iteration order the
    code relies on is a list.  A clock, a random draw, the environment of a
    process and the command line are arguments.  A system call answers from a
    script: [io] for a file ([open], each [write], [fsync]), a list of chunks for
    a socket.  The process [txnode] is modelled twice: in file Daemon each
    section under [node_mtx] is one event and a history is any sequence of events;
    in file Threads each access of each thread is a step, the threads interleave
    freely and signals arrive at any time, and the second is proved to be the
    first.  A [write] to a peer that is gone raises SIGPIPE, which neither [txnode]
    nor [txchain] ignores: in file Http such a call does not come back, in file
    Threads it ends the process.  [stop_] of the server, a volatile flag, is read and written there as an
    atomic.

    ** What the theorems show

    - The ledger.  [connectBlock] commits exactly the blocks that satisfy the
      declarative rules, and changes nothing otherwise
      ([Chain.connectBlock_refines], over [Gate.applyBlockTxns_refines],
      [Gate.transfer_effect]; the errors one by one in [Gate.applyTxn_errors]).  Over every reachable
      chain the supply is the genesis supply plus the minted rewards
      ([Chain.chain_supply]), an account's transactions carry the nonces 0, 1,
      2, ... once each ([Chain.chain_nonces]), and no machine integer wraps
      ([Chain.chain_bounds]).
    - Two validators, one verdict.  The replay is a declarative relation
      ([Validate.replay_refines]), it accepts every reachable chain
      ([Validate.reachable_validates]), and the tip hash commits to the whole
      history unless the hash function has a collision
      ([Validate.tip_hash_commits]).
    - Bytes.  The vendored SHA-256 is FIPS 180-4, written from the standard with
      functions, constants and message schedule of its own
      ([Sha256.sha256_refines_fips]); the difficulty test is the
      comparison with a target ([Crypto.meets_difficulty_target]); the canonical
      form, the chain-file lines, the key file and the wire frames round-trip
      ([Canonical.deserialize_serialize_txn], [Json.json_line_roundtrip],
      [Keyfile.wallet_save_load], [Frame.frame_roundtrip]); the key file reader
      accepts exactly consistent keys ([Keyfile.wallet_load_iff]); the JSON
      reader always ends ([Json.from_json_line_ok]).
    - The mempool and the producer.  The three indices agree and every pooled
      transaction is authentic ([Mempool.mempool_invariant]), admission agrees
      with the gate ([Mempool.admit_agrees_with_gate]), a candidate built from a
      pool connects ([Pow.candidate_connects]), the nonce search returns the
      first solution ([Pow.mine_correct]).
    - The node over time.  Boot accepts exactly the files the validator accepts
      ([Node.boot_gate]); a seal makes progress ([Node.seal_progress]); for every
      history of the process the chain, the pool and the pending candidate stay
      consistent, its values well typed, and a mined block commits
      ([Daemon.daemon_invariant], [Daemon.daemon_typed],
      [Daemon.mined_block_commits]).  The two threads, interleaved at every access,
      do what such a history does ([Threads.threads_refine]); a signalled process
      ends in a bounded number of steps unless a client blocks the RPC thread or
      SIGPIPE has killed it ([Threads.shutdown]); over any number of lives on a
      working disk, without self-transfers, the chain only grows
      ([Lives.lives_grow]).  After any history on a working disk a
      restart recovers the chain and the accounts ([Recovery.daemon_recovers]),
      and a torn append is detected at the next load, but for one byte
      ([Store.torn_append]).
    - Payments.  Whatever is submitted, no event of a process loses or repeats an
      accepted payment: it is in the pool or on the chain.  And mempool, selection
      and event loop together are a first-come first-served queue, in which what is
      on the chain and then in the pool is one log that only grows at its end - on a
      node that seals on a cadence always, on a mining node as long as no account
      pays itself ([Payments.node_is_queue]).  Under that condition a payment
      answered 200 is on the chain when a bounded number of further blocks is
      ([Payments.payment_confirmed]), and so is one [txchain send] reports as sent
      ([Payments.sent_is_confirmed]).  The pool itself is not on disk: a restart
      empties it.
    - Signatures.  Given the group law of the curve, the vendored C code makes
      RFC 8032 keys and signatures and verifies its equation
      ([Eddsa.ref10_implements_rfc8032]), so both backends satisfy the one law the
      ledger uses ([Eddsa.ref10_laws], [Eddsa.sodium_laws]) and agree on what they
      sign ([Eddsa.backends_compared]).  What a libsodium build accepts a ref10
      build accepts ([Portability.sodium_chains_portable]); not conversely, because
      ref10 does not bound the scalar of a signature by the group order
      ([Portability.malleated_block_splits]).
    - The outside.  A posted transaction is exactly an admission
      ([Rpc.post_tx_is_admit]; [Rpc.rpc_only_admits]: nothing else changes the
      node); client and server agree on every message however
      the bytes are cut ([Http.http_exchange], [Http.serve_connection_sound]); a
      payment from the tool over such a network ends in the admission gate
      ([Cli.send_correct]); the other verbs do what they print
      ([Cli.monitor_verify_correct], [Cli.import_replaces]); flags win over the
      file and the file over defaults ([Config.config_precedence]).
    - The network.  A transfer is answered, and recorded, as on one abstract
      ledger ([ServerM.txcoins_refines], [ServerM.txcoins_moves]); the listing is
      sorted ([ServerM.txlist_sorted]); restarting a backend is invisible
      ([Legacy.backend_lives]); the main server is the loop over the requests that
      arrive, until a client stays silent ([Legacy.main_server_serves]).

    Theorems named as defects in their comments state where the code departs
    from its own documentation: a transfer to oneself mints
    ([Gate.self_transfer_mints], [Validate.validators_disagree]), which is why
    the theorems above ask for histories without such transfers ([no_self]);
    the node ignores a failed append ([Node.commit_ignores_append_failure]);
    numbers go through a double ([Json.json_number_defects]); the offline send
    replays with the wrong parameters ([Validate.offline_replay_rejects_mined]);
    a negative transfer steals ([ServerM.transfer_defects]); an import can
    install a chain no node boots on ([Cli.import_then_boot]); a relayed
    transaction's signature can be replaced ([Portability.malleated_block_splits]).

    ** Hypotheses and fuel

    [HashFn] is instantiated by the vendored code; the ledger's theorems hold
    for any instance, and those that need more say so ([HashLaws]).
    [Ed25519] has one law, that a signature verifies under the key derived from
    its seed ([Ed25519Laws]).  File Eddsa derives that law for both backends: for
    ref10 from [CurveLaws], what the comments of [ge.c] and [sc.c] say of the
    arithmetic, for libsodium from [SodiumLaws], its documented behaviour.  All
    classes have executable instances, in modules [Demo] and [EddsaDemo], at which
    the witnesses evaluate; the curve of [EddsaDemo] is the group of integers modulo
    the group order.  Clocks are assumed to fit
    their width ([now + MAX_CLOCK_SKEW_S < 2 ^ 64]) and heights to stay below
    [2 ^ 58], where 50 coins a block cannot wrap the supply.

    - The JSON reader runs on [2 * n + 1] units of fuel for [n] bytes, and
      [parse_not_out_of_fuel] shows that it is enough for every input.
    - The nonce search takes a unit per hash; [Pow.mine_correct] gives the
      amount that suffices.
    - Decimal printing recurses at most 40 times, enough for [2 ^ 128].
    - A script of system calls that ends early leaves the call unfinished
      ([None]); the theorems are about calls that return, and each comes with a
      script on which it does.

    ** Not modelled

    - The field, curve and scalar arithmetic and the SHA-512 of
      [third_party/ed25519_ref10/] ([fe.c], [ge.c], [sc.c], [sha512.c]) and
      libsodium: third-party parameters, as above.  The files of the directory that
      are not built ([add_scalar.c], [key_exchange.c], [seed.c]).
    - SIGPIPE in the first-generation programs ([send] without MSG_NOSIGNAL in
      [serverM.cpp], [client.cpp] and [monitor.cpp]): there a [send] to a peer that
      is gone is one that fails, and its result is treated as the code treats it.
    - The kernel's side of the socket calls (which ports are free, the backlog),
      the 100 ms sleep of the event loop, the installation of the signal
      handlers, and the text of [strerror] behind a [perror] label.
    - The JSON serializer and the stream operators of picojson, which the
      program does not call.
    - [src/*/*.cpp] stubs with one [module_name] function, tests and scripts. *)

From Stdlib Require Import ZArith Lia Ascii String Eqdep_dec.
From stdpp Require Import base list list_numbers strings gmap fin_maps.

#[global] Set Default Goal Selector "!".
#[global] Open Scope Z_scope.

(** ** Notations and automation of the development *)

Declare Scope txchain_scope.
Delimit Scope txchain_scope with txchain.
#[global] Open Scope txchain_scope.

(** [return_if c with r ;; k] is the C++ early return [if (c) return r;]
    followed by the rest of the function body. *)
Notation "'return_if' c 'with' r ';;' k" := (if c then r else k)
  (at level 10, c at level 99, r at level 99, k at level 200,
   format "'return_if'  c  'with'  r  ';;' '//' k") : txchain_scope.

Create HintDb txchain.
Create Rewrite HintDb txchain.

(** Case analysis on the guards of a handler, one [if] or [match] at a time. *)
Ltac split_guards :=
  repeat match goal with
         | |- context [if ?c then _ else _] => let E := fresh "E" in destruct c eqn:E
         end.

Ltac split_guards_in H :=
  repeat match type of H with
         | context [if ?c then _ else _] => let E := fresh "E" in destruct c eqn:E
         end.

(** Turn boolean (in)equalities of the code into propositions. *)
Ltac reflect_bools :=
  repeat match goal with
         | H : bool_decide _ = true |- _ => apply bool_decide_eq_true in H
         | H : bool_decide _ = false |- _ => apply bool_decide_eq_false in H
         | H : negb _ = true |- _ => apply negb_true_iff in H
         | H : negb _ = false |- _ => apply negb_false_iff in H
         | H : (_ && _)%bool = true |- _ => apply andb_true_iff in H; destruct H
         | H : (_ || _)%bool = false |- _ => apply orb_false_iff in H; destruct H
         | H : (_ =? _) = true |- _ => apply Z.eqb_eq in H
         | H : (_ =? _) = false |- _ => apply Z.eqb_neq in H
         | H : (_ <? _) = true |- _ => apply Z.ltb_lt in H
         | H : (_ <? _) = false |- _ => apply Z.ltb_ge in H
         | H : (_ <=? _) = true |- _ => apply Z.leb_le in H
         | H : (_ <=? _) = false |- _ => apply Z.leb_gt in H
         | H : (_ =? _)%nat = true |- _ => apply Nat.eqb_eq in H
         | H : (_ =? _)%nat = false |- _ => apply Nat.eqb_neq in H
         | H : (_ <? _)%nat = true |- _ => apply Nat.ltb_lt in H
         | H : (_ <? _)%nat = false |- _ => apply Nat.ltb_ge in H
         end.

(** ** Bytes

    A C++ [char] and a [std::uint8_t] are the same eight bits: both are
    [ascii], whose decidable equality and countability stdpp provides. *)

Abbreviation byte := ascii (only parsing).

Definition byte_to_Z (b : byte) : Z := Z.of_N (N_of_ascii b).
Definition Z_to_byte (z : Z) : byte := ascii_of_N (Z.to_N (z mod 256)).

Lemma byte_to_Z_range b : 0 <= byte_to_Z b < 256.
Proof. unfold byte_to_Z. pose proof (N_ascii_bounded b). lia. Qed.
#[export] Hint Resolve byte_to_Z_range : txchain.

Lemma Z_to_byte_to_Z b : Z_to_byte (byte_to_Z b) = b.
Proof.
  unfold Z_to_byte. rewrite Z.mod_small by apply byte_to_Z_range.
  unfold byte_to_Z. rewrite N2Z.id. apply ascii_N_embedding.
Qed.

Lemma byte_to_Z_to_byte z : byte_to_Z (Z_to_byte z) = z mod 256.
Proof.
  unfold byte_to_Z, Z_to_byte. pose proof (Z.mod_pos_bound z 256 eq_refl).
  rewrite N_ascii_embedding by lia. lia.
Qed.

Lemma byte_to_Z_inj a b : byte_to_Z a = byte_to_Z b → a = b.
Proof. intros H. rewrite <- (Z_to_byte_to_Z a), <- (Z_to_byte_to_Z b). by rewrite H. Qed.

Lemma Z_to_byte_mod z : Z_to_byte (z mod 256) = Z_to_byte z.
Proof. unfold Z_to_byte. by rewrite Zmod_mod. Qed.

#[export] Hint Rewrite Z_to_byte_to_Z byte_to_Z_to_byte Z_to_byte_mod : txchain.

(** ** Machine integers

    A [std::uint64_t] is a [Z]; every operation of the code that can wrap
    is written with [u64].  [u64_ok] is the range of the type. *)

Definition u64 (z : Z) : Z := z mod 2 ^ 64.
Definition u128 (z : Z) : Z := z mod 2 ^ 128.
Definition u64_ok (z : Z) : Prop := 0 <= z < 2 ^ 64.

#[export] Instance u64_ok_dec z : Decision (u64_ok z).
Proof. unfold u64_ok. apply _. Defined.

Lemma u64_id z : u64_ok z → u64 z = z.
Proof. unfold u64, u64_ok. apply Z.mod_small. Qed.

Lemma u64_range z : u64_ok (u64 z).
Proof. unfold u64, u64_ok. by apply Z.mod_pos_bound. Qed.
#[export] Hint Resolve u64_range u64_id : txchain.

(** ** Fixed-width arrays: [std::array<Byte, N>]

    A list with a boolean length proof: two arrays with the same bytes are
    equal, so the arrays can be keys of finite maps. *)

Record arr (n : nat) : Type := Arr {
  arr_list : list byte;
  arr_len : (length arr_list =? n)%nat = true
}.
Arguments Arr {_} _ _.
Arguments arr_list {_} _.
Arguments arr_len {_} _.

Lemma arr_length {n} (a : arr n) : length (arr_list a) = n.
Proof. apply Nat.eqb_eq, arr_len. Qed.
#[export] Hint Resolve arr_length : txchain.

Lemma arr_eq {n} (a b : arr n) : arr_list a = arr_list b → a = b.
Proof.
  destruct a as [la Ha], b as [lb Hb]; simpl. intros ->. f_equal.
  apply UIP_dec, Bool.bool_dec.
Qed.

#[export] Instance arr_eq_dec n : EqDecision (arr n).
Proof.
  refine (λ a b, cast_if (decide (arr_list a = arr_list b)));
    [by apply arr_eq | by intros ->].
Defined.

(** The array holding [l], truncated or zero-padded to [n] bytes; every use
    is at a list of length [n]. *)
Lemma resize_len n (l : list byte) : (length (resize n zero l) =? n)%nat = true.
Proof. apply Nat.eqb_eq. apply length_resize. Qed.

Definition arr_of (n : nat) (l : list byte) : arr n := Arr (resize n zero l) (resize_len n l).

(** [std::array<Byte, N>{}]: all bytes zero. *)
Definition arr_zero (n : nat) : arr n := arr_of n [].

Lemma arr_of_list n l : length l = n → arr_list (arr_of n l) = l.
Proof. intros <-. apply resize_all. Qed.

Lemma arr_of_arr_list {n} (a : arr n) : arr_of n (arr_list a) = a.
Proof. apply arr_eq. apply arr_of_list, arr_length. Qed.

Lemma arr_of_inj n l k : length l = n → length k = n → arr_of n l = arr_of n k → l = k.
Proof. intros Hl Hk H. rewrite <- (arr_of_list n l), <- (arr_of_list n k) by done. by rewrite H. Qed.

#[export] Instance arr_countable n : Countable (arr n).
Proof.
  apply (inj_countable' arr_list (arr_of n)). intros a. apply arr_of_arr_list.
Defined.

#[export] Hint Rewrite @arr_of_arr_list : txchain.

(** Byte literals, as the C++ initialisers [{0x62, 0x5c, ...}]. *)
Definition arr_lit (n : nat) (l : list Z) : arr n := arr_of n (Z_to_byte <$> l).

(** ** Big-endian integers *)

Definition be_decode (l : list byte) : Z := foldl (λ v b, v * 256 + byte_to_Z b) 0 l.

Fixpoint be_encode (n : nat) (v : Z) : list byte :=
  match n with
  | O => []
  | S m => be_encode m (v / 256) ++ [Z_to_byte v]
  end.

Lemma length_be_encode n v : length (be_encode n v) = n.
Proof. revert v; induction n as [|n IH]; intros v; simpl; [done|]. rewrite length_app, IH. simpl; lia. Qed.

Lemma be_decode_snoc l b : be_decode (l ++ [b]) = be_decode l * 256 + byte_to_Z b.
Proof. unfold be_decode. by rewrite foldl_app. Qed.

Lemma pow256_S n : 256 ^ Z.of_nat (S n) = 256 * 256 ^ Z.of_nat n.
Proof. rewrite Nat2Z.inj_succ, Z.pow_succ_r by lia. done. Qed.

Lemma be_decode_range l : 0 <= be_decode l < 256 ^ Z.of_nat (length l).
Proof.
  induction l as [|b l IH] using rev_ind; [done|].
  rewrite be_decode_snoc, length_app, Nat.add_1_r, pow256_S.
  pose proof (byte_to_Z_range b). lia.
Qed.

Lemma be_decode_encode n v : be_decode (be_encode n v) = v mod 256 ^ Z.of_nat n.
Proof.
  revert v; induction n as [|n IH]; intros v; [by rewrite Z.mod_1_r|].
  cbn [be_encode]. rewrite be_decode_snoc, IH, pow256_S, byte_to_Z_to_byte.
  rewrite Z.rem_mul_r by lia. lia.
Qed.

Lemma be_encode_decode l : be_encode (length l) (be_decode l) = l.
Proof.
  induction l as [|b l IH] using rev_ind; [done|].
  rewrite length_app, Nat.add_1_r. cbn [be_encode]. rewrite be_decode_snoc.
  pose proof (byte_to_Z_range b).
  rewrite Z.div_add_l, (Z.div_small (byte_to_Z b)), Z.add_0_r, IH by lia. f_equal. f_equal.
  rewrite <- Z_to_byte_mod, Z.add_comm, Z_mod_plus_full, Z_to_byte_mod.
  apply Z_to_byte_to_Z.
Qed.

Lemma be_decode_inj l k : length l = length k → be_decode l = be_decode k → l = k.
Proof. intros Hn H. rewrite <- (be_encode_decode l), <- (be_encode_decode k). by rewrite Hn, H. Qed.

(** ** Lists *)

Lemma take_app_exact {A} (l k : list A) n : n = length l → take n (l ++ k) = l.
Proof. intros ->. apply take_app_length. Qed.

Lemma drop_app_exact {A} (l k : list A) n : n = length l → drop n (l ++ k) = k.
Proof. intros ->. apply drop_app_length. Qed.

Lemma app_inj_len {A} (a b c d : list A) : length a = length c → a ++ b = c ++ d → a = c ∧ b = d.
Proof. intros. by apply app_inj_1. Qed.

(** ** Text

    [std::string] is a list of bytes; [txt] turns a literal into one. *)

Definition txt (s : string) : list byte := list_ascii_of_string s.
Definition quote : byte := Z_to_byte 34.
Definition quoted (s : list byte) : list byte := [quote] ++ s ++ [quote].

(** [std::to_string] of an unsigned integer: decimal digits, most
    significant first.  Forty digits cover every [unsigned __int128]. *)
Definition digit (d : Z) : byte := Z_to_byte (48 + d).

Fixpoint dec_digits (fuel : nat) (z : Z) : list byte :=
  match fuel with
  | O => []
  | S f => if z <? 10 then [digit z] else dec_digits f (z / 10) ++ [digit (z mod 10)]
  end.

Definition to_string (z : Z) : list byte := dec_digits 40 z.

(** The value of a run of decimal digits. *)
Definition dec_value (l : list byte) : Z := foldl (λ v b, v * 10 + (byte_to_Z b - 48)) 0 l.

Definition is_digit (b : byte) : bool := (48 <=? byte_to_Z b) && (byte_to_Z b <=? 57).

Lemma digit_to_Z d : 0 <= d < 10 → byte_to_Z (digit d) = 48 + d.
Proof. intros. unfold digit. rewrite byte_to_Z_to_byte. apply Z.mod_small. lia. Qed.

Lemma digit_is_digit d : 0 <= d < 10 → is_digit (digit d) = true.
Proof. intros. unfold is_digit. rewrite digit_to_Z by done. lia. Qed.

Lemma dec_digits_value fuel z :
  0 <= z < 10 ^ Z.of_nat fuel → dec_value (dec_digits fuel z) = z.
Proof.
  revert z; induction fuel as [|f IH]; intros z Hz; [simpl in *; cbn; lia|].
  rewrite Nat2Z.inj_succ, Z.pow_succ_r in Hz by lia. cbn [dec_digits].
  destruct (Z.ltb_spec z 10) as [Hlt|Hge].
  - unfold dec_value. cbn [foldl]. rewrite digit_to_Z by lia. lia.
  - unfold dec_value in *. rewrite foldl_app. cbn [foldl].
    rewrite IH by (split; [apply Z.div_pos; lia | apply Z.div_lt_upper_bound; lia]).
    pose proof (Z.mod_pos_bound z 10 eq_refl).
    rewrite digit_to_Z by lia. pose proof (Z.div_mod z 10). lia.
Qed.

Lemma dec_digits_digits fuel z : 0 <= z → Forall (λ b, is_digit b = true) (dec_digits fuel z).
Proof.
  revert z; induction fuel as [|f IH]; intros z Hz; simpl; [constructor|].
  destruct (Z.ltb_spec z 10).
  - repeat constructor. apply digit_is_digit. lia.
  - apply Forall_app. split; [apply IH, Z.div_pos; lia|].
    repeat constructor. apply digit_is_digit, Z.mod_pos_bound. lia.
Qed.

Lemma to_string_digits z : 0 <= z → Forall (λ b, is_digit b = true) (to_string z).
Proof. apply dec_digits_digits. Qed.

Lemma to_string_length z : (length (to_string z) ≤ 40)%nat.
Proof.
  unfold to_string. generalize 40%nat. intros n. revert z. induction n as [|n IH]; intros z; cbn [dec_digits]; [done|].
  destruct (_ <? _); cbn [length]; [lia|]. rewrite length_app. cbn [length]. specialize (IH (z / 10)). lia.
Qed.

Lemma to_string_value z : 0 <= z < 2 ^ 128 → dec_value (to_string z) = z.
Proof. intros. apply dec_digits_value. change (10 ^ Z.of_nat 40) with 10000000000000000000000000000000000000000.  lia. Qed.

Lemma dec_fold_grows v l :
  0 <= v → Forall (λ c, is_digit c = true) l → v <= foldl (λ v b, v * 10 + (byte_to_Z b - 48)) v l.
Proof.
  intros Hv Hl. revert v Hv. induction Hl as [|c l Hc _ IH]; intros v Hv; cbn [foldl]; [lia|].
  unfold is_digit in Hc. reflect_bools. etransitivity; [|apply IH]; lia.
Qed.

Lemma dec_value_digits l : Forall (λ c, is_digit c = true) l → 0 <= dec_value l.
Proof. by apply dec_fold_grows. Qed.

(** Cutting digits off the end of a number makes it no larger. *)
Lemma dec_value_prefix l k :
  Forall (λ c, is_digit c = true) l → Forall (λ c, is_digit c = true) k → 0 <= dec_value l <= dec_value (l ++ k).
Proof.
  intros Hl Hk. pose proof (dec_value_digits l Hl) as H0. split; [done|].
  unfold dec_value in *. rewrite foldl_app. by apply dec_fold_grows.
Qed.

Lemma to_string_nonempty z : to_string z ≠ [].
Proof.
  unfold to_string. cbn [dec_digits]. destruct (z <? 10); [done|].
  by intros [? ?]%app_eq_nil.
Qed.

Lemma to_string_inj a b : 0 <= a < 2 ^ 128 → 0 <= b < 2 ^ 128 → to_string a = to_string b → a = b.
Proof. intros Ha Hb H. rewrite <- (to_string_value a), <- (to_string_value b) by done. by rewrite H. Qed.

(** ** Bit operations *)

Lemma testbit_above b n i : 0 <= b < 2 ^ n → 0 <= n <= i → Z.testbit b i = false.
Proof.
  intros Hb Hi. rewrite <- (Z.mod_small b (2 ^ n)) by done. by apply Z.mod_pow2_bits_high.
Qed.

(** Or-ing a value into freshly shifted-in zero bits is addition. *)
Lemma lor_shiftl_add v n b : 0 <= n → 0 <= b < 2 ^ n → Z.lor (Z.shiftl v n) b = v * 2 ^ n + b.
Proof.
  intros Hn Hb. rewrite <- Z.shiftl_mul_pow2, <- Z.add_lor_land by done.
  replace (Z.land (Z.shiftl v n) b) with 0; [lia|].
  symmetry. apply Z.bits_inj'. intros i Hi. rewrite Z.land_spec, Z.bits_0.
  destruct (Z.lt_ge_cases i n).
  - by rewrite Z.shiftl_spec_low.
  - by rewrite (testbit_above b n i), andb_false_r by lia.
Qed.

Lemma lor_byte v b : Z.lor (Z.shiftl v 8) (byte_to_Z b) = v * 256 + byte_to_Z b.
Proof. apply lor_shiftl_add; [done|]. apply byte_to_Z_range. Qed.

(** ** Lists: filters that keep everything, or nothing *)

Lemma list_filter_all {A} (P : A → Prop) `{∀ x, Decision (P x)} (l : list A) :
  (∀ x, x ∈ l → P x) → filter P l = l.
Proof.
  induction l as [|x l IH]; intros Hl; [done|].
  rewrite filter_cons_True by (apply Hl; left). by rewrite IH by (intros; apply Hl; by right).
Qed.

Lemma list_filter_none {A} (P : A → Prop) `{∀ x, Decision (P x)} (l : list A) :
  (∀ x, x ∈ l → ¬ P x) → filter P l = [].
Proof.
  induction l as [|x l IH]; intros Hl; [done|].
  rewrite filter_cons_False by (apply Hl; left). by rewrite IH by (intros; apply Hl; by right).
Qed.
