(* ===== verification/Text.v ===== *)
(** Text operations of the C and C++ standard libraries that several
    components share: substring search, the [strto*] conversions, and
    extraction from a string stream.  Characters are classified as in the
    "C" locale. *)

From Stdlib Require Import ZArith Lia Ascii String.
From stdpp Require Import base list strings.
From S2P Require Import Prelude.

(** ** [std::string::find], [substr] *)

Fixpoint is_prefix (p l : list byte) : bool :=
  match p, l with
  | [], _ => true
  | _, [] => false
  | a :: p, b :: l => bool_decide (a = b) && is_prefix p l
  end.

(** The first position of [p] in [l]; [None] is [npos]. *)
Fixpoint find (p l : list byte) : option nat :=
  if is_prefix p l then Some 0%nat
  else match l with [] => None | _ :: l => S <$> find p l end.

(** ** Numbers *)

(** [std::isspace]. *)
Definition is_space (c : byte) : bool :=
  let z := byte_to_Z c in (z =? 32) || ((9 <=? z) && (z <=? 13)).

(** [std::tolower]. *)
Definition to_lower (c : byte) : byte :=
  let z := byte_to_Z c in if (65 <=? z) && (z <=? 90) then Z_to_byte (z + 32) else c.

Fixpoint skip_space (l : list byte) : list byte :=
  match l with [] => [] | c :: l' => if is_space c then skip_space l' else l end.

(** The longest run of bytes satisfying [f], and the rest. *)
Fixpoint span (f : byte → bool) (l : list byte) : list byte * list byte :=
  match l with
  | [] => ([], [])
  | c :: l' => if f c then let '(a, b) := span f l' in (c :: a, b) else ([], l)
  end.

(** An optional sign: whether it is a minus, and the rest. *)
Definition sign_of (l : list byte) : bool * list byte :=
  match l with
  | c :: l' =>
      if byte_to_Z c =? 45 then (true, l') else if byte_to_Z c =? 43 then (false, l') else (false, l)
  | [] => (false, [])
  end.

Definition LONG_MAX : Z := 2 ^ 63 - 1.
Definition LONG_MIN : Z := - 2 ^ 63.
Definition ULLONG_MAX : Z := 2 ^ 64 - 1.

(** [strtol(s, nullptr, 10)]: 0 without digits, saturated out of range. *)
Definition strtol (s : list byte) : Z :=
  let '(neg, l) := sign_of (skip_space s) in
  let v := dec_value (span is_digit l).1 in
  if neg then Z.max LONG_MIN (- v) else Z.min LONG_MAX v.

(** [strtoull(s, nullptr, 10)] and, [unsigned long] being 64 bits wide,
    [strtoul]: a minus sign negates modulo 2^64. *)
Definition strtoull (s : list byte) : Z :=
  let '(neg, l) := sign_of (skip_space s) in
  let v := dec_value (span is_digit l).1 in
  if ULLONG_MAX <? v then ULLONG_MAX else if neg then u64 (- v) else v.

(** Conversions to [int] and [unsigned]. *)
Definition to_int (z : Z) : Z := (z + 2 ^ 31) mod 2 ^ 32 - 2 ^ 31.
Definition to_unsigned (z : Z) : Z := z mod 2 ^ 32.
(** Conversion to [long]. *)
Definition to_long (z : Z) : Z := (z + 2 ^ 63) mod 2 ^ 64 - 2 ^ 63.

Definition atoi (s : list byte) : Z := to_int (strtol s).

(** [operator<<] and [std::to_string] of a signed integer. *)
Definition signed_to_string (z : Z) : list byte :=
  if z <? 0 then Z_to_byte 45 :: to_string (- z) else to_string z.

(** ** String streams *)

(** [is >> word]: skip white space, take up to the next; fails at the end. *)
Definition read_word (l : list byte) : option (list byte * list byte) :=
  match span (λ c, negb (is_space c)) (skip_space l) with
  | ([], _) => None
  | (w, rest) => Some (w, rest)
  end.

(** [is >> n] of a [long]: fails without digits and out of range. *)
Definition read_long (l : list byte) : option (Z * list byte) :=
  let '(neg, l) := sign_of (skip_space l) in
  match span is_digit l with
  | ([], _) => None
  | (ds, rest) =>
      let v := if neg then - dec_value ds else dec_value ds in
      if (LONG_MIN <=? v) && (v <=? LONG_MAX) then Some (v, rest) else None
  end.

(** A byte buffer as a C string: up to its first zero byte. *)
Definition c_str (l : list byte) : list byte := (span (λ c, negb (byte_to_Z c =? 0)) l).1.

Definition newline : byte := Z_to_byte 10.
Definition space : byte := Z_to_byte 32.

(** The lines [std::getline] yields; [cur] is the line being read. *)
Fixpoint getlines (cur l : list byte) : list (list byte) :=
  match l with
  | [] => match cur with [] => [] | _ => [cur] end
  | c :: l => if bool_decide (c = newline) then cur :: getlines [] l else getlines (cur ++ [c]) l
  end.

(** ** Lemmas *)

Lemma getlines_app cur s rest :
  newline ∉ s → getlines cur (s ++ newline :: rest) = (cur ++ s) :: getlines [] rest.
Proof.
  revert cur. induction s as [|c s IH]; intros cur Hs; cbn [app getlines].
  - by rewrite bool_decide_eq_true_2, app_nil_r.
  - rewrite not_elem_of_cons in Hs. destruct Hs as [Hc Hs].
    rewrite bool_decide_eq_false_2 by done. rewrite IH by done. by rewrite <- app_assoc.
Qed.

Lemma getlines_end cur s : newline ∉ s → cur ++ s ≠ [] → getlines cur s = [cur ++ s].
Proof.
  revert cur. induction s as [|c s IH]; intros cur Hs Hn; cbn [getlines].
  - rewrite app_nil_r in *. by destruct cur.
  - rewrite not_elem_of_cons in Hs. destruct Hs as [Hc Hs]. rewrite bool_decide_eq_false_2 by done.
    rewrite IH, <- app_assoc; [done|done|by destruct cur].
Qed.

Lemma is_prefix_spec p l : is_prefix p l = true ↔ ∃ k, l = p ++ k.
Proof.
  revert l. induction p as [|a p IH]; intros l; cbn [is_prefix app]; [split; [by exists l|done]|].
  destruct l as [|b l]; [split; [done|by intros [k [=]]]|].
  rewrite andb_true_iff, bool_decide_eq_true, IH. split.
  - intros [-> [k ->]]. by exists k.
  - intros [k [= -> ->]]. split; [done|by exists k].
Qed.

Lemma is_prefix_app p k : is_prefix p (p ++ k) = true.
Proof. apply is_prefix_spec. by exists k. Qed.

Lemma find_here p l : find p (p ++ l) = Some 0%nat.
Proof. destruct p as [|a p]; [by destruct l|]. change ((a :: p) ++ l) with (a :: p ++ l). cbn [find].
  change (a :: p ++ l) with ((a :: p) ++ l) at 1. by rewrite is_prefix_app.
Qed.

(** Positions that cannot start a match are skipped. *)
Lemma find_skip c p l k :
  c ∉ l → find (c :: p) (l ++ k) = Nat.add (length l) <$> find (c :: p) k.
Proof.
  induction l as [|a l IH]; intros Hc; cbn [app length]; [by destruct (find _ k)|].
  apply not_elem_of_cons in Hc as [Ha Hc]. cbn [find is_prefix].
  rewrite bool_decide_eq_false_2 by done. cbn [andb]. rewrite IH by done. by destruct (find _ k).
Qed.

Lemma find_char_app c l k : c ∉ l → find [c] (l ++ c :: k) = Some (length l).
Proof. intros Hc. rewrite find_skip by done. change (c :: k) with ([c] ++ k). rewrite find_here. cbn. by rewrite Nat.add_0_r. Qed.

Lemma find_char_none c l : c ∉ l → find [c] l = None.
Proof. intros Hc. rewrite <- (app_nil_r l). by rewrite find_skip. Qed.

(** A text without an occurrence, then a byte the pattern does not contain. *)
Lemma find_sep p sep u k :
  p ≠ [] → sep ∉ p → find p u = None →
  find p (u ++ sep :: k) = Nat.add (S (length u)) <$> find p k.
Proof.
  intros Hp Hs. induction u as [|a u IH]; intros Hu; cbn [app length].
  - destruct p as [|b p]; [done|]. cbn [find is_prefix].
    rewrite bool_decide_eq_false_2 by (intros ->; apply Hs; left). cbn [andb]. by destruct (find _ k).
  - cbn [find] in *. destruct (is_prefix p (a :: u)) eqn:E; [done|].
    assert (is_prefix p (a :: u ++ sep :: k) = false) as ->.
    { apply not_true_iff_false. intros (q & Hq)%is_prefix_spec. apply not_true_iff_false in E. apply E.
      apply is_prefix_spec. destruct (decide (length p ≤ length (a :: u))%nat) as [Hle|Hgt].
      - exists (drop (length p) (a :: u)). rewrite <- (take_drop (length p) (a :: u)) at 1. f_equal.
        apply (f_equal (take (length p))) in Hq.
        change (a :: u ++ sep :: k) with ((a :: u) ++ sep :: k) in Hq.
        by rewrite take_app_le, take_app_length in Hq by done.
      - exfalso. apply Hs. apply list_elem_of_lookup. exists (length (a :: u)).
        apply (f_equal (λ l, l !! length (a :: u))) in Hq.
        change (a :: u ++ sep :: k) with ((a :: u) ++ sep :: k) in Hq.
        rewrite lookup_app_r, Nat.sub_diag in Hq by done. rewrite lookup_app_l in Hq by lia. done. }
    destruct (find p u) as [n|]; [done|]. rewrite IH by done. by destruct (find p k).
Qed.

(** A pattern containing [c] does not occur in a text without it. *)
Lemma find_none_char c p l : c ∈ p → c ∉ l → find p l = None.
Proof.
  intros Hp. induction l as [|a l IH]; intros Hl; cbn [find].
  - destruct p; [by apply not_elem_of_nil in Hp|done].
  - destruct (is_prefix p (a :: l)) eqn:E.
    + apply is_prefix_spec in E as [k Ek]. exfalso. apply Hl. rewrite Ek. apply elem_of_app. by left.
    + rewrite IH; [done|]. intros H. apply Hl. by right.
Qed.

Lemma span_all f l k :
  Forall (λ c, f c = true) l → match k with c :: _ => f c = false | [] => True end → span f (l ++ k) = (l, k).
Proof.
  intros Hl Hk. induction Hl as [|c l Hc _ IH]; cbn [app span]; [by destruct k as [|c k]; cbn; [|rewrite Hk]|].
  by rewrite Hc, IH.
Qed.

Lemma is_prefix_length p l : is_prefix p l = true → (length p ≤ length l)%nat.
Proof. intros [k ->]%is_prefix_spec. rewrite length_app. lia. Qed.

Lemma is_prefix_extend p l k : (length p ≤ length l)%nat → is_prefix p (l ++ k) = is_prefix p l.
Proof.
  revert l. induction p as [|a p IH]; intros l Hl; [done|]. destruct l as [|b l]; cbn [length] in Hl; [lia|].
  cbn [app is_prefix]. by rewrite IH by lia.
Qed.

(** [find] gives the first position where the pattern is a prefix of the rest. *)
Lemma find_spec p l n :
  find p l = Some n ↔
  is_prefix p (drop n l) = true ∧ ∀ m, (m < n)%nat → is_prefix p (drop m l) = false.
Proof.
  revert n. induction l as [|c l IH]; intros n; cbn [find].
  - destruct p as [|a p]; cbn [is_prefix].
    + split; [intros [= <-]; split; [done|lia]|]. intros [_ Hm]. destruct n as [|n]; [done|].
      by specialize (Hm 0%nat ltac:(lia)).
    + split; [done|]. by rewrite drop_nil; intros [].
  - destruct (is_prefix p (c :: l)) eqn:E.
    + split; [intros [= <-]; split; [done|lia]|]. intros [_ Hm]. destruct n as [|n]; [done|].
      specialize (Hm 0%nat ltac:(lia)). cbn [drop] in Hm. congruence.
    + destruct n as [|n]; cbn [drop].
      * split; [destruct (find p l); by intros [=]|]. intros [Hp _]. congruence.
      * transitivity (find p l = Some n).
        { destruct (find p l); cbn; split; congruence. }
        rewrite IH. split; intros [Hp Hm]; (split; [done|]).
        -- intros [|m] Hlt; [done|]. apply Hm. lia.
        -- intros m Hlt. apply (Hm (S m)). lia.
Qed.

Lemma find_extend p l k n : find p l = Some n → find p (l ++ k) = Some n.
Proof.
  rewrite !find_spec. intros [Hp Hm]. pose proof (is_prefix_length _ _ Hp) as Hlen. rewrite length_drop in Hlen.
  destruct p as [|a p]; [destruct n as [|n]; [done|by specialize (Hm 0%nat ltac:(lia))]|]. cbn [length] in Hlen.
  split.
  - rewrite drop_app_le, is_prefix_extend by (rewrite ?length_drop; cbn [length]; lia). done.
  - intros m Hlt. rewrite drop_app_le, is_prefix_extend by (rewrite ?length_drop; cbn [length]; lia). by apply Hm.
Qed.

(** A text no occurrence of [p] starts in, whatever follows it. *)
Definition skips (p l : list byte) : Prop := ∀ k, find p (l ++ k) = Nat.add (length l) <$> find p k.

Lemma skips_app p l l' : skips p l → skips p l' → skips p (l ++ l').
Proof.
  intros H1 H2 k. rewrite <- app_assoc, H1, H2, length_app.
  destruct (find p k); cbn; [f_equal; lia|done].
Qed.

Lemma skips_nil p : skips p [].
Proof. intros k. cbn [app length]. destruct (find p k); done. Qed.

Lemma skips_head c p l : c ∉ l → skips (c :: p) l.
Proof. intros Hc k. by apply find_skip. Qed.

Lemma skips_sep p sep u : p ≠ [] → sep ∉ p → find p u = None → skips p (u ++ [sep]).
Proof.
  intros Hp Hs Hu k. rewrite <- app_assoc. cbn [app]. rewrite find_sep by done.
  rewrite length_app. cbn [length]. by rewrite Nat.add_1_r.
Qed.

(** The first occurrence after a skipped text. *)
Lemma skips_find p l k : skips p l → find p (l ++ p ++ k) = Some (length l).
Proof. intros Hl. rewrite Hl, find_here. cbn. by rewrite Nat.add_0_r. Qed.

Lemma strtoull_range s : u64_ok (strtoull s).
Proof.
  unfold strtoull. destruct (sign_of _) as [neg l]. pose proof (dec_value_digits (span is_digit l).1) as Hd.
  assert (0 <= dec_value (span is_digit l).1) as Hv.
  { apply Hd. clear Hd. induction l as [|c l IH]; [constructor|]. cbn [span]. destruct (is_digit c) eqn:Ec; [|constructor].
    destruct (span is_digit l) as [a b]. by constructor. }
  unfold u64_ok, ULLONG_MAX. case_match; [done|]. destruct neg; [|lia]. apply u64_range.
Qed.

Lemma c_str_id l : Z_to_byte 0 ∉ l → c_str l = l.
Proof.
  intros Hl. unfold c_str. rewrite <- (app_nil_r l), span_all; [by rewrite app_nil_r| |done].
  apply Forall_forall. intros c Hc. apply negb_true_iff, Z.eqb_neq. intros Hz. apply Hl.
  by rewrite <- Hz, Z_to_byte_to_Z.
Qed.
