(* ===== verification/Sha256.v ===== *)
(** SHA-256: the vendored C implementation ([third_party/sha256/sha256.c]), its
    FIPS 180-4 specification, and the [crypto] facade over it
    ([src/crypto/sha256.cpp]).

    [SHA256_CTX] is a record; [sha256_init], [sha256_update] and
    [sha256_final] are state transformers on it, the 64-byte buffer being
    updated by index as in the C code.  [Spec] is FIPS 180-4 written from the
    standard, sharing no definition with the implementation: arithmetic
    rotations, bit-by-bit choice, majority and parity, constants computed from
    the primes, the schedule's recurrence, blocks and digest as big-endian
    numerals.  The facade is stated over the interface [HashFn] (a context
    type with init, update and final), which the ledger is built on; the
    vendored code is the instance [vendored_sha256]. *)

From Stdlib Require Import ZArith Lia Ascii.
From stdpp Require Import base list list_numbers.
From S2P Require Import Prelude.

(** ** The interface the ledger uses *)

(** The three C entry points of a streaming hash with 32-byte digests. *)
Class HashFn := {
  hctx : Type;
  hash_init : hctx;
  hash_update : hctx → list byte → hctx;
  hash_final : hctx → arr 32
}.

(** What the facade promises to its clients: absorbing chunks one by one is
    absorbing their concatenation. *)
Class HashLaws (H : HashFn) : Prop := {
  hash_update_nil c : hash_update c [] = c;
  hash_update_app c a b : hash_update (hash_update c a) b = hash_update c (a ++ b)
}.

(** ** Facade: [txchain::crypto] *)

Module Facade.
Section facade.
Context {H : HashFn}.

(** [Digest32 sha256(ByteView data)]. *)
Definition sha256 (data : list byte) : arr 32 :=
  let c := hash_init in
  let c := if (length data =? 0)%nat then c else hash_update c data in
  hash_final c.

(** [class Sha256]: the constructor, [update] and [final]. *)
Definition Sha256_new : hctx := hash_init.
Definition Sha256_update (ctx : hctx) (chunk : list byte) : hctx :=
  if (length chunk =? 0)%nat then ctx else hash_update ctx chunk.
Definition Sha256_final (ctx : hctx) : arr 32 := hash_final ctx.

Definition sha256d (data : list byte) : arr 32 := sha256 (arr_list (sha256 data)).

Context {L : HashLaws H}.

Lemma Sha256_update_eq c a : Sha256_update c a = hash_update c a.
Proof.
  unfold Sha256_update. destruct a; [by rewrite hash_update_nil | reflexivity].
Qed.

Lemma sha256_eq data : sha256 data = hash_final (hash_update hash_init data).
Proof. rewrite <- Sha256_update_eq. unfold sha256, Sha256_update. by destruct (_ =? _)%nat. Qed.

Lemma foldl_update c chunks : foldl Sha256_update c chunks = hash_update c (concat chunks).
Proof.
  revert c; induction chunks as [|a l IH]; intros c; simpl; [by rewrite hash_update_nil|].
  by rewrite IH, Sha256_update_eq, hash_update_app.
Qed.

(** Streaming over any chunking is the one-shot hash of the concatenation. *)
Lemma streaming_is_oneshot chunks :
  Sha256_final (foldl Sha256_update Sha256_new chunks) = sha256 (concat chunks).
Proof. unfold Sha256_final, Sha256_new. by rewrite foldl_update, sha256_eq. Qed.
End facade.
End Facade.

(** ** The vendored implementation *)

Definition u32 (z : Z) : Z := z mod 2 ^ 32.

(** [uint32_t state[8]]. *)
Record hstate := HState { s0 : Z; s1 : Z; s2 : Z; s3 : Z; s4 : Z; s5 : Z; s6 : Z; s7 : Z }.

Record SHA256_CTX := Ctx {
  data : list byte;     (* uint8_t data[64] *)
  datalen : nat;        (* uint32_t *)
  bitlen : Z;           (* uint64_t *)
  state : hstate
}.

Definition ROTRIGHT (a b : Z) : Z := Z.lor (Z.shiftr a b) (u32 (Z.shiftl a (32 - b))).
Definition CH (x y z : Z) : Z := Z.lxor (Z.land x y) (Z.land (u32 (Z.lnot x)) z).
Definition MAJ (x y z : Z) : Z := Z.lxor (Z.lxor (Z.land x y) (Z.land x z)) (Z.land y z).
Definition EP0 (x : Z) : Z := Z.lxor (Z.lxor (ROTRIGHT x 2) (ROTRIGHT x 13)) (ROTRIGHT x 22).
Definition EP1 (x : Z) : Z := Z.lxor (Z.lxor (ROTRIGHT x 6) (ROTRIGHT x 11)) (ROTRIGHT x 25).
Definition SIG0 (x : Z) : Z := Z.lxor (Z.lxor (ROTRIGHT x 7) (ROTRIGHT x 18)) (Z.shiftr x 3).
Definition SIG1 (x : Z) : Z := Z.lxor (Z.lxor (ROTRIGHT x 17) (ROTRIGHT x 19)) (Z.shiftr x 10).

(** [static const uint32_t k[64]]. *)
Definition k : list Z := [
  0x428A2F98; 0x71374491; 0xB5C0FBCF; 0xE9B5DBA5; 0x3956C25B; 0x59F111F1; 0x923F82A4; 0xAB1C5ED5;
  0xD807AA98; 0x12835B01; 0x243185BE; 0x550C7DC3; 0x72BE5D74; 0x80DEB1FE; 0x9BDC06A7; 0xC19BF174;
  0xE49B69C1; 0xEFBE4786; 0x0FC19DC6; 0x240CA1CC; 0x2DE92C6F; 0x4A7484AA; 0x5CB0A9DC; 0x76F988DA;
  0x983E5152; 0xA831C66D; 0xB00327C8; 0xBF597FC7; 0xC6E00BF3; 0xD5A79147; 0x06CA6351; 0x14292967;
  0x27B70A85; 0x2E1B2138; 0x4D2C6DFC; 0x53380D13; 0x650A7354; 0x766A0ABB; 0x81C2C92E; 0x92722C85;
  0xA2BFE8A1; 0xA81A664B; 0xC24B8B70; 0xC76C51A3; 0xD192E819; 0xD6990624; 0xF40E3585; 0x106AA070;
  0x19A4C116; 0x1E376C08; 0x2748774C; 0x34B0BCB5; 0x391C0CB3; 0x4ED8AA4A; 0x5B9CCA4F; 0x682E6FF3;
  0x748F82EE; 0x78A5636F; 0x84C87814; 0x8CC70208; 0x90BEFFFA; 0xA4506CEB; 0xBEF9A3F7; 0xC67178F2 ].

(** The message schedule: [m[0..15]] from the big-endian block, then
    [m[16..63]] from the four earlier words, each loop one recursion. *)
Definition load_word (d : list byte) (j : nat) : Z :=
  let at_ i := byte_to_Z (nth i d zero) in
  Z.lor (Z.lor (Z.lor (Z.shiftl (at_ j) 24) (Z.shiftl (at_ (j + 1)%nat) 16))
               (Z.shiftl (at_ (j + 2)%nat) 8)) (at_ (j + 3)%nat).

Fixpoint extend (n : nat) (m : list Z) : list Z :=
  match n with
  | O => m
  | S n' =>
      let i := length m in
      let at_ j := nth (i - j) m 0 in
      extend n' (m ++ [u32 (SIG1 (at_ 2%nat) + at_ 7%nat + SIG0 (at_ 15%nat) + at_ 16%nat)])
  end.

Definition schedule (d : list byte) : list Z :=
  extend 48 (map (λ i, load_word d (4 * i)) (seq 0 16)).

(** One iteration of the 64-round loop. *)
Definition round (s : hstate) (km : Z * Z) : hstate :=
  let '(HState a b c d e f g h) := s in
  let t1 := u32 (h + EP1 e + CH e f g + fst km + snd km) in
  let t2 := u32 (EP0 a + MAJ a b c) in
  HState (u32 (t1 + t2)) a b c (u32 (d + t1)) e f g.

Definition add_state (x y : hstate) : hstate :=
  HState (u32 (s0 x + s0 y)) (u32 (s1 x + s1 y)) (u32 (s2 x + s2 y)) (u32 (s3 x + s3 y))
         (u32 (s4 x + s4 y)) (u32 (s5 x + s5 y)) (u32 (s6 x + s6 y)) (u32 (s7 x + s7 y)).

(** [sha256_transform] on the state alone. *)
Definition compress (s : hstate) (d : list byte) : hstate :=
  add_state s (foldl round s (zip k (schedule d))).

Definition sha256_transform (ctx : SHA256_CTX) (d : list byte) : SHA256_CTX :=
  Ctx (data ctx) (datalen ctx) (bitlen ctx) (compress (state ctx) d).

Definition H0 : hstate :=
  HState 0x6A09E667 0xBB67AE85 0x3C6EF372 0xA54FF53A 0x510E527F 0x9B05688C 0x1F83D9AB 0x5BE0CD19.

(** [sha256_init] leaves the buffer as it finds it (indeterminate memory). *)
Definition sha256_init (buf : list byte) : SHA256_CTX := Ctx buf 0 0 H0.

(** The body of the [sha256_update] loop. *)
Definition update_byte (ctx : SHA256_CTX) (b : byte) : SHA256_CTX :=
  let ctx := Ctx (<[datalen ctx := b]> (data ctx)) (S (datalen ctx)) (bitlen ctx) (state ctx) in
  if (datalen ctx =? 64)%nat then
    let ctx := sha256_transform ctx (data ctx) in
    Ctx (data ctx) 0 (u64 (bitlen ctx + 512)) (state ctx)
  else ctx.

Definition sha256_update (ctx : SHA256_CTX) (bytes : list byte) : SHA256_CTX :=
  foldl update_byte ctx bytes.

(** [while (i < n) ctx->data[i++] = 0x00;] with [count = n - i]. *)
Fixpoint zero_from (d : list byte) (i count : nat) : list byte :=
  match count with
  | O => d
  | S c => zero_from (<[i := zero]> d) (S i) c
  end.

(** The eight stores of [bitlen] into [data[56..63]], most significant first. *)
Definition store_bitlen (d : list byte) (bl : Z) : list byte :=
  foldl (λ d i, <[(63 - i)%nat := Z_to_byte (Z.shiftr bl (8 * Z.of_nat i))]> d) d (seq 0 8).

Definition emit_word (w : Z) : list byte :=
  map (λ i, Z_to_byte (Z.land (Z.shiftr w (24 - Z.of_nat i * 8)) 0xFF)) (seq 0 4).

Definition emit (s : hstate) : list byte :=
  emit_word (s0 s) ++ emit_word (s1 s) ++ emit_word (s2 s) ++ emit_word (s3 s) ++
  emit_word (s4 s) ++ emit_word (s5 s) ++ emit_word (s6 s) ++ emit_word (s7 s).

Definition sha256_final (ctx : SHA256_CTX) : arr 32 :=
  let i := datalen ctx in
  let d := <[i := Z_to_byte 0x80]> (data ctx) in
  let ctx :=
    if (datalen ctx <? 56)%nat then
      Ctx (zero_from d (S i) (56 - S i)) (datalen ctx) (bitlen ctx) (state ctx)
    else
      let d := zero_from d (S i) (64 - S i) in
      let ctx := sha256_transform (Ctx d (datalen ctx) (bitlen ctx) (state ctx)) d in
      Ctx (zero_from (data ctx) 0 56) (datalen ctx) (bitlen ctx) (state ctx) in
  let bl := u64 (bitlen ctx + Z.of_nat (datalen ctx) * 8) in
  let ctx := Ctx (store_bitlen (data ctx) bl) (datalen ctx) bl (state ctx) in
  let ctx := sha256_transform ctx (data ctx) in
  arr_of 32 (emit (state ctx)).

#[export] Instance vendored_sha256 : HashFn := {|
  hctx := SHA256_CTX;
  hash_init := sha256_init (replicate 64 zero);
  hash_update := sha256_update;
  hash_final := sha256_final
|}.

(** ** Specification: FIPS 180-4 over whole messages

    Nothing of the implementation is used here: words are integers in
    [0, 2^32), the functions are given by what they do to the integer or to
    each bit, the constants are computed from the primes, and blocks are read
    and the digest is written through the big-endian numerals of Prelude. *)

Module Spec.
(** The word whose bit [i] is [f i], for [i < 32]. *)
Definition word_of_bits (f : Z → bool) : Z :=
  foldr (λ i w, 2 * w + Z.b2z (f (Z.of_nat i))) 0 (seq 0 32).

(** 3.2 and 4.1.2: rotation moves the low [n] bits to the top; a shift drops
    them; [Ch] chooses by the bits of [x], [Maj] takes the majority, and the
    sums are parities. *)
Definition SHR (n x : Z) : Z := x / 2 ^ n.
Definition ROTR (n x : Z) : Z := x / 2 ^ n + (x mod 2 ^ n) * 2 ^ (32 - n).
Definition Ch (x y z : Z) : Z :=
  word_of_bits (λ i, if Z.testbit x i then Z.testbit y i else Z.testbit z i).
Definition Maj (x y z : Z) : Z :=
  word_of_bits (λ i,
    2 <=? Z.b2z (Z.testbit x i) + Z.b2z (Z.testbit y i) + Z.b2z (Z.testbit z i)).
Definition parity (x y z : Z) : Z :=
  word_of_bits (λ i,
    Z.odd (Z.b2z (Z.testbit x i) + Z.b2z (Z.testbit y i) + Z.b2z (Z.testbit z i))).
Definition Sigma0 (x : Z) : Z := parity (ROTR 2 x) (ROTR 13 x) (ROTR 22 x).
Definition Sigma1 (x : Z) : Z := parity (ROTR 6 x) (ROTR 11 x) (ROTR 25 x).
Definition sigma0 (x : Z) : Z := parity (ROTR 7 x) (ROTR 18 x) (SHR 3 x).
Definition sigma1 (x : Z) : Z := parity (ROTR 17 x) (ROTR 19 x) (SHR 10 x).

(** 4.2.2 and 5.3.3: the first 32 bits of the fractional parts of the cube
    roots of the first 64 primes, and of the square roots of the first 8. *)
Definition is_prime (n : Z) : bool :=
  forallb (λ d, negb (n mod Z.of_nat d =? 0)) (seq 2 (Z.to_nat n - 2)).
Definition primes (n : nat) : list Z :=
  take n (filter (λ p, is_prime p = true) (Z.of_nat <$> seq 2 400)).

(** The integer [e]-th root of [x], below [2^40], one bit at a time. *)
Definition iroot (e x : Z) : Z :=
  foldl (λ r i, let r' := r + 2 ^ (39 - Z.of_nat i) in if r' ^ e <=? x then r' else r) 0 (seq 0 40).
Definition fraction32 (e p : Z) : Z := iroot e (p * 2 ^ (32 * e)) mod 2 ^ 32.
Definition K : list Z := fraction32 3 <$> primes 64.

(** The eight words of a hash value, and of the working variables. *)
Definition words : Type := Z * Z * Z * Z * Z * Z * Z * Z.
Definition H0 : words :=
  let h i := fraction32 2 (nth i (primes 8) 0) in
  (h 0%nat, h 1%nat, h 2%nat, h 3%nat, h 4%nat, h 5%nat, h 6%nat, h 7%nat).

(** 5.1.1: the [1] bit, the zero bits, and the 64-bit message length. *)
Definition pad (m : list byte) : list byte :=
  m ++ [Z_to_byte 0x80] ++ replicate ((119 - length m mod 64) mod 64)%nat zero ++
  be_encode 8 (8 * Z.of_nat (length m)).

(** 5.2.1: consecutive 64-byte blocks, and the sixteen words of a block. *)
Definition blocks (l : list byte) : list (list byte) :=
  reshape (replicate (length l / 64)%nat 64%nat) l.
Definition block_words (b : list byte) : list Z :=
  (λ t, be_decode (take 4 (drop (4 * t) b))) <$> seq 0 16.

(** 6.2.2, step 1: the message schedule [W_0 .. W_63]. *)
Definition next_W (w : list Z) (t : nat) : Z :=
  (sigma1 (nth (t - 2) w 0) + nth (t - 7) w 0 + sigma0 (nth (t - 15) w 0) +
   nth (t - 16) w 0) mod 2 ^ 32.
Definition W (b : list byte) : list Z :=
  foldl (λ w t, w ++ [next_W w t]) (block_words b) (seq 16 48).

(** Step 3 for one [t], steps 2 and 4 around it, and the digest. *)
Definition step (b : list byte) (v : words) (t : nat) : words :=
  let '(a, b', c, d, e, f, g, h) := v in
  let T1 := (h + Sigma1 e + Ch e f g + nth t K 0 + nth t (W b) 0) mod 2 ^ 32 in
  let T2 := (Sigma0 a + Maj a b' c) mod 2 ^ 32 in
  ((T1 + T2) mod 2 ^ 32, a, b', c, (d + T1) mod 2 ^ 32, e, f, g).
Definition hash_block (H : words) (b : list byte) : words :=
  let '(h0, h1, h2, h3, h4, h5, h6, h7) := H in
  let '(a, b', c, d, e, f, g, h) := foldl (step b) H (seq 0 64) in
  ((a + h0) mod 2 ^ 32, (b' + h1) mod 2 ^ 32, (c + h2) mod 2 ^ 32, (d + h3) mod 2 ^ 32,
   (e + h4) mod 2 ^ 32, (f + h5) mod 2 ^ 32, (g + h6) mod 2 ^ 32, (h + h7) mod 2 ^ 32).
Definition digest (H : words) : list byte :=
  let '(h0, h1, h2, h3, h4, h5, h6, h7) := H in
  concat (be_encode 4 <$> [h0; h1; h2; h3; h4; h5; h6; h7]).

Definition sha256 (m : list byte) : list byte :=
  digest (foldl hash_block H0 (blocks (pad m))).
End Spec.

(** *** The implementation's functions, words and constants are the
    specification's *)

(** The integer roots behind the constants are exact. *)
Definition root_exact (e p : Z) : bool :=
  let x := p * 2 ^ (32 * e) in
  (Spec.iroot e x ^ e <=? x) && (x <? (Spec.iroot e x + 1) ^ e).

Lemma roots_exact :
  forallb (root_exact 3) (Spec.primes 64) && forallb (root_exact 2) (Spec.primes 8) = true ∧
  length (Spec.primes 64) = 64%nat ∧ List.last (Spec.primes 64) 0 = 311.
Proof. by vm_compute. Qed.

Lemma K_eq : Spec.K = k.
Proof. by vm_compute. Qed.

Definition word (x : Z) : Prop := 0 <= x < 2 ^ 32.

Lemma word_u32 x : word (u32 x).
Proof. apply Z.mod_pos_bound. lia. Qed.

Lemma testbit_word x i : word x → 32 <= i → Z.testbit x i = false.
Proof. intros Hx Hi. apply (testbit_above x 32); [exact Hx|lia]. Qed.

Lemma word_bits f n s :
  0 <= foldr (λ i w, 2 * w + Z.b2z (f (Z.of_nat i))) 0 (seq s n) < 2 ^ Z.of_nat n ∧
  ∀ i, (i < n)%nat →
    Z.testbit (foldr (λ i w, 2 * w + Z.b2z (f (Z.of_nat i))) 0 (seq s n)) (Z.of_nat i) =
    f (Z.of_nat (s + i)).
Proof.
  revert s; induction n as [|n IH]; intros s; [split; [done|lia]|].
  cbn [seq foldr]. destruct (IH (S s)) as [Hr Hb]. split.
  - rewrite Nat2Z.inj_succ, Z.pow_succ_r by lia. destruct (f (Z.of_nat s)); cbn [Z.b2z]; lia.
  - intros [|i] Hi; [by rewrite Z.testbit_0_r, Nat.add_0_r|].
    rewrite Nat2Z.inj_succ, Z.testbit_succ_r, Hb by lia. do 2 f_equal. lia.
Qed.

Lemma word_of_bits_word f : word (Spec.word_of_bits f).
Proof. exact (proj1 (word_bits f 32 0)). Qed.

Lemma testbit_word_of_bits f i : 0 <= i < 32 → Z.testbit (Spec.word_of_bits f) i = f i.
Proof.
  intros Hi. rewrite <- (Z2Nat.id i) by lia.
  rewrite (proj2 (word_bits f 32 0)) by lia. done.
Qed.

(** Two words with the same 32 bits are equal. *)
Lemma word_eq x y :
  word x → word y → (∀ i, 0 <= i < 32 → Z.testbit x i = Z.testbit y i) → x = y.
Proof.
  intros Hx Hy H. apply Z.bits_inj'. intros i Hi.
  destruct (decide (i < 32)); [by apply H|]. rewrite !testbit_word by (done || lia). done.
Qed.

Lemma word_high x : 0 <= x → (∀ i, 32 <= i → Z.testbit x i = false) → word x.
Proof.
  intros Hx H. split; [done|]. destruct (decide (x = 0)) as [->|]; [done|].
  apply Z.log2_lt_pow2; [lia|]. destruct (Z.lt_ge_cases (Z.log2 x) 32) as [|Hge]; [done|].
  specialize (H _ Hge). rewrite Z.bit_log2 in H by lia. done.
Qed.

Lemma word_lxor x y : word x → word y → word (Z.lxor x y).
Proof.
  intros Hx Hy. pose proof (proj1 Hx). pose proof (proj1 Hy). apply word_high.
  - by apply Z.lxor_nonneg.
  - intros i Hi. by rewrite Z.lxor_spec, !testbit_word.
Qed.

Lemma word_land x y : word x → word y → word (Z.land x y).
Proof.
  intros Hx Hy. apply word_high.
  - apply Z.land_nonneg. left. apply Hx.
  - intros i Hi. by rewrite Z.land_spec, testbit_word.
Qed.

Lemma word_shiftr x n : word x → 0 <= n → word (Z.shiftr x n).
Proof.
  intros Hx Hn. apply word_high; [apply Z.shiftr_nonneg, Hx|].
  intros i Hi. rewrite Z.shiftr_spec, testbit_word by (done || lia). done.
Qed.

Lemma testbit_lnot32 x i : 0 <= i < 32 → Z.testbit (u32 (Z.lnot x)) i = negb (Z.testbit x i).
Proof. intros. unfold u32. by rewrite Z.mod_pow2_bits_low, Z.lnot_spec by lia. Qed.

Lemma SHR_eq x n : 0 <= n → Z.shiftr x n = Spec.SHR n x.
Proof. apply Z.shiftr_div_pow2. Qed.

Lemma ROTR_eq x n : word x → 0 < n < 32 → ROTRIGHT x n = Spec.ROTR n x.
Proof.
  intros Hx Hn. unfold ROTRIGHT, Spec.ROTR, u32.
  assert (Z.shiftl x (32 - n) mod 2 ^ 32 = x mod 2 ^ n * 2 ^ (32 - n)) as ->.
  { rewrite Z.shiftl_mul_pow2 by lia. rewrite <- Z.mul_mod_distr_r by lia.
    rewrite <- Z.pow_add_r by lia. do 2 f_equal. lia. }
  rewrite <- Z.shiftr_div_pow2 by lia.
  rewrite <- (Z.add_lor_land (Z.shiftr x n)).
  assert (Z.land (Z.shiftr x n) (x mod 2 ^ n * 2 ^ (32 - n)) = 0) as ->; [|lia].
  apply Z.bits_inj'. intros i Hi. rewrite Z.land_spec, Z.bits_0, Z.shiftr_spec by lia.
  destruct (decide (i < 32 - n)).
  - rewrite Z.mul_pow2_bits_low, andb_false_r by lia. done.
  - rewrite testbit_word by (done || lia). done.
Qed.

Lemma word_ROTR x n : word x → 0 < n < 32 → word (Spec.ROTR n x).
Proof.
  intros Hx Hn. rewrite <- ROTR_eq by done. unfold ROTRIGHT. apply word_high.
  - apply Z.lor_nonneg. split; [apply Z.shiftr_nonneg, Hx|apply word_u32].
  - intros i Hi. rewrite Z.lor_spec, !testbit_word; [done|apply word_u32|done| |done].
    apply word_shiftr; [done|lia].
Qed.

(** Compares two words bit by bit. *)
Ltac word_bitwise :=
  apply word_eq;
  [ repeat first [assumption | apply word_lxor | apply word_land | apply word_u32]
  | apply word_of_bits_word
  | intros i Hi; rewrite testbit_word_of_bits, ?Z.lxor_spec, ?Z.land_spec, ?testbit_lnot32 by done ].

Lemma Ch_eq x y z : word x → word y → word z → CH x y z = Spec.Ch x y z.
Proof.
  intros Hx Hy Hz. unfold CH, Spec.Ch. word_bitwise.
  by destruct (Z.testbit x i), (Z.testbit y i), (Z.testbit z i).
Qed.

Lemma Maj_eq x y z : word x → word y → word z → MAJ x y z = Spec.Maj x y z.
Proof.
  intros Hx Hy Hz. unfold MAJ, Spec.Maj. word_bitwise.
  by destruct (Z.testbit x i), (Z.testbit y i), (Z.testbit z i).
Qed.

Lemma parity_eq x y z : word x → word y → word z → Z.lxor (Z.lxor x y) z = Spec.parity x y z.
Proof.
  intros Hx Hy Hz. unfold Spec.parity. word_bitwise.
  by destruct (Z.testbit x i), (Z.testbit y i), (Z.testbit z i).
Qed.

Lemma sigma_eqs x :
  word x → EP0 x = Spec.Sigma0 x ∧ EP1 x = Spec.Sigma1 x ∧
           SIG0 x = Spec.sigma0 x ∧ SIG1 x = Spec.sigma1 x.
Proof.
  intros Hx. unfold EP0, EP1, SIG0, SIG1, Spec.Sigma0, Spec.Sigma1, Spec.sigma0, Spec.sigma1.
  rewrite !ROTR_eq, !parity_eq, !SHR_eq
    by (lia || done || (apply word_ROTR; [done|lia]) || (apply word_shiftr; [done|lia])).
  done.
Qed.

Lemma load_word_eq d j :
  (j + 4 ≤ length d)%nat → load_word d j = be_decode (take 4 (drop j d)).
Proof.
  intros Hl. assert (4 ≤ length (drop j d))%nat as H4 by (rewrite length_drop; lia).
  assert (∀ i, nth (j + i) d zero = nth i (drop j d) zero) as Hn.
  { intros i. rewrite <- (take_drop j d) at 1.
    rewrite app_nth2 by (rewrite length_take; lia). f_equal. rewrite length_take. lia. }
  unfold load_word. rewrite <- (Nat.add_0_r j) at 1. rewrite !Hn.
  destruct (drop j d) as [|a [|b [|c [|e l]]]]; cbn [length] in H4; try lia.
  cbn [nth take be_decode foldl].
  replace (Z.shiftl (byte_to_Z a) 24) with (Z.shiftl (Z.shiftl (Z.shiftl (byte_to_Z a) 8) 8) 8)
    by (rewrite !Z.shiftl_shiftl by lia; done).
  replace (Z.shiftl (byte_to_Z b) 16) with (Z.shiftl (Z.shiftl (byte_to_Z b) 8) 8)
    by (rewrite !Z.shiftl_shiftl by lia; done).
  rewrite <- !Z.shiftl_lor, !lor_byte. done.
Qed.

Lemma be_decode_word l : (length l ≤ 4)%nat → word (be_decode l).
Proof.
  intros Hl. pose proof (be_decode_range l) as [Hr1 Hr2]. split; [done|].
  eapply Z.lt_le_trans; [exact Hr2|]. change (2 ^ 32) with (256 ^ 4).
  apply Z.pow_le_mono_r; lia.
Qed.

Lemma block_words_eq d :
  length d = 64%nat → map (λ i, load_word d (4 * i)) (seq 0 16) = Spec.block_words d.
Proof.
  intros Hl. unfold Spec.block_words. apply map_ext_in. intros t Ht. apply in_seq in Ht.
  apply load_word_eq. lia.
Qed.

Lemma block_words_word d : Forall word (Spec.block_words d).
Proof.
  apply Forall_fmap, Forall_true. intros t. apply be_decode_word. rewrite length_take. lia.
Qed.

Lemma nth_word m j : Forall word m → word (nth j m 0).
Proof.
  intros Hm. destruct (Nat.lt_ge_cases j (length m)) as [Hj|Hj].
  - apply (Forall_forall word m); [done|]. apply list_elem_of_In, nth_In, Hj.
  - rewrite nth_overflow by done. by split.
Qed.

Lemma next_W_eq m i :
  Forall word m →
  u32 (SIG1 (nth (i - 2) m 0) + nth (i - 7) m 0 + SIG0 (nth (i - 15) m 0) + nth (i - 16) m 0) =
  Spec.next_W m i.
Proof.
  intros Hm. unfold Spec.next_W.
  destruct (sigma_eqs _ (nth_word m (i - 2) Hm)) as (_ & _ & _ & ->).
  destruct (sigma_eqs _ (nth_word m (i - 15) Hm)) as (_ & _ & -> & _). reflexivity.
Qed.

(** The loop that extends the schedule computes the recurrence for [W_t]. *)
Lemma extend_eq n m i :
  length m = i → Forall word m →
  let w := foldl (λ w t, w ++ [Spec.next_W w t]) m (seq i n) in
  extend n m = w ∧ Forall word w ∧ length w = (i + n)%nat.
Proof.
  revert m i; induction n as [|n IH]; intros m i Hi Hm; cbn [extend seq foldl].
  - rewrite Nat.add_0_r. done.
  - rewrite Nat.add_succ_r, <- Nat.add_succ_l. rewrite Hi.
    rewrite next_W_eq by done. apply IH; [rewrite length_app; cbn [length]; lia|].
    apply Forall_app. split; [done|]. constructor; [|constructor].
    apply Z.mod_pos_bound. lia.
Qed.

Lemma schedule_eq d :
  length d = 64%nat →
  schedule d = Spec.W d ∧ Forall word (Spec.W d) ∧ length (Spec.W d) = 64%nat.
Proof.
  intros Hl. unfold schedule. rewrite block_words_eq by done.
  apply (extend_eq 48 (Spec.block_words d) 16); [done|apply block_words_word].
Qed.

(** The eight words of a state, as the specification has them. *)
Definition to_words (s : hstate) : Spec.words :=
  let '(HState a b c d e f g h) := s in (a, b, c, d, e, f, g, h).
Definition hstate_ok (s : hstate) : Prop :=
  let '(HState a b c d e f g h) := s in
  word a ∧ word b ∧ word c ∧ word d ∧ word e ∧ word f ∧ word g ∧ word h.

Lemma H0_eq : to_words H0 = Spec.H0 ∧ hstate_ok H0.
Proof. split; [by vm_compute|]. repeat split; done. Qed.

Lemma round_eq d s t :
  length d = 64%nat → hstate_ok s →
  let s' := round s (nth t k 0, nth t (schedule d) 0) in
  to_words s' = Spec.step d (to_words s) t ∧ hstate_ok s'.
Proof.
  intros Hl Hs. destruct (schedule_eq d Hl) as (-> & _).
  destruct s as [a b c e' e f g h]. destruct Hs as (Ha & Hb & Hc & Hd & He & Hf & Hg & Hh).
  destruct (sigma_eqs a Ha) as (HA & _). destruct (sigma_eqs e He) as (_ & HE & _).
  unfold round, Spec.step. cbn [to_words hstate_ok fst snd].
  rewrite HA, HE, Ch_eq, Maj_eq, K_eq by done.
  split; [done|]. split_and!; (assumption || apply word_u32).
Qed.

Lemma zip_seq (l m : list Z) n :
  length l = n → length m = n → zip l m = (λ t, (nth t l 0, nth t m 0)) <$> seq 0 n.
Proof.
  revert m n; induction l as [|x l IH]; intros [|y m] [|n] Hl Hm; try done.
  cbn [length] in Hl, Hm. cbn [zip_with seq fmap list_fmap nth]. f_equal.
  rewrite (IH m n) by lia. rewrite <- seq_shift. symmetry. apply map_map.
Qed.

Lemma rounds_eq d l s :
  length d = 64%nat → hstate_ok s →
  let s' := foldl round s ((λ t, (nth t k 0, nth t (schedule d) 0)) <$> l) in
  to_words s' = foldl (Spec.step d) (to_words s) l ∧ hstate_ok s'.
Proof.
  intros Hl. revert s; induction l as [|t l IH]; intros s Hs; cbn [fmap list_fmap foldl]; [done|].
  destruct (round_eq d s t Hl Hs) as (<- & Hs'). by apply IH.
Qed.

(** One block: the transform is the specification's hash computation. *)
Lemma compress_eq s d :
  length d = 64%nat → hstate_ok s →
  to_words (compress s d) = Spec.hash_block (to_words s) d ∧ hstate_ok (compress s d).
Proof.
  intros Hl Hs. unfold compress, Spec.hash_block.
  destruct (schedule_eq d Hl) as (E & _ & Hn).
  rewrite (zip_seq k (schedule d) 64) by (done || by rewrite E).
  destruct (rounds_eq d (seq 0 64) s Hl Hs) as (HE & _). rewrite <- HE.
  destruct (foldl round s _) as [a b c e' e f g h], s as [a0 b0 c0 d0 e0 f0 g0 h0].
  cbn [to_words]. unfold add_state. cbn [s0 s1 s2 s3 s4 s5 s6 s7 to_words hstate_ok].
  split; [|split_and!; apply word_u32].
  unfold u32. rewrite (Z.add_comm a0), (Z.add_comm b0), (Z.add_comm c0), (Z.add_comm d0),
    (Z.add_comm e0), (Z.add_comm f0), (Z.add_comm g0), (Z.add_comm h0). reflexivity.
Qed.

Lemma compress_blocks_eq bs s :
  Forall (λ b, length b = 64%nat) bs → hstate_ok s →
  to_words (foldl compress s bs) = foldl Spec.hash_block (to_words s) bs ∧
  hstate_ok (foldl compress s bs).
Proof.
  intros Hb. revert s; induction Hb as [|b bs Hl _ IH]; intros s Hs; cbn [foldl]; [done|].
  destruct (compress_eq s b Hl Hs) as (<- & Hs'). by apply IH.
Qed.

Lemma emit_word_eq w : emit_word w = be_encode 4 w.
Proof.
  assert (∀ n, 0 <= n → Z_to_byte (Z.land (Z.shiftr w n) 0xFF) = Z_to_byte (w / 2 ^ n)) as H.
  { intros n Hn. change 0xFF with (Z.ones 8). rewrite Z.land_ones, Z.shiftr_div_pow2 by lia.
    apply Z_to_byte_mod. }
  unfold emit_word. cbn [map seq be_encode app]. rewrite !H by lia.
  rewrite !Z.div_div by lia. cbn. by rewrite Z.div_1_r.
Qed.

Lemma emit_eq s : emit s = Spec.digest (to_words s).
Proof.
  destruct s. unfold emit, Spec.digest. cbn [s0 s1 s2 s3 s4 s5 s6 s7 to_words].
  rewrite !emit_word_eq. cbn [fmap list_fmap concat]. by rewrite app_nil_r.
Qed.

(** The digest of whole blocks, from the implementation's constants. *)
Lemma emit_blocks bs :
  Forall (λ b, length b = 64%nat) bs →
  emit (foldl compress H0 bs) = Spec.digest (foldl Spec.hash_block Spec.H0 bs).
Proof.
  intros Hb. destruct H0_eq as [<- Hok].
  rewrite emit_eq. by rewrite (proj1 (compress_blocks_eq bs H0 Hb Hok)).
Qed.

(** ** Refinement: the incremental implementation computes the specification *)

Lemma take_insert_S (l : list byte) i b :
  (i < length l)%nat → take (S i) (<[i:=b]> l) = take i l ++ [b].
Proof.
  intros Hi. rewrite (take_S_r _ _ b) by by apply list_lookup_insert_eq.
  by rewrite take_insert_ge by lia.
Qed.

Lemma zero_from_length d i c : length (zero_from d i c) = length d.
Proof. revert d i; induction c as [|c IH]; intros d i; simpl; [done|]. by rewrite IH, length_insert. Qed.

Lemma take_zero_from d i c :
  (i + c ≤ length d)%nat → take (i + c) (zero_from d i c) = take i d ++ replicate c zero.
Proof.
  revert d i; induction c as [|c IH]; intros d i Hl; simpl.
  - by rewrite Nat.add_0_r, app_nil_r.
  - replace (i + S c)%nat with (S i + c)%nat by lia.
    rewrite IH by (rewrite length_insert; lia).
    rewrite take_insert_S by lia. by rewrite <- app_assoc.
Qed.

Lemma store_bitlen_eq d bl :
  length d = 64%nat → store_bitlen d bl = take 56 d ++ be_encode 8 bl.
Proof.
  intros Hl. do 64 (destruct d as [|? d]; [done|]). destruct d; [|done].
  cbn. rewrite !Z.shiftr_div_pow2 by lia. rewrite !Z.div_div by lia. rewrite Z.div_1_r. done.
Qed.

(** [ctx] has absorbed the full blocks [bs] and then the bytes [tl]. *)
Record absorbed (ctx : SHA256_CTX) (bs : list (list byte)) (tl : list byte) : Prop := {
  abs_data : length (data ctx) = 64%nat;
  abs_blocks : Forall (λ b, length b = 64%nat) bs;
  abs_short : (length tl < 64)%nat;
  abs_len : datalen ctx = length tl;
  abs_tail : take (length tl) (data ctx) = tl;
  abs_bits : bitlen ctx = u64 (512 * Z.of_nat (length bs));
  abs_state : state ctx = foldl compress H0 bs
}.

Lemma absorbed_init buf : length buf = 64%nat → absorbed (sha256_init buf) [] [].
Proof. intros. split; simpl; try done. lia. Qed.

Lemma u64_add_l a b : u64 (u64 a + b) = u64 (a + b).
Proof. unfold u64. by rewrite Zplus_mod_idemp_l. Qed.

Lemma absorbed_byte ctx bs tl b :
  absorbed ctx bs tl →
  ∃ bs' tl', absorbed (update_byte ctx b) bs' tl' ∧ concat bs' ++ tl' = concat bs ++ tl ++ [b].
Proof.
  intros [Hd Hb Hs Hn Ht Hbits Hst]. unfold update_byte.
  cbn [sha256_transform data datalen bitlen state].
  assert (Htk : take (S (length tl)) (<[datalen ctx:=b]> (data ctx)) = tl ++ [b]).
  { rewrite Hn, take_insert_S by lia. by rewrite Ht. }
  destruct (Nat.eqb_spec (S (datalen ctx)) 64) as [Hfull|Hnot].
  - exists (bs ++ [tl ++ [b]]), []. split.
    + split; simpl; rewrite ?length_insert; try done; try lia.
      * apply Forall_app. split; [done|]. constructor; [|done]. rewrite length_app. simpl. lia.
      * rewrite Hbits, u64_add_l, length_app. f_equal. simpl. lia.
      * rewrite foldl_app, Hst. simpl. f_equal. rewrite <- Htk, take_ge; [done|].
        rewrite length_insert. lia.
    + rewrite concat_app. simpl. by rewrite !app_nil_r.
  - exists bs, (tl ++ [b]). split.
    + split; simpl; rewrite ?length_insert, ?length_app; simpl; try done; try lia.
      by rewrite Nat.add_1_r.
    + done.
Qed.

Lemma absorbed_update ctx bs tl m :
  absorbed ctx bs tl →
  ∃ bs' tl', absorbed (sha256_update ctx m) bs' tl' ∧ concat bs' ++ tl' = concat bs ++ tl ++ m.
Proof.
  revert ctx bs tl; induction m as [|b m IH]; intros ctx bs tl H; simpl.
  - exists bs, tl. by rewrite app_nil_r.
  - destruct (absorbed_byte _ _ _ b H) as (bs1 & tl1 & H1 & E1).
    destruct (IH _ _ _ H1) as (bs2 & tl2 & H2 & E2). exists bs2, tl2. split; [done|].
    rewrite E2, (app_assoc (concat bs1)), E1. by rewrite <- !app_assoc.
Qed.

Lemma concat_blocks_length (bs : list (list byte)) :
  Forall (λ b, length b = 64%nat) bs → length (concat bs) = (64 * length bs)%nat.
Proof. induction 1 as [|b bs Hb _ IH]; simpl; [done|]. rewrite length_app. lia. Qed.

(** Splitting into blocks recovers them. *)
Lemma blocks_concat bs :
  Forall (λ b, length b = 64%nat) bs → Spec.blocks (concat bs) = bs.
Proof.
  intros Hb. unfold Spec.blocks. rewrite concat_blocks_length by done.
  rewrite Nat.mul_comm, Nat.div_mul by done.
  induction Hb as [|b bs Hlb _ IH]; simpl; [done|].
  rewrite take_app_exact, drop_app_exact by done. by rewrite IH.
Qed.

Lemma be_encode_mod n v w : v mod 256 ^ Z.of_nat n = w mod 256 ^ Z.of_nat n → be_encode n v = be_encode n w.
Proof.
  intros H. apply be_decode_inj; [by rewrite !length_be_encode|]. by rewrite !be_decode_encode.
Qed.

Lemma mod_block a b : (b < 64)%nat → ((64 * a + b) mod 64)%nat = b.
Proof. intros. rewrite Nat.mul_comm, Nat.add_comm, Nat.Div0.mod_add. by apply Nat.mod_small. Qed.

(** The padding blocks built in place by [sha256_final] are those of the
    specification. *)
Lemma pad_short bs tl :
  Forall (λ b, length b = 64%nat) bs → (length tl < 56)%nat →
  Spec.pad (concat bs ++ tl) =
  concat (bs ++ [(tl ++ Z_to_byte 0x80 :: replicate (55 - length tl) zero) ++
                 be_encode 8 (512 * Z.of_nat (length bs) + Z.of_nat (length tl) * 8)]).
Proof.
  intros Hb Hs. unfold Spec.pad. rewrite concat_app, length_app, concat_blocks_length by done.
  cbn [concat]. rewrite app_nil_r, <- !app_assoc. cbn [app]. do 3 f_equal.
  rewrite mod_block by lia.
  replace ((119 - length tl) mod 64)%nat with (55 - length tl)%nat.
  - f_equal. f_equal. lia.
  - replace (119 - length tl)%nat with (55 - length tl + 1 * 64)%nat by lia.
    rewrite Nat.Div0.mod_add, Nat.mod_small; lia.
Qed.

Lemma pad_long bs tl :
  Forall (λ b, length b = 64%nat) bs → (56 ≤ length tl < 64)%nat →
  Spec.pad (concat bs ++ tl) =
  concat (bs ++ [tl ++ Z_to_byte 0x80 :: replicate (63 - length tl) zero;
                 replicate 56 zero ++
                 be_encode 8 (512 * Z.of_nat (length bs) + Z.of_nat (length tl) * 8)]).
Proof.
  intros Hb Hs. unfold Spec.pad. rewrite concat_app, length_app, concat_blocks_length by done.
  cbn [concat]. rewrite app_nil_r, <- !app_assoc. cbn [app]. do 3 f_equal.
  rewrite mod_block, Nat.mod_small by lia.
  replace (119 - length tl)%nat with ((63 - length tl) + 56)%nat by lia.
  rewrite replicate_add, <- app_assoc. do 2 f_equal. f_equal. lia.
Qed.

Lemma be_encode_u64 v : be_encode 8 (u64 v) = be_encode 8 v.
Proof. apply be_encode_mod. unfold u64. by rewrite Zmod_mod. Qed.

Lemma final_padded ctx bs tl n :
  absorbed ctx bs tl → (length tl < n)%nat → (n ≤ 64)%nat →
  take n (zero_from (<[datalen ctx := Z_to_byte 0x80]> (data ctx)) (S (datalen ctx)) (n - S (datalen ctx)))
  = tl ++ Z_to_byte 0x80 :: replicate (n - S (length tl)) zero.
Proof.
  intros [Hd Hb Hs Hn Ht _ _] Hlt Hle. rewrite Hn.
  replace n with (S (length tl) + (n - S (length tl)))%nat at 1 by lia.
  rewrite take_zero_from by (rewrite length_insert; lia).
  rewrite take_insert_S by lia. by rewrite Ht, <- app_assoc.
Qed.

(** Whole blocks followed by padded ones of 64 bytes are whole blocks. *)
Ltac whole_blocks :=
  first [done | lia | apply Forall_app; repeat constructor; try done;
         rewrite ?length_app, ?length_be_encode; simpl; rewrite ?length_replicate; lia].

Lemma absorbed_final ctx bs tl :
  absorbed ctx bs tl → arr_list (sha256_final ctx) = Spec.sha256 (concat bs ++ tl).
Proof.
  intros H. pose proof H as [Hd Hb Hs Hn Ht Hbits Hst].
  assert (Hbl : be_encode 8 (u64 (bitlen ctx + Z.of_nat (datalen ctx) * 8)) =
                be_encode 8 (512 * Z.of_nat (length bs) + Z.of_nat (length tl) * 8)).
  { by rewrite be_encode_u64, Hbits, Hn, <- be_encode_u64, u64_add_l, be_encode_u64. }
  unfold sha256_final, Spec.sha256.
  destruct (Nat.ltb_spec (datalen ctx) 56) as [Hlt|Hge];
    cbn [sha256_transform data datalen bitlen state].
  - rewrite store_bitlen_eq by (rewrite zero_from_length, length_insert; done).
    rewrite Hbl, (final_padded _ bs tl) by (done || lia). rewrite Hst.
    rewrite pad_short, blocks_concat, <- emit_blocks by whole_blocks.
    rewrite foldl_app, arr_of_list by done. cbn [foldl]. repeat f_equal.
  - rewrite store_bitlen_eq by (rewrite !zero_from_length, length_insert; done).
    pose proof (take_zero_from (zero_from (<[datalen ctx:=Z_to_byte 128]> (data ctx))
      (S (datalen ctx)) (64 - S (datalen ctx))) 0 56) as Hz.
    simpl (0 + 56)%nat in Hz. rewrite Hz by (rewrite zero_from_length, length_insert; lia).
    pose proof (final_padded _ bs tl 64 H Hs ltac:(lia)) as Hp.
    rewrite take_ge in Hp by (rewrite zero_from_length, length_insert; lia).
    rewrite Hp, Hbl, Hst.
    rewrite pad_long, blocks_concat, <- emit_blocks by whole_blocks.
    rewrite foldl_app, arr_of_list by done. cbn [foldl]. repeat f_equal.
Qed.

(** C13. Refinement. The streaming implementation, started on any
    buffer contents and fed any sequence of chunks, outputs exactly the
    FIPS 180-4 digest of the concatenated message.  The specification is
    independent of the code: the code's macros, constant tables, message
    schedule, round loop and output are proved to be the standard's functions,
    the fractional parts of the roots of the primes, its recurrence and its
    big-endian words, and buffering, in-place padding and the bit counter to
    lose nothing. *)
Theorem sha256_refines_fips (buf : arr 64) (chunks : list (list byte)) :
  arr_list (sha256_final (foldl sha256_update (sha256_init (arr_list buf)) chunks)) =
  Spec.sha256 (concat chunks).
Proof.
  assert (∀ ctx bs tl, absorbed ctx bs tl →
    arr_list (sha256_final (foldl sha256_update ctx chunks)) =
    Spec.sha256 (concat bs ++ tl ++ concat chunks)) as Hgen.
  { induction chunks as [|c chunks IH]; intros ctx bs tl H; cbn [foldl concat].
    - rewrite app_nil_r. by apply absorbed_final.
    - destruct (absorbed_update _ _ _ c H) as (bs' & tl' & H' & E).
      etrans; [apply (IH _ _ _ H')|]. f_equal. rewrite (app_assoc (concat bs')), E.
      by rewrite <- !app_assoc. }
  refine (Hgen _ [] [] _). apply absorbed_init, arr_length.
Qed.

#[export] Instance vendored_sha256_laws : HashLaws vendored_sha256.
Proof.
  split; [done|]. intros c a b. simpl. unfold sha256_update. by rewrite foldl_app.
Qed.

(** Known answer tests of [tests/golden/sha256_kat_test.cpp]. *)
Example kat_empty : Facade.sha256 (H := vendored_sha256) [] = arr_lit 32
  [0xe3; 0xb0; 0xc4; 0x42; 0x98; 0xfc; 0x1c; 0x14; 0x9a; 0xfb; 0xf4; 0xc8; 0x99; 0x6f; 0xb9; 0x24;
   0x27; 0xae; 0x41; 0xe4; 0x64; 0x9b; 0x93; 0x4c; 0xa4; 0x95; 0x99; 0x1b; 0x78; 0x52; 0xb8; 0x55].
Proof. apply arr_eq. vm_compute. reflexivity. Qed.

Example kat_abc : Facade.sha256 (H := vendored_sha256) (Z_to_byte <$> [0x61; 0x62; 0x63]) = arr_lit 32
  [0xba; 0x78; 0x16; 0xbf; 0x8f; 0x01; 0xcf; 0xea; 0x41; 0x41; 0x40; 0xde; 0x5d; 0xae; 0x22; 0x23;
   0xb0; 0x03; 0x61; 0xa3; 0x96; 0x17; 0x7a; 0x9c; 0xb4; 0x10; 0xff; 0x61; 0xf2; 0x00; 0x15; 0xad].
Proof. apply arr_eq. vm_compute. reflexivity. Qed.
