(* ===== verification/Crypto.v ===== *)
(** The cryptographic trust root: address derivation ([src/crypto/address.cpp]),
    the hex codec and the proof-of-work predicates ([src/crypto/hashutil.cpp],
    [hashutil.hpp]), and the interface of the Ed25519 facade
    ([include/txchain/crypto/ed25519.hpp]).

    Ed25519 itself is a compile-time backend (libsodium or the vendored ref10
    C code): it is a parameter, the class [Ed25519], with the one documented
    property the wallet relies on in [Ed25519Laws]. *)

From Stdlib Require Import ZArith Lia Ascii String.
From stdpp Require Import base list list_numbers.
From S2P Require Import Prelude Sha256.
Import Facade.

(** ** Fixed-width types: [fixedbytes.hpp] *)

Abbreviation Digest32 := (arr 32).
Abbreviation Address20 := (arr 20).
Abbreviation PubKey32 := (arr 32).
Abbreviation Sig64 := (arr 64).
Abbreviation Seed32 := (arr 32).

(** ** Ed25519 *)

Class Ed25519 := {
  derive_pubkey : Seed32 → PubKey32;
  sign : Seed32 → list byte → Sig64;
  verify : PubKey32 → Sig64 → list byte → bool
}.

(** RFC 8032: a signature made with a seed verifies under its public key. *)
Class Ed25519Laws (E : Ed25519) : Prop := {
  verify_sign seed msg : verify (derive_pubkey seed) (sign seed msg) msg = true
}.

Record KeyPair := { kp_seed : Seed32; kp_pubkey : PubKey32 }.

(** [keygen_from_seed], and [keygen] over the bytes the OS CSPRNG delivered
    ([None] when it is unavailable, where the code throws). *)
Definition keygen_from_seed `{Ed25519} (seed : Seed32) : KeyPair :=
  {| kp_seed := seed; kp_pubkey := derive_pubkey seed |}.
Definition keygen `{Ed25519} (csprng : option Seed32) : option KeyPair :=
  keygen_from_seed <$> csprng.

(** ** Addresses *)

Section address.
Context `{HashFn}.

Definition address (pubkey : PubKey32) : Address20 :=
  let digest := sha256 (arr_list pubkey) in
  arr_of 20 (map (λ i, nth i (arr_list digest) zero) (seq 0 20)).

Definition address_matches (from : Address20) (pubkey : PubKey32) : bool :=
  bool_decide (from = address pubkey).
End address.

(** ** Hex codec *)

Module Hex.
Definition kHex : list byte := txt "0123456789abcdef".

Definition to_hex (b : list byte) : list byte :=
  foldl (λ s c, s ++ [nth (Z.to_nat (Z.shiftr (byte_to_Z c) 4)) kHex zero]
                  ++ [nth (Z.to_nat (Z.land (byte_to_Z c) 0x0F)) kHex zero]) [] b.

(** The lambda [nib]: the value of one hex digit, either case. *)
Definition nib (c : byte) : option Z :=
  let z := byte_to_Z c in
  if (48 <=? z) && (z <=? 57) then Some (z - 48)
  else if (97 <=? z) && (z <=? 102) then Some (z - 97 + 10)
  else if (65 <=? z) && (z <=? 70) then Some (z - 65 + 10)
  else None.

(** The loop over [i]: [hex[2*i]] and [hex[2*i+1]] make byte [i]. *)
Fixpoint decode_pairs (hex : list byte) : option (list byte) :=
  match hex with
  | [] => Some []
  | [_] => None
  | h :: l :: rest =>
      hi ← nib h; lo ← nib l; out ← decode_pairs rest;
      Some (Z_to_byte (Z.lor (Z.shiftl hi 4) lo) :: out)
  end.

Definition from_hex (N : nat) (hex : list byte) : option (arr N) :=
  if negb (length hex =? 2 * N)%nat then None else arr_of N <$> decode_pairs hex.

(** *** Lemmas *)

Definition hex_pair (c : byte) : list byte :=
  [nth (Z.to_nat (Z.shiftr (byte_to_Z c) 4)) kHex zero;
   nth (Z.to_nat (Z.land (byte_to_Z c) 0x0F)) kHex zero].

Lemma to_hex_concat b : to_hex b = concat (map hex_pair b).
Proof.
  unfold to_hex. set (f := λ s c, _).
  assert (∀ s, foldl f s b = s ++ concat (map hex_pair b)) as Hgen; [|apply Hgen].
  induction b as [|c b IH]; intros s; cbn [foldl map concat]; [by rewrite app_nil_r|].
  rewrite IH. unfold f. by rewrite <- !app_assoc.
Qed.

Lemma to_hex_length b : length (to_hex b) = (2 * length b)%nat.
Proof. rewrite to_hex_concat. induction b as [|c b IH]; simpl in *; [done|]. lia. Qed.

Lemma decode_hex_pair c rest :
  decode_pairs (hex_pair c ++ rest) = (c ::.) <$> decode_pairs rest.
Proof. destruct c as [[] [] [] [] [] [] [] []]; cbn; by destruct (decode_pairs rest). Qed.

Lemma decode_to_hex b : decode_pairs (to_hex b) = Some b.
Proof.
  rewrite to_hex_concat. induction b as [|c b IH]; [done|].
  cbn [map concat]. by rewrite decode_hex_pair, IH.
Qed.

(** [decode_pairs] yields one byte per pair of digits. *)
Lemma decode_length hex b : decode_pairs hex = Some b → length hex = (2 * length b)%nat.
Proof.
  revert hex. induction b as [|c b IH]; intros [|h [|l rest]] Hd; simpl in Hd; try done;
    destruct (nib h); simpl in Hd; try done; destruct (nib l); simpl in Hd; try done;
    destruct (decode_pairs rest) eqn:E; simpl in Hd; try done.
  injection Hd as _ ->. apply IH in E. simpl. lia.
Qed.

(** Every hex character of a rendered byte is a lowercase hex digit. *)
Definition is_lower_hex (c : byte) : bool :=
  is_digit c || ((97 <=? byte_to_Z c) && (byte_to_Z c <=? 102)).

Lemma to_hex_digits b : Forall (λ c, is_lower_hex c = true) (to_hex b).
Proof.
  rewrite to_hex_concat. induction b as [|c b IH]; cbn [map concat]; [constructor|].
  apply Forall_app. split; [|done].
  destruct c as [[] [] [] [] [] [] [] []]; repeat constructor.
Qed.

Lemma from_to_hex N (a : arr N) : from_hex N (to_hex (arr_list a)) = Some a.
Proof.
  unfold from_hex. rewrite to_hex_length, arr_length, Nat.eqb_refl. cbn [negb].
  rewrite decode_to_hex. cbn. by rewrite arr_of_arr_list.
Qed.

(** Two arrays with the same rendering are equal. *)
Lemma to_hex_inj b c : to_hex b = to_hex c → b = c.
Proof. intros E. apply (f_equal decode_pairs) in E. rewrite !decode_to_hex in E. congruence. Qed.

(** A hex digit of either case, and its lowercase spelling. *)
Definition is_hex (c : byte) : bool :=
  is_lower_hex c || ((65 <=? byte_to_Z c) && (byte_to_Z c <=? 70)).
Definition lower (c : byte) : byte :=
  if (65 <=? byte_to_Z c) && (byte_to_Z c <=? 70) then Z_to_byte (byte_to_Z c + 32) else c.

Lemma nib_spec c :
  match nib c with
  | Some v => is_hex c = true ∧ 0 <= v < 16 ∧ nth (Z.to_nat v) kHex zero = lower c
  | None => is_hex c = false
  end.
Proof. destruct c as [[] [] [] [] [] [] [] []]; vm_compute; repeat split; done. Qed.

Lemma hex_pair_of_nibs hi lo :
  0 <= hi < 16 → 0 <= lo < 16 →
  hex_pair (Z_to_byte (Z.lor (Z.shiftl hi 4) lo)) =
  [nth (Z.to_nat hi) kHex zero; nth (Z.to_nat lo) kHex zero].
Proof.
  intros Hhi Hlo.
  assert (forallb (λ h, forallb (λ l, bool_decide
    (hex_pair (Z_to_byte (Z.lor (Z.shiftl (Z.of_nat h) 4) (Z.of_nat l))) =
     [nth h kHex zero; nth l kHex zero])) (seq 0 16)) (seq 0 16) = true) as Hall
    by (vm_compute; reflexivity).
  rewrite forallb_forall in Hall. specialize (Hall (Z.to_nat hi) ltac:(apply in_seq; lia)).
  rewrite forallb_forall in Hall. specialize (Hall (Z.to_nat lo) ltac:(apply in_seq; lia)).
  apply bool_decide_eq_true in Hall. by rewrite !Z2Nat.id in Hall by lia.
Qed.

(** [decode_pairs] accepts exactly the even runs of hex digits, and its
    result renders back to the lowercased input. *)
Lemma decode_pairs_sound hex b :
  decode_pairs hex = Some b → Forall (λ c, is_hex c = true) hex ∧ to_hex b = map lower hex.
Proof.
  revert hex; induction b as [|c b IH]; intros [|h [|l rest]] Hd; simpl in Hd; try done;
    pose proof (nib_spec h) as Hh; pose proof (nib_spec l) as Hl;
    destruct (nib h) as [hi|]; simpl in Hd; try done;
    destruct (nib l) as [lo|]; simpl in Hd; try done;
    destruct (decode_pairs rest) eqn:E; simpl in Hd; try done.
  injection Hd as <- ->. apply IH in E as [E1 E2].
  destruct Hh as (? & ? & Hh), Hl as (? & ? & Hl). split; [by repeat constructor|].
  rewrite to_hex_concat in *. cbn [map concat]. rewrite E2, hex_pair_of_nibs by done.
  by rewrite Hh, Hl.
Qed.

Lemma nib_lower c : nib (lower c) = nib c.
Proof. by destruct c as [[] [] [] [] [] [] [] []]. Qed.

Lemma decode_pairs_lower hex : decode_pairs (map lower hex) = decode_pairs hex.
Proof.
  remember (length hex) as n eqn:Hn. revert hex Hn.
  induction n as [n IH] using lt_wf_ind; intros [|h [|l rest]] ->; [done..|].
  cbn [map decode_pairs]. rewrite !nib_lower. by rewrite (IH (length rest)) by (simpl; lia).
Qed.
End Hex.

Lemma from_hex_renders (N : nat) (s : list byte) (a : arr N) :
  Hex.from_hex N s = Some a ↔
  Forall (λ c, Hex.is_hex c = true) s ∧ Hex.to_hex (arr_list a) = map Hex.lower s.
Proof.
  unfold Hex.from_hex. destruct (Nat.eqb_spec (length s) (2 * N)) as [Hn|Hn]; cbn [negb].
  - rewrite fmap_Some. split.
    + intros (b & Hb & ->). pose proof (Hex.decode_length _ _ Hb).
      rewrite arr_of_list by lia. by apply Hex.decode_pairs_sound.
    + intros [_ E]. exists (arr_list a). rewrite arr_of_arr_list. split; [|done].
      by rewrite <- Hex.decode_pairs_lower, <- E, Hex.decode_to_hex.
  - split; [done|]. intros [_ E]. apply (f_equal length) in E.
    rewrite Hex.to_hex_length, length_map, arr_length in E. congruence.
Qed.

(** [from_hex] accepts exactly the strings of [2N] hex digits of either
    case, and what it returns is the array whose lowercase rendering is the
    lowercased input: the codec is a bijection up to case. *)
Theorem from_hex_iff (N : nat) (s : list byte) (a : arr N) :
  Hex.from_hex N s = Some a ↔
  Forall (λ c, Hex.is_hex c = true) s ∧ Hex.to_hex (arr_list a) = map Hex.lower s.
Proof. apply from_hex_renders. Qed.

(** ** Proof-of-work target and cumulative work *)

Module Target.
(** The inner loop [for (int bit = 7; bit >= 0; --bit)]: [true] when it hit
    a one bit and the function returns. *)
Fixpoint scan_bits (b : Z) (bits : nat) (count : Z) : bool * Z :=
  match bits with
  | O => (false, count)
  | S bit =>
      if Z.land (Z.shiftr b (Z.of_nat bit)) 1 =? 1 then (true, count)
      else scan_bits b bit (count + 1)
  end.

Fixpoint lzb_loop (l : list byte) (count : Z) : Z :=
  match l with
  | [] => count
  | c :: rest =>
      let b := byte_to_Z c in
      if b =? 0 then lzb_loop rest (count + 8)
      else
        let '(found, count) := scan_bits b 8 count in
        if found then count else lzb_loop rest count
  end.

Definition leading_zero_bits (hash : Digest32) : Z := lzb_loop (arr_list hash) 0.

Definition meets_difficulty (hash : Digest32) (D : Z) : bool := D <=? leading_zero_bits hash.

(** [Work] is [unsigned __int128]. *)
Definition block_work (D : Z) : Z :=
  if 128 <=? D then 2 ^ 128 - 1 else u128 (Z.shiftl 1 D).

(** *** Lemmas *)

Lemma scan_bits_shift b bits count :
  scan_bits b bits count = prod_map id (Z.add count) (scan_bits b bits 0).
Proof.
  revert count; induction bits as [|n IH]; intros count; simpl; [by rewrite Z.add_0_r|].
  destruct (_ =? 1); simpl; [by rewrite Z.add_0_r|].
  rewrite (IH (count + 1)), (IH (0 + 1)). destruct (scan_bits b n 0). simpl. f_equal. lia.
Qed.

Lemma scan_bits_byte c :
  byte_to_Z c ≠ 0 → scan_bits (byte_to_Z c) 8 0 = (true, 7 - Z.log2 (byte_to_Z c)).
Proof. by destruct c as [[] [] [] [] [] [] [] []]. Qed.

Lemma lzb_loop_cons c l count :
  lzb_loop (c :: l) count =
  if byte_to_Z c =? 0 then lzb_loop l (count + 8) else count + (7 - Z.log2 (byte_to_Z c)).
Proof.
  cbn [lzb_loop]. destruct (Z.eqb_spec (byte_to_Z c) 0) as [E|E]; [done|].
  rewrite scan_bits_shift, scan_bits_byte by done. done.
Qed.

Lemma lzb_loop_shift l count : lzb_loop l count = count + lzb_loop l 0.
Proof.
  revert count; induction l as [|c l IH]; intros count; [simpl; lia|].
  rewrite !lzb_loop_cons. destruct (_ =? 0); [|lia]. rewrite (IH (count + 8)), (IH (0 + 8)). lia.
Qed.

Lemma be_decode_cons c l :
  be_decode (c :: l) = byte_to_Z c * 256 ^ Z.of_nat (length l) + be_decode l.
Proof.
  induction l as [|d l IH] using rev_ind; [unfold be_decode; simpl; lia|].
  rewrite app_comm_cons, !be_decode_snoc, IH, length_app, Nat.add_1_r, pow256_S. lia.
Qed.

Lemma lzb_loop_range l : 0 <= lzb_loop l 0 <= 8 * Z.of_nat (length l).
Proof.
  induction l as [|c l IH]; [done|]. rewrite lzb_loop_cons. cbn [length].
  pose proof (byte_to_Z_range c).
  destruct (Z.eqb_spec (byte_to_Z c) 0); [rewrite lzb_loop_shift; lia|].
  pose proof (Z.log2_nonneg (byte_to_Z c)).
  assert (Z.log2 (byte_to_Z c) < 8) by (apply Z.log2_lt_pow2; lia). lia.
Qed.

Lemma lzb_loop_spec l D :
  0 <= D <= 8 * Z.of_nat (length l) →
  D <= lzb_loop l 0 ↔ be_decode l < 2 ^ (8 * Z.of_nat (length l) - D).
Proof.
  revert D; induction l as [|c l IH]; intros D HD.
  { simpl in *. replace D with 0 by lia. done. }
  rewrite lzb_loop_cons, be_decode_cons.
  cbn [length] in *. rewrite Nat2Z.inj_succ in *.
  set (n := Z.of_nat (length l)) in *.
  pose proof (be_decode_range l) as Hl. fold n in Hl.
  assert (Hpow : 256 ^ n = 2 ^ (8 * n)) by (rewrite Z.pow_mul_r by lia; done).
  pose proof (byte_to_Z_range c) as Hc. rewrite Hpow in *.
  destruct (Z.eqb_spec (byte_to_Z c) 0) as [E|E].
  - rewrite E, Z.mul_0_l, Z.add_0_l, lzb_loop_shift.
    destruct (Z.le_gt_cases D 8).
    + assert (2 ^ (8 * n) <= 2 ^ (8 * Z.succ n - D)) by (apply Z.pow_le_mono_r; lia).
      pose proof (lzb_loop_range l). lia.
    + replace (8 * Z.succ n - D) with (8 * n - (D - 8)) by lia.
      rewrite <- IH by lia. lia.
  - assert (Hlog : D <= 7 - Z.log2 (byte_to_Z c) ↔ byte_to_Z c < 2 ^ (8 - D)).
    { rewrite Z.log2_lt_pow2 by lia. lia. }
    rewrite Z.add_0_l, Hlog. destruct (Z.le_gt_cases D 8) as [H8|H8].
    + replace (8 * Z.succ n - D) with (8 * n + (8 - D)) by lia.
      rewrite Z.pow_add_r by lia. split; intros; nia.
    + rewrite (Z.pow_neg_r 2 (8 - D)) by lia.
      assert (2 ^ (8 * Z.succ n - D) <= 2 ^ (8 * n)) by (apply Z.pow_le_mono_r; lia).
      split; intros; nia.
Qed.

Lemma meets_difficulty_0 h : meets_difficulty h 0 = true.
Proof. unfold meets_difficulty, leading_zero_bits. pose proof (lzb_loop_range (arr_list h)). lia. Qed.

Lemma block_work_range D : 0 <= D → 0 < block_work D < 2 ^ 128.
Proof.
  intros HD. unfold block_work. destruct (Z.leb_spec 128 D); [done|].
  rewrite Z.shiftl_mul_pow2, Z.mul_1_l by lia.
  assert (0 < 2 ^ D < 2 ^ 128) by (split; [lia | apply Z.pow_lt_mono_r; lia]).
  unfold u128. rewrite Z.mod_small by lia. lia.
Qed.
End Target.

(** C33. The proof-of-work predicate is the one it documents: a digest meets
    difficulty [D] exactly when, read as a big-endian 256-bit integer, it is
    below [2^(256-D)]. *)
Theorem meets_difficulty_target (h : Digest32) (D : Z) :
  0 <= D <= 256 →
  Target.meets_difficulty h D = true ↔ be_decode (arr_list h) < 2 ^ (256 - D).
Proof.
  intros HD. unfold Target.meets_difficulty, Target.leading_zero_bits.
  rewrite Z.leb_le, Target.lzb_loop_spec by (rewrite arr_length; lia).
  by rewrite arr_length.
Qed.

Lemma meets_difficulty_target_witness :
  0 <= 16 <= 256 ∧
  (Target.meets_difficulty (arr_lit 32 [0; 0; 0x7F]) 16 = true ↔
   be_decode (arr_list (arr_lit 32 [0; 0; 0x7F])) < 2 ^ (256 - 16)).
Proof. split; [lia | apply meets_difficulty_target; lia]. Defined.

(** ** Concrete instances for worked examples

    The theorems of the ledger hold for every hash with [HashLaws] and every
    Ed25519 backend; the examples that evaluate them use these cheap
    instances (the vendored SHA-256 evaluates too, more slowly). *)

Module Demo.
(** The whole message read as a big-endian number, reduced modulo 2^255 - 19 by
    folding its high bits (one fold removes at least one byte) and written on 32
    bytes; shifts and masks only, so that digests are cheap to evaluate. *)
Fixpoint fold255 (fuel : nat) (n : Z) : Z :=
  match fuel with
  | O => n
  | S fuel =>
      if Z.shiftr n 255 =? 0 then n
      else fold255 fuel (Z.land n (Z.ones 255) + 19 * Z.shiftr n 255)
  end.

Fixpoint low_bytes (n : nat) (v : Z) (acc : list byte) : list byte :=
  match n with
  | O => acc
  | S n => low_bytes n (Z.shiftr v 8) (Ascii.ascii_of_N (Z.to_N (Z.land v 255)) :: acc)
  end.

Definition digest (m : list byte) : arr 32 :=
  arr_of 32 (low_bytes 32 (fold255 (length m) (foldl (λ v b, 256 * v + byte_to_Z b) 1 m)) []).

#[export] Instance demo_hash : HashFn := {|
  hctx := list byte;
  hash_init := [];
  hash_update := λ c m, c ++ m;
  hash_final := digest
|}.

#[export] Instance demo_hash_laws : HashLaws demo_hash.
Proof. split; intros; simpl; [by rewrite app_nil_r | by rewrite <- app_assoc]. Qed.

(** A hash under which all messages collide. *)
Definition const_hash : HashFn := {|
  hctx := unit;
  hash_init := tt;
  hash_update := λ c _, c;
  hash_final := λ _, arr_zero 32
|}.

Lemma const_hash_laws : HashLaws const_hash.
Proof. split; done. Qed.

Definition demo_sign (seed : Seed32) (msg : list byte) : Sig64 :=
  arr_of 64 (arr_list seed ++ arr_list (hash_final msg)).

#[export] Instance demo_ed : Ed25519 := {|
  derive_pubkey := λ seed, seed;
  sign := demo_sign;
  verify := λ pub sig msg, bool_decide (sig = demo_sign pub msg)
|}.

#[export] Instance demo_ed_laws : Ed25519Laws demo_ed.
Proof. split. intros. by apply bool_decide_eq_true. Qed.
End Demo.
