(* ===== verification/Canonical.v ===== *)
(** The canonical data model and its single serializer
    ([include/txchain/serialize/types.hpp], [src/serialize/canonical.cpp]).

    [Txn], [BlockHeader] and [Block] hold field values; the fixed-width
    big-endian bytes that are hashed and signed come from [serialize_txn]
    and [serialize_header] only.  A writer appends to the bytes already
    written (the C++ cursor [off] is their number); a reader consumes the
    bytes from the cursor on. *)

From Stdlib Require Import ZArith Lia Ascii String.
From stdpp Require Import base list list_numbers.
From S2P Require Import Prelude Sha256 Crypto.
Import Facade.

(** ** Data: [types.hpp] *)

Definition kTxnSize : nat := 153.
Definition kHeaderSize : nat := 88.
Definition kSignedPayloadSize : nat := 89.
Definition kTxnVersion : Z := 1.

Record Txn := mkTxn {
  tx_ver : Z;
  tx_from : Address20;
  tx_to : Address20;
  tx_amount : Z;
  tx_nonce : Z;
  tx_pubkey : PubKey32;
  tx_sig : Sig64
}.

Record BlockHeader := mkHeader {
  h_index : Z;
  h_timestamp : Z;
  h_prevHash : Digest32;
  h_txnsHash : Digest32;
  h_nonce : Z
}.

Record Block := mkBlock { header : BlockHeader; txns : list Txn }.

#[export] Instance Txn_eq_dec : EqDecision Txn.
Proof. solve_decision. Defined.
#[export] Instance BlockHeader_eq_dec : EqDecision BlockHeader.
Proof. solve_decision. Defined.
#[export] Instance Block_eq_dec : EqDecision Block.
Proof. solve_decision. Defined.

(** The ranges of the C++ field types. *)
Definition txn_ok (t : Txn) : Prop :=
  0 <= tx_ver t < 256 ∧ u64_ok (tx_amount t) ∧ u64_ok (tx_nonce t).
Definition header_ok (h : BlockHeader) : Prop :=
  u64_ok (h_index h) ∧ u64_ok (h_timestamp h) ∧ u64_ok (h_nonce h).
Definition block_ok (b : Block) : Prop := header_ok (header b) ∧ Forall txn_ok (txns b).

#[export] Instance txn_ok_dec t : Decision (txn_ok t).
Proof. unfold txn_ok. apply _. Defined.
#[export] Instance header_ok_dec h : Decision (header_ok h).
Proof. unfold header_ok. apply _. Defined.
#[export] Instance block_ok_dec b : Decision (block_ok b).
Proof. unfold block_ok. apply _. Defined.

(** ** Writers and readers *)

Definition put_u8 (out : list byte) (v : Z) : list byte := out ++ [Z_to_byte v].

(** [for (int i = 7; i >= 0; --i) p[off++] = (v >> (i * 8)) & 0xFF;] *)
Definition put_u64 (out : list byte) (v : Z) : list byte :=
  foldl (λ p i, p ++ [Z_to_byte (Z.land (Z.shiftr v (i * 8)) 0xFF)]) out [7; 6; 5; 4; 3; 2; 1; 0].

Definition put_arr {N} (out : list byte) (a : arr N) : list byte := out ++ arr_list a.

(** [for (int i = 0; i < 8; ++i) v = (v << 8) | p[off++];] *)
Definition get_u64 (p : list byte) : Z * list byte :=
  (foldl (λ v c, Z.lor (u64 (Z.shiftl v 8)) (byte_to_Z c)) 0 (take 8 p), drop 8 p).

Definition get_arr (N : nat) (p : list byte) : arr N * list byte := (arr_of N (take N p), drop N p).

(** ** Canonical binary form *)

Definition serialize_txn (tx : Txn) : list byte :=
  let out := [] in
  let out := put_u8 out (tx_ver tx) in
  let out := put_arr out (tx_from tx) in
  let out := put_arr out (tx_to tx) in
  let out := put_u64 out (tx_amount tx) in
  let out := put_u64 out (tx_nonce tx) in
  let out := put_arr out (tx_pubkey tx) in
  let out := put_arr out (tx_sig tx) in
  out.

Definition serialize_header (h : BlockHeader) : list byte :=
  let out := [] in
  let out := put_u64 out (h_index h) in
  let out := put_u64 out (h_timestamp h) in
  let out := put_arr out (h_prevHash h) in
  let out := put_arr out (h_txnsHash h) in
  let out := put_u64 out (h_nonce h) in
  out.

Definition deserialize_txn (bytes : list byte) : option Txn :=
  return_if negb (length bytes =? kTxnSize)%nat with None ;;
  let p := bytes in
  return_if negb (byte_to_Z (nth 0 p zero) =? kTxnVersion) with None ;;
  let '(ver, p) := (byte_to_Z (nth 0 p zero), drop 1 p) in
  let '(from, p) := get_arr 20 p in
  let '(to, p) := get_arr 20 p in
  let '(amount, p) := get_u64 p in
  let '(nonce, p) := get_u64 p in
  let '(pubkey, p) := get_arr 32 p in
  let '(sig, p) := get_arr 64 p in
  Some (mkTxn ver from to amount nonce pubkey sig).

Definition deserialize_header (bytes : list byte) : option BlockHeader :=
  return_if negb (length bytes =? kHeaderSize)%nat with None ;;
  let p := bytes in
  let '(index, p) := get_u64 p in
  let '(timestamp, p) := get_u64 p in
  let '(prevHash, p) := get_arr 32 p in
  let '(txnsHash, p) := get_arr 32 p in
  let '(nonce, p) := get_u64 p in
  Some (mkHeader index timestamp prevHash txnsHash nonce).

(** ** Derived values *)

Definition signed_payload (tx : Txn) : list byte := take kSignedPayloadSize (serialize_txn tx).

Section derived.
Context `{HashFn}.

Definition txid (tx : Txn) : Digest32 := sha256 (serialize_txn tx).

Definition txns_hash (l : list Txn) : Digest32 :=
  Sha256_final (foldl (λ h t, Sha256_update h (serialize_txn t)) Sha256_new l).

Definition block_hash (h : BlockHeader) : Digest32 := sha256 (serialize_header h).

(** [Block::computeTxnsHash]. *)
Definition computeTxnsHash (b : Block) : Digest32 := txns_hash (txns b).
End derived.

#[global] Arguments serialize_txn : simpl never.
#[global] Arguments serialize_header : simpl never.
#[global] Arguments signed_payload : simpl never.

(** ** Lemmas: layout *)

Lemma land_255 z : Z_to_byte (Z.land z 0xFF) = Z_to_byte z.
Proof. change 0xFF with (Z.ones 8). rewrite Z.land_ones by lia. apply Z_to_byte_mod. Qed.

Lemma put_u64_eq out v : put_u64 out v = out ++ be_encode 8 v.
Proof.
  unfold put_u64. cbn [foldl be_encode]. rewrite !land_255, !Z.shiftr_div_pow2 by lia.
  rewrite !Z.div_div by lia. rewrite Z.div_1_r, <- !app_assoc. done.
Qed.

Lemma serialize_txn_layout tx :
  serialize_txn tx =
    [Z_to_byte (tx_ver tx)] ++ arr_list (tx_from tx) ++ arr_list (tx_to tx) ++
    be_encode 8 (tx_amount tx) ++ be_encode 8 (tx_nonce tx) ++
    arr_list (tx_pubkey tx) ++ arr_list (tx_sig tx).
Proof.
  unfold serialize_txn, put_arr, put_u8. rewrite !put_u64_eq. by rewrite <- !app_assoc.
Qed.

Lemma serialize_header_layout h :
  serialize_header h =
    be_encode 8 (h_index h) ++ be_encode 8 (h_timestamp h) ++
    arr_list (h_prevHash h) ++ arr_list (h_txnsHash h) ++ be_encode 8 (h_nonce h).
Proof. unfold serialize_header, put_arr. rewrite !put_u64_eq. by rewrite <- !app_assoc. Qed.

Lemma serialize_txn_length tx : length (serialize_txn tx) = kTxnSize.
Proof. rewrite serialize_txn_layout, !length_app, !length_be_encode, !arr_length. done. Qed.

Lemma serialize_header_length h : length (serialize_header h) = kHeaderSize.
Proof. rewrite serialize_header_layout, !length_app, !length_be_encode, !arr_length. done. Qed.

Lemma get_u64_fold l v :
  0 <= v → v * 256 ^ Z.of_nat (length l) + be_decode l < 2 ^ 64 →
  foldl (λ v c, Z.lor (u64 (Z.shiftl v 8)) (byte_to_Z c)) v l =
  v * 256 ^ Z.of_nat (length l) + be_decode l.
Proof.
  revert v; induction l as [|c l IH]; intros v Hv Hb; [unfold be_decode; simpl; lia|].
  cbn [foldl length] in *. rewrite Target.be_decode_cons in *. rewrite pow256_S in *.
  pose proof (byte_to_Z_range c). pose proof (be_decode_range l).
  assert (Hsh : u64 (Z.shiftl v 8) = Z.shiftl v 8).
  { apply u64_id. rewrite Z.shiftl_mul_pow2 by done. unfold u64_ok. nia. }
  rewrite Hsh, lor_byte, IH by nia. nia.
Qed.

Lemma get_u64_eq p k :
  length p = 8%nat → get_u64 (p ++ k) = (be_decode p, k).
Proof.
  intros Hp. unfold get_u64. rewrite take_app_exact, drop_app_exact by done.
  rewrite get_u64_fold; [done|done|]. pose proof (be_decode_range p). rewrite Hp in *.
  change (256 ^ Z.of_nat 8) with (2 ^ 64) in *. lia.
Qed.

Lemma get_u64_encode v k : u64_ok v → get_u64 (be_encode 8 v ++ k) = (v, k).
Proof.
  intros Hv. rewrite get_u64_eq by apply length_be_encode. rewrite be_decode_encode.
  change (256 ^ Z.of_nat 8) with (2 ^ 64). by rewrite Z.mod_small.
Qed.

Lemma get_arr_eq {N} (a : arr N) k : get_arr N (arr_list a ++ k) = (a, k).
Proof.
  unfold get_arr. rewrite take_app_exact, drop_app_exact by by rewrite arr_length.
  by rewrite arr_of_arr_list.
Qed.

Lemma byte_to_Z_id z : 0 <= z < 256 → byte_to_Z (Z_to_byte z) = z.
Proof. intros. rewrite byte_to_Z_to_byte. by apply Z.mod_small. Qed.

#[export] Hint Rewrite @get_arr_eq serialize_txn_length serialize_header_length : txchain.

(** Decode field by field what was written field by field. *)
Ltac read_back :=
  repeat (first [rewrite get_arr_eq | rewrite get_u64_encode by done]; cbv beta iota).

(** ** Properties *)

Lemma deserialize_of_serialize t :
  txn_ok t → tx_ver t = kTxnVersion → deserialize_txn (serialize_txn t) = Some t.
Proof.
  intros (Hver & Ham & Hno) Hv.
  unfold deserialize_txn. rewrite serialize_txn_length. cbn [Nat.eqb kTxnSize negb].
  rewrite serialize_txn_layout. cbn [app nth]. rewrite byte_to_Z_id, Hv by done.
  cbn [skipn Z.eqb kTxnVersion negb Pos.eqb]. rewrite drop_0, <- (app_nil_r (arr_list (tx_sig t))).
  read_back. destruct t; simpl in *; congruence.
Qed.

(** C32. A transaction of the frozen schema version survives the canonical
    encoding: 153 bytes that decode back to it. *)
Theorem deserialize_serialize_txn (t : Txn) :
  txn_ok t → tx_ver t = kTxnVersion →
  length (serialize_txn t) = 153%nat ∧ deserialize_txn (serialize_txn t) = Some t.
Proof. intros Ht Hv. split; [apply serialize_txn_length|by apply deserialize_of_serialize]. Qed.

Lemma deserialize_serialize_txn_witness :
  let t := mkTxn 1 (arr_lit 20 [1]) (arr_lit 20 [2]) 500 (2 ^ 64 - 1) (arr_lit 32 [3]) (arr_lit 64 [4]) in
  length (serialize_txn t) = 153%nat ∧ deserialize_txn (serialize_txn t) = Some t.
Proof. apply deserialize_serialize_txn; [vm_compute; repeat split; congruence | reflexivity]. Defined.

(** The bytes an accepted buffer is made of. *)
Lemma split_at {A} n (l : list A) : l = take n l ++ drop n l.
Proof. by rewrite take_drop. Qed.

Lemma get_arr_sound N p a k : (N ≤ length p)%nat → get_arr N p = (a, k) → p = arr_list a ++ k.
Proof.
  intros Hp [= <- <-]. rewrite arr_of_list by (rewrite length_take; lia). by rewrite take_drop.
Qed.

Lemma get_u64_sound p v k :
  (8 ≤ length p)%nat → get_u64 p = (v, k) → p = be_encode 8 v ++ k ∧ u64_ok v.
Proof.
  intros Hp E. rewrite (split_at 8 p) in E.
  assert (Hl : length (take 8 p) = 8%nat) by (rewrite length_take; lia).
  rewrite get_u64_eq in E by done. injection E as <- <-.
  pose proof (be_encode_decode (take 8 p)) as He. rewrite Hl in He. rewrite He, take_drop.
  split; [done|]. pose proof (be_decode_range (take 8 p)) as Hr. rewrite Hl in Hr.
  exact Hr.
Qed.

Ltac read_field H :=
  first [ apply get_arr_sound in H; [|rewrite ?length_drop; lia]
        | apply get_u64_sound in H; [destruct H as [H ?]|rewrite ?length_drop; lia] ].

(** Reading a field consumes its width. *)
Lemma get_arr_rest N p a k : get_arr N p = (a, k) → length k = (length p - N)%nat.
Proof. intros [= _ <-]. apply length_drop. Qed.
Lemma get_u64_rest p v k : get_u64 p = (v, k) → length k = (length p - 8)%nat.
Proof. intros [= _ <-]. apply length_drop. Qed.

Lemma deserialize_sound (b : list byte) (t : Txn) :
  deserialize_txn b = Some t → serialize_txn t = b ∧ txn_ok t ∧ tx_ver t = kTxnVersion.
Proof.
  unfold deserialize_txn. destruct (Nat.eqb_spec (length b) kTxnSize) as [Hl|]; [|done].
  cbn [negb]. destruct (Z.eqb_spec (byte_to_Z (nth 0 b zero)) kTxnVersion) as [Hv|]; [|done].
  cbn [negb]. unfold kTxnSize in Hl. destruct b as [|b0 b]; [done|]. cbn [nth skipn length] in *. rewrite drop_0.
  destruct (get_arr 20 b) as [from p1] eqn:E1. pose proof (get_arr_rest _ _ _ _ E1).
  destruct (get_arr 20 p1) as [to p2] eqn:E2. pose proof (get_arr_rest _ _ _ _ E2).
  destruct (get_u64 p2) as [amount p3] eqn:E3. pose proof (get_u64_rest _ _ _ E3).
  destruct (get_u64 p3) as [nonce p4] eqn:E4. pose proof (get_u64_rest _ _ _ E4).
  destruct (get_arr 32 p4) as [pubkey p5] eqn:E5. pose proof (get_arr_rest _ _ _ _ E5).
  destruct (get_arr 64 p5) as [sig p6] eqn:E6. pose proof (get_arr_rest _ _ _ _ E6).
  intros [= <-]. read_field E1. read_field E2. read_field E3. read_field E4. read_field E5.
  read_field E6. assert (p6 = []) as -> by (apply nil_length_inv; lia).
  rewrite serialize_txn_layout. unfold txn_ok. cbn [tx_ver tx_from tx_to tx_amount tx_nonce tx_pubkey tx_sig].
  rewrite Z_to_byte_to_Z. pose proof (byte_to_Z_range b0). split; [|tauto].
  rewrite app_nil_r in E6. cbn [app]. congruence.
Qed.

(** Decoding is canonical: whatever buffer [deserialize_txn] accepts is
    the one serialization of the transaction it returns, with every field in
    range and the frozen version. No two buffers decode to one transaction. *)
Theorem deserialize_txn_sound (b : list byte) (t : Txn) :
  deserialize_txn b = Some t → serialize_txn t = b ∧ txn_ok t ∧ tx_ver t = kTxnVersion.
Proof. apply deserialize_sound. Qed.

Lemma deserialize_txn_sound_witness :
  ∃ t, let b := Z_to_byte 1 :: replicate 152 zero in
       deserialize_txn b = Some t ∧
       (serialize_txn t = b ∧ txn_ok t ∧ tx_ver t = kTxnVersion).
Proof.
  eexists. split; [reflexivity|]. apply deserialize_txn_sound. reflexivity.
Defined.

(** The header encoding is a bijection between headers of
    machine-width fields and 88-byte buffers. *)
Theorem header_bijection (b : list byte) (h : BlockHeader) :
  header_ok h ∧ serialize_header h = b ↔ deserialize_header b = Some h.
Proof.
  unfold deserialize_header. split.
  - intros [(Hi & Ht & Hn) <-]. rewrite serialize_header_length. cbn [Nat.eqb kHeaderSize negb].
    rewrite serialize_header_layout, <- (app_nil_r (be_encode 8 (h_nonce h))). read_back.
    by destruct h.
  - destruct (Nat.eqb_spec (length b) kHeaderSize) as [Hl|]; [|done]. cbn [negb].
    unfold kHeaderSize in Hl.
    destruct (get_u64 b) as [index p1] eqn:E1. pose proof (get_u64_rest _ _ _ E1).
    destruct (get_u64 p1) as [timestamp p2] eqn:E2. pose proof (get_u64_rest _ _ _ E2).
    destruct (get_arr 32 p2) as [prevHash p3] eqn:E3. pose proof (get_arr_rest _ _ _ _ E3).
    destruct (get_arr 32 p3) as [txnsHash p4] eqn:E4. pose proof (get_arr_rest _ _ _ _ E4).
    destruct (get_u64 p4) as [nonce p5] eqn:E5. pose proof (get_u64_rest _ _ _ E5).
    intros [= <-]. read_field E1. read_field E2. read_field E3. read_field E4. read_field E5.
    assert (p5 = []) as -> by (apply nil_length_inv; lia).
    rewrite serialize_header_layout. unfold header_ok.
    cbn [h_index h_timestamp h_prevHash h_txnsHash h_nonce].
    rewrite app_nil_r in E5. split; [tauto|congruence].
Qed.

(** ** What is signed and what is hashed *)

Lemma signed_payload_layout t :
  signed_payload t =
    [Z_to_byte (tx_ver t)] ++ arr_list (tx_from t) ++ arr_list (tx_to t) ++
    be_encode 8 (tx_amount t) ++ be_encode 8 (tx_nonce t) ++ arr_list (tx_pubkey t).
Proof.
  unfold signed_payload. rewrite serialize_txn_layout, !app_assoc.
  rewrite take_app_exact; [done|]. by rewrite !length_app, !length_be_encode, !arr_length.
Qed.

Lemma serialize_txn_payload t : serialize_txn t = signed_payload t ++ arr_list (tx_sig t).
Proof. rewrite signed_payload_layout, serialize_txn_layout. by rewrite <- !app_assoc. Qed.

Lemma signed_payload_length t : length (signed_payload t) = kSignedPayloadSize.
Proof. unfold signed_payload. by rewrite length_take, serialize_txn_length. Qed.

Lemma serialize_txn_inj t u : txn_ok t → txn_ok u → serialize_txn t = serialize_txn u → t = u.
Proof.
  intros (? & ? & ?) (? & ? & ?). rewrite !serialize_txn_layout. intros E.
  apply app_inj_len in E as [E0 E]; [|done].
  apply app_inj_len in E as [E1 E]; [|by rewrite !arr_length].
  apply app_inj_len in E as [E2 E]; [|by rewrite !arr_length].
  apply app_inj_len in E as [E3 E]; [|by rewrite !length_be_encode].
  apply app_inj_len in E as [E4 E]; [|by rewrite !length_be_encode].
  apply app_inj_len in E as [E5 E6]; [|by rewrite !arr_length].
  assert (∀ v w, u64_ok v → u64_ok w → be_encode 8 v = be_encode 8 w → v = w) as Hbe.
  { intros v w Hv Hw He. apply (f_equal be_decode) in He. rewrite !be_decode_encode in He.
    change (256 ^ Z.of_nat 8) with (2 ^ 64) in He. by rewrite !Z.mod_small in He. }
  apply arr_eq in E1, E2, E5, E6. apply Hbe in E3, E4; [|done..].
  injection E0 as E0. apply (f_equal byte_to_Z) in E0. rewrite !byte_to_Z_id in E0 by done.
  destruct t, u; simpl in *; congruence.
Qed.

Lemma serialize_header_inj h g :
  header_ok h → header_ok g → serialize_header h = serialize_header g → h = g.
Proof.
  intros Hh Hg E. pose proof (proj1 (header_bijection _ h) (conj Hh eq_refl)) as E1.
  pose proof (proj1 (header_bijection _ g) (conj Hg eq_refl)) as E2.
  rewrite E in E1. congruence.
Qed.

Lemma signed_payload_ext t u :
  tx_ver t = tx_ver u → tx_from t = tx_from u → tx_to t = tx_to u → tx_amount t = tx_amount u →
  tx_nonce t = tx_nonce u → tx_pubkey t = tx_pubkey u → signed_payload t = signed_payload u.
Proof.
  intros. rewrite !signed_payload_layout. congruence.
Qed.

(** The signature covers every field but itself: two transactions
    have the same 89-byte signed payload exactly when they agree on version,
    addresses, amount, nonce and public key. *)
Theorem signed_payload_covers (t u : Txn) :
  txn_ok t → txn_ok u →
  signed_payload t = signed_payload u ↔
  (tx_ver t, tx_from t, tx_to t, tx_amount t, tx_nonce t, tx_pubkey t) =
  (tx_ver u, tx_from u, tx_to u, tx_amount u, tx_nonce u, tx_pubkey u).
Proof.
  intros Ht Hu. split; [|intros [=]; by apply signed_payload_ext].
  intros E. set (t' := mkTxn (tx_ver t) (tx_from t) (tx_to t) (tx_amount t) (tx_nonce t)
                             (tx_pubkey t) (tx_sig u)).
  assert (t' = u) as Heq; [|by rewrite <- Heq].
  apply serialize_txn_inj; [done..|]. rewrite !serialize_txn_payload. cbn [tx_sig t'].
  rewrite <- E. f_equal. by apply signed_payload_ext.
Qed.

Lemma signed_payload_covers_witness :
  let t := mkTxn 1 (arr_lit 20 [1]) (arr_lit 20 [2]) 5 0 (arr_lit 32 [3]) (arr_lit 64 [4]) in
  let u := mkTxn 1 (arr_lit 20 [1]) (arr_lit 20 [2]) 6 0 (arr_lit 32 [3]) (arr_lit 64 [4]) in
  signed_payload t = signed_payload u ↔
  (tx_ver t, tx_from t, tx_to t, tx_amount t, tx_nonce t, tx_pubkey t) =
  (tx_ver u, tx_from u, tx_to u, tx_amount u, tx_nonce u, tx_pubkey u).
Proof. apply signed_payload_covers; vm_compute; repeat split; congruence. Defined.

Section commitments.
Context {H : HashFn} {L : HashLaws H}.

Lemma txns_hash_eq l : txns_hash l = sha256 (concat (map serialize_txn l)).
Proof.
  rewrite <- streaming_is_oneshot. unfold txns_hash. f_equal.
  generalize Sha256_new. induction l as [|t l IH]; intros c; simpl; [done|]. apply IH.
Qed.

Lemma concat_serialize_inj l l' :
  Forall txn_ok l → Forall txn_ok l' →
  concat (map serialize_txn l) = concat (map serialize_txn l') → l = l'.
Proof.
  intros Hl. revert l'. induction Hl as [|t l Ht Hl IH]; intros [|u l'] Hl' E; cbn [map concat] in E.
  - done.
  - apply (f_equal length) in E. rewrite length_app, serialize_txn_length in E. done.
  - apply (f_equal length) in E. rewrite length_app, serialize_txn_length in E. done.
  - inversion_clear Hl'. apply app_inj_len in E as [E1 E2]; [|by rewrite !serialize_txn_length].
    f_equal; [by apply serialize_txn_inj | by apply IH].
Qed.

(** [txnsHash] commits to the exact ordered list of transactions:
    the streamed digest is the hash of the concatenated canonical forms,
    and two different lists with one digest exhibit, in those very
    concatenations, a collision of the hash function. *)
Theorem txns_hash_commits (l l' : list Txn) :
  Forall txn_ok l → Forall txn_ok l' → l ≠ l' → txns_hash l = txns_hash l' →
  concat (map serialize_txn l) ≠ concat (map serialize_txn l') ∧
  sha256 (concat (map serialize_txn l)) = sha256 (concat (map serialize_txn l')).
Proof.
  intros Hl Hl' Hne E. rewrite !txns_hash_eq in E. split; [|done].
  intros Ec. apply Hne. by apply concat_serialize_inj.
Qed.
End commitments.

Lemma txns_hash_commits_witness :
  let H := Demo.const_hash in
  let t := mkTxn 1 (arr_lit 20 [1]) (arr_lit 20 [2]) 5 0 (arr_lit 32 [3]) (arr_lit 64 [4]) in
  concat (map serialize_txn []) ≠ concat (map serialize_txn [t]) ∧
  sha256 (concat (map serialize_txn [])) = sha256 (concat (map serialize_txn [t])).
Proof.
  intros H t. apply (txns_hash_commits (H := H) (L := Demo.const_hash_laws)); [constructor| |done|done].
  repeat constructor; vm_compute; congruence.
Defined.

(** ** Golden vectors

    [tests/golden/serialize_vectors.hpp], evaluated with the vendored
    SHA-256: the model's bytes are the program's bytes. *)

Module Golden.
Definition hex32 (s : string) : Digest32 := default (arr_zero 32) (Hex.from_hex 32 (txt s)).
Definition hex20 (s : string) : Address20 := default (arr_zero 20) (Hex.from_hex 20 (txt s)).

Definition vector_a : Txn :=
  mkTxn 1 (hex20 "75877bb41d393b5fb8455ce60ecd8dda001d0631")
    (hex20 "aabbccddeeff00112233445566778899aabbccdd") 100 0
    (arr_lit 32 (replicate 32 0x02)) (arr_lit 64 (replicate 64 0x07)).

Definition vector_c : BlockHeader :=
  mkHeader 1 1704067201
    (hex32 "00000000000000000000000000000000000000000000000000000000000000ff")
    (hex32 "f494b9e7e22da1dfd4d226dae987527c51cd65aaf8c08c747ff17ab5e5de32b0") 42.

Example address_rule :
  address (H := vendored_sha256) (arr_lit 32 (replicate 32 0x02)) = tx_from vector_a.
Proof. apply arr_eq. vm_compute. reflexivity. Qed.
End Golden.

(** The three golden vectors of the test-suite: the txid of vector A, the
    [txnsHash] committing to it, and the block hash of vector C, computed by
    the model over the vendored SHA-256. *)
Theorem golden_vectors :
  let H := vendored_sha256 in
  Hex.to_hex (arr_list (txid Golden.vector_a)) =
    txt "f494b9e7e22da1dfd4d226dae987527c51cd65aaf8c08c747ff17ab5e5de32b0" ∧
  txns_hash [Golden.vector_a] = h_txnsHash Golden.vector_c ∧
  Hex.to_hex (arr_list (block_hash Golden.vector_c)) =
    txt "c80bac7618b8618e4674f91d069cdc441a247357dab38c3a180305825205defc".
Proof.
  split; [vm_compute; reflexivity|]. split; [apply arr_eq; vm_compute; reflexivity|].
  vm_compute; reflexivity.
Qed.
