(* ===== verification/Wallet.v ===== *)
(** Wallet keys and transaction signing: [include/txchain/wallet/wallet.hpp],
    [src/wallet/wallet.cpp] ([wallet_create], [sign_txn],
    [wallet_path_for_datadir]). *)

From Stdlib Require Import ZArith Lia Ascii String.
From stdpp Require Import base list.
From S2P Require Import Prelude Sha256 Crypto Canonical.

Record Wallet := mkWallet { w_seed : Seed32; w_pubkey : PubKey32; w_address : Address20 }.

(** [datadir + "/" + name], without doubling a trailing slash (the path
    helper of [wallet_path_for_datadir] and [ChainStore::forDatadir]). *)
Definition path_join (datadir name : list byte) : list byte :=
  let p := datadir in
  let p := if negb (length p =? 0)%nat && negb (bool_decide (last p = Some (Z_to_byte 47)))
           then p ++ [Z_to_byte 47] else p in
  p ++ name.

Definition wallet_path_for_datadir (datadir : list byte) : list byte :=
  path_join datadir (txt "wallet.key").

Section wallet.
Context {H : HashFn} {E : Ed25519}.

(** [None] where [crypto::keygen] throws. *)
Definition wallet_create (csprng : option Seed32) : option Wallet :=
  kp ← keygen csprng;
  Some (mkWallet (kp_seed kp) (kp_pubkey kp) (address (kp_pubkey kp))).

Definition sign_txn (seed : Seed32) (to : Address20) (amount nonce : Z) : Txn :=
  let pubkey := derive_pubkey seed in
  let t := mkTxn kTxnVersion (address pubkey) to amount nonce pubkey (arr_zero 64) in
  let payload := signed_payload t in
  mkTxn (tx_ver t) (tx_from t) (tx_to t) (tx_amount t) (tx_nonce t) (tx_pubkey t)
        (sign seed payload).

(** The payload the verifier recomputes is the one that was signed. *)
Lemma sign_txn_payload seed to amount n :
  tx_sig (sign_txn seed to amount n) = sign seed (signed_payload (sign_txn seed to amount n)).
Proof. unfold sign_txn; cbn [tx_sig]. f_equal. by apply signed_payload_ext. Qed.

Context {EL : Ed25519Laws E}.

Lemma sign_txn_verifies seed to amount n :
  let t := sign_txn seed to amount n in
  verify (tx_pubkey t) (tx_sig t) (signed_payload t) = true.
Proof. intros t. unfold t. rewrite sign_txn_payload. apply verify_sign. Qed.
End wallet.
