(* ===== verification/Gate.v ===== *)
(** The per-transaction verification gate and the account state it acts on:
    [include/txchain/chain/{types,params,reason,genesis,gate}.hpp],
    [src/chain/gate.cpp], [src/chain/genesis.cpp].

    [applyTxn] and [applyBlockTxns] are the single predicate shared by the
    incremental commit path (file Chain) and the from-genesis validator (file
    Validate).  Both mutate the account map they are given: here they return
    it next to their verdict. *)

From Stdlib Require Import ZArith Lia Ascii String.
From stdpp Require Import base list strings gmap fin_maps.
From S2P Require Import Prelude Sha256 Crypto Canonical Wallet.

(** ** Parameters, reasons, accounts *)

Definition MAX_CLOCK_SKEW_S : Z := 7200.
Definition MAX_TXNS_PER_BLOCK : nat := 8.
Definition COINBASE_REWARD : Z := 50.
Definition DIFFICULTY_BITS : Z := 22.

Inductive Reason :=
  | OK | BAD_LINK | BAD_TXNS_HASH | BAD_POW | BAD_SIG | BAD_ADDR
  | STALE_NONCE | INSUFFICIENT_FUNDS | BAD_SUPPLY.

#[export] Instance Reason_eq_dec : EqDecision Reason.
Proof. solve_decision. Defined.

Record AccountState := mkAcct { balance : Z; nonce : Z }.

#[export] Instance AccountState_eq_dec : EqDecision AccountState.
Proof. solve_decision. Defined.

Definition acct0 : AccountState := mkAcct 0 0.

(** [std::map<Address, AccountState>]. *)
Abbreviation accounts := (gmap Address20 AccountState).

(** [work.count(a) ? work[a] : AccountState{}]. *)
Definition acct_at (work : accounts) (a : Address20) : AccountState := default acct0 (work !! a).

(** [work[a].balance += v]: [operator[]] creates the empty account first. *)
Definition credit (work : accounts) (a : Address20) (v : Z) : accounts :=
  let s := acct_at work a in <[a := mkAcct (u64 (balance s + v)) (nonce s)]> work.

(** ** Genesis *)

Record GenesisEntry := mkEntry { ge_addr : Address20; ge_amount : Z }.

Definition GENESIS_COUNT : nat := 5.
Definition GENESIS_SUPPLY : Z := 5000.
Definition GENESIS_TIMESTAMP : Z := 1704067200.

Definition GENESIS_ALLOC : list GenesisEntry := [
  mkEntry (arr_lit 20 [0x62; 0x5c; 0x36; 0xc3; 0x4a; 0x65; 0x6b; 0xf2; 0x5a; 0x53;
                       0x8f; 0x8c; 0x23; 0xa1; 0x31; 0x86; 0x98; 0x5a; 0xf6; 0x69]) 1000;
  mkEntry (arr_lit 20 [0x70; 0xdc; 0xb6; 0xdd; 0xa5; 0xae; 0xae; 0x7b; 0xfc; 0x6f;
                       0x08; 0xc5; 0x90; 0x40; 0x2f; 0x6c; 0x0c; 0x78; 0x97; 0x02]) 1000;
  mkEntry (arr_lit 20 [0x25; 0xb3; 0xab; 0x87; 0x8b; 0x41; 0x2c; 0x08; 0x67; 0x9b;
                       0x9d; 0x2f; 0xd0; 0xa3; 0x0b; 0xc5; 0x28; 0xdc; 0x07; 0x0d]) 1000;
  mkEntry (arr_lit 20 [0x32; 0x62; 0xbd; 0x9c; 0x6c; 0xdb; 0xe7; 0x68; 0x05; 0x05;
                       0x8f; 0x64; 0x5f; 0x74; 0x1b; 0x8f; 0x15; 0xec; 0x14; 0xfa]) 1000;
  mkEntry (arr_lit 20 [0x99; 0x3b; 0x59; 0x10; 0xd2; 0xfa; 0x78; 0x40; 0x01; 0x75;
                       0x98; 0x37; 0x91; 0xf4; 0x53; 0x5d; 0x16; 0x9e; 0xb7; 0xe3]) 1000 ].

Definition genesis_supply_sum : Z := foldl (λ s e, u64 (s + ge_amount e)) 0 GENESIS_ALLOC.

(** [state.clear()], then one account per table entry. *)
Definition applyGenesis (state : accounts) : accounts :=
  foldl (λ s e, <[ge_addr e := mkAcct (ge_amount e) 0]> s) ∅ GENESIS_ALLOC.

Definition genesisBlock `{HashFn} : Block :=
  mkBlock (mkHeader 0 GENESIS_TIMESTAMP (arr_zero 32) (txns_hash []) 0) [].

(** ** The gate *)

Definition kNullAddr : Address20 := arr_zero 20.
Definition kNullPub : PubKey32 := arr_zero 32.
Definition kNullSig : Sig64 := arr_zero 64.

Definition txn_detail (r : Reason) (ti : nat) : list byte :=
  let suffix := txt " for txn " ++ to_string (Z.of_nat ti) in
  match r with
  | BAD_ADDR => txt "from != SHA-256(pubkey)[:20]" ++ suffix
  | BAD_SIG => txt "ed25519 verify failed" ++ suffix
  | STALE_NONCE => txt "nonce not next-expected" ++ suffix
  | INSUFFICIENT_FUNDS => txt "amount exceeds balance" ++ suffix
  | _ => txt "txn" ++ suffix
  end.

Definition coinbaseTxn (to : Address20) (height : Z) : Txn :=
  mkTxn kTxnVersion kNullAddr to COINBASE_REWARD height kNullPub kNullSig.

(** [!(t.pubkey == kNullPub) || !(t.sig == kNullSig) || t.nonce != block_index]. *)
Definition malformed_coinbase (t : Txn) (block_index : Z) : bool :=
  negb (bool_decide (tx_pubkey t = kNullPub)) || negb (bool_decide (tx_sig t = kNullSig)) ||
  negb (tx_nonce t =? block_index).

Record BlockApplyResult := mkApply { reason : Reason; detail : list byte; txn_index : nat }.

Section gate.
Context {H : HashFn} {E : Ed25519}.

Definition applyTxn (work : accounts) (t : Txn) (block_index : Z) (txn_index : nat)
  : Reason * accounts :=
  if bool_decide (tx_from t = kNullAddr) then
    return_if negb (txn_index =? 0)%nat with (BAD_TXNS_HASH, work) ;;
    return_if malformed_coinbase t block_index with (BAD_TXNS_HASH, work) ;;
    return_if negb (tx_amount t =? COINBASE_REWARD) with (BAD_SUPPLY, work) ;;
    (OK, credit work (tx_to t) (tx_amount t))
  else
    return_if negb (address_matches (tx_from t) (tx_pubkey t)) with (BAD_ADDR, work) ;;
    let payload := signed_payload t in
    return_if negb (verify (tx_pubkey t) (tx_sig t) payload) with (BAD_SIG, work) ;;
    let from_before := acct_at work (tx_from t) in
    return_if negb (tx_nonce t =? nonce from_before) with (STALE_NONCE, work) ;;
    return_if balance from_before <? tx_amount t with (INSUFFICIENT_FUNDS, work) ;;
    let to_before := acct_at work (tx_to t) in
    let from_after :=
      mkAcct (u64 (balance from_before - tx_amount t)) (u64 (nonce from_before + 1)) in
    let to_after := mkAcct (u64 (balance to_before + tx_amount t)) (nonce to_before) in
    (OK, <[tx_to t := to_after]> (<[tx_from t := from_after]> work)).

(** The loop of [applyBlockTxns] from transaction [ti] on. *)
Fixpoint applyBlockTxns_loop (work : accounts) (idx : Z) (l : list Txn) (ti : nat)
    (coinbase_count : Z) : BlockApplyResult * Z * accounts :=
  match l with
  | [] => (mkApply OK [] 0, coinbase_count, work)
  | t :: rest =>
      if bool_decide (tx_from t = kNullAddr) then
        let coinbase_count := coinbase_count + 1 in
        return_if 1 <? coinbase_count
          with (mkApply BAD_TXNS_HASH (txt "duplicate coinbase") ti, coinbase_count, work) ;;
        return_if negb (ti =? 0)%nat
          with (mkApply BAD_TXNS_HASH (txt "coinbase not at tx0") ti, coinbase_count, work) ;;
        return_if malformed_coinbase t idx
          with (mkApply BAD_TXNS_HASH (txt "malformed coinbase") ti, coinbase_count, work) ;;
        return_if negb (tx_amount t =? COINBASE_REWARD)
          with (mkApply BAD_SUPPLY (txt "bad coinbase reward") ti, coinbase_count, work) ;;
        applyBlockTxns_loop (credit work (tx_to t) (tx_amount t)) idx rest (S ti) coinbase_count
      else
        let '(r, work) := applyTxn work t idx ti in
        return_if negb (bool_decide (r = OK))
          with (mkApply r (txn_detail r ti) ti, coinbase_count, work) ;;
        applyBlockTxns_loop work idx rest (S ti) coinbase_count
  end.

Definition applyBlockTxns (work : accounts) (b : Block) (reward : Z)
  : BlockApplyResult * accounts :=
  let idx := h_index (header b) in
  let '(r, coinbase_count, work) := applyBlockTxns_loop work idx (txns b) 0 0 in
  return_if negb (bool_decide (reason r = OK)) with (r, work) ;;
  return_if (0 <? reward) && (coinbase_count =? 0)
    with (mkApply BAD_SUPPLY (txt "missing coinbase") (length (txns b)), work) ;;
  (mkApply OK [] 0, work).
End gate.

(** ** Abstract specification of a block's effect

    A transfer moves coins when it is authentic, next in its sender's nonce
    sequence and funded; a coinbase mints the reward; a block body is an
    optional leading coinbase followed by transfers. *)

Section spec.
Context {H : HashFn} {E : Ed25519}.

Record transfer_ok (w : accounts) (t : Txn) : Prop := {
  tr_user : tx_from t ≠ kNullAddr;
  tr_addr : tx_from t = address (tx_pubkey t);
  tr_sig : verify (tx_pubkey t) (tx_sig t) (signed_payload t) = true;
  tr_nonce : tx_nonce t = nonce (acct_at w (tx_from t));
  tr_funds : tx_amount t <= balance (acct_at w (tx_from t))
}.

(** Debit and bump the sender, then store the receiver as it was read
    before the debit, plus the amount. *)
Definition move (w : accounts) (t : Txn) : accounts :=
  let f := acct_at w (tx_from t) in
  let r := acct_at w (tx_to t) in
  <[tx_to t := mkAcct (u64 (balance r + tx_amount t)) (nonce r)]>
    (<[tx_from t := mkAcct (u64 (balance f - tx_amount t)) (u64 (nonce f + 1))]> w).

Record coinbase_ok (idx : Z) (t : Txn) : Prop := {
  cb_null : tx_from t = kNullAddr;
  cb_pub : tx_pubkey t = kNullPub;
  cb_sig : tx_sig t = kNullSig;
  cb_height : tx_nonce t = idx;
  cb_reward : tx_amount t = COINBASE_REWARD
}.

Inductive transfers : accounts → list Txn → accounts → Prop :=
  | transfers_nil w : transfers w [] w
  | transfers_cons w t l w' :
      transfer_ok w t → transfers (move w t) l w' → transfers w (t :: l) w'.

(** What a block body with index [idx] does under block reward [reward]. *)
Inductive block_run (reward idx : Z) : accounts → list Txn → accounts → Prop :=
  | run_coinbase w t l w' :
      coinbase_ok idx t → transfers (credit w (tx_to t) (tx_amount t)) l w' →
      block_run reward idx w (t :: l) w'
  | run_plain w l w' : reward <= 0 → transfers w l w' → block_run reward idx w l w'.

(** ** The gate implements the specification *)

Lemma applyTxn_user_ok w t bi ti w' :
  tx_from t ≠ kNullAddr →
  applyTxn w t bi ti = (OK, w') ↔ transfer_ok w t ∧ w' = move w t.
Proof.
  intros Hu. unfold applyTxn. rewrite bool_decide_eq_false_2 by done.
  unfold address_matches. split.
  - intros Ha. split_guards_in Ha; simplify_eq; reflect_bools. by split.
  - intros [[_ Haddr Hsig Hn Hf] ->].
    rewrite (bool_decide_eq_true_2 _ Haddr), Hsig, Hn, Z.eqb_refl. cbn [negb].
    by rewrite (proj2 (Z.ltb_ge _ _) Hf).
Qed.

Lemma malformed_coinbase_false idx t :
  malformed_coinbase t idx = false ↔
  tx_pubkey t = kNullPub ∧ tx_sig t = kNullSig ∧ tx_nonce t = idx.
Proof.
  unfold malformed_coinbase. rewrite !orb_false_iff, !negb_false_iff, !bool_decide_eq_true, Z.eqb_eq.
  tauto.
Qed.

(** The first failing check leaves the map as it was. *)
Lemma applyTxn_fail_unchanged w t bi ti r w' :
  applyTxn w t bi ti = (r, w') → r ≠ OK → w' = w.
Proof. unfold applyTxn. intros Ha Hr. split_guards_in Ha; simplify_eq; done. Qed.

Lemma applyTxn_user_fail w t bi ti r w' :
  tx_from t ≠ kNullAddr → applyTxn w t bi ti = (r, w') → r ≠ OK → ¬ transfer_ok w t.
Proof.
  intros Hu Ha Hr Ht.
  pose proof (proj2 (applyTxn_user_ok w t bi ti _ Hu) (conj Ht eq_refl)). congruence.
Qed.

Abbreviation okr := (mkApply OK [] 0).

(** One iteration on a null-[from] transaction, and on a user transaction. *)
Lemma loop_coinbase w idx t l ti c cc w' :
  tx_from t = kNullAddr → 0 <= c →
  applyBlockTxns_loop w idx (t :: l) ti c = (okr, cc, w') ↔
  c = 0 ∧ ti = 0%nat ∧ coinbase_ok idx t ∧
  applyBlockTxns_loop (credit w (tx_to t) (tx_amount t)) idx l (S ti) (c + 1) = (okr, cc, w').
Proof.
  intros Hnull Hc. cbn [applyBlockTxns_loop]. rewrite bool_decide_eq_true_2 by done. split.
  - intros Hl. split_guards_in Hl; simplify_eq; reflect_bools.
    match goal with H : malformed_coinbase _ _ = false |- _ =>
      apply malformed_coinbase_false in H as (?&?&?) end.
    split; [lia|]. split; [done|]. by split.
  - intros (-> & -> & [_ Hp Hs Hn Ha] & Hl).
    rewrite (proj2 (malformed_coinbase_false idx t)) by done. by rewrite Ha in *.
Qed.

Lemma loop_user w idx t l ti c cc w' :
  tx_from t ≠ kNullAddr →
  applyBlockTxns_loop w idx (t :: l) ti c = (okr, cc, w') ↔
  transfer_ok w t ∧ applyBlockTxns_loop (move w t) idx l (S ti) c = (okr, cc, w').
Proof.
  intros Hu. cbn [applyBlockTxns_loop]. rewrite bool_decide_eq_false_2 by done.
  destruct (applyTxn w t idx ti) as [r w1] eqn:Ha. case_bool_decide as Hr; cbn [negb].
  - subst r. apply applyTxn_user_ok in Ha as [Ht ->]; [|done]. tauto.
  - pose proof (applyTxn_user_fail _ _ _ _ _ _ Hu Ha Hr) as Hno.
    split; [intros [=]; done | tauto].
Qed.

Lemma transfers_cons_iff w t l w' :
  transfers w (t :: l) w' ↔ transfer_ok w t ∧ transfers (move w t) l w'.
Proof. split; [by inversion 1 | intros []; by constructor]. Qed.

(** Past the first position only transfers are accepted. *)
Lemma loop_transfers w idx l ti c cc w' :
  0 <= c → (0 < ti)%nat →
  applyBlockTxns_loop w idx l ti c = (okr, cc, w') ↔ cc = c ∧ transfers w l w'.
Proof.
  intros Hc. revert w ti. induction l as [|t l IH]; intros w ti Hti.
  { cbn. split; [intros [= <- <-]; by split; [|constructor]|].
    intros [-> Ht]. by inversion Ht. }
  rewrite transfers_cons_iff. destruct (decide (tx_from t = kNullAddr)) as [Hn|Hu].
  - rewrite loop_coinbase by done. split; [lia|]. intros (_ & Ht & _). by destruct (tr_user _ _ Ht).
  - rewrite loop_user, IH by (done || lia). tauto.
Qed.

Lemma loop_from_start w idx l cc w' :
  applyBlockTxns_loop w idx l 0 0 = (okr, cc, w') ↔
  (cc = 0 ∧ transfers w l w') ∨
  (cc = 1 ∧ ∃ t l', l = t :: l' ∧ coinbase_ok idx t ∧
                    transfers (credit w (tx_to t) (tx_amount t)) l' w').
Proof.
  destruct l as [|t l].
  { cbn. split; [intros [= <- <-]; left; by split; [|constructor]|].
    intros [[-> Ht]|(_ & ? & ? & ? & _)]; [by inversion Ht | done]. }
  destruct (decide (tx_from t = kNullAddr)) as [Hn|Hu].
  - rewrite loop_coinbase, loop_transfers, transfers_cons_iff by (done || lia). split.
    + intros (_ & _ & Hcb & -> & Ht). right. eauto 6.
    + intros [(_ & Ht & _)|(-> & t' & l' & [= <- <-] & Hcb & Ht)]; [by destruct (tr_user _ _ Ht)|done].
  - rewrite loop_user, loop_transfers, transfers_cons_iff by (done || lia). split; [tauto|].
    intros [?|(_ & t' & l' & [= <- <-] & Hcb & _)]; [tauto|]. by destruct Hu, Hcb.
Qed.

Lemma loop_result_ok w idx l ti c r cc w' :
  applyBlockTxns_loop w idx l ti c = (r, cc, w') → reason r = OK → r = okr.
Proof.
  revert w ti c. induction l as [|t l IH]; intros w ti c; cbn [applyBlockTxns_loop]; [by intros [= <-]|].
  intros Ha Hr. case_bool_decide.
  - split_guards_in Ha; simplify_eq; simpl in Hr; try done. by eapply IH.
  - destruct (applyTxn w t idx ti) as [r1 w1]. case_bool_decide; cbn [negb] in Ha; [by eapply IH|].
    by simplify_eq/=.
Qed.

Lemma applyBlockTxns_loop_iff w b reward w' :
  applyBlockTxns w b reward = (okr, w') ↔
  ∃ cc, applyBlockTxns_loop w (h_index (header b)) (txns b) 0 0 = (okr, cc, w') ∧
        (reward <= 0 ∨ cc ≠ 0).
Proof.
  unfold applyBlockTxns. destruct (applyBlockTxns_loop _ _ _ _ _) as [[r cc] w1] eqn:El.
  case_bool_decide as Hr; cbn [negb].
  - pose proof (loop_result_ok _ _ _ _ _ _ _ _ El Hr) as ->.
    destruct (Z.ltb_spec 0 reward), (Z.eqb_spec cc 0); cbn [andb];
      (split; [intros Eq | intros (cc' & Eq & Hcc)]); simplify_eq;
      solve [done | lia | eexists; split; [done|lia] | destruct Hcc; lia].
  - split; [intros [= -> ->]; done | intros (? & [= -> -> ->] & _); done].
Qed.

(** Refinement: [applyBlockTxns] answers OK with map [w'] exactly when the
    specification runs the block from [w] to [w']. *)
Lemma applyBlockTxns_iff w b reward w' :
  applyBlockTxns w b reward = (okr, w') ↔
  block_run reward (h_index (header b)) w (txns b) w'.
Proof.
  rewrite applyBlockTxns_loop_iff. split.
  - intros (cc & Hl & Hcc). apply loop_from_start in Hl as [[-> Ht]|(-> & t & l & -> & Hcb & Ht)].
    + apply run_plain; [lia|done].
    + by apply run_coinbase.
  - intros Hb. inversion Hb as [? t l ? Hcb Ht|? l ? Hr Ht]; subst.
    + exists 1. rewrite loop_from_start. split; [|lia]. right. eauto 6.
    + exists 0. rewrite loop_from_start. tauto.
Qed.

Lemma applyBlockTxns_result_ok w b reward r w' :
  applyBlockTxns w b reward = (r, w') → reason r = OK → r = okr.
Proof.
  unfold applyBlockTxns. destruct (applyBlockTxns_loop _ _ _ _ _) as [[r1 cc] w1] eqn:El.
  case_bool_decide as Hr; cbn [negb]; [destruct (_ && _)|]; intros [= <- <-] Hok; done.
Qed.
End spec.

(** ** Supply *)

(** The sum of all balances. *)
Definition supply (w : accounts) : Z := map_fold (λ _ s z, balance s + z) 0 w.

(** Machine ranges, and a total that a [uint64_t] can hold. *)
Record ledger_ok (w : accounts) : Prop := {
  lok_bal a s : w !! a = Some s → 0 <= balance s;
  lok_nonce a s : w !! a = Some s → u64_ok (nonce s);
  lok_total : supply w < 2 ^ 64
}.

Lemma supply_insert_None w a s : w !! a = None → supply (<[a := s]> w) = balance s + supply w.
Proof. intros Hn. unfold supply. by rewrite map_fold_insert_L by (done || intros; lia). Qed.

Lemma supply_insert w a s : supply (<[a := s]> w) = supply w - balance (acct_at w a) + balance s.
Proof.
  unfold acct_at. destruct (w !! a) as [s0|] eqn:Ha; cbn [default from_option].
  - rewrite <- (insert_delete_id w a s0) at 2 by done. rewrite <- insert_delete_eq.
    rewrite !supply_insert_None by apply lookup_delete_eq. unfold id. lia.
  - rewrite supply_insert_None by done. unfold acct0; simpl. lia.
Qed.

Lemma supply_empty : supply ∅ = 0.
Proof. apply map_fold_empty. Qed.

Lemma supply_nonneg w : (∀ a s, w !! a = Some s → 0 <= balance s) → 0 <= supply w.
Proof.
  induction w as [|a s w Ha IH] using map_ind; intros Hw; [by rewrite supply_empty|].
  rewrite supply_insert_None by done. pose proof (Hw a s (lookup_insert_eq _ _ _)).
  assert (0 <= supply w); [|lia]. apply IH. intros b r Hb. apply (Hw b).
  rewrite lookup_insert_ne; [done|congruence].
Qed.

Lemma acct_at_insert w a s : acct_at (<[a := s]> w) a = s.
Proof. unfold acct_at. by rewrite lookup_insert_eq. Qed.
Lemma acct_at_insert_ne w a b s : a ≠ b → acct_at (<[a := s]> w) b = acct_at w b.
Proof. intros. unfold acct_at. by rewrite lookup_insert_ne. Qed.

Lemma ledger_balance w a : ledger_ok w → 0 <= balance (acct_at w a).
Proof. intros Hw. unfold acct_at. destruct (w !! a) eqn:Ea; simpl; [by eapply lok_bal|done]. Qed.
Lemma ledger_nonce w a : ledger_ok w → u64_ok (nonce (acct_at w a)).
Proof. intros Hw. unfold acct_at. destruct (w !! a) eqn:Ea; simpl; [by eapply lok_nonce|done]. Qed.
#[export] Hint Resolve ledger_balance ledger_nonce : txchain.

(** Replacing one account by a well-formed one keeps the ledger well-formed
    as long as the total fits. *)
Lemma ledger_insert w a s :
  ledger_ok w → 0 <= balance s → u64_ok (nonce s) →
  supply w - balance (acct_at w a) + balance s < 2 ^ 64 → ledger_ok (<[a := s]> w).
Proof.
  intros [Hb Hn Ht] Hs1 Hs2 Hs3. split.
  - intros b r. rewrite lookup_insert. case_decide; [by intros [= <-]|apply Hb].
  - intros b r. rewrite lookup_insert. case_decide; [by intros [= <-]|apply Hn].
  - by rewrite supply_insert.
Qed.

(** No account, and no two accounts together, hold more than the total. *)
Lemma balance_le_supply w a : ledger_ok w → balance (acct_at w a) <= supply w.
Proof.
  intros Hw. assert (0 <= supply (<[a := acct0]> w)) as Hs.
  { apply supply_nonneg. intros b r. rewrite lookup_insert. case_decide; [by intros [= <-]|by apply lok_bal]. }
  rewrite supply_insert in Hs. simpl in Hs. lia.
Qed.

Lemma two_balances_le_supply w a b :
  ledger_ok w → a ≠ b → balance (acct_at w a) + balance (acct_at w b) <= supply w.
Proof.
  intros Hw Hab. pose proof (ledger_balance w a Hw).
  assert (ledger_ok (<[a := acct0]> w)) as Hw'.
  { apply ledger_insert; try done. pose proof (lok_total _ Hw). simpl. lia. }
  pose proof (balance_le_supply _ b Hw') as Hb.
  rewrite acct_at_insert_ne, supply_insert in Hb by done. simpl in Hb. lia.
Qed.

Lemma credit_supply w a v :
  ledger_ok w → 0 <= v → supply w + v < 2 ^ 64 →
  supply (credit w a v) = supply w + v ∧ ledger_ok (credit w a v) ∧
  acct_at (credit w a v) a = mkAcct (balance (acct_at w a) + v) (nonce (acct_at w a)).
Proof.
  intros Hw Hv Ht. unfold credit.
  pose proof (balance_le_supply w a Hw). pose proof (ledger_balance w a Hw).
  rewrite u64_id by (unfold u64_ok; lia). rewrite supply_insert, acct_at_insert. simpl. split; [lia|].
  split; [|done]. apply ledger_insert; simpl; auto with txchain; lia.
Qed.

(** Effect of a transfer between two different accounts. *)
Lemma move_effect {H : HashFn} {E : Ed25519} w t :
  ledger_ok w → transfer_ok w t → tx_from t ≠ tx_to t → 0 <= tx_amount t →
  let f := acct_at w (tx_from t) in
  let r := acct_at w (tx_to t) in
  move w t = <[tx_to t := mkAcct (balance r + tx_amount t) (nonce r)]>
               (<[tx_from t := mkAcct (balance f - tx_amount t) (u64 (nonce f + 1))]> w) ∧
  supply (move w t) = supply w ∧ ledger_ok (move w t).
Proof.
  intros Hw Ht Hne Ha f r. subst f r. pose proof (tr_funds _ _ Ht). pose proof (lok_total _ Hw).
  pose proof (two_balances_le_supply w _ _ Hw Hne) as Htwo.
  pose proof (ledger_balance w (tx_from t) Hw) as Hf.
  pose proof (ledger_balance w (tx_to t) Hw) as Hr.
  assert (move w t = <[tx_to t := mkAcct (balance (acct_at w (tx_to t)) + tx_amount t) (nonce (acct_at w (tx_to t)))]>
               (<[tx_from t := mkAcct (balance (acct_at w (tx_from t)) - tx_amount t) (u64 (nonce (acct_at w (tx_from t)) + 1))]> w)) as Hm.
  { unfold move. rewrite (u64_id (balance _ + _)), (u64_id (balance _ - _)); [done|..];
      unfold u64_ok; lia. }
  split; [done|]. rewrite Hm, supply_insert, acct_at_insert_ne, supply_insert by done.
  simpl. split; [lia|].
  assert (ledger_ok (<[tx_from t := mkAcct (balance (acct_at w (tx_from t)) - tx_amount t) (u64 (nonce (acct_at w (tx_from t)) + 1))]> w)).
  { apply ledger_insert; simpl; auto with txchain; lia. }
  apply ledger_insert; simpl; [done|lia|by apply ledger_nonce|].
  rewrite acct_at_insert_ne, supply_insert by done. simpl. lia.
Qed.

Section supply_of_blocks.
Context {H : HashFn} {E : Ed25519}.

(** In range, and not a transfer from an account to itself. *)
Definition plain_txn (t : Txn) : Prop :=
  txn_ok t ∧ (tx_from t = kNullAddr ∨ tx_from t ≠ tx_to t).

Definition coinbases (l : list Txn) : Z :=
  Z.of_nat (length (filter (λ t, tx_from t = kNullAddr) l)).

Lemma transfers_no_coinbase w l w' : transfers w l w' → coinbases l = 0.
Proof.
  induction 1 as [|w t l w' Ht _ IH]; [done|]. unfold coinbases in *.
  by rewrite filter_cons_False by apply (tr_user _ _ Ht).
Qed.

Lemma transfers_supply w l w' :
  transfers w l w' → ledger_ok w → Forall plain_txn l → supply w' = supply w ∧ ledger_ok w'.
Proof.
  induction 1 as [|w t l w' Ht _ IH]; intros Hw Hl; [done|].
  inversion_clear Hl as [|? ? [(_ & Ham & _) Hself] Hl'].
  destruct Hself as [Hn|Hne]; [by destruct (tr_user _ _ Ht)|].
  destruct (move_effect w t Hw Ht Hne) as (_ & Hs & Hok); [unfold u64_ok in *; lia|].
  destruct (IH Hok Hl') as [-> ?]. done.
Qed.

(** Only the coinbase changes the total, and only by the reward. *)
Lemma block_run_supply reward idx w l w' :
  block_run reward idx w l w' → ledger_ok w → Forall plain_txn l →
  supply w + COINBASE_REWARD < 2 ^ 64 →
  supply w' = supply w + COINBASE_REWARD * coinbases l ∧ ledger_ok w' ∧
  0 <= coinbases l <= 1 ∧ (0 < reward → coinbases l = 1).
Proof.
  intros Hr Hw Hl Hb. destruct Hr as [w t l w' Hcb Ht|w l w' Hrew Ht].
  - inversion_clear Hl as [|? ? _ Hl'].
    rewrite (cb_reward _ _ Hcb) in Ht.
    destruct (credit_supply w (tx_to t) COINBASE_REWARD Hw) as (Hs & Hok & _); [done..|].
    destruct (transfers_supply _ _ _ Ht Hok Hl') as [Hs' Hok'].
    assert (coinbases (t :: l) = 1) as ->.
    { pose proof (transfers_no_coinbase _ _ _ Ht) as Hc. unfold coinbases in *.
      rewrite filter_cons_True by apply (cb_null _ _ Hcb). cbn [length]. lia. }
    rewrite Hs', Hs. split; [lia|]. split; [done|lia].
  - destruct (transfers_supply _ _ _ Ht Hw Hl) as [-> ?].
    rewrite (transfers_no_coinbase _ _ _ Ht). split; [lia|]. split; [done|lia].
Qed.
End supply_of_blocks.

(** ** Effects of accepted transfers *)

Section effects.
Context {H : HashFn} {E : Ed25519} {EL : Ed25519Laws E}.

Lemma u64_succ_ne n : u64_ok n → n ≠ u64 (n + 1).
Proof.
  intros Hn. unfold u64, u64_ok in *. intros Heq.
  destruct (Z.eq_dec n (2 ^ 64 - 1)) as [->|]; [by vm_compute in Heq|].
  rewrite Z.mod_small in Heq; lia.
Qed.

(** What the wallet signs passes the authenticity checks of the gate. *)
Lemma sign_txn_transfer_ok w seed to amount n :
  address (derive_pubkey seed) ≠ kNullAddr →
  n = nonce (acct_at w (address (derive_pubkey seed))) →
  amount <= balance (acct_at w (address (derive_pubkey seed))) →
  transfer_ok w (sign_txn seed to amount n).
Proof. intros. split; try done. by apply sign_txn_verifies. Qed.

Lemma acct_at_move w t a :
  tx_from t ≠ tx_to t →
  acct_at (move w t) a =
    if decide (a = tx_to t) then
      mkAcct (u64 (balance (acct_at w (tx_to t)) + tx_amount t)) (nonce (acct_at w (tx_to t)))
    else if decide (a = tx_from t) then
      mkAcct (u64 (balance (acct_at w (tx_from t)) - tx_amount t))
             (u64 (nonce (acct_at w (tx_from t)) + 1))
    else acct_at w a.
Proof.
  intros Hne. unfold move. case_decide as H1; [by subst; rewrite acct_at_insert|].
  rewrite acct_at_insert_ne by done. case_decide as H2; [by subst; rewrite acct_at_insert|].
  by rewrite acct_at_insert_ne.
Qed.

(** A transfer to oneself stores the receiver's copy last. *)
Lemma move_self w t :
  tx_from t = tx_to t →
  move w t = <[tx_to t := mkAcct (u64 (balance (acct_at w (tx_to t)) + tx_amount t))
                                 (nonce (acct_at w (tx_to t)))]> w.
Proof. intros Heq. unfold move. rewrite Heq. by rewrite insert_insert_eq. Qed.

(** The second attempt at the same transfer meets a bumped nonce. *)
Lemma applyTxn_replay w t bi ti :
  u64_ok (nonce (acct_at w (tx_from t))) → transfer_ok w t → tx_from t ≠ tx_to t →
  applyTxn (move w t) t bi ti = (STALE_NONCE, move w t).
Proof.
  intros Hr [Hu Ha Hs Hn _] Hne. unfold applyTxn. rewrite bool_decide_eq_false_2 by done.
  unfold address_matches. rewrite (bool_decide_eq_true_2 _ Ha), Hs. cbn [negb].
  rewrite acct_at_move, decide_False, decide_True by done. cbn [nonce].
  rewrite Hn, (proj2 (Z.eqb_neq _ _)); [done|]. by apply u64_succ_ne.
Qed.
End effects.

(** C12. Refinement: [applyBlockTxns] answers OK and leaves the map [w'] exactly
    when the abstract specification runs the block (an optional leading coinbase,
    required under a positive reward, then authentic, in-order, funded
    transfers) from [w] to [w']; otherwise it answers an error. *)
Theorem applyBlockTxns_refines {H : HashFn} {E : Ed25519} w b reward :
  (∀ w', applyBlockTxns w b reward = (mkApply OK [] 0, w') ↔
         block_run reward (h_index (header b)) w (txns b) w') ∧
  ((∃ w', block_run reward (h_index (header b)) w (txns b) w') ∨
   reason (applyBlockTxns w b reward).1 ≠ OK).
Proof.
  split; [intros; apply applyBlockTxns_iff|].
  destruct (applyBlockTxns w b reward) as [r w'] eqn:Ha.
  destruct (decide (reason r = OK)) as [Hr|]; [left|by right].
  rewrite (applyBlockTxns_result_ok _ _ _ _ _ Ha Hr) in Ha. eexists. by apply applyBlockTxns_iff.
Qed.

(** Every error branch of the transaction gate: a refused transaction leaves
    the account map untouched, and the reason names the first check that failed
    (address, then signature, then nonce, then funds; for a coinbase its
    position and shape, then its amount). *)
Theorem applyTxn_errors {H : HashFn} {E : Ed25519} w t bi ti r w' :
  applyTxn w t bi ti = (r, w') → r ≠ OK →
  w' = w ∧
  let authentic := address_matches (tx_from t) (tx_pubkey t) in
  let signed := verify (tx_pubkey t) (tx_sig t) (signed_payload t) in
  let a := acct_at w (tx_from t) in
  match r with
  | BAD_ADDR => tx_from t ≠ kNullAddr ∧ authentic = false
  | BAD_SIG => tx_from t ≠ kNullAddr ∧ authentic = true ∧ signed = false
  | STALE_NONCE =>
      tx_from t ≠ kNullAddr ∧ authentic = true ∧ signed = true ∧ tx_nonce t ≠ nonce a
  | INSUFFICIENT_FUNDS =>
      tx_from t ≠ kNullAddr ∧ authentic = true ∧ signed = true ∧ tx_nonce t = nonce a ∧
      balance a < tx_amount t
  | BAD_TXNS_HASH =>
      tx_from t = kNullAddr ∧ (ti ≠ 0%nat ∨ malformed_coinbase t bi = true)
  | BAD_SUPPLY =>
      tx_from t = kNullAddr ∧ ti = 0%nat ∧ malformed_coinbase t bi = false ∧
      tx_amount t ≠ COINBASE_REWARD
  | OK | BAD_LINK | BAD_POW => False
  end.
Proof.
  intros Ha Hr. split; [by eapply applyTxn_fail_unchanged|].
  unfold applyTxn in Ha. split_guards_in Ha; simplify_eq; reflect_bools; cbv zeta beta iota; tauto.
Qed.

Lemma applyTxn_errors_witness :
  let t := mkTxn 1 kNullAddr kNullAddr 51 0 kNullPub kNullSig in
  applyTxn (H := Demo.demo_hash) (E := Demo.demo_ed) ∅ t 0 0 = (BAD_SUPPLY, ∅) ∧
  tx_amount t ≠ COINBASE_REWARD.
Proof.
  split; [by vm_compute|].
  pose proof (applyTxn_errors (H := Demo.demo_hash) (E := Demo.demo_ed) ∅
    (mkTxn 1 kNullAddr kNullAddr 51 0 kNullPub kNullSig) 0 0 BAD_SUPPLY ∅) as Ht.
  by destruct Ht as (_ & _ & _ & _ & Ht); [by vm_compute|done|].
Defined.

(** C21. What a signed transfer does: sent by a funded wallet with its next nonce to
    somebody else, it is accepted, moves exactly the amount, bumps only the
    sender's nonce, leaves every other account and the total supply as they
    were, and the same transaction submitted again is refused as STALE_NONCE. *)
Theorem transfer_effect {H : HashFn} {E : Ed25519} {EL : Ed25519Laws E}
    (w : accounts) seed to amount n bi ti :
  let from := address (derive_pubkey seed) in
  let t := sign_txn seed to amount n in
  ledger_ok w → from ≠ kNullAddr → to ≠ from → 0 <= amount <= balance (acct_at w from) →
  n = nonce (acct_at w from) →
  ∃ w', applyTxn w t bi ti = (OK, w') ∧
        acct_at w' from = mkAcct (balance (acct_at w from) - amount) (u64 (n + 1)) ∧
        acct_at w' to = mkAcct (balance (acct_at w to) + amount) (nonce (acct_at w to)) ∧
        (∀ a, a ≠ from → a ≠ to → acct_at w' a = acct_at w a) ∧
        supply w' = supply w ∧ ledger_ok w' ∧
        ∀ bi' ti', applyTxn w' t bi' ti' = (STALE_NONCE, w').
Proof.
  intros from t Hw Hf Hto Ha Hn.
  assert (transfer_ok w t) as Ht by (apply sign_txn_transfer_ok; (done || apply Ha)).
  assert (tx_from t ≠ tx_to t) as Hne by (intros Hx; by apply Hto).
  destruct (move_effect w t Hw Ht Hne) as (Hm & Hs & Hok); [apply Ha|].
  change (tx_from t) with from in *. change (tx_to t) with to in *. change (tx_amount t) with amount in *.
  exists (move w t). split_and!; [by apply applyTxn_user_ok| | | |done|done|].
  - rewrite Hm, acct_at_insert_ne, acct_at_insert by done. by rewrite Hn.
  - by rewrite Hm, acct_at_insert.
  - intros a H1 H2. by rewrite Hm, !acct_at_insert_ne by done.
  - intros bi' ti'. apply applyTxn_replay; [by apply ledger_nonce|done..].
Qed.

Module GateDemo.
#[local] Existing Instances Demo.demo_hash Demo.demo_ed.

Definition seedA : Seed32 := arr_lit 32 [7].
Definition seedB : Seed32 := arr_lit 32 [9].
Definition addrA : Address20 := address (derive_pubkey seedA).
Definition addrB : Address20 := address (derive_pubkey seedB).
Definition ledger : accounts := {[ addrA := mkAcct 10 0 ]}.

Lemma ledger_wf : ledger_ok ledger.
Proof.
  split; unfold ledger.
  - intros a s. rewrite lookup_singleton. case_decide; [by intros [= <-]|done].
  - intros a s. rewrite lookup_singleton. case_decide; [by intros [= <-]|done].
  - unfold supply. by rewrite map_fold_singleton.
Qed.

Lemma acct_A : acct_at ledger addrA = mkAcct 10 0.
Proof. unfold ledger, acct_at. by rewrite lookup_singleton_eq. Qed.

Lemma funds_A : 0 <= 4 <= balance (acct_at ledger addrA).
Proof. rewrite acct_A. cbn [balance]. lia. Qed.
Lemma room_A : balance (acct_at ledger addrA) + 4 < 2 ^ 64.
Proof. rewrite acct_A. cbn [balance]. lia. Qed.
Lemma nonce_A : 0 = nonce (acct_at ledger addrA).
Proof. rewrite acct_A. done. Qed.

Lemma A_ne_B : addrB ≠ addrA.
Proof. by vm_compute. Qed.
Lemma A_ne_null : addrA ≠ kNullAddr.
Proof. by vm_compute. Qed.
End GateDemo.

Lemma transfer_effect_witness :
  let t := sign_txn (H := Demo.demo_hash) (E := Demo.demo_ed) GateDemo.seedA GateDemo.addrB 4 0 in
  ∃ w', applyTxn (H := Demo.demo_hash) (E := Demo.demo_ed) GateDemo.ledger t 1 0 = (OK, w') ∧
        acct_at w' GateDemo.addrA = mkAcct 6 1.
Proof.
  destruct (transfer_effect (H := Demo.demo_hash) (E := Demo.demo_ed) (EL := Demo.demo_ed_laws)
    GateDemo.ledger GateDemo.seedA GateDemo.addrB 4 0 1 0) as (w' & Hr & Hf & _).
  - apply GateDemo.ledger_wf.
  - apply GateDemo.A_ne_null.
  - apply GateDemo.A_ne_B.
  - exact GateDemo.funds_A.
  - exact GateDemo.nonce_A.
  - exists w'. split; [exact Hr|]. unfold GateDemo.addrA. rewrite Hf.
    fold GateDemo.addrA. by rewrite GateDemo.acct_A.
Defined.

(** A defect of the gate: a transfer from an account to itself is accepted, its
    debit and nonce bump are overwritten by the receiver's copy, so the amount is
    minted, the supply grows by it, and the same transaction is accepted again. *)
Theorem self_transfer_mints {H : HashFn} {E : Ed25519} {EL : Ed25519Laws E}
    (w : accounts) seed amount n bi ti :
  let me := address (derive_pubkey seed) in
  let t := sign_txn seed me amount n in
  ledger_ok w → me ≠ kNullAddr → 0 <= amount <= balance (acct_at w me) →
  n = nonce (acct_at w me) → balance (acct_at w me) + amount < 2 ^ 64 →
  ∃ w', applyTxn w t bi ti = (OK, w') ∧
        acct_at w' me = mkAcct (balance (acct_at w me) + amount) n ∧
        supply w' = supply w + amount ∧
        ∃ w'', applyTxn w' t bi ti = (OK, w'').
Proof.
  intros me t Hw Hf Ha Hn Hb. pose proof (ledger_balance w me Hw).
  assert (transfer_ok w t) as Ht by (apply sign_txn_transfer_ok; (done || apply Ha)).
  assert (move w t = <[me := mkAcct (balance (acct_at w me) + amount) n]> w) as Hm.
  { rewrite move_self by done. change (tx_to t) with me. change (tx_amount t) with amount.
    rewrite Hn, u64_id by (unfold u64_ok; lia). done. }
  exists (move w t). split_and!.
  - by apply applyTxn_user_ok.
  - by rewrite Hm, acct_at_insert.
  - rewrite Hm, supply_insert. simpl. lia.
  - exists (move (move w t) t). apply applyTxn_user_ok; [done|]. split; [|done].
    apply sign_txn_transfer_ok; [done|..]; fold me; rewrite Hm, acct_at_insert; simpl; [done|lia].
Qed.

Lemma self_transfer_mints_witness :
  let t := sign_txn (H := Demo.demo_hash) (E := Demo.demo_ed) GateDemo.seedA GateDemo.addrA 4 0 in
  ∃ w', applyTxn (H := Demo.demo_hash) (E := Demo.demo_ed) GateDemo.ledger t 1 0 = (OK, w') ∧
        supply w' = 14.
Proof.
  destruct (self_transfer_mints (H := Demo.demo_hash) (E := Demo.demo_ed) (EL := Demo.demo_ed_laws)
    GateDemo.ledger GateDemo.seedA 4 0 1 0) as (w' & Hr & _ & Hs & _).
  - apply GateDemo.ledger_wf.
  - apply GateDemo.A_ne_null.
  - exact GateDemo.funds_A.
  - exact GateDemo.nonce_A.
  - exact GateDemo.room_A.
  - exists w'. split; [exact Hr|]. rewrite Hs. unfold GateDemo.ledger, supply.
    by rewrite map_fold_singleton.
Defined.
