(* ===== verification/Chain.v ===== *)
(** The committed chain and its single write path:
    [include/txchain/chain/chain.hpp], [src/chain/chain.cpp].

    A [Chain] is a state record; [connectBlock] is a state transition that
    returns the C++ method's reason next to the chain after the call.  Block
    clocks ([now_s]) are arguments, as they are in the code. *)

From Stdlib Require Import ZArith Lia Ascii String.
From stdpp Require Import base list strings gmap fin_maps sorting.
From S2P Require Import Prelude Sha256 Crypto Canonical Wallet Gate.

(** [CommitDelta]: the pre-images of the accounts a block names. *)
Definition CommitDelta : Type := list (Address20 * AccountState).

Record Chain := mkChain {
  blocks_ : list Block;
  state_ : accounts;
  cumWork_ : Z;
  difficulty_ : Z;
  reward_ : Z;
  undoLog_ : list CommitDelta
}.

Section chain.
Context {H : HashFn} {E : Ed25519}.

(** [Chain::Chain(difficulty, reward)]. *)
Definition Chain_new (difficulty reward : Z) : Chain :=
  mkChain [genesisBlock] (applyGenesis ∅) 0 difficulty reward [].

Definition numBlocks (c : Chain) : Z := Z.of_nat (length (blocks_ c)).
Definition height (c : Chain) : Z := u64 (numBlocks c - 1).

(** [blocks_.back().header]; the vector is never empty (genesis). *)
Definition tip_header (c : Chain) : BlockHeader := header (default genesisBlock (last (blocks_ c))).
Definition tipHash (c : Chain) : Digest32 := block_hash (tip_header c).
Definition account (c : Chain) (a : Address20) : AccountState := acct_at (state_ c) a.

(** [None] where [vector::at] throws. *)
Definition blockAt (c : Chain) (idx : Z) : option Block := blocks_ c !! Z.to_nat idx.

(** The pre-image loop of [connectBlock]. *)
Definition preimages (work : accounts) (l : list Txn) : CommitDelta :=
  flat_map (λ t, [(tx_from t, acct_at work (tx_from t)); (tx_to t, acct_at work (tx_to t))]) l.

Definition connectBlock (c : Chain) (b : Block) (now_s : Z) : Reason * Chain :=
  let tip := tip_header c in
  return_if negb (h_index (header b) =? u64 (height c + 1)) with (BAD_LINK, c) ;;
  return_if negb (bool_decide (h_prevHash (header b) = tipHash c)) with (BAD_LINK, c) ;;
  return_if h_timestamp (header b) <=? h_timestamp tip with (BAD_LINK, c) ;;
  return_if u64 (now_s + MAX_CLOCK_SKEW_S) <? h_timestamp (header b) with (BAD_LINK, c) ;;
  return_if negb (Target.meets_difficulty (block_hash (header b)) (difficulty_ c))
    with (BAD_POW, c) ;;
  return_if negb (bool_decide (computeTxnsHash b = h_txnsHash (header b)))
    with (BAD_TXNS_HASH, c) ;;
  return_if (MAX_TXNS_PER_BLOCK <? length (txns b))%nat with (BAD_TXNS_HASH, c) ;;
  let inverse := preimages (state_ c) (txns b) in
  let '(ar, work) := applyBlockTxns (state_ c) b (reward_ c) in
  return_if negb (bool_decide (reason ar = OK)) with (reason ar, c) ;;
  (OK, mkChain (blocks_ c ++ [b]) work
         (u128 (cumWork_ c + Target.block_work (difficulty_ c)))
         (difficulty_ c) (reward_ c) (undoLog_ c ++ [inverse])).

(** ** Specification

    A block is valid at position [idx] after a block with hash [prevHash]
    and timestamp [prevTime] (V1 to V6), and its body runs (V7). *)
Record extends (D now_s idx : Z) (prevHash : Digest32) (prevTime : Z) (b : Block) : Prop := {
  ex_index : h_index (header b) = idx;
  ex_prev : h_prevHash (header b) = prevHash;
  ex_after : prevTime < h_timestamp (header b);
  ex_skew : h_timestamp (header b) <= u64 (now_s + MAX_CLOCK_SKEW_S);
  ex_pow : Target.meets_difficulty (block_hash (header b)) D = true;
  ex_txns : h_txnsHash (header b) = computeTxnsHash b;
  ex_size : (length (txns b) ≤ MAX_TXNS_PER_BLOCK)%nat
}.

Definition committed (c : Chain) (b : Block) (w : accounts) : Chain :=
  mkChain (blocks_ c ++ [b]) w (u128 (cumWork_ c + Target.block_work (difficulty_ c)))
    (difficulty_ c) (reward_ c) (undoLog_ c ++ [preimages (state_ c) (txns b)]).

Definition valid_next (c : Chain) (b : Block) (now_s : Z) : Prop :=
  extends (difficulty_ c) now_s (u64 (height c + 1)) (tipHash c) (h_timestamp (tip_header c)) b.

(** The body's commitment determines the outcome of every guard. *)
Lemma connectBlock_ok_iff c b now_s c' :
  connectBlock c b now_s = (OK, c') ↔
  valid_next c b now_s ∧
  ∃ w, block_run (reward_ c) (h_index (header b)) (state_ c) (txns b) w ∧ c' = committed c b w.
Proof.
  unfold connectBlock, valid_next. split.
  - intros Hc. destruct (applyBlockTxns _ _ _) as [ar w] eqn:Ha.
    split_guards_in Hc; simplify_eq; reflect_bools; try congruence.
    rewrite (applyBlockTxns_result_ok _ _ _ _ _ Ha) in Ha by done.
    apply applyBlockTxns_iff in Ha. split; [|by exists w]. by split.
  - intros [[H1 H2 H3 H4 H5 H6 H7] (w & Hr & ->)].
    apply applyBlockTxns_iff in Hr. rewrite Hr. cbn [reason].
    rewrite H1, H2, H5, H6, Z.eqb_refl, !bool_decide_eq_true_2 by done. cbn [negb].
    by rewrite (proj2 (Z.leb_gt _ _) H3), (proj2 (Z.ltb_ge _ _) H4), (proj2 (Nat.ltb_ge _ _) H7).
Qed.

Lemma connectBlock_fail_unchanged c b now_s r c' :
  connectBlock c b now_s = (r, c') → r ≠ OK → c' = c.
Proof.
  unfold connectBlock. destruct (applyBlockTxns _ _ _) as [ar w]. intros Hc Hr.
  split_guards_in Hc; simplify_eq; done.
Qed.

(** The chains a node can hold: genesis, then blocks accepted by
    [connectBlock], at clock times the index [now] bounds.  Blocks carry
    machine-range fields. *)
Inductive reachable (D R : Z) (now : Z) : Chain → Prop :=
  | reach_genesis : reachable D R now (Chain_new D R)
  | reach_connect c b t c' :
      reachable D R now c → block_ok b → 0 <= t <= now → connectBlock c b t = (OK, c') →
      reachable D R now c'.
End chain.

(** ** The shape of a reachable chain *)

(** Blocks [l] extend the header [h] from index [idx] on. *)
Fixpoint chained `{HashFn} (D now_s idx : Z) (h : BlockHeader) (l : list Block) : Prop :=
  match l with
  | [] => True
  | b :: l =>
      extends D now_s idx (block_hash h) (h_timestamp h) b ∧ chained D now_s (idx + 1) (header b) l
  end.

(** The bodies of [l] run one after another from [w] to [w']. *)
Inductive runs `{HashFn} `{Ed25519} (R : Z) : accounts → list Block → accounts → Prop :=
  | runs_nil w : runs R w [] w
  | runs_cons w b l w1 w' :
      block_run R (h_index (header b)) w (txns b) w1 → runs R w1 l w' → runs R w (b :: l) w'.

Definition tip_of (h : BlockHeader) (l : list Block) : BlockHeader := default h (header <$> last l).

Lemma genesis_supply : supply (applyGenesis ∅) = GENESIS_SUPPLY.
Proof. by vm_compute. Qed.

Lemma applyGenesis_lookup w a s :
  applyGenesis w !! a = Some s → s = mkAcct 1000 0.
Proof.
  unfold applyGenesis, GENESIS_ALLOC. cbn [foldl ge_addr ge_amount].
  rewrite !lookup_insert. repeat case_decide; by intros [= <-].
Qed.

Lemma applyGenesis_ok : ledger_ok (applyGenesis ∅).
Proof.
  split.
  - intros a s ->%applyGenesis_lookup. done.
  - intros a s ->%applyGenesis_lookup. done.
  - by rewrite genesis_supply.
Qed.

Lemma applyGenesis_nonce a : nonce (acct_at (applyGenesis ∅) a) = 0.
Proof.
  unfold acct_at. destruct (_ !! a) as [s|] eqn:Ea; [|done].
  by rewrite (applyGenesis_lookup _ _ _ Ea).
Qed.

Section shape.
Context {H : HashFn} {E : Ed25519}.

Lemma tip_of_snoc h l b : tip_of h (l ++ [b]) = header b.
Proof. unfold tip_of. by rewrite last_snoc. Qed.

Lemma tip_of_cons h b l : tip_of h (b :: l) = tip_of (header b) l.
Proof. unfold tip_of. rewrite last_cons. by destruct (last l). Qed.

Lemma chained_snoc D now idx h l b :
  chained D now idx h (l ++ [b]) ↔
  chained D now idx h l ∧
  extends D now (idx + Z.of_nat (length l)) (block_hash (tip_of h l)) (h_timestamp (tip_of h l)) b.
Proof.
  revert idx h. induction l as [|x l IH]; intros idx h; cbn [app chained length].
  { rewrite Z.add_0_r. cbn. tauto. }
  rewrite IH, tip_of_cons. replace (idx + 1 + Z.of_nat (length l)) with (idx + Z.of_nat (S (length l))) by lia.
  tauto.
Qed.

Lemma runs_snoc R w l b w' w'' :
  runs R w l w' → block_run R (h_index (header b)) w' (txns b) w'' → runs R w (l ++ [b]) w''.
Proof. induction 1; intros Hb; cbn [app]; repeat (econstructor; eauto). Qed.

Lemma runs_snoc_inv R w l b w'' :
  runs R w (l ++ [b]) w'' →
  ∃ w', runs R w l w' ∧ block_run R (h_index (header b)) w' (txns b) w''.
Proof.
  revert w. induction l as [|x l IH]; intros w Hr; cbn [app] in Hr.
  - inversion Hr as [|? ? ? ? ? Hb Hn]; subst. inversion Hn; subst. exists w. by split; [constructor|].
  - inversion Hr as [|? ? ? ? ? Hb Hn]; subst. destruct (IH _ Hn) as (w' & ? & ?).
    exists w'. split; [by econstructor|done].
Qed.

(** A block valid at clock time [t] is valid at any later one. *)
Lemma extends_mono D t now idx ph pt b :
  extends D t idx ph pt b → 0 <= t <= now → now + MAX_CLOCK_SKEW_S < 2 ^ 64 →
  extends D now idx ph pt b.
Proof.
  intros [] Ht Hn. split; try done. unfold MAX_CLOCK_SKEW_S in *.
  rewrite u64_id in ex_skew0 by (unfold u64_ok; lia). rewrite u64_id by (unfold u64_ok; lia). lia.
Qed.

(** Timestamps increase strictly, so a chain is shorter than their range. *)
Lemma chained_time D now idx h l :
  chained D now idx h l → h_timestamp h + Z.of_nat (length l) <= h_timestamp (tip_of h l).
Proof.
  revert idx h. induction l as [|b l IH]; intros idx h; cbn [chained length].
  { unfold tip_of; simpl. lia. }
  intros [[] Hl]. rewrite tip_of_cons. specialize (IH _ _ Hl). lia.
Qed.

Record chain_shape (D R now : Z) (c : Chain) (l : list Block) : Prop := {
  sh_blocks : blocks_ c = genesisBlock :: l;
  sh_chained : chained D now 1 (header genesisBlock) l;
  sh_ok : Forall block_ok l;
  sh_runs : runs R (applyGenesis ∅) l (state_ c);
  sh_work : cumWork_ c = u128 (Z.of_nat (length l) * Target.block_work D);
  sh_difficulty : difficulty_ c = D;
  sh_reward : reward_ c = R;
  sh_undo : length (undoLog_ c) = length l
}.

Lemma shape_tip D R now c l :
  chain_shape D R now c l → tip_header c = tip_of (header genesisBlock) l.
Proof.
  intros Hs. unfold tip_header, tip_of. rewrite (sh_blocks _ _ _ _ _ Hs), last_cons.
  by destruct (last l).
Qed.

Lemma shape_short D R now c l : chain_shape D R now c l → Z.of_nat (length l) < 2 ^ 64 - 1.
Proof.
  intros Hs. pose proof (chained_time _ _ _ _ _ (sh_chained _ _ _ _ _ Hs)) as Ht.
  change (h_timestamp (header genesisBlock)) with GENESIS_TIMESTAMP in Ht.
  unfold GENESIS_TIMESTAMP in Ht. destruct (last l) as [b|] eqn:El.
  - unfold tip_of in Ht. rewrite El in Ht. simpl in Ht.
    apply last_Some in El as [l' El]. pose proof (sh_ok _ _ _ _ _ Hs) as Hok. rewrite El in Hok.
    apply Forall_app in Hok as [_ Hok]. inversion_clear Hok as [|? ? [(_ & Hts & _) _] _].
    unfold u64_ok in Hts. lia.
  - apply last_None in El as ->. simpl. lia.
Qed.

Lemma shape_height D R now c l : chain_shape D R now c l → height c = Z.of_nat (length l).
Proof.
  intros Hs. pose proof (shape_short _ _ _ _ _ Hs). unfold height, numBlocks.
  rewrite (sh_blocks _ _ _ _ _ Hs). cbn [length]. rewrite u64_id; unfold u64_ok; lia.
Qed.

Lemma shape_next D R now c l b t :
  chain_shape D R now c l →
  valid_next c b t ↔
  extends D t (1 + Z.of_nat (length l)) (block_hash (tip_of (header genesisBlock) l))
          (h_timestamp (tip_of (header genesisBlock) l)) b.
Proof.
  intros Hs. pose proof (shape_short _ _ _ _ _ Hs). unfold valid_next, tipHash.
  rewrite (shape_height _ _ _ _ _ Hs), (shape_tip _ _ _ _ _ Hs), (sh_difficulty _ _ _ _ _ Hs).
  by rewrite u64_id, Z.add_comm by (unfold u64_ok; lia).
Qed.

Lemma committed_shape D R now c l b t w :
  chain_shape D R now c l → block_ok b → 0 <= t <= now → now + MAX_CLOCK_SKEW_S < 2 ^ 64 →
  valid_next c b t → block_run R (h_index (header b)) (state_ c) (txns b) w →
  chain_shape D R now (committed c b w) (l ++ [b]).
Proof.
  intros Hs Hb Ht Hn Hv Hr. apply (shape_next _ _ _ _ _ _ _ Hs) in Hv.
  destruct Hs as [H1 H2 H3 H4 H5 H6 H7 H8].
  split; cbn [committed blocks_ state_ cumWork_ difficulty_ reward_ undoLog_]; try done.
  - by rewrite H1.
  - apply chained_snoc. split; [done|]. by eapply extends_mono.
  - apply Forall_app; by split; [|constructor].
  - by eapply runs_snoc.
  - rewrite H5, H6, length_app. cbn [length]. unfold u128. rewrite Z.add_mod_idemp_l by done.
    f_equal. lia.
  - by rewrite !length_app, H8.
Qed.

Lemma genesis_shape D R now : chain_shape D R now (Chain_new D R) [].
Proof. split; try done. constructor. Qed.

Lemma reachable_shape D R now c :
  now + MAX_CLOCK_SKEW_S < 2 ^ 64 → reachable D R now c → ∃ l, chain_shape D R now c l.
Proof.
  intros Hn. induction 1 as [|c b t c' Hc [l Hs] Hb Ht Hconn].
  - exists []. apply genesis_shape.
  - apply connectBlock_ok_iff in Hconn as (Hv & w & Hr & ->).
    rewrite (sh_reward _ _ _ _ _ Hs) in Hr. exists (l ++ [b]). by eapply committed_shape.
Qed.
End shape.

(** ** Nonces and supply along a chain *)

Definition all_txns (l : list Block) : list Txn := flat_map txns l.

(** The transactions sent by [a], in chain order. *)
Definition sent (a : Address20) (l : list Txn) : list Txn := filter (λ t, tx_from t = a) l.

(** No transfer from an account to itself. *)
Definition no_self (l : list Txn) : Prop :=
  Forall (λ t, tx_from t = kNullAddr ∨ tx_from t ≠ tx_to t) l.

Section accounting.
Context {H : HashFn} {E : Ed25519}.

Lemma nonce_credit w x v a : nonce (acct_at (credit w x v) a) = nonce (acct_at w a).
Proof.
  unfold credit. destruct (decide (x = a)) as [->|Hne]; [by rewrite acct_at_insert|].
  by rewrite acct_at_insert_ne.
Qed.

Lemma nonce_move w t a :
  tx_from t ≠ tx_to t →
  nonce (acct_at (move w t) a) =
    if decide (tx_from t = a) then u64 (nonce (acct_at w a) + 1) else nonce (acct_at w a).
Proof.
  intros Hne. rewrite acct_at_move by done.
  repeat case_decide; subst; try done; congruence.
Qed.

(** Consecutive nonces, and the account's counter past them. *)
Definition counts (a : Address20) (w : accounts) (l : list Txn) (w' : accounts) : Prop :=
  let n := nonce (acct_at w a) in
  let k := Z.of_nat (length (sent a l)) in
  n + k < 2 ^ 64 → map tx_nonce (sent a l) = seqZ n k ∧ nonce (acct_at w' a) = n + k.

Lemma counts_app a w l w' l' w'' :
  counts a w l w' → counts a w' l' w'' → counts a w (l ++ l') w''.
Proof.
  unfold counts, sent. cbv zeta. intros H1 H2 Hb. rewrite filter_app, length_app, Nat2Z.inj_add in *.
  destruct H1 as [E1 N1]; [lia|]. rewrite N1 in H2. destruct H2 as [E2 N2]; [lia|].
  rewrite map_app, E1, E2, N2. split; [|lia].
  by rewrite seqZ_app by lia.
Qed.

Lemma counts_skip a w t w' :
  tx_from t ≠ a → nonce (acct_at w' a) = nonce (acct_at w a) → counts a w [t] w'.
Proof. intros Hne Hn _. unfold sent. rewrite filter_cons_False by done. simpl. split; [done|lia]. Qed.

Lemma counts_transfers a w l w' :
  a ≠ kNullAddr → 0 <= nonce (acct_at w a) → transfers w l w' → no_self l → counts a w l w'.
Proof.
  intros Ha Hn Hl. revert Hn. induction Hl as [w|w t l w' Ht _ IH]; intros Hn Hs.
  { intros _. simpl. split; [done|lia]. }
  inversion_clear Hs as [|? ? [Hx|Hx] Hs']; [by destruct (tr_user _ _ Ht)|].
  apply (counts_app a w [t] (move w t)).
  - destruct (decide (tx_from t = a)) as [He|He].
    + unfold counts, sent. cbv zeta. rewrite filter_cons_True, filter_nil by done. cbn [length map].
      intros Hb. rewrite nonce_move, decide_True by done.
      rewrite u64_id by (unfold u64_ok; lia). rewrite (tr_nonce _ _ Ht), He. split; [|lia].
      by rewrite seqZ_cons, seqZ_nil by lia.
    + apply counts_skip; [done|]. by rewrite nonce_move, decide_False.
  - apply IH; [|done]. rewrite nonce_move by done.
    case_decide; [apply Z.mod_pos_bound; lia|done].
Qed.

Lemma counts_block a R idx w l w' :
  a ≠ kNullAddr → 0 <= nonce (acct_at w a) → block_run R idx w l w' → no_self l → counts a w l w'.
Proof.
  intros Ha Hn Hr Hs. destruct Hr as [w t l w' Hcb Ht|w l w' _ Ht]; [|by apply counts_transfers].
  inversion_clear Hs as [|? ? _ Hs'].
  apply (counts_app a w [t] (credit w (tx_to t) (tx_amount t))).
  - apply counts_skip; [|apply nonce_credit]. rewrite (cb_null _ _ Hcb). congruence.
  - apply counts_transfers; [done| |done..]. by rewrite nonce_credit.
Qed.

Lemma block_run_nonneg R idx w l w' :
  (∀ a, 0 <= nonce (acct_at w a)) → block_run R idx w l w' → ∀ a, 0 <= nonce (acct_at w' a).
Proof.
  assert (∀ w l w', transfers w l w' → (∀ a, 0 <= nonce (acct_at w a)) →
                    ∀ a, 0 <= nonce (acct_at w' a)) as Htr.
  { induction 1 as [|w0 t l0 w0' _ _ IH]; intros Hw; [done|]. apply IH. intros a.
    assert (0 <= u64 (nonce (acct_at w0 (tx_from t)) + 1)) by (apply Z.mod_pos_bound; lia).
    unfold move. destruct (decide (tx_to t = a)) as [<-|]; [rewrite acct_at_insert; apply Hw|].
    rewrite acct_at_insert_ne by done.
    destruct (decide (tx_from t = a)) as [<-|]; [by rewrite acct_at_insert|].
    by rewrite acct_at_insert_ne. }
  intros Hw Hr. destruct Hr as [? ? ? ? _ Ht|? ? ? _ Ht]; eapply Htr; try done.
  intros a. by rewrite nonce_credit.
Qed.

Lemma counts_runs a R w l w' :
  a ≠ kNullAddr → (∀ a, 0 <= nonce (acct_at w a)) → runs R w l w' → no_self (all_txns l) →
  counts a w (all_txns l) w'.
Proof.
  intros Ha Hw Hr. revert Hw. induction Hr as [w|w b l w1 w' Hb _ IH]; intros Hw Hs.
  { intros _. simpl. split; [done|lia]. }
  unfold all_txns in *. cbn [flat_map] in *. apply Forall_app in Hs as [Hs1 Hs2].
  apply (counts_app a w _ w1).
  - by eapply counts_block.
  - apply IH; [|done]. by eapply block_run_nonneg.
Qed.

Lemma coinbases_app l l' : coinbases (l ++ l') = coinbases l + coinbases l'.
Proof. unfold coinbases. rewrite filter_app, length_app. lia. Qed.

(** Along blocks that are machine-range and free of self-transfers, only the
    coinbases move the total. *)
Lemma runs_supply R w l w' :
  runs R w l w' → ledger_ok w → Forall block_ok l → no_self (all_txns l) →
  supply w + COINBASE_REWARD * Z.of_nat (length l) < 2 ^ 64 →
  supply w' = supply w + COINBASE_REWARD * coinbases (all_txns l) ∧ ledger_ok w' ∧
  coinbases (all_txns l) <= Z.of_nat (length l) ∧
  (0 < R → coinbases (all_txns l) = Z.of_nat (length l)).
Proof.
  induction 1 as [w|w b l w1 w' Hb _ IH]; intros Hw Hok Hs Hbd.
  { change (coinbases (all_txns [])) with 0. change (Z.of_nat (length [])) with 0.
    split; [lia|]. split; [done|]. lia. }
  unfold all_txns in *. cbn [flat_map length] in *.
  inversion_clear Hok as [|? ? [_ Htx] Hok']. apply Forall_app in Hs as [Hs1 Hs2].
  rewrite Nat2Z.inj_succ in *. unfold COINBASE_REWARD in *.
  destruct (block_run_supply _ _ _ _ _ Hb Hw) as (E1 & Hw1 & Hc & HR).
  { apply Forall_forall. intros t Ht. split; [by eapply Forall_forall in Htx|].
    by eapply Forall_forall in Hs1. }
  { unfold COINBASE_REWARD. lia. }
  unfold COINBASE_REWARD in *.
  destruct IH as (E2 & Hw2 & Hc2 & HR2); [done|done|done|lia|].
  rewrite coinbases_app. split; [lia|]. split; [done|]. split; [lia|]. intros. lia.
Qed.
(** Clock bounds may grow. *)
Lemma chained_mono D t T i h l :
  chained D t i h l → 0 <= t <= T → T + MAX_CLOCK_SKEW_S < 2 ^ 64 → chained D T i h l.
Proof.
  intros Hl Ht HT. revert i h Hl. induction l as [|b l IH]; intros i h; cbn [chained]; [done|].
  intros [Hb Hl]. split; [by eapply extends_mono|by apply IH].
Qed.

Lemma shape_mono D R t T c l :
  chain_shape D R t c l → 0 <= t <= T → T + MAX_CLOCK_SKEW_S < 2 ^ 64 → chain_shape D R T c l.
Proof. intros [] Ht HT. split; try done. by eapply chained_mono. Qed.

(** A chain is no longer than the clock allows. *)
Lemma shape_length D R T c l :
  chain_shape D R T c l → 0 <= T → T + MAX_CLOCK_SKEW_S < 2 ^ 64 → Z.of_nat (length l) <= T + MAX_CLOCK_SKEW_S.
Proof.
  intros Hs H0 HT. pose proof (chained_time _ _ _ _ _ (sh_chained _ _ _ _ _ Hs)) as Ht.
  pose proof (sh_chained _ _ _ _ _ Hs) as Hc. unfold MAX_CLOCK_SKEW_S in *.
  destruct (last l) as [b|] eqn:El; [|apply last_None in El as ->; simpl; lia].
  apply last_Some in El as [l' ->]. apply chained_snoc in Hc as [_ Hb].
  pose proof (ex_skew _ _ _ _ _ _ Hb) as Hsk. rewrite tip_of_snoc in Ht.
  change (h_timestamp (header genesisBlock)) with GENESIS_TIMESTAMP in Ht. unfold GENESIS_TIMESTAMP in Ht.
  unfold MAX_CLOCK_SKEW_S in Hsk. rewrite u64_id in Hsk by (unfold u64_ok; lia). lia.
Qed.

Lemma all_txns_genesis l : all_txns (genesisBlock :: l) = all_txns l.
Proof. done. Qed.

(** Balances never wrap. *)
Lemma shape_ledger D R T c l :
  chain_shape D R T c l → 0 <= T → T + MAX_CLOCK_SKEW_S < 2 ^ 58 → no_self (all_txns (blocks_ c)) →
  ledger_ok (state_ c) ∧ supply (state_ c) + COINBASE_REWARD < 2 ^ 64 ∧
  supply (state_ c) <= GENESIS_SUPPLY + COINBASE_REWARD * Z.of_nat (length l).
Proof.
  intros Hs H0 HT Hn. pose proof (shape_length _ _ _ _ _ Hs H0) as Hl. rewrite (sh_blocks _ _ _ _ _ Hs), all_txns_genesis in Hn.
  destruct (runs_supply _ _ _ _ (sh_runs _ _ _ _ _ Hs) applyGenesis_ok (sh_ok _ _ _ _ _ Hs) Hn) as (Es & Hw & Hc & _).
  { rewrite genesis_supply. unfold GENESIS_SUPPLY, COINBASE_REWARD. lia. }
  split; [done|]. rewrite Es, genesis_supply. unfold GENESIS_SUPPLY, COINBASE_REWARD. lia.
Qed.

Lemma work_exact n D :
  0 <= D <= 70 → Z.of_nat n < 2 ^ 58 → u128 (Z.of_nat n * Target.block_work D) = Z.of_nat n * 2 ^ D.
Proof.
  intros HD Hn. assert (0 < 2 ^ D <= 2 ^ 70) as Hp by (split; [lia|apply Z.pow_le_mono_r; lia]).
  unfold Target.block_work. rewrite (proj2 (Z.leb_gt _ _)), Z.shiftl_1_l by lia. unfold u128.
  rewrite (Z.mod_small (2 ^ D)) by lia. apply Z.mod_small. nia.
Qed.

(** A chain carries at most eight transactions per block. *)
Lemma chained_txns D now i h l :
  chained D now i h l → (length (all_txns l) ≤ MAX_TXNS_PER_BLOCK * length l)%nat.
Proof.
  revert i h. induction l as [|b l IH]; intros i h; cbn [chained]; [done|]. intros [Hb Hl]. specialize (IH _ _ Hl).
  unfold all_txns in *. cbn [flat_map]. rewrite length_app. pose proof (ex_size _ _ _ _ _ _ Hb).
  unfold MAX_TXNS_PER_BLOCK in *. cbn [length]. lia.
Qed.

Lemma shape_nonce D R T c l a :
  chain_shape D R T c l → 0 <= T → T + MAX_CLOCK_SKEW_S < 2 ^ 58 → no_self (all_txns (blocks_ c)) → a ≠ kNullAddr →
  nonce (account c a) <= 8 * Z.of_nat (length l).
Proof.
  intros Hs H0 HT Hn Ha. pose proof (shape_length _ _ _ _ _ Hs H0) as Hl. pose proof (chained_txns _ _ _ _ _ (sh_chained _ _ _ _ _ Hs)) as Ht.
  rewrite (sh_blocks _ _ _ _ _ Hs), all_txns_genesis in Hn. unfold MAX_TXNS_PER_BLOCK in Ht.
  assert (length (sent a (all_txns l)) ≤ length (all_txns l))%nat as Hse by apply length_filter.
  destruct (counts_runs a R (applyGenesis ∅) l (state_ c) Ha) as [_ E2]; [|apply Hs|done| |].
  - intros b. by rewrite applyGenesis_nonce.
  - rewrite applyGenesis_nonce. lia.
  - rewrite applyGenesis_nonce in E2. unfold account. lia.
Qed.
End accounting.

(** ** The undo log *)

Section undo.
Context {H : HashFn} {E : Ed25519}.

Definition named (l : list Txn) (a : Address20) : Prop :=
  ∃ t, t ∈ l ∧ (a = tx_from t ∨ a = tx_to t).

Lemma preimages_elem w l a s :
  (a, s) ∈ preimages w l ↔ named l a ∧ s = acct_at w a.
Proof.
  unfold preimages, named. rewrite list_elem_of_In, in_flat_map. setoid_rewrite <- list_elem_of_In.
  split.
  - intros (t & Ht & Hin). rewrite !elem_of_cons in Hin. destruct Hin as [[= -> ->]|[[= -> ->]|Hin]].
    + eauto.
    + eauto.
    + by apply not_elem_of_nil in Hin.
  - intros [(t & Ht & Ha) ->]. exists t. split; [done|]. destruct Ha as [-> | ->]; set_solver.
Qed.

(** Accounts a block does not name keep their state. *)
Lemma transfers_frame w l w' a :
  transfers w l w' → ¬ named l a → acct_at w' a = acct_at w a.
Proof.
  induction 1 as [|w t l w' _ _ IH]; intros Hn; [done|]. rewrite IH.
  - unfold move. assert (a ≠ tx_from t ∧ a ≠ tx_to t) as [H1 H2].
    { split; intros ->; apply Hn; exists t; rewrite elem_of_cons; auto. }
    by rewrite !acct_at_insert_ne.
  - intros (u & Hu & Ha). apply Hn. exists u. rewrite elem_of_cons. auto.
Qed.

Lemma block_run_frame R idx w l w' a :
  block_run R idx w l w' → ¬ named l a → acct_at w' a = acct_at w a.
Proof.
  intros [w0 t l0 w1 _ Ht|w0 l0 w1 _ Ht] Hn; [|by eapply transfers_frame].
  rewrite (transfers_frame _ _ _ _ Ht).
  - unfold credit. rewrite acct_at_insert_ne; [done|].
    intros <-. apply Hn. exists t. rewrite elem_of_cons. auto.
  - intros (u & Hu & Ha). apply Hn. exists u. rewrite elem_of_cons. auto.
Qed.

(** Store a delta's pre-images back, the first recorded last. *)
Definition restore (d : CommitDelta) (w : accounts) : accounts :=
  foldr (λ p w, <[p.1 := p.2]> w) w d.

Lemma restore_lookup (w0 : accounts) d w a :
  (∀ b s, (b, s) ∈ d → s = acct_at w0 b) →
  (a ∉ d.*1 → acct_at w a = acct_at w0 a) → acct_at (restore d w) a = acct_at w0 a.
Proof.
  induction d as [|[b s] d IH]; intros Hd Ha; cbn [restore foldr fst snd]; [apply Ha; set_solver|].
  destruct (decide (b = a)) as [->|Hne].
  - rewrite acct_at_insert. apply Hd. set_solver.
  - rewrite acct_at_insert_ne by done. apply IH; [set_solver|]. intros Hn. apply Ha. set_solver.
Qed.
End undo.

(** C1. The single write path refines its specification: [connectBlock] accepts a
    block exactly when it validly extends the tip (index, recomputed link,
    timestamp window, proof of work, transaction commitment, size) and its
    body runs on the committed state, and then commits block, state, work and
    undo record together; on any refusal the chain is exactly as before. *)
Theorem connectBlock_refines {H : HashFn} {E : Ed25519} (c : Chain) (b : Block) (now_s : Z) :
  (∀ c', connectBlock c b now_s = (OK, c') ↔
         extends (difficulty_ c) now_s (u64 (height c + 1)) (tipHash c)
                 (h_timestamp (tip_header c)) b ∧
         ∃ w, block_run (reward_ c) (h_index (header b)) (state_ c) (txns b) w ∧
              c' = committed c b w) ∧
  (∀ r c', connectBlock c b now_s = (r, c') → r ≠ OK → c' = c).
Proof. split; [intros; apply connectBlock_ok_iff | intros; by eapply connectBlock_fail_unchanged]. Qed.

(** The undo record of a committed block is a correct inverse: it is the last
    entry of the log, every entry is the account's state before the block, every
    account the block changed is recorded, and storing the record back over the
    new state gives every account its old state. *)
Theorem undo_log_inverts {H : HashFn} {E : Ed25519} (c c' : Chain) (b : Block) (now_s : Z) :
  connectBlock c b now_s = (OK, c') →
  ∃ d, undoLog_ c' = undoLog_ c ++ [d] ∧
       (∀ a s, (a, s) ∈ d → s = account c a) ∧
       (∀ a, account c' a ≠ account c a → (a, account c a) ∈ d) ∧
       ∀ a, acct_at (restore d (state_ c')) a = account c a.
Proof.
  intros (_ & w & Hr & ->)%connectBlock_ok_iff.
  assert (∀ a, (a, account c a) ∉ preimages (state_ c) (txns b) → acct_at w a = account c a) as Hf.
  { intros a Hn. eapply block_run_frame; [done|]. intros Hx. apply Hn. by apply preimages_elem. }
  exists (preimages (state_ c) (txns b)). split; [done|]. split_and!.
  - by intros a s [_ ->]%preimages_elem.
  - intros a Hne. destruct (decide ((a, account c a) ∈ preimages (state_ c) (txns b))) as [|Hn]; [done|].
    by destruct Hne; apply Hf.
  - intros a. apply restore_lookup; [by intros ? ? [_ ->]%preimages_elem|]. intros Hn. apply Hf.
    intros Hin. apply Hn. by apply list_elem_of_fmap_2 with (f := fst) in Hin.
Qed.

(** Every chain a node can reach is well formed: it starts at the canonical
    genesis, each later block extends its predecessor (consecutive index,
    recomputed hash link, strictly later timestamp, proof of work, transaction
    commitment, at most 8 transactions), the cached account state is the run of
    the bodies from the genesis allocation, the cumulative work is
    height * 2^D (mod 2^128) and there is one undo record per block. *)
Theorem reachable_chain_shape {H : HashFn} {E : Ed25519} (D R now : Z) (c : Chain) :
  now + MAX_CLOCK_SKEW_S < 2 ^ 64 → reachable D R now c →
  ∃ l, blocks_ c = genesisBlock :: l ∧ height c = Z.of_nat (length l) ∧
       chained D now 1 (header genesisBlock) l ∧ runs R (applyGenesis ∅) l (state_ c) ∧
       cumWork_ c = u128 (height c * Target.block_work D) ∧
       length (undoLog_ c) = length l.
Proof.
  intros Hn Hc. destruct (reachable_shape D R now c Hn Hc) as [l Hs]. exists l.
  pose proof (shape_height _ _ _ _ _ Hs) as Hh. rewrite Hh. destruct Hs. by split_and!.
Qed.

(** C7. Conservation of supply: on every reachable chain free of self-transfers
    the balances sum to the genesis supply plus one reward per coinbase, and under
    a positive block reward that is exactly 5000 + 50 * height. *)
Theorem chain_supply {H : HashFn} {E : Ed25519} (D R now : Z) (c : Chain) :
  now + MAX_CLOCK_SKEW_S < 2 ^ 64 → reachable D R now c → no_self (all_txns (blocks_ c)) →
  height c < 2 ^ 58 →
  supply (state_ c) = GENESIS_SUPPLY + COINBASE_REWARD * coinbases (all_txns (blocks_ c)) ∧
  (0 < R → supply (state_ c) = GENESIS_SUPPLY + COINBASE_REWARD * height c).
Proof.
  intros Hn Hc Hs Hh. destruct (reachable_shape D R now c Hn Hc) as [l Hsh].
  rewrite (shape_height _ _ _ _ _ Hsh) in *. rewrite (sh_blocks _ _ _ _ _ Hsh) in *.
  destruct (runs_supply R _ _ _ (sh_runs _ _ _ _ _ Hsh) applyGenesis_ok) as (Hsup & _ & _ & HR).
  - apply (sh_ok _ _ _ _ _ Hsh).
  - exact Hs.
  - rewrite genesis_supply. unfold GENESIS_SUPPLY, COINBASE_REWARD. lia.
  - rewrite genesis_supply in Hsup. change (all_txns (genesisBlock :: l)) with (all_txns l).
    split; [done|]. intros. rewrite Hsup, HR; done.
Qed.

(** C8. Replay protection along the chain: on a reachable chain free of
    self-transfers the transactions an account has sent carry exactly the nonces
    0, 1, 2, ... in chain order, its account nonce is their number, and no
    transaction of it is included twice. *)
Theorem chain_nonces {H : HashFn} {E : Ed25519} (D R now : Z) (c : Chain) (a : Address20) :
  now + MAX_CLOCK_SKEW_S < 2 ^ 64 → reachable D R now c → no_self (all_txns (blocks_ c)) →
  a ≠ kNullAddr →
  let mine := sent a (all_txns (blocks_ c)) in
  Z.of_nat (length mine) < 2 ^ 64 →
  map tx_nonce mine = seqZ 0 (Z.of_nat (length mine)) ∧
  nonce (account c a) = Z.of_nat (length mine) ∧ NoDup mine.
Proof.
  intros Hn Hc Hs Ha mine Hb. destruct (reachable_shape D R now c Hn Hc) as [l Hsh].
  unfold mine in *. clear mine. rewrite (sh_blocks _ _ _ _ _ Hsh) in *.
  change (all_txns (genesisBlock :: l)) with (all_txns l) in *.
  destruct (counts_runs a R (applyGenesis ∅) l (state_ c) Ha) as [E1 E2]; try done.
  - intros. by rewrite applyGenesis_nonce.
  - apply (sh_runs _ _ _ _ _ Hsh).
  - by rewrite applyGenesis_nonce.
  - rewrite applyGenesis_nonce in *. split; [done|]. split; [done|].
    apply (NoDup_fmap_1 tx_nonce). change (tx_nonce <$> ?x) with (map tx_nonce x). rewrite E1.
    apply NoDup_seqZ.
Qed.

(** C28. Nothing overflows in this world: on every chain reachable while the clock is
    below 2^58 seconds, the height is below the clock, the 128-bit cumulative work
    is exactly height * 2^D for difficulties up to 70, and, without self-transfers,
    every balance is within the total 5000 + 50 * height at most, every nonce
    within 8 * height, and the three 64-bit updates a valid transfer makes
    (debit, credit, nonce bump) do not wrap. *)
Theorem chain_bounds {H : HashFn} {E : Ed25519} (D R now : Z) (c : Chain) :
  0 <= now → now + MAX_CLOCK_SKEW_S < 2 ^ 58 → 0 <= D <= 70 → reachable D R now c →
  0 <= height c <= now + MAX_CLOCK_SKEW_S ∧ cumWork_ c = height c * 2 ^ D ∧
  (no_self (all_txns (blocks_ c)) →
   supply (state_ c) <= GENESIS_SUPPLY + COINBASE_REWARD * height c ∧
   (∀ a, 0 <= balance (account c a) <= supply (state_ c)) ∧
   (∀ a, a ≠ kNullAddr → nonce (account c a) <= 8 * height c) ∧
   (∀ t, txn_ok t → transfer_ok (state_ c) t → tx_from t ≠ tx_to t →
      0 <= balance (account c (tx_from t)) - tx_amount t ∧
      balance (account c (tx_to t)) + tx_amount t < 2 ^ 64 ∧ nonce (account c (tx_from t)) + 1 < 2 ^ 64)).
Proof.
  intros H0 HT HD Hc. destruct (reachable_shape D R now c ltac:(lia) Hc) as [l Hs].
  pose proof (shape_length _ _ _ _ _ Hs H0) as Hl. pose proof (shape_height _ _ _ _ _ Hs) as Hh.
  split; [lia|]. split.
  { rewrite (sh_work _ _ _ _ _ Hs), Hh. by apply work_exact; [|lia]. }
  intros Hn. destruct (shape_ledger _ _ _ _ _ Hs H0 HT Hn) as (Hw & Hsup & Htot). rewrite Hh. split_and!.
  - done.
  - intros a. split; [by apply ledger_balance|by apply balance_le_supply].
  - intros a Ha. by eapply shape_nonce.
  - intros t [_ [[Ha _] _]] Ht Hne. pose proof (two_balances_le_supply _ _ _ Hw Hne). pose proof (tr_funds _ _ Ht).
    pose proof (shape_nonce _ _ _ _ _ (tx_from t) Hs H0 HT Hn (tr_user _ _ Ht)). unfold account in *.
    unfold GENESIS_SUPPLY, COINBASE_REWARD in *. lia.
Qed.

(** ** A worked chain

    Two blocks on the genesis of the demonstration instances: a coinbase to
    account A, then a coinbase and a payment from A to B. *)

Module ChainDemo.
#[local] Existing Instances Demo.demo_hash Demo.demo_ed.

(** The next block of [c] with body [l], without proof of work. *)
Definition next (c : Chain) (ts : Z) (l : list Txn) : Block :=
  mkBlock (mkHeader (height c + 1) ts (tipHash c) (txns_hash l) 0) l.

Definition now : Z := 1704070000.
Definition c0 : Chain := Chain_new 0 50.
Definition b1 : Block := next c0 1704067300 [coinbaseTxn GateDemo.addrA 1].
Definition c1 : Chain := (connectBlock c0 b1 now).2.
Definition pay : Txn := sign_txn GateDemo.seedA GateDemo.addrB 4 0.
Definition b2 : Block := next c1 1704067400 [coinbaseTxn GateDemo.addrA 2; pay].
Definition c2 : Chain := (connectBlock c1 b2 now).2.

Lemma connect_ok c b t : (connectBlock c b t).1 = OK → connectBlock c b t = (OK, (connectBlock c b t).2).
Proof. intros <-. apply surjective_pairing. Qed.

Lemma connect1 : connectBlock c0 b1 now = (OK, c1).
Proof. apply connect_ok. by vm_compute. Qed.
Lemma connect2 : connectBlock c1 b2 now = (OK, c2).
Proof. apply connect_ok. by vm_compute. Qed.

Lemma b1_ok : block_ok b1.
Proof. apply (bool_decide_unpack _). by vm_compute. Qed.
Lemma b2_ok : block_ok b2.
Proof. apply (bool_decide_unpack _). by vm_compute. Qed.

Lemma reach2 : reachable 0 50 now c2.
Proof.
  eapply (reach_connect _ _ _ c1 b2 now); [|apply b2_ok|done|apply connect2].
  eapply (reach_connect _ _ _ c0 b1 now); [constructor|apply b1_ok|done|apply connect1].
Qed.

Lemma now_nonneg2 : 0 <= now.
Proof. by vm_compute. Qed.
Lemma now_early : now + MAX_CLOCK_SKEW_S < 2 ^ 58.
Proof. by vm_compute. Qed.
Lemma difficulty_0 : 0 <= 0 <= 70.
Proof. done. Qed.
Lemma no_self2 : no_self (all_txns (blocks_ c2)).
Proof. apply (bool_decide_unpack _). by vm_compute. Qed.

Lemma now_room : now + MAX_CLOCK_SKEW_S < 2 ^ 64.
Proof. done. Qed.
Lemma height2 : height c2 < 2 ^ 58.
Proof. by vm_compute. Qed.
Lemma sent2 : Z.of_nat (length (sent GateDemo.addrA (all_txns (blocks_ c2)))) < 2 ^ 64.
Proof. by vm_compute. Qed.
End ChainDemo.

Lemma undo_log_inverts_witness :
  ∃ d, undoLog_ ChainDemo.c2 = undoLog_ ChainDemo.c1 ++ [d] ∧
       acct_at (restore d (state_ ChainDemo.c2)) GateDemo.addrB = account ChainDemo.c1 GateDemo.addrB.
Proof.
  destruct (undo_log_inverts (H := Demo.demo_hash) (E := Demo.demo_ed) _ _ _ _ ChainDemo.connect2)
    as (d & Hd & _ & _ & Hr).
  exists d. split; [exact Hd|exact (Hr GateDemo.addrB)].
Defined.

Lemma reachable_chain_shape_witness :
  ∃ l, blocks_ ChainDemo.c2 = genesisBlock (H := Demo.demo_hash) :: l ∧
       cumWork_ ChainDemo.c2 = u128 (height ChainDemo.c2 * Target.block_work 0).
Proof.
  destruct (reachable_chain_shape (H := Demo.demo_hash) (E := Demo.demo_ed) _ _ _ _
              ChainDemo.now_room ChainDemo.reach2) as (l & Hb & _ & _ & _ & Hw & _).
  exists l. split; [exact Hb|exact Hw].
Defined.

Lemma chain_supply_witness : supply (state_ ChainDemo.c2) = GENESIS_SUPPLY + COINBASE_REWARD * height ChainDemo.c2.
Proof.
  exact (proj2 (chain_supply (H := Demo.demo_hash) (E := Demo.demo_ed) _ _ _ _ ChainDemo.now_room
    ChainDemo.reach2 ChainDemo.no_self2 ChainDemo.height2) eq_refl).
Defined.

Lemma chain_nonces_witness :
  map tx_nonce (sent GateDemo.addrA (all_txns (blocks_ ChainDemo.c2))) =
    seqZ 0 (Z.of_nat (length (sent GateDemo.addrA (all_txns (blocks_ ChainDemo.c2))))).
Proof.
  exact (proj1 (chain_nonces (H := Demo.demo_hash) (E := Demo.demo_ed) _ _ _ _ GateDemo.addrA
    ChainDemo.now_room ChainDemo.reach2 ChainDemo.no_self2 GateDemo.A_ne_null ChainDemo.sent2)).
Defined.

Lemma chain_bounds_witness :
  cumWork_ ChainDemo.c2 = height ChainDemo.c2 * 2 ^ 0 ∧
  nonce (account ChainDemo.c2 GateDemo.addrA) <= 8 * height ChainDemo.c2.
Proof.
  destruct (chain_bounds (H := Demo.demo_hash) (E := Demo.demo_ed) _ _ _ _ ChainDemo.now_nonneg2 ChainDemo.now_early
    ChainDemo.difficulty_0 ChainDemo.reach2) as (_ & Hw & Hs).
  destruct (Hs ChainDemo.no_self2) as (_ & _ & Hn & _). exact (conj Hw (Hn GateDemo.addrA GateDemo.A_ne_null)).
Defined.
