(* ===== verification/Validate.v ===== *)
(** The from-genesis validator, the ground truth of the chain, and the monitor
    contract: [include/txchain/chain/validate.hpp], [src/chain/validate.cpp],
    and [Chain::validateChain] of [src/chain/chain.cpp]. *)

From Stdlib Require Import ZArith Lia Ascii String.
From stdpp Require Import base list strings gmap fin_maps.
From S2P Require Import Prelude Sha256 Crypto Canonical Wallet Gate Chain.
Import Facade.

Definition reasonName (r : Reason) : list byte :=
  match r with
  | OK => txt "OK"
  | BAD_LINK => txt "BAD_LINK"
  | BAD_TXNS_HASH => txt "BAD_TXNS_HASH"
  | BAD_POW => txt "BAD_POW"
  | BAD_SIG => txt "BAD_SIG"
  | BAD_ADDR => txt "BAD_ADDR"
  | STALE_NONCE => txt "STALE_NONCE"
  | INSUFFICIENT_FUNDS => txt "INSUFFICIENT_FUNDS"
  | BAD_SUPPLY => txt "BAD_SUPPLY"
  end.

Record VerifyResult := mkVerify {
  vr_ok : bool;
  vr_failIndex : Z;
  vr_reason : Reason;
  vr_detail : list byte
}.

#[export] Instance VerifyResult_eq_dec : EqDecision VerifyResult.
Proof. solve_decision. Defined.

Definition fail (idx : Z) (r : Reason) (detail : list byte) : VerifyResult :=
  mkVerify false idx r detail.

(** [for (const auto& kv : state) actual += kv.second.balance;] *)
Definition actual_supply (state : accounts) : Z := map_fold (λ _ s actual, u64 (actual + balance s)) 0 state.

Section validate.
Context {H : HashFn} {E : Ed25519}.

(** The block loop of [replayFromGenesis] from index [i] on: the first
    failure, or the final account state. *)
Fixpoint replay_loop (now_s D reward : Z) (i : Z) (prevHash : Digest32) (prevTime : Z)
    (state : accounts) (blocks : list Block) : VerifyResult + accounts :=
  match blocks with
  | [] => inr state
  | b :: rest =>
      let idx := i in
      return_if negb (h_index (header b) =? idx)
        with inl (fail idx BAD_LINK (txt "index mismatch")) ;;
      return_if negb (bool_decide (h_prevHash (header b) = prevHash))
        with inl (fail idx BAD_LINK (txt "prevHash mismatch")) ;;
      return_if negb ((prevTime <? h_timestamp (header b)) &&
                      (h_timestamp (header b) <=? u64 (now_s + MAX_CLOCK_SKEW_S)))
        with inl (fail idx BAD_LINK (txt "timestamp out of range")) ;;
      return_if negb (Target.meets_difficulty (block_hash (header b)) D)
        with inl (fail idx BAD_POW (txt "hash above target")) ;;
      return_if negb (bool_decide (computeTxnsHash b = h_txnsHash (header b)))
        with inl (fail idx BAD_TXNS_HASH (txt "txns commitment mismatch")) ;;
      return_if (MAX_TXNS_PER_BLOCK <? length (txns b))%nat
        with inl (fail idx BAD_TXNS_HASH (txt "too many txns")) ;;
      let '(ar, state) := applyBlockTxns state b reward in
      return_if negb (bool_decide (reason ar = OK)) with inl (fail idx (reason ar) (detail ar)) ;;
      replay_loop now_s D reward (i + 1) (block_hash (header b)) (h_timestamp (header b)) state rest
  end.

Definition replayFromGenesis (blocks : list Block) (now_s D reward : Z) : VerifyResult :=
  match blocks with
  | [] => fail 0 BAD_LINK (txt "empty chain")
  | b0 :: rest =>
      let state := applyGenesis ∅ in
      return_if negb (h_index (header b0) =? 0) with fail 0 BAD_LINK (txt "index mismatch") ;;
      return_if negb (bool_decide (h_prevHash (header b0) = arr_zero 32))
        with fail 0 BAD_LINK (txt "prevHash mismatch") ;;
      return_if negb (bool_decide (computeTxnsHash b0 = h_txnsHash (header b0)))
        with fail 0 BAD_TXNS_HASH (txt "txns commitment mismatch") ;;
      match replay_loop now_s D reward 1 (block_hash (header b0)) (h_timestamp (header b0)) state rest with
      | inl failure => failure
      | inr state =>
          let actual := actual_supply state in
          let height := u64 (Z.of_nat (length blocks) - 1) in
          let expected := u64 (GENESIS_SUPPLY + u64 (height * reward)) in
          return_if negb (actual =? expected)
            with fail height BAD_SUPPLY (txt "supply mismatch") ;;
          mkVerify true 0 OK []
      end
  end.

(** The two- and one-argument overloads: difficulty and reward 0. *)
Definition replayFromGenesis_default (blocks : list Block) (now_s : Z) : VerifyResult :=
  replayFromGenesis blocks now_s 0 0.

(** [Chain::validateChain]. *)
Definition validateChain (c : Chain) (wall_clock_now_s : Z) : Reason :=
  vr_reason (replayFromGenesis (blocks_ c) wall_clock_now_s (difficulty_ c) (reward_ c)).

(** The inner loop of [replayState] over one block's transactions. *)
Fixpoint replay_txns (state : accounts) (index : Z) (ti : nat) (l : list Txn) : accounts :=
  match l with
  | [] => state
  | t :: l => replay_txns (applyTxn state t index ti).2 index (S ti) l
  end.

Definition replayState (blocks : list Block) : accounts :=
  foldl (λ state b, replay_txns state (h_index (header b)) 0 (txns b)) (applyGenesis ∅) (drop 1 blocks).
End validate.

Definition monitor_verify_line (r : VerifyResult) (block_count : nat) : list byte :=
  return_if vr_ok r with txt "OK " ++ to_string (Z.of_nat block_count) ++ txt " blocks" ;;
  let s := txt "FAIL block " ++ to_string (vr_failIndex r) ++ txt ": " ++ reasonName (vr_reason r) in
  if negb (length (vr_detail r) =? 0)%nat then s ++ txt " (" ++ vr_detail r ++ txt ")" else s.

Definition monitor_verify_exit_code (r : VerifyResult) : Z := if vr_ok r then 0 else 1.

(** ** The validator against the specification *)

Section replay_spec.
Context {H : HashFn} {E : Ed25519}.

Lemma actual_supply_eq w : actual_supply w = u64 (supply w).
Proof.
  unfold actual_supply, supply. rewrite !map_fold_foldr.
  induction (map_to_list w) as [|[a s] l IH]; [done|]. cbn [foldr uncurry]. rewrite IH.
  unfold u64. rewrite Z.add_mod_idemp_l by done. f_equal. lia.
Qed.

Lemma replay_loop_iff now D R i h w l w' :
  replay_loop now D R i (block_hash h) (h_timestamp h) w l = inr w' ↔
  chained D now i h l ∧ runs R w l w'.
Proof.
  revert i h w. induction l as [|b l IH]; intros i h w; cbn [replay_loop chained].
  { split; [intros [= ->]; by split; [|constructor]|]. intros [_ Hr]. by inversion Hr. }
  split.
  - intros Hl. destruct (applyBlockTxns w b R) as [ar w1] eqn:Ha.
    split_guards_in Hl; simplify_eq; reflect_bools.
    rewrite (applyBlockTxns_result_ok _ _ _ _ _ Ha) in Ha by done.
    apply applyBlockTxns_iff in Ha. apply IH in Hl as [Hc Hr].
    split; [split; [by split|done]|by econstructor].
  - intros [[[H1 H2 H3 H4 H5 H6 H7] Hc] Hr].
    inversion Hr as [|? ? ? w1 ? Hb Hr']; subst. apply applyBlockTxns_iff in Hb. rewrite Hb.
    rewrite H2, H5, H6, Z.eqb_refl, !bool_decide_eq_true_2 by done. cbn [negb reason].
    rewrite (proj2 (Z.ltb_lt _ _) H3), (proj2 (Z.leb_le _ _) H4), (proj2 (Nat.ltb_ge _ _) H7).
    cbn [negb andb]. by apply IH.
Qed.

Lemma replay_loop_fail now D R i ph pt w l f :
  replay_loop now D R i ph pt w l = inl f → vr_ok f = false ∧ vr_reason f ≠ OK.
Proof.
  revert i ph pt w. induction l as [|b l IH]; intros i ph pt w; cbn [replay_loop]; [done|].
  destruct (applyBlockTxns w b R) as [ar w1]. intros Hl.
  split_guards_in Hl; simplify_eq; reflect_bools; try done. by eapply IH.
Qed.

(** What a chain must satisfy to pass the replay. *)
Definition replays (now D R : Z) (b0 : Block) (l : list Block) (w : accounts) : Prop :=
  h_index (header b0) = 0 ∧ h_prevHash (header b0) = arr_zero 32 ∧
  h_txnsHash (header b0) = computeTxnsHash b0 ∧
  chained D now 1 (header b0) l ∧ runs R (applyGenesis ∅) l w.

Definition expected_supply (l : list Block) (R : Z) : Z :=
  u64 (GENESIS_SUPPLY + u64 (u64 (Z.of_nat (length l)) * R)).

Lemma replay_of_runs now D R b0 l w :
  replays now D R b0 l w →
  replayFromGenesis (b0 :: l) now D R =
    if u64 (supply w) =? expected_supply l R then mkVerify true 0 OK []
    else fail (u64 (Z.of_nat (length l))) BAD_SUPPLY (txt "supply mismatch").
Proof.
  intros (H1 & H2 & H3 & Hc). apply replay_loop_iff in Hc. unfold replayFromGenesis.
  rewrite H1, H2, H3, !bool_decide_eq_true_2 by done. cbn [negb Z.eqb]. rewrite Hc.
  cbn [length]. rewrite Nat2Z.inj_succ, <- Z.add_1_r, Z.add_simpl_r, actual_supply_eq.
  fold (expected_supply l R). by destruct (_ =? _).
Qed.

Lemma replay_ok_iff blocks now D R :
  vr_ok (replayFromGenesis blocks now D R) = true ↔
  ∃ b0 l w, blocks = b0 :: l ∧ replays now D R b0 l w ∧ u64 (supply w) = expected_supply l R.
Proof.
  split.
  - intros Hr. destruct blocks as [|b0 l]; [done|]. unfold replayFromGenesis in Hr.
    destruct (h_index (header b0) =? 0) eqn:E1; [|done].
    destruct (bool_decide (h_prevHash _ = _)) eqn:E2; [|done].
    destruct (bool_decide (computeTxnsHash _ = _)) eqn:E3; [|done]. cbn [negb] in Hr.
    destruct (replay_loop _ _ _ _ _ _ _ _) as [f|w] eqn:El.
    { apply replay_loop_fail in El as [Hf _]. congruence. }
    reflect_bools. exists b0, l, w. split; [done|]. apply replay_loop_iff in El as Hc.
    split; [done|]. cbn [length] in Hr.
    rewrite Nat2Z.inj_succ, <- Z.add_1_r, Z.add_simpl_r, actual_supply_eq in Hr.
    unfold expected_supply. destruct (_ =? _) eqn:Es; [|done]. by apply Z.eqb_eq.
  - intros (b0 & l & w & -> & Hr & Hs). rewrite (replay_of_runs _ _ _ _ _ _ Hr), Hs.
    by rewrite Z.eqb_refl.
Qed.

Lemma replay_reason_ok blocks now D R :
  vr_reason (replayFromGenesis blocks now D R) = OK ↔ vr_ok (replayFromGenesis blocks now D R) = true.
Proof.
  destruct blocks as [|b0 l]; [done|]. unfold replayFromGenesis.
  destruct (h_index (header b0) =? 0); [|done].
  destruct (bool_decide (h_prevHash _ = _)); [|done].
  destruct (bool_decide (computeTxnsHash _ = _)); [|done]. cbn [negb].
  destruct (replay_loop _ _ _ _ _ _ _ _) as [f|w] eqn:El; [|by destruct (_ =? _)].
  apply replay_loop_fail in El as [Hf Hr]. split; congruence.
Qed.

(** A weaker difficulty and no reward accept every run the chain accepts. *)
Lemma chained_weaken D now i h l : chained D now i h l → chained 0 now i h l.
Proof.
  revert i h. induction l as [|b l IH]; intros i h; cbn [chained]; [done|].
  intros [[] Hl]. split; [split; try done; apply Target.meets_difficulty_0|by apply IH].
Qed.

Lemma runs_weaken R w l w' : 0 < R → runs R w l w' → runs 0 w l w'.
Proof.
  intros HR. induction 1 as [|w b l w1 w' Hb _ IH]; [constructor|]. econstructor; [|done].
  destruct Hb; [by apply run_coinbase|lia].
Qed.
End replay_spec.

(** ** Tamper evidence *)

Section tamper.
Context {H : HashFn} {L : HashLaws H} {E : Ed25519}.

(** Two different byte strings, read off two blocks, with one digest. *)
Definition collides (b b' : Block) : Prop :=
  (serialize_header (header b) ≠ serialize_header (header b') ∧
   sha256 (serialize_header (header b)) = sha256 (serialize_header (header b'))) ∨
  (concat (map serialize_txn (txns b)) ≠ concat (map serialize_txn (txns b')) ∧
   sha256 (concat (map serialize_txn (txns b))) = sha256 (concat (map serialize_txn (txns b')))).

(** Two committed blocks with one header hash are equal, or collide. *)
Lemma same_hash_same_block b b' :
  block_ok b → block_ok b' →
  h_txnsHash (header b) = computeTxnsHash b → h_txnsHash (header b') = computeTxnsHash b' →
  block_hash (header b) = block_hash (header b') → b = b' ∨ collides b b'.
Proof.
  intros [Hh Ht] [Hh' Ht'] Hc Hc' Heq. destruct (decide (header b = header b')) as [Eh|Nh].
  - destruct (decide (txns b = txns b')) as [Et|Nt].
    + left. destruct b, b'; simpl in *; congruence.
    + right. right. split; [intros Ec; by apply Nt, concat_serialize_inj|].
      rewrite <- !txns_hash_eq. unfold computeTxnsHash in *. congruence.
  - right. left. split; [|done]. intros Es. by apply Nh, serialize_header_inj.
Qed.

Lemma collides_mono (l1 l1' l2 l2' : list Block) :
  (∃ x y, x ∈ l1 ∧ y ∈ l1' ∧ collides x y) → l1 ⊆ l2 → l1' ⊆ l2' →
  ∃ x y, x ∈ l2 ∧ y ∈ l2' ∧ collides x y.
Proof. intros (x & y & ? & ? & ?) ? ?. exists x, y. set_solver. Qed.

Lemma chain_commits D D' now now' b0 b0' l l' :
  h_index (header b0) = 0 → h_index (header b0') = 0 →
  h_txnsHash (header b0) = computeTxnsHash b0 → h_txnsHash (header b0') = computeTxnsHash b0' →
  chained D now 1 (header b0) l → chained D' now' 1 (header b0') l' →
  Forall block_ok (b0 :: l) → Forall block_ok (b0' :: l') →
  block_hash (tip_of (header b0) l) = block_hash (tip_of (header b0') l') →
  b0 :: l = b0' :: l' ∨ ∃ b b', b ∈ b0 :: l ∧ b' ∈ b0' :: l' ∧ collides b b'.
Proof.
  intros Hi Hi' Hc0 Hc0'. revert l'.
  induction l as [|b l IH] using rev_ind; intros l' Hl Hl' Hok Hok' Htip;
    destruct l' as [|b' l' _] using rev_ind.
  - apply Forall_cons in Hok as [Hok _]. apply Forall_cons in Hok' as [Hok' _].
    destruct (same_hash_same_block b0 b0' Hok Hok' Hc0 Hc0' Htip) as [->|Hx]; [by left|].
    right. exists b0, b0'. set_solver.
  - rewrite tip_of_snoc in Htip. apply chained_snoc in Hl' as [_ []].
    apply Forall_cons in Hok as [Hok _]. rewrite app_comm_cons in Hok'.
    apply Forall_app in Hok' as [_ [Hok' _]%Forall_cons].
    destruct (same_hash_same_block b0 b' Hok Hok' Hc0 ltac:(done) Htip) as [->|Hx]; [lia|].
    right. exists b0, b'. set_solver.
  - rewrite tip_of_snoc in Htip. apply chained_snoc in Hl as [_ []].
    apply Forall_cons in Hok' as [Hok' _]. rewrite app_comm_cons in Hok.
    apply Forall_app in Hok as [_ [Hok _]%Forall_cons].
    destruct (same_hash_same_block b b0' Hok Hok' ltac:(done) Hc0' Htip) as [->|Hx]; [lia|].
    right. exists b, b0'. set_solver.
  - rewrite !tip_of_snoc in Htip. apply chained_snoc in Hl as [Hl []].
    apply chained_snoc in Hl' as [Hl' []].
    rewrite app_comm_cons in Hok, Hok'.
    apply Forall_app in Hok as [Hok [Hb _]%Forall_cons].
    apply Forall_app in Hok' as [Hok' [Hb' _]%Forall_cons].
    destruct (same_hash_same_block b b' Hb Hb' ltac:(done) ltac:(done) Htip) as [Eb|Hx].
    + destruct (IH l' Hl Hl' Hok Hok') as [El|Hx]; [congruence| |].
      * left. rewrite !app_comm_cons. congruence.
      * right. eapply collides_mono; [exact Hx|set_solver|set_solver].
    + right. exists b, b'. set_solver.
Qed.
End tamper.

(** C11. The from-genesis validator implements its specification: it reports success
    exactly when block 0 is a genesis (index 0, zero link, matching commitment),
    every later block extends its predecessor, all bodies run in order from the
    genesis allocation, and the final balances sum (mod 2^64) to
    GENESIS_SUPPLY + height * reward. *)
Theorem replay_refines {H : HashFn} {E : Ed25519} (blocks : list Block) (now D R : Z) :
  vr_ok (replayFromGenesis blocks now D R) = true ↔
  ∃ b0 l w, blocks = b0 :: l ∧
    h_index (header b0) = 0 ∧ h_prevHash (header b0) = arr_zero 32 ∧
    h_txnsHash (header b0) = computeTxnsHash b0 ∧
    chained D now 1 (header b0) l ∧ runs R (applyGenesis ∅) l w ∧
    u64 (supply w) = u64 (GENESIS_SUPPLY + u64 (u64 (Z.of_nat (length l)) * R)).
Proof.
  rewrite replay_ok_iff. unfold replays, expected_supply.
  split; intros (b0 & l & w & Hx); exists b0, l, w; tauto.
Qed.

(** C9. The incremental and the ground-truth validators agree: every reachable chain
    free of self-transfers whose reward is the coinbase reward validates, at any
    clock time at or after the commits. *)
Theorem reachable_validates {H : HashFn} {E : Ed25519} (D now : Z) (c : Chain) :
  now + MAX_CLOCK_SKEW_S < 2 ^ 64 → reachable D COINBASE_REWARD now c →
  no_self (all_txns (blocks_ c)) → height c < 2 ^ 58 →
  replayFromGenesis (blocks_ c) now D COINBASE_REWARD = mkVerify true 0 OK [] ∧
  validateChain c now = OK.
Proof.
  intros Hn Hc Hs Hh. destruct (reachable_shape _ _ _ _ Hn Hc) as [l Hsh].
  pose proof (shape_height _ _ _ _ _ Hsh) as Hl. rewrite Hl in *.
  destruct Hsh as [Hb Hch Hok Hr _ HD HR _]. rewrite Hb in *.
  destruct (runs_supply _ _ _ _ Hr applyGenesis_ok Hok Hs) as (Es & _ & _ & Hcb).
  { rewrite genesis_supply. unfold GENESIS_SUPPLY, COINBASE_REWARD. lia. }
  rewrite Hcb, genesis_supply in Es by done.
  assert (replayFromGenesis (genesisBlock :: l) now D COINBASE_REWARD = mkVerify true 0 OK []) as Hrep.
  { rewrite (replay_of_runs _ _ _ _ _ (state_ c)) by (by split_and!).
    unfold expected_supply. unfold GENESIS_SUPPLY, COINBASE_REWARD in *.
    rewrite Es, !(u64_id (Z.of_nat _)), (u64_id (_ * 50)) by (unfold u64_ok; lia).
    by rewrite Z.mul_comm, Z.eqb_refl. }
  split; [done|]. unfold validateChain. by rewrite HD, HR, Hb, Hrep.
Qed.

Lemma reachable_validates_witness :
  validateChain (H := Demo.demo_hash) (E := Demo.demo_ed) ChainDemo.c2 ChainDemo.now = OK.
Proof.
  exact (proj2 (reachable_validates (H := Demo.demo_hash) (E := Demo.demo_ed) 0 _ _ ChainDemo.now_room
    ChainDemo.reach2 ChainDemo.no_self2 ChainDemo.height2)).
Defined.

(** C16. Tamper evidence: two block files that both pass the replay (under whatever
    difficulty, reward and clock) and end in the same tip hash are the same
    chain, unless two of their blocks exhibit, in their canonical header or
    transaction bytes, a collision of the hash function. *)
Theorem tip_hash_commits {H : HashFn} {L : HashLaws H} {E : Ed25519}
    (blocks blocks' : list Block) now D R now' D' R' (b b' : Block) :
  Forall block_ok blocks → Forall block_ok blocks' →
  vr_ok (replayFromGenesis blocks now D R) = true →
  vr_ok (replayFromGenesis blocks' now' D' R') = true →
  last blocks = Some b → last blocks' = Some b' →
  block_hash (header b) = block_hash (header b') →
  blocks = blocks' ∨
  ∃ x y, x ∈ blocks ∧ y ∈ blocks' ∧
    ((serialize_header (header x) ≠ serialize_header (header y) ∧
      sha256 (serialize_header (header x)) = sha256 (serialize_header (header y))) ∨
     (concat (map serialize_txn (txns x)) ≠ concat (map serialize_txn (txns y)) ∧
      sha256 (concat (map serialize_txn (txns x))) = sha256 (concat (map serialize_txn (txns y))))).
Proof.
  intros Hok Hok' Hr Hr' Hb Hb' Htip.
  apply replay_ok_iff in Hr as (b0 & l & w & -> & (Hi & _ & Hc0 & Hc & _) & _).
  apply replay_ok_iff in Hr' as (b0' & l' & w' & -> & (Hi' & _ & Hc0' & Hc' & _) & _).
  eapply (chain_commits D D' now now'); try done.
  unfold tip_of. rewrite last_cons in Hb, Hb'.
  destruct (last l), (last l'); simplify_eq/=; done.
Qed.

Module ReplayDemo.
#[local] Existing Instances Demo.demo_hash Demo.demo_ed.
Lemma blocks_ok2 : Forall block_ok (blocks_ ChainDemo.c2).
Proof. apply (bool_decide_unpack _). by vm_compute. Qed.
Lemma valid2 : vr_ok (replayFromGenesis (blocks_ ChainDemo.c2) ChainDemo.now 0 50) = true.
Proof. by vm_compute. Qed.
Lemma last2 : last (blocks_ ChainDemo.c2) = Some ChainDemo.b2.
Proof. apply (bool_decide_unpack _). by vm_compute. Qed.
End ReplayDemo.

Lemma tip_hash_commits_witness :
  blocks_ ChainDemo.c2 = blocks_ ChainDemo.c2 ∨
  ∃ x y, x ∈ blocks_ ChainDemo.c2 ∧ y ∈ blocks_ ChainDemo.c2 ∧ @collides Demo.demo_hash x y.
Proof.
  exact (tip_hash_commits (H := Demo.demo_hash) (L := Demo.demo_hash_laws) (E := Demo.demo_ed)
    _ _ ChainDemo.now 0 50 ChainDemo.now 0 50 ChainDemo.b2 ChainDemo.b2 ReplayDemo.blocks_ok2
    ReplayDemo.blocks_ok2 ReplayDemo.valid2 ReplayDemo.valid2 ReplayDemo.last2 ReplayDemo.last2 eq_refl).
Defined.

(** A defect of [txchain send --datadir]: it replays the loaded file with the
    default difficulty and reward 0, and that replay fails with BAD_SUPPLY on
    every chain mined with coinbases, however valid. *)
Theorem offline_replay_rejects_mined {H : HashFn} {E : Ed25519} (D now : Z) (c : Chain) :
  now + MAX_CLOCK_SKEW_S < 2 ^ 64 → reachable D COINBASE_REWARD now c →
  no_self (all_txns (blocks_ c)) → 0 < height c < 2 ^ 58 →
  replayFromGenesis_default (blocks_ c) now =
    mkVerify false (height c) BAD_SUPPLY (txt "supply mismatch").
Proof.
  intros Hn Hc Hs Hh. destruct (reachable_shape _ _ _ _ Hn Hc) as [l Hsh].
  pose proof (shape_height _ _ _ _ _ Hsh) as Hl. rewrite Hl in *.
  destruct Hsh as [Hb Hch Hok Hr _ _ _ _]. rewrite Hb in *.
  destruct (runs_supply _ _ _ _ Hr applyGenesis_ok Hok Hs) as (Es & _ & _ & Hcb).
  { rewrite genesis_supply. unfold GENESIS_SUPPLY, COINBASE_REWARD. lia. }
  rewrite Hcb, genesis_supply in Es by done. unfold replayFromGenesis_default.
  rewrite (replay_of_runs _ _ _ _ _ (state_ c)).
  - unfold expected_supply. unfold GENESIS_SUPPLY, COINBASE_REWARD in *.
    rewrite Es, Z.mul_0_r, (u64_id (Z.of_nat _)), (u64_id (5000 + _)) by (unfold u64_ok; lia).
    change (u64 (5000 + u64 0)) with 5000. by rewrite (proj2 (Z.eqb_neq _ _)) by lia.
  - split_and!; try done; [by eapply chained_weaken|by apply (runs_weaken COINBASE_REWARD)].
Qed.

Lemma offline_replay_rejects_mined_witness :
  replayFromGenesis_default (H := Demo.demo_hash) (E := Demo.demo_ed) (blocks_ ChainDemo.c2) ChainDemo.now =
    mkVerify false (height ChainDemo.c2) BAD_SUPPLY (txt "supply mismatch").
Proof.
  apply (offline_replay_rejects_mined (H := Demo.demo_hash) (E := Demo.demo_ed) 0 _ _ ChainDemo.now_room
    ChainDemo.reach2 ChainDemo.no_self2).
  split; [by vm_compute|exact ChainDemo.height2].
Defined.

(** ** A chain on which the two validators disagree *)

Module SelfTransfer.
#[local] Existing Instances Demo.demo_hash Demo.demo_ed.

Definition self_pay : Txn := sign_txn GateDemo.seedA GateDemo.addrA 10 1.
Definition b3 : Block :=
  ChainDemo.next ChainDemo.c2 1704067500 [coinbaseTxn GateDemo.addrA 3; self_pay].
Definition c3 : Chain := (connectBlock ChainDemo.c2 b3 ChainDemo.now).2.

Lemma connect3 : connectBlock ChainDemo.c2 b3 ChainDemo.now = (OK, c3).
Proof. apply ChainDemo.connect_ok. by vm_compute. Qed.
End SelfTransfer.

(** A defect, contradicting the gate's contract that the commit path and the
    replay can never disagree: a valid chain accepts, through [connectBlock], a
    block holding a transfer from an account to itself, and from then on the
    from-genesis replay of its own blocks fails with BAD_SUPPLY. *)
Theorem validators_disagree :
  let _ := Demo.demo_hash in let _ := Demo.demo_ed in
  validateChain ChainDemo.c2 ChainDemo.now = OK ∧
  connectBlock ChainDemo.c2 SelfTransfer.b3 ChainDemo.now = (OK, SelfTransfer.c3) ∧
  validateChain SelfTransfer.c3 ChainDemo.now = BAD_SUPPLY ∧
  monitor_verify_line (replayFromGenesis (blocks_ SelfTransfer.c3) ChainDemo.now 0 COINBASE_REWARD) 4 =
    txt "FAIL block 3: BAD_SUPPLY (supply mismatch)".
Proof.
  split; [by vm_compute|]. split; [exact SelfTransfer.connect3|]. split; by vm_compute.
Qed.
