(* ===== verification/Eddsa.v ===== *)
(** The two Ed25519 backends of the facade [include/txchain/crypto/ed25519.hpp]:
    [src/crypto/ed25519_ref10.cpp] over the vendored [keypair.c], [sign.c] and
    [verify.c] of [third_party/ed25519_ref10/], and
    [src/crypto/ed25519_sodium.cpp] over libsodium.

    Field, curve and scalar arithmetic and SHA-512 are parameters: the class
    [Curve] has one field per routine the three C files call, and [CurveLaws]
    says what the comments of [ge.c] and [sc.c] say of them.  libsodium is the
    class [Sodium], its documented behaviour [SodiumLaws].  From these both
    backends are proved to make the keys and signatures of RFC 8032, and so to
    satisfy [Ed25519Laws]. *)

From Stdlib Require Import ZArith Lia Ascii String Setoid Morphisms.
From stdpp Require Import base list list_numbers.
From S2P Require Import Prelude Sha256 Crypto.

(** ** Little-endian integers *)

Definition le_decode (l : list byte) : Z := be_decode (reverse l).
Definition le_encode (n : nat) (v : Z) : list byte := reverse (be_encode n v).

Lemma length_le_encode n v : length (le_encode n v) = n.
Proof. unfold le_encode. by rewrite length_reverse, length_be_encode. Qed.

Lemma le_decode_encode n v : le_decode (le_encode n v) = v mod 256 ^ Z.of_nat n.
Proof. unfold le_decode, le_encode. by rewrite reverse_involutive, be_decode_encode. Qed.

Lemma le_encode_decode l : le_encode (length l) (le_decode l) = l.
Proof.
  unfold le_decode, le_encode. rewrite <- (length_reverse l), be_encode_decode.
  apply reverse_involutive.
Qed.

Lemma le_decode_range l : 0 <= le_decode l < 256 ^ Z.of_nat (length l).
Proof. unfold le_decode. rewrite <- (length_reverse l). apply be_decode_range. Qed.

Lemma le_decode_cons b l : le_decode (b :: l) = byte_to_Z b + 256 * le_decode l.
Proof. unfold le_decode. rewrite reverse_cons, be_decode_snoc. lia. Qed.

Lemma le_decode_snoc l b : le_decode (l ++ [b]) = le_decode l + 256 ^ Z.of_nat (length l) * byte_to_Z b.
Proof.
  induction l as [|c l IH].
  - cbn [app]. rewrite le_decode_cons. change (le_decode []) with 0. change (256 ^ Z.of_nat (length [])) with 1. lia.
  - cbn [app length]. rewrite !le_decode_cons, IH, pow256_S. lia.
Qed.

Lemma le_decode_inj l k : length l = length k → le_decode l = le_decode k → l = k.
Proof. intros Hn Hd. rewrite <- (le_encode_decode l), <- (le_encode_decode k). by rewrite Hn, Hd. Qed.

(** ** Parts of byte arrays *)

(** [a[i]]. *)
Definition byte_at {n} (a : arr n) (i : nat) : Z := byte_to_Z (nth i (arr_list a) zero).
(** [a[i] = v]. *)
Definition set_byte {n} (a : arr n) (i : nat) (v : Z) : arr n := arr_of n (<[i := Z_to_byte v]> (arr_list a)).

(** The pointers [a] and [a + 32] of a 64-byte buffer. *)
Definition low (a : arr 64) : arr 32 := arr_of 32 (take 32 (arr_list a)).
Definition high (a : arr 64) : arr 32 := arr_of 32 (drop 32 (arr_list a)).
Definition join (a b : arr 32) : arr 64 := arr_of 64 (arr_list a ++ arr_list b).

(** The number a buffer holds. *)
Definition scalar (a : arr 32) : Z := le_decode (arr_list a).
Definition scalar_of (v : Z) : arr 32 := arr_of 32 (le_encode 32 v).

(** ** What the C files call *)

(** [l = 2^252 + 27742317777372353535851937790883648493] of [sc.c]. *)
Definition group_order : Z := 2 ^ 252 + 27742317777372353535851937790883648493.

Class Curve := {
  sha512_ctx : Type;
  sha512_init : sha512_ctx;
  sha512_update : sha512_ctx → list byte → sha512_ctx;
  sha512_final : sha512_ctx → arr 64;
  point : Type;
  ge_scalarmult_base : arr 32 → point;
  ge_double_scalarmult_vartime : arr 32 → point → arr 32 → point;
  ge_tobytes : point → arr 32;
  ge_frombytes_negate_vartime : arr 32 → option point;
  sc_reduce : arr 64 → arr 32;
  sc_muladd : arr 32 → arr 32 → arr 32 → arr 32
}.

(** The group behind the routines; a point has many projective representations,
    so points are compared up to [≡]. *)
Class CurveGroup (C : Curve) := {
  pt_equiv :: Equiv point;
  base : point;
  pt_add : point → point → point;
  smul : Z → point → point
}.

Class CurveLaws (C : Curve) {G : CurveGroup C} : Prop := {
  sha512_update_app c a b : sha512_update (sha512_update c a) b = sha512_update c (a ++ b);
  pt_equivalence :: Equivalence (≡@{point});
  pt_add_proper :: Proper ((≡) ==> (≡) ==> (≡)) pt_add;
  smul_proper n :: Proper ((≡) ==> (≡)) (smul n);
  smul_plus m n P : smul (m + n) P ≡ pt_add (smul m P) (smul n P);
  smul_mul m n P : smul (m * n) P ≡ smul m (smul n P);
  base_order : smul group_order base ≡ smul 0 base;
  tobytes_proper :: Proper ((≡) ==> (=)) ge_tobytes;
  frombytes_tobytes P : ∃ Q, ge_frombytes_negate_vartime (ge_tobytes P) = Some Q ∧ Q ≡ smul (-1) P;
  scalarmult_base_ok a : byte_at a 31 <= 127 → ge_scalarmult_base a ≡ smul (scalar a) base;
  double_scalarmult_ok a P b :
    byte_at a 31 <= 127 → byte_at b 31 <= 127 →
    ge_double_scalarmult_vartime a P b ≡ pt_add (smul (scalar a) P) (smul (scalar b) base);
  sc_reduce_ok s : scalar (sc_reduce s) = le_decode (arr_list s) mod group_order;
  sc_muladd_ok a b c : scalar (sc_muladd a b c) = (scalar a * scalar b + scalar c) mod group_order
}.

(** ** The vendored C code *)

Section ref10.
Context {C : Curve}.

Definition sha512 (message : list byte) : arr 64 := sha512_final (sha512_update sha512_init message).

(** [keypair.c]: the public and the private key. *)
Definition ed25519_create_keypair (seed : arr 32) : arr 32 * arr 64 :=
  let private_key := sha512 (arr_list seed) in
  let private_key := set_byte private_key 0 (Z.land (byte_at private_key 0) 248) in
  let private_key := set_byte private_key 31 (Z.land (byte_at private_key 31) 63) in
  let private_key := set_byte private_key 31 (Z.lor (byte_at private_key 31) 64) in
  let A := ge_scalarmult_base (low private_key) in
  (ge_tobytes A, private_key).

(** [sign.c]. *)
Definition ed25519_sign (message : list byte) (public_key : arr 32) (private_key : arr 64) : arr 64 :=
  let hash := sha512_update sha512_init (arr_list (high private_key)) in
  let hash := sha512_update hash message in
  let r := sc_reduce (sha512_final hash) in
  let R := ge_tobytes (ge_scalarmult_base r) in
  let hash := sha512_update sha512_init (arr_list R) in
  let hash := sha512_update hash (arr_list public_key) in
  let hash := sha512_update hash message in
  let hram := sc_reduce (sha512_final hash) in
  join R (sc_muladd hram (low private_key) r).

(** [verify.c]. *)
Definition consttime_equal (x y : arr 32) : bool :=
  foldl (λ r i, Z.lor r (Z.lxor (byte_at x i) (byte_at y i)))
    (Z.lxor (byte_at x 0) (byte_at y 0)) (seq 1 31) =? 0.

Definition ed25519_verify (signature : arr 64) (message : list byte) (public_key : arr 32) : Z :=
  return_if negb (Z.land (byte_at signature 63) 224 =? 0) with 0 ;;
  match ge_frombytes_negate_vartime public_key with
  | None => 0
  | Some A =>
      let hash := sha512_update sha512_init (arr_list (low signature)) in
      let hash := sha512_update hash (arr_list public_key) in
      let hash := sha512_update hash message in
      let h := sc_reduce (sha512_final hash) in
      let R := ge_double_scalarmult_vartime h A (high signature) in
      let checker := ge_tobytes R in
      return_if negb (consttime_equal checker (low signature)) with 0 ;;
      1
  end.
End ref10.

(** ** The ref10 backend: [ed25519_ref10.cpp] *)

Module Ref10.
Section backend.
Context {C : Curve}.

(** What [getentropy] answered: its result and the buffer after the call. *)
Definition csprng_fill (result : Z) (out : Seed32) : option Seed32 :=
  return_if negb (result =? 0) with None ;; Some out.

Definition derive_pubkey (seed : Seed32) : PubKey32 := (ed25519_create_keypair seed).1.

Definition sign (seed : Seed32) (msg : list byte) : Sig64 :=
  let '(pub, priv) := ed25519_create_keypair seed in
  ed25519_sign msg pub priv.

Definition verify (pubkey : PubKey32) (sig : Sig64) (msg : list byte) : bool :=
  ed25519_verify sig msg pubkey =? 1.

#[export] Instance ref10 : Ed25519 := {| Crypto.derive_pubkey := derive_pubkey; Crypto.sign := sign; Crypto.verify := verify |}.

(** [None] where the code throws. *)
Definition keygen (result : Z) (out : Seed32) : option KeyPair :=
  match csprng_fill result out with
  | None => None
  | Some seed => Some (keygen_from_seed seed)
  end.
End backend.

Definition ed25519_backend : list byte := txt "ref10".
End Ref10.

(** ** The libsodium backend: [ed25519_sodium.cpp] *)

Class Sodium := {
  crypto_sign_seed_keypair : arr 32 → arr 32 * arr 64;
  crypto_sign_detached : list byte → arr 64 → arr 64;
  crypto_sign_verify_detached : arr 64 → list byte → arr 32 → Z
}.

Module Nacl.
Section backend.
Context {N : Sodium}.

Definition expand (seed : Seed32) : arr 32 * arr 64 := crypto_sign_seed_keypair seed.

Definition derive_pubkey (seed : Seed32) : PubKey32 := let '(pub, _) := expand seed in pub.

Definition sign (seed : Seed32) (msg : list byte) : Sig64 :=
  let '(_, sk) := expand seed in
  crypto_sign_detached msg sk.

Definition verify (pubkey : PubKey32) (sig : Sig64) (msg : list byte) : bool :=
  crypto_sign_verify_detached sig msg pubkey =? 0.

#[export] Instance sodium : Ed25519 := {| Crypto.derive_pubkey := derive_pubkey; Crypto.sign := sign; Crypto.verify := verify |}.

(** [sodium_init]'s result, and the bytes [randombytes_buf] writes. *)
Definition keygen (init : Z) (random : Seed32) : option KeyPair :=
  return_if init <? 0 with None ;;
  Some (keygen_from_seed random).
End backend.

Definition ed25519_backend : list byte := txt "sodium".
End Nacl.

(** ** RFC 8032 *)

Section rfc8032.
Context {C : Curve} {G : CurveGroup C}.

(** The secret scalar: bits 0, 1, 2 and 255 cleared, bit 254 set (5.1.5). *)
Definition rfc_secret (seed : Seed32) : Z :=
  2 ^ 254 + 8 * ((scalar (low (sha512 (arr_list seed))) mod 2 ^ 254) / 8).

Definition rfc_public (seed : Seed32) : PubKey32 := ge_tobytes (smul (rfc_secret seed) base).

Definition hash_scalar (m : list byte) : Z := le_decode (arr_list (sha512 m)) mod group_order.

(** 5.1.6: [R || S] with [S = (r + k a) mod L]. *)
Definition rfc_sign (seed : Seed32) (msg : list byte) : Sig64 :=
  let r := hash_scalar (arr_list (high (sha512 (arr_list seed))) ++ msg) in
  let R := ge_tobytes (smul r base) in
  let k := hash_scalar (arr_list R ++ arr_list (rfc_public seed) ++ msg) in
  join R (scalar_of ((r + k * rfc_secret seed) mod group_order)).

(** The equation of 5.1.7, [S B = R + k A]: the group element [S B - k A]
    encodes as [R]. *)
Definition equation (pubkey : PubKey32) (sig : Sig64) (msg : list byte) : Prop :=
  ∃ nA, ge_frombytes_negate_vartime pubkey = Some nA ∧
        ge_tobytes (pt_add (smul (hash_scalar (arr_list (low sig) ++ arr_list pubkey ++ msg)) nA)
                           (smul (scalar (high sig)) base)) = low sig.

(** 5.1.7 decodes [S] as a number below [L]. *)
Definition canonical (sig : Sig64) : Prop := scalar (high sig) < group_order.
End rfc8032.

(** What libsodium documents of its calls: RFC 8032 keys and signatures, and a
    verification that accepts those and nothing but canonical signatures that
    satisfy the equation. *)
Class SodiumLaws (N : Sodium) {C : Curve} {G : CurveGroup C} : Prop := {
  seed_keypair_ok seed : crypto_sign_seed_keypair seed = (rfc_public seed, join seed (rfc_public seed));
  detached_ok seed msg : crypto_sign_detached msg (join seed (rfc_public seed)) = rfc_sign seed msg;
  verify_detached_ok seed msg : crypto_sign_verify_detached (rfc_sign seed msg) msg (rfc_public seed) = 0;
  verify_detached_sound sig msg pk :
    crypto_sign_verify_detached sig msg pk = 0 → canonical sig ∧ equation pk sig msg
}.

(** ** Bytes and numbers *)

Lemma scalar_inj a b : scalar a = scalar b → a = b.
Proof. intros Hs. apply arr_eq, le_decode_inj; [by rewrite !arr_length|done]. Qed.

Lemma scalar_range a : 0 <= scalar a < 2 ^ 256.
Proof. unfold scalar. pose proof (le_decode_range (arr_list a)) as Hr. by rewrite arr_length in Hr. Qed.

Lemma scalar_scalar_of v : 0 <= v < 2 ^ 256 → scalar (scalar_of v) = v.
Proof.
  intros Hv. unfold scalar, scalar_of. rewrite arr_of_list by apply length_le_encode.
  rewrite le_decode_encode. by apply Z.mod_small.
Qed.

Lemma low_join a b : low (join a b) = a.
Proof.
  unfold low, join. rewrite arr_of_list by (rewrite length_app, !arr_length; done).
  rewrite take_app_exact by (by rewrite arr_length). apply arr_of_arr_list.
Qed.

Lemma high_join a b : high (join a b) = b.
Proof.
  unfold high, join. rewrite arr_of_list by (rewrite length_app, !arr_length; done).
  rewrite drop_app_exact by (by rewrite arr_length). apply arr_of_arr_list.
Qed.

Lemma join_low_high s : join (low s) (high s) = s.
Proof.
  unfold join, low, high. rewrite !arr_of_list by (rewrite ?length_take, ?length_drop, arr_length; lia).
  rewrite take_drop. apply arr_of_arr_list.
Qed.
#[export] Hint Rewrite low_join high_join join_low_high : txchain.

Lemma byte_at_app {n} (a : arr n) p b q i :
  arr_list a = p ++ b :: q → length p = i → byte_at a i = byte_to_Z b.
Proof. intros Ha <-. unfold byte_at. by rewrite Ha, nth_middle. Qed.

Lemma set_byte_app {n} (a : arr n) p b q i v :
  arr_list a = p ++ b :: q → length p = i → arr_list (set_byte a i v) = p ++ Z_to_byte v :: q.
Proof.
  intros Ha <-. unfold set_byte. rewrite arr_of_list by (by rewrite length_insert, arr_length).
  by rewrite Ha, insert_app_r_alt, Nat.sub_diag by done.
Qed.

Lemma byte_at_range {n} (a : arr n) i : 0 <= byte_at a i < 256.
Proof. apply byte_to_Z_range. Qed.

(** A fact about bytes that holds of all 256 of them. *)
Lemma all_bytes (f : Z → bool) : forallb (λ n, f (Z.of_nat n)) (seq 0 256) = true → ∀ z, 0 <= z < 256 → f z = true.
Proof.
  rewrite forallb_forall. intros Hf z Hz. rewrite <- (Z2Nat.id z) by lia. apply Hf, in_seq. lia.
Qed.

Lemma land_248 z : 0 <= z < 256 → Z.land z 248 = 8 * (z / 8).
Proof. intros. apply Z.eqb_eq. by apply (all_bytes (λ z, Z.land z 248 =? 8 * (z / 8))). Qed.

Lemma lor_land_63 z : 0 <= z < 256 → Z.lor (Z.land z 63) 64 = 64 + z mod 64.
Proof. intros. apply Z.eqb_eq. by apply (all_bytes (λ z, Z.lor (Z.land z 63) 64 =? 64 + z mod 64)). Qed.

Lemma land_224 z : 0 <= z < 256 → (Z.land z 224 =? 0) = (z <? 32).
Proof.
  intros. apply eqb_true_iff. by apply (all_bytes (λ z, Bool.eqb (Z.land z 224 =? 0) (z <? 32))).
Qed.

Lemma byte_land_63 b : byte_to_Z (Z_to_byte (Z.land (byte_to_Z b) 63)) = Z.land (byte_to_Z b) 63.
Proof.
  rewrite byte_to_Z_to_byte. apply Z.mod_small. rewrite (Z.land_ones _ 6) by lia.
  pose proof (Z.mod_pos_bound (byte_to_Z b) (2 ^ 6) eq_refl). lia.
Qed.

(** Byte 0, bytes 1 to 30, byte 31 and the rest of a 64-byte buffer. *)
Lemma split_buffer (d : arr 64) :
  ∃ b0 mid b31 rest, arr_list d = b0 :: mid ++ b31 :: rest ∧ length mid = 30%nat.
Proof.
  pose proof (arr_length d) as Hl. destruct (arr_list d) as [|b0 l]; [done|]. cbn [length] in Hl.
  destruct (drop 30 l) as [|b31 rest] eqn:Hr.
  - apply (f_equal length) in Hr. rewrite length_drop in Hr. cbn [length] in Hr. lia.
  - exists b0, (take 30 l), b31, rest. rewrite <- Hr, take_drop. split; [done|]. rewrite length_take. lia.
Qed.

Lemma split_low (d : arr 64) b0 mid b31 rest :
  arr_list d = b0 :: mid ++ b31 :: rest → length mid = 30%nat →
  scalar (low d) = byte_to_Z b0 + 256 * (le_decode mid + 2 ^ 240 * byte_to_Z b31) ∧
  byte_at (low d) 31 = byte_to_Z b31 ∧ high d = arr_of 32 rest.
Proof.
  intros Hd Hm.
  assert (arr_list d = ((b0 :: mid) ++ [b31]) ++ rest) as Hd' by (rewrite <- app_assoc; done).
  assert (length ((b0 :: mid) ++ [b31]) = 32%nat) as Hl by (rewrite length_app; cbn [length]; lia).
  assert (arr_list (low d) = (b0 :: mid) ++ [b31]) as Hlow.
  { unfold low. rewrite Hd', take_app_exact by done. by apply arr_of_list. }
  split; [|split].
  - unfold scalar. rewrite Hlow. cbn [app]. rewrite le_decode_cons, le_decode_snoc, Hm. done.
  - apply (byte_at_app _ (b0 :: mid) b31 []); [done|cbn [length]; lia].
  - unfold high. rewrite Hd', drop_app_exact by done. done.
Qed.

(** The last byte of a number bounds it. *)
Lemma scalar_top (a : arr 32) : ∃ x, 0 <= x < 2 ^ 248 ∧ scalar a = x + 2 ^ 248 * byte_at a 31.
Proof.
  destruct (arr_list a) as [|b l _] eqn:Ha using rev_ind.
  { pose proof (arr_length a) as Hl. by rewrite Ha in Hl. }
  assert (length l = 31%nat) as Hl.
  { pose proof (arr_length a) as Hl. rewrite Ha, length_app in Hl. cbn [length] in Hl. lia. }
  exists (le_decode l). unfold scalar. rewrite Ha, le_decode_snoc, (byte_at_app a l b [] 31 Ha Hl), Hl.
  split; [|done]. pose proof (le_decode_range l) as Hr. by rewrite Hl in Hr.
Qed.

Lemma scalar_small a k : 0 <= k <= 256 → scalar a < 2 ^ 248 * k ↔ byte_at a 31 < k.
Proof. intros Hk. destruct (scalar_top a) as (x & Hx & ->). lia. Qed.

Lemma top_bits sig : (Z.land (byte_at sig 63) 224 =? 0) = (scalar (high sig) <? 2 ^ 253).
Proof.
  rewrite land_224 by apply byte_at_range.
  assert (byte_at sig 63 = byte_at (high sig) 31) as ->.
  { unfold byte_at, high. rewrite arr_of_list by (rewrite length_drop, arr_length; done).
    change 63%nat with (32 + 31)%nat. by rewrite <- nth_skipn. }
  apply eq_bool_prop_intro. rewrite !Is_true_true, !Z.ltb_lt. change (2 ^ 253) with (2 ^ 248 * 32).
  by rewrite scalar_small.
Qed.

(** ** [consttime_equal] is equality *)

Lemma lor_all (f : nat → Z) l r : foldl (λ r i, Z.lor r (f i)) r l = 0 ↔ r = 0 ∧ ∀ i, i ∈ l → f i = 0.
Proof.
  revert r. induction l as [|i l IH]; intros r; cbn [foldl].
  { split; [|tauto]. intros ->. split; [done|]. by intros ? ?%elem_of_nil. }
  rewrite IH, Z.lor_eq_0_iff. setoid_rewrite elem_of_cons. split.
  - intros [[-> Hi] Hl]. split; [done|]. intros j [->|Hj]; auto.
  - intros [-> Hl]. auto.
Qed.

Lemma consttime_equal_ok x y : consttime_equal x y = true ↔ x = y.
Proof.
  unfold consttime_equal. rewrite Z.eqb_eq, lor_all, Z.lxor_eq_0_iff. split.
  - intros [H0 Hs]. apply arr_eq. apply (nth_ext _ _ zero zero); [by rewrite !arr_length|].
    rewrite arr_length. intros i Hi. apply byte_to_Z_inj. destruct i as [|i]; [done|].
    apply Z.lxor_eq_0_iff, Hs, elem_of_seq. lia.
  - intros ->. split; [done|]. intros. apply Z.lxor_nilpotent.
Qed.

(** ** The C code makes RFC 8032 keys and signatures *)

Section ref10_rfc.
Context {C : Curve} {G : CurveGroup C} {CL : CurveLaws C}.

Lemma order_bounds : 2 ^ 252 < group_order < 2 ^ 253.
Proof. by vm_compute. Qed.

Lemma group_order_pos : 0 < group_order.
Proof. pose proof order_bounds. lia. Qed.

Lemma mod_order_range v : 0 <= v mod group_order < 2 ^ 253.
Proof. pose proof (Z.mod_pos_bound v _ group_order_pos). pose proof order_bounds. lia. Qed.

Lemma reduced_top a : scalar a < 2 ^ 253 → byte_at a 31 <= 127.
Proof.
  change (2 ^ 253) with (2 ^ 248 * 32). intros Ha%scalar_small; lia.
Qed.

Lemma sha512_update2 a b : sha512_final (sha512_update (sha512_update sha512_init a) b) = sha512 (a ++ b).
Proof. unfold sha512. by rewrite sha512_update_app. Qed.

Lemma sha512_update3 a b c :
  sha512_final (sha512_update (sha512_update (sha512_update sha512_init a) b) c) = sha512 (a ++ b ++ c).
Proof. unfold sha512. by rewrite !sha512_update_app. Qed.

Lemma sc_reduce_hash m : scalar (sc_reduce (sha512 m)) = hash_scalar m.
Proof. apply sc_reduce_ok. Qed.

Lemma hash_scalar_range m : 0 <= hash_scalar m < 2 ^ 253.
Proof. apply mod_order_range. Qed.

(** Clearing and setting the bits of the first and the last byte. *)
Lemma clamp_value b0 m b31 :
  0 <= b0 < 256 → 0 <= m < 2 ^ 240 →
  8 * (b0 / 8) + 256 * (m + 2 ^ 240 * (64 + b31 mod 64)) =
  2 ^ 254 + 8 * ((b0 + 256 * (m + 2 ^ 240 * b31)) mod 2 ^ 254 / 8).
Proof.
  intros H0 Hm. pose proof (Z.mod_pos_bound b31 64 eq_refl).
  assert ((b0 + 256 * (m + 2 ^ 240 * b31)) mod 2 ^ 254 = b0 + 8 * (32 * m + 2 ^ 245 * (b31 mod 64))) as ->.
  { symmetry. apply (Z.mod_unique _ _ (b31 / 64)); [left|]; pose proof (Z.div_mod b31 64); lia. }
  rewrite (Z.mul_comm 8 (32 * m + _)), Z.div_add by done. lia.
Qed.

(** The private key: the clamped scalar, then the prefix for signing. *)
Lemma create_keypair_private seed :
  scalar (low (ed25519_create_keypair seed).2) = rfc_secret seed ∧
  byte_at (low (ed25519_create_keypair seed).2) 31 <= 127 ∧
  high (ed25519_create_keypair seed).2 = high (sha512 (arr_list seed)).
Proof.
  unfold ed25519_create_keypair, rfc_secret. cbn [snd]. set (d := sha512 (arr_list seed)).
  destruct (split_buffer d) as (b0 & mid & b31 & rest & Hd & Hm). clearbody d.
  set (c0 := Z_to_byte (Z.land (byte_to_Z b0) 248)).
  assert (length (c0 :: mid) = 31%nat) as Hm' by (cbn [length]; lia).
  rewrite (byte_at_app d [] b0 (mid ++ b31 :: rest)) by done.
  pose proof (set_byte_app d [] b0 _ 0 (Z.land (byte_to_Z b0) 248) Hd eq_refl) as H1.
  set (d1 := set_byte d 0 _) in *. clearbody d1. fold c0 in H1.
  change ([] ++ c0 :: mid ++ b31 :: rest) with ((c0 :: mid) ++ b31 :: rest) in H1.
  rewrite (byte_at_app d1 _ b31 rest 31 H1) by done.
  pose proof (set_byte_app d1 _ b31 rest 31 (Z.land (byte_to_Z b31) 63) H1 Hm') as H2.
  set (d2 := set_byte d1 31 _) in *. clearbody d2.
  rewrite (byte_at_app d2 _ _ rest 31 H2), byte_land_63 by done.
  pose proof (set_byte_app d2 _ _ rest 31 (Z.lor (Z.land (byte_to_Z b31) 63) 64) H2 Hm') as H3.
  set (d3 := set_byte d2 31 _) in *. clearbody d3.
  destruct (split_low d3 _ _ _ _ H3 Hm) as (-> & -> & ->).
  destruct (split_low d _ _ _ _ Hd Hm) as (-> & _ & ->).
  pose proof (byte_to_Z_range b0). pose proof (byte_to_Z_range b31).
  pose proof (le_decode_range mid) as Hr. rewrite Hm in Hr. change (256 ^ Z.of_nat 30) with (2 ^ 240) in Hr.
  unfold c0. rewrite !byte_to_Z_to_byte, land_248, lor_land_63 by done.
  pose proof (Z.mod_pos_bound (byte_to_Z b31) 64 eq_refl). pose proof (Z.div_mod (byte_to_Z b0) 8).
  pose proof (Z.mod_pos_bound (byte_to_Z b0) 8 eq_refl).
  rewrite (Z.mod_small (8 * _)), (Z.mod_small (64 + _)) by lia.
  split; [by apply clamp_value|]. split; [lia|done].
Qed.
Lemma ref10_public seed : Ref10.derive_pubkey seed = rfc_public seed.
Proof.
  destruct (create_keypair_private seed) as (Ha & Htop & _).
  unfold Ref10.derive_pubkey, rfc_public. rewrite <- Ha. apply tobytes_proper, scalarmult_base_ok, Htop.
Qed.

Lemma tobytes_base r : scalar r < 2 ^ 253 → ge_tobytes (ge_scalarmult_base r) = ge_tobytes (smul (scalar r) base).
Proof. intros Hr. apply tobytes_proper, scalarmult_base_ok, reduced_top, Hr. Qed.

Lemma ref10_sign seed msg : Ref10.sign seed msg = rfc_sign seed msg.
Proof.
  pose proof (ref10_public seed) as Hpub. destruct (create_keypair_private seed) as (Ha & _ & Hh).
  unfold Ref10.derive_pubkey in Hpub. unfold Ref10.sign.
  destruct (ed25519_create_keypair seed) as [pub priv]. cbn [fst snd] in *. subst pub.
  unfold ed25519_sign, rfc_sign. rewrite sha512_update2, !sha512_update3, Hh.
  set (m := arr_list (high (sha512 (arr_list seed))) ++ msg).
  rewrite tobytes_base, sc_reduce_hash by (rewrite sc_reduce_hash; apply hash_scalar_range).
  f_equal. apply scalar_inj. rewrite sc_muladd_ok, !sc_reduce_hash, Ha, scalar_scalar_of.
  - by rewrite Z.add_comm.
  - pose proof (mod_order_range (hash_scalar m + hash_scalar (arr_list (ge_tobytes (smul (hash_scalar m) base)) ++
      arr_list (rfc_public seed) ++ msg) * rfc_secret seed)). lia.
Qed.

(** The code accepts exactly a solution of the equation whose [S] is below
    [2 ^ 253]; nothing compares [S] with the group order. *)
Lemma ref10_verify pk sig msg :
  Ref10.verify pk sig msg = true ↔ scalar (high sig) < 2 ^ 253 ∧ equation pk sig msg.
Proof.
  unfold Ref10.verify, ed25519_verify, equation. rewrite Z.eqb_eq, top_bits.
  destruct (Z.ltb_spec (scalar (high sig)) (2 ^ 253)) as [Hs|Hs]; cbn [negb]; [|by split; [|lia]].
  destruct (ge_frombytes_negate_vartime pk) as [nA|]; [|by split; [|intros (_ & ? & ? & _)]].
  rewrite sha512_update3. set (m := arr_list (low sig) ++ arr_list pk ++ msg).
  assert (ge_tobytes (ge_double_scalarmult_vartime (sc_reduce (sha512 m)) nA (high sig)) =
          ge_tobytes (pt_add (smul (hash_scalar m) nA) (smul (scalar (high sig)) base))) as ->.
  { rewrite <- sc_reduce_hash. apply tobytes_proper, double_scalarmult_ok; apply reduced_top; [|done].
    rewrite sc_reduce_hash. apply hash_scalar_range. }
  destruct (consttime_equal _ _) eqn:Hc; cbn [negb].
  - apply consttime_equal_ok in Hc. split; [by eauto|done].
  - split; [done|]. intros (_ & P & [= <-] & Heq). apply consttime_equal_ok in Heq. congruence.
Qed.

(** ** The group law makes a signature verify *)

Lemma smul_order n P : P ≡ base → smul (n * group_order) P ≡ smul 0 base.
Proof. intros ->. by rewrite smul_mul, base_order, <- smul_mul, Z.mul_0_r. Qed.

Lemma smul_mod n : smul (n mod group_order) base ≡ smul n base.
Proof.
  rewrite (Z.div_mod n group_order) at 2 by (pose proof group_order_pos; lia).
  rewrite Z.add_comm, smul_plus, Z.mul_comm, smul_order by done.
  rewrite <- smul_plus. by rewrite Z.add_0_r.
Qed.

Lemma rfc_sign_equation seed msg : equation (rfc_public seed) (rfc_sign seed msg) msg.
Proof.
  unfold equation. set (pk := rfc_public seed). unfold rfc_sign. fold pk. cbv zeta.
  rewrite low_join, high_join. set (r := hash_scalar (_ ++ msg)). set (R := ge_tobytes (smul r base)).
  set (k := hash_scalar _). set (a := rfc_secret seed).
  destruct (frombytes_tobytes (smul a base)) as (nA & HA & Heq). exists nA. split; [done|].
  rewrite scalar_scalar_of by (pose proof (mod_order_range (r + k * a)); lia).
  apply tobytes_proper. rewrite Heq, smul_mod, <- !smul_mul, <- smul_plus. f_equiv. lia.
Qed.

Lemma rfc_sign_canonical seed msg : canonical (rfc_sign seed msg).
Proof.
  unfold canonical, rfc_sign. cbv zeta. rewrite high_join, scalar_scalar_of.
  - apply Z.mod_pos_bound, group_order_pos.
  - match goal with |- _ <= ?v mod _ < _ => pose proof (mod_order_range v) end. lia.
Qed.

Lemma ref10_verifies seed msg : Ref10.verify (rfc_public seed) (rfc_sign seed msg) msg = true.
Proof.
  apply ref10_verify. split; [|apply rfc_sign_equation].
  pose proof (rfc_sign_canonical seed msg). pose proof order_bounds. unfold canonical in *. lia.
Qed.

#[export] Instance ref10_laws : Ed25519Laws Ref10.ref10.
Proof.
  split. intros seed msg. change (Ref10.verify (Ref10.derive_pubkey seed) (Ref10.sign seed msg) msg = true).
  rewrite ref10_public, ref10_sign. apply ref10_verifies.
Qed.

(** *** Malleability *)

(** The other scalar with the same multiple of the base point. *)
Definition malleate (sig : Sig64) : Sig64 := join (low sig) (scalar_of (scalar (high sig) + group_order)).

Lemma malleate_scalar sig :
  scalar (high sig) + group_order < 2 ^ 253 → scalar (high (malleate sig)) = scalar (high sig) + group_order.
Proof.
  intros Hs. unfold malleate. rewrite high_join. apply scalar_scalar_of.
  pose proof (scalar_range (high sig)). pose proof group_order_pos. lia.
Qed.

Lemma malleate_equation pk sig msg :
  scalar (high sig) + group_order < 2 ^ 253 → equation pk sig msg → equation pk (malleate sig) msg.
Proof.
  intros Hs (nA & HA & Heq). exists nA. split; [done|]. rewrite malleate_scalar by done.
  unfold malleate. rewrite low_join. etransitivity; [|exact Heq].
  apply tobytes_proper, pt_add_proper; [done|].
  by rewrite <- (smul_mod (_ + _)), <- (smul_mod (scalar (high sig))), <- (Z_mod_plus_full (scalar (high sig)) 1), Z.mul_1_l.
Qed.

Lemma malleate_ne sig : scalar (high sig) + group_order < 2 ^ 253 → malleate sig ≠ sig.
Proof.
  intros Hs Heq. apply malleate_scalar in Hs. rewrite Heq in Hs. pose proof group_order_pos. lia.
Qed.

Lemma ref10_malleable pk sig msg :
  scalar (high sig) + group_order < 2 ^ 253 → Ref10.verify pk sig msg = true → Ref10.verify pk (malleate sig) msg = true.
Proof.
  intros Hs [_ Heq]%ref10_verify. apply ref10_verify. rewrite malleate_scalar by done.
  split; [done|]. by apply malleate_equation.
Qed.
End ref10_rfc.

(** ** libsodium *)

Section sodium_rfc.
Context {C : Curve} {G : CurveGroup C} {CL : CurveLaws C} {N : Sodium} {NL : SodiumLaws N}.

Lemma sodium_public seed : Nacl.derive_pubkey seed = rfc_public seed.
Proof. unfold Nacl.derive_pubkey, Nacl.expand. by rewrite seed_keypair_ok. Qed.

Lemma sodium_sign seed msg : Nacl.sign seed msg = rfc_sign seed msg.
Proof. unfold Nacl.sign, Nacl.expand. by rewrite seed_keypair_ok, detached_ok. Qed.

#[export] Instance sodium_laws : Ed25519Laws Nacl.sodium.
Proof.
  split. intros seed msg.
  change (Nacl.verify (Nacl.derive_pubkey seed) (Nacl.sign seed msg) msg = true). rewrite sodium_public, sodium_sign.
  unfold Nacl.verify. by rewrite verify_detached_ok.
Qed.

(** What libsodium accepts, ref10 accepts. *)
Lemma sodium_verify_ref10 pk sig msg : Nacl.verify pk sig msg = true → Ref10.verify pk sig msg = true.
Proof.
  intros [Hc Heq]%Z.eqb_eq%verify_detached_sound. apply ref10_verify. split; [|done].
  pose proof order_bounds. unfold canonical in Hc. lia.
Qed.

Lemma sodium_rejects_malleated pk sig msg :
  scalar (high sig) + group_order < 2 ^ 253 → Nacl.verify pk (malleate sig) msg = false.
Proof.
  intros Hs. destruct (Nacl.verify _ _ _) eqn:Hv; [|done].
  apply Z.eqb_eq, verify_detached_sound in Hv as [Hc _]. unfold canonical in Hc.
  rewrite malleate_scalar in Hc by done. pose proof (scalar_range (high sig)). lia.
Qed.
End sodium_rfc.

(** ** A concrete curve

    The integers modulo the group order under addition, with base point 1: a
    group that satisfies every law (and in which discrete logarithms are
    trivial). *)

Module EddsaDemo.
Definition demo_sha512 (m : list byte) : arr 64 :=
  join (Demo.digest m) (Demo.digest (m ++ [zero])).

Definition pos (v : Z) : arr 32 := scalar_of (v mod group_order).

#[export] Instance curve : Curve := {|
  sha512_ctx := list byte;
  sha512_init := [];
  sha512_update := λ c m, c ++ m;
  sha512_final := demo_sha512;
  point := Z;
  ge_scalarmult_base := λ a, scalar a;
  ge_double_scalarmult_vartime := λ a P b, scalar a * P + scalar b;
  ge_tobytes := pos;
  ge_frombytes_negate_vartime := λ a, if scalar a <? group_order then Some (- scalar a) else None;
  sc_reduce := λ s, pos (le_decode (arr_list s));
  sc_muladd := λ a b c, pos (scalar a * scalar b + scalar c)
|}.

Definition mod_equiv : Equiv Z := λ P Q, P mod group_order = Q mod group_order.

#[export] Instance group : CurveGroup curve :=
  Build_CurveGroup curve mod_equiv 1 Z.add Z.mul.

Lemma scalar_pos v : scalar (pos v) = v mod group_order.
Proof. apply scalar_scalar_of. pose proof (mod_order_range v). lia. Qed.

#[export] Instance laws : CurveLaws curve.
Proof.
  pose proof group_order_pos as Hpos. pose proof order_bounds.
  split; unfold equiv; cbn -[group_order Z.mul Z.add scalar pos]; unfold mod_equiv.
  - intros. by rewrite app_assoc.
  - split; [done|intros x y Hx; by symmetry|intros x y z H1 H2; by etransitivity].
  - intros x y Hx z w Hz. by rewrite Z.add_mod, Hx, Hz, <- Z.add_mod by lia.
  - intros n x y Hx. by rewrite <- Z.mul_mod_idemp_r, Hx, Z.mul_mod_idemp_r by lia.
  - intros m n P. f_equal. lia.
  - intros m n P. f_equal. lia.
  - by rewrite Z.mul_1_r, Z.mod_same by lia.
  - intros x y Hx. unfold pos. by rewrite Hx.
  - intros P. rewrite scalar_pos. pose proof (Z.mod_pos_bound P _ Hpos).
    rewrite (proj2 (Z.ltb_lt _ _)) by lia. eexists. split; [done|].
    rewrite Z.opp_eq_mul_m1, Z.mul_comm. by rewrite Z.mul_mod_idemp_r by lia.
  - intros a Ha. f_equal. lia.
  - intros a P b _ _. f_equal. lia.
  - intros s. apply scalar_pos.
  - intros a b c. apply scalar_pos.
Qed.

(** A libsodium that verifies by the equation. *)
Definition accepts (pk : arr 32) (sig : arr 64) (msg : list byte) : bool :=
  (scalar (high sig) <? group_order) && (ed25519_verify sig msg pk =? 1).

Lemma accepts_iff pk sig msg : accepts pk sig msg = true ↔ canonical sig ∧ Ref10.verify pk sig msg = true.
Proof. unfold accepts, canonical, Ref10.verify. by rewrite andb_true_iff, Z.ltb_lt. Qed.

Definition nacl_verify (sig : arr 64) (msg : list byte) (pk : arr 32) : Z := if accepts pk sig msg then 0 else -1.

Lemma nacl_verify_ok sig msg pk : nacl_verify sig msg pk = 0 ↔ accepts pk sig msg = true.
Proof. unfold nacl_verify. by destruct (accepts pk sig msg). Qed.

#[export] Instance nacl : Sodium := {|
  crypto_sign_seed_keypair := λ seed, (rfc_public seed, join seed (rfc_public seed));
  crypto_sign_detached := λ msg sk, rfc_sign (low sk) msg;
  crypto_sign_verify_detached := nacl_verify
|}.

Lemma nacl_honest seed msg : nacl_verify (rfc_sign seed msg) msg (rfc_public seed) = 0.
Proof.
  apply nacl_verify_ok, accepts_iff. split; [apply rfc_sign_canonical|apply ref10_verifies].
Qed.

Lemma nacl_sound sig msg pk : nacl_verify sig msg pk = 0 → canonical sig ∧ equation pk sig msg.
Proof. intros [Hc Hv]%nacl_verify_ok%accepts_iff. split; [done|]. by apply ref10_verify. Qed.

Lemma nacl_detached seed msg : rfc_sign (low (join seed (rfc_public seed))) msg = rfc_sign seed msg.
Proof. by rewrite low_join. Qed.

#[export] Instance nacl_laws : SodiumLaws nacl :=
  Build_SodiumLaws nacl curve group (λ _, eq_refl) nacl_detached nacl_honest nacl_sound.
End EddsaDemo.

(** C14. The ref10 backend implements RFC 8032, given the group law: the key it
    derives and the signature it makes are those of the standard, what it signs it
    verifies, and it verifies exactly the signatures that satisfy the standard's
    equation and whose scalar is below 2^253.  The standard asks for a scalar below
    the group order, which is smaller. *)
Theorem ref10_implements_rfc8032 (C : Curve) (G : CurveGroup C) (CL : CurveLaws C) seed pk sig msg :
  Ref10.derive_pubkey seed = rfc_public seed ∧
  Ref10.sign seed msg = rfc_sign seed msg ∧
  Ref10.verify (Ref10.derive_pubkey seed) (Ref10.sign seed msg) msg = true ∧
  (Ref10.verify pk sig msg = true ↔ scalar (high sig) < 2 ^ 253 ∧ equation pk sig msg).
Proof.
  split; [apply ref10_public|]. split; [apply ref10_sign|]. split; [|apply ref10_verify].
  rewrite ref10_public, ref10_sign. apply ref10_verifies.
Qed.

#[local] Existing Instances EddsaDemo.curve EddsaDemo.group EddsaDemo.laws EddsaDemo.nacl.

Lemma ref10_implements_rfc8032_witness :
  Ref10.verify (Ref10.derive_pubkey (arr_lit 32 [7])) (Ref10.sign (arr_lit 32 [7]) (txt "pay")) (txt "pay") = true ∧
  Ref10.verify (Ref10.derive_pubkey (arr_lit 32 [7])) (Ref10.sign (arr_lit 32 [7]) (txt "pay")) (txt "pax") = false.
Proof.
  split; [|by vm_compute].
  exact (proj1 (proj2 (proj2 (ref10_implements_rfc8032 EddsaDemo.curve EddsaDemo.group EddsaDemo.laws
    (arr_lit 32 [7]) (arr_zero 32) (arr_zero 64) (txt "pay"))))).
Defined.

(** The two backends make the same key pairs and the same signatures, each
    verifies what the other signs, and every signature libsodium accepts ref10
    accepts.  The converse fails: whenever ref10 accepts a signature whose scalar
    leaves room for the group order below 2^253, it accepts a second, different
    signature of the same message under the same key, which libsodium refuses. *)
Theorem backends_compared (C : Curve) (G : CurveGroup C) (CL : CurveLaws C) (N : Sodium) (NL : SodiumLaws N) seed pk sig msg :
  Ref10.keygen 0 seed = Nacl.keygen 0 seed ∧
  Ref10.sign seed msg = Nacl.sign seed msg ∧
  Nacl.verify (Ref10.derive_pubkey seed) (Ref10.sign seed msg) msg = true ∧
  Ref10.verify (Nacl.derive_pubkey seed) (Nacl.sign seed msg) msg = true ∧
  (Nacl.verify pk sig msg = true → Ref10.verify pk sig msg = true) ∧
  (Ref10.verify pk sig msg = true → scalar (high sig) + group_order < 2 ^ 253 →
   malleate sig ≠ sig ∧ Ref10.verify pk (malleate sig) msg = true ∧ Nacl.verify pk (malleate sig) msg = false).
Proof.
  assert (Nacl.verify (rfc_public seed) (rfc_sign seed msg) msg = true) as Hn
    by (unfold Nacl.verify; by rewrite verify_detached_ok).
  split.
  { change (Some (Build_KeyPair seed (Ref10.derive_pubkey seed)) = Some (Build_KeyPair seed (Nacl.derive_pubkey seed))).
    by rewrite ref10_public, sodium_public. }
  rewrite ref10_public, ref10_sign, sodium_public, sodium_sign. split; [done|]. split; [done|].
  split; [apply ref10_verifies|]. split; [apply sodium_verify_ref10|].
  intros Hv Hs. split; [by apply malleate_ne|]. split; [by apply ref10_malleable|by apply sodium_rejects_malleated].
Qed.

Module SigDemo.
Definition seed : Seed32 := arr_lit 32 [1; 2; 3].
Definition msg : list byte := txt "pay 5".
Definition sig : Sig64 := Ref10.sign seed msg.
Lemma accepted : Ref10.verify (Ref10.derive_pubkey seed) sig msg = true.
Proof. by vm_compute. Qed.
Lemma room : scalar (high sig) + group_order < 2 ^ 253.
Proof. apply (bool_decide_unpack _). by vm_compute. Qed.
End SigDemo.

Lemma backends_compared_witness :
  Ref10.verify (Ref10.derive_pubkey SigDemo.seed) (malleate SigDemo.sig) SigDemo.msg = true ∧
  Nacl.verify (Ref10.derive_pubkey SigDemo.seed) (malleate SigDemo.sig) SigDemo.msg = false.
Proof.
  exact (proj2 (proj2 (proj2 (proj2 (proj2 (proj2 (backends_compared EddsaDemo.curve EddsaDemo.group EddsaDemo.laws
    EddsaDemo.nacl EddsaDemo.nacl_laws SigDemo.seed _ _ _))))) SigDemo.accepted SigDemo.room)).
Defined.
