(* ===== verification/Portability.v ===== *)
(** What the choice of the Ed25519 backend means for the ledger: chains and
    chain files accepted by a libsodium build are accepted by a ref10 build, with
    the same state; the converse fails for a transaction whose signature was
    replaced by the other one that ref10 accepts.

    The gate, the chain and the validator are those of files Gate, Chain and
    Validate at the two instances of file Eddsa. *)

From Stdlib Require Import ZArith Lia Ascii String.
From stdpp Require Import base list strings gmap fin_maps.
From S2P Require Import Prelude Sha256 Crypto Canonical Wallet Gate Chain Validate Eddsa.

(** ** A history of blocks

    Blocks with the time each arrives at; the chain after all of them, if every one
    of them is connected. *)

Fixpoint connect_all {H : HashFn} {E : Ed25519} (c : Chain) (l : list (Block * Z)) : option Chain :=
  match l with
  | [] => Some c
  | (b, now) :: l =>
      let '(r, c1) := connectBlock c b now in
      if bool_decide (r = OK) then connect_all c1 l else None
  end.

(** ** A more permissive verifier

    Every signature the first backend accepts, the second accepts. *)

Class Stricter (E1 E2 : Ed25519) : Prop := {
  stricter pk sig msg : verify (Ed25519 := E1) pk sig msg = true → verify (Ed25519 := E2) pk sig msg = true
}.

Section stricter.
Context {H : HashFn} {E1 E2 : Ed25519} {ST : Stricter E1 E2}.

Lemma transfer_ok_stricter w t : transfer_ok (E := E1) w t → transfer_ok (E := E2) w t.
Proof. intros [Hu Ha Hs Hn Hf]. split; try done. by apply stricter. Qed.

Lemma transfers_stricter w l w' : transfers (E := E1) w l w' → transfers (E := E2) w l w'.
Proof. induction 1; constructor; [by apply transfer_ok_stricter|done]. Qed.

Lemma block_run_stricter R idx w l w' : block_run (E := E1) R idx w l w' → block_run (E := E2) R idx w l w'.
Proof. destruct 1; [apply run_coinbase|apply run_plain]; auto using transfers_stricter. Qed.

Lemma runs_stricter R w l w' : runs (H1 := E1) R w l w' → runs (H1 := E2) R w l w'.
Proof. induction 1; econstructor; [by apply block_run_stricter|done]. Qed.

Lemma connectBlock_stricter c b now c' :
  connectBlock (E := E1) c b now = (OK, c') → connectBlock (E := E2) c b now = (OK, c').
Proof.
  rewrite !connectBlock_ok_iff. intros (Hv & w & Hr & ->). split; [done|].
  exists w. split; [by apply block_run_stricter|done].
Qed.

Lemma connect_all_stricter c l c' :
  connect_all (E := E1) c l = Some c' → connect_all (E := E2) c l = Some c'.
Proof.
  revert c. induction l as [|[b now] l IH]; intros c; cbn [connect_all]; [done|].
  destruct (connectBlock (E := E1) c b now) as [r c1] eqn:Hb. case_bool_decide as Hr; [|done]. subst r.
  rewrite (connectBlock_stricter _ _ _ _ Hb). rewrite bool_decide_eq_true_2 by done. apply IH.
Qed.

Lemma reachable_stricter D R now c : reachable (E := E1) D R now c → reachable (E := E2) D R now c.
Proof. induction 1; [constructor|econstructor; [done..|by apply connectBlock_stricter]]. Qed.

Lemma replay_stricter blocks now D R :
  vr_ok (replayFromGenesis (E := E1) blocks now D R) = true →
  vr_ok (replayFromGenesis (E := E2) blocks now D R) = true.
Proof.
  rewrite !replay_ok_iff. unfold replays. intros (b0 & l & w & Hb & (Hi & Hp & Hc & Hch & Hr) & Hs).
  exists b0, l, w. split_and!; try done. by apply runs_stricter.
Qed.
End stricter.

(** ** Replacing one transaction of a block *)

Section replace.
Context {H : HashFn} {E : Ed25519}.

Definition with_sig (t : Txn) (s : Sig64) : Txn :=
  mkTxn (tx_ver t) (tx_from t) (tx_to t) (tx_amount t) (tx_nonce t) (tx_pubkey t) s.

Lemma with_sig_payload t s : signed_payload (with_sig t s) = signed_payload t.
Proof. by apply signed_payload_ext. Qed.

Lemma transfers_app w l k w' :
  transfers w (l ++ k) w' ↔ ∃ w1, transfers w l w1 ∧ transfers w1 k w'.
Proof.
  revert w. induction l as [|t l IH]; intros w; cbn [app].
  - split; [intros Hk; exists w; by split; [constructor|]|]. intros (w1 & Hl & Hk). by inversion Hl; subst.
  - rewrite transfers_cons_iff, IH. setoid_rewrite transfers_cons_iff. split.
    + intros (Ht & w1 & Hl & Hk). by exists w1.
    + intros (w1 & [Ht Hl] & Hk). split; [done|]. by exists w1.
Qed.

(** A signature that still verifies leaves the run of a block as it was. *)
Lemma transfer_ok_with_sig w t s :
  verify (tx_pubkey t) s (signed_payload t) = true → transfer_ok w t → transfer_ok w (with_sig t s).
Proof. intros Hv [Hu Ha _ Hn Hf]. split; try done. by rewrite with_sig_payload. Qed.

Lemma transfers_with_sig w pre t post w' s :
  verify (tx_pubkey t) s (signed_payload t) = true →
  transfers w (pre ++ t :: post) w' → transfers w (pre ++ with_sig t s :: post) w'.
Proof.
  intros Hv. rewrite !transfers_app. intros (w1 & Hpre & Hrest). exists w1. split; [done|].
  apply transfers_cons_iff in Hrest as [Ht Hpost]. apply transfers_cons_iff.
  split; [by apply transfer_ok_with_sig|done].
Qed.

Lemma block_run_with_sig R idx w pre t post w' s :
  tx_from t ≠ kNullAddr → verify (tx_pubkey t) s (signed_payload t) = true →
  block_run R idx w (pre ++ t :: post) w' → block_run R idx w (pre ++ with_sig t s :: post) w'.
Proof.
  intros Hu Hv Hr. inversion Hr as [? cb l ? Hcb Hl Heq|? l ? HR Hl Heq]; subst.
  - destruct pre as [|cb' pre]; simplify_eq/=; [by destruct Hu, Hcb|].
    apply run_coinbase; [done|by apply transfers_with_sig].
  - apply run_plain; [done|by apply transfers_with_sig].
Qed.

(** Accepted transactions pass the loop on to the next one. *)
Lemma loop_app w pre w1 l idx ti c :
  transfers w pre w1 →
  applyBlockTxns_loop w idx (pre ++ l) ti c = applyBlockTxns_loop w1 idx l (ti + length pre) c.
Proof.
  intros Hpre. revert ti. induction Hpre as [w|w t pre w1 Ht _ IH]; intros ti; cbn [app length].
  { by rewrite Nat.add_0_r. }
  cbn [applyBlockTxns_loop]. rewrite bool_decide_eq_false_2 by apply (tr_user _ _ Ht).
  rewrite (proj2 (applyTxn_user_ok w t idx ti _ (tr_user _ _ Ht)) (conj Ht eq_refl)).
  cbn [negb bool_decide decide_rel]. rewrite bool_decide_eq_true_2 by done. cbn [negb].
  rewrite IH. by rewrite Nat.add_succ_comm.
Qed.

Lemma loop_bad_sig w t l idx ti c s :
  transfer_ok w t → verify (tx_pubkey t) s (signed_payload t) = false →
  reason (applyBlockTxns_loop w idx (with_sig t s :: l) ti c).1.1 = BAD_SIG.
Proof.
  intros [Hu Ha _ _ _] Hv. cbn [applyBlockTxns_loop]. rewrite bool_decide_eq_false_2 by done.
  unfold applyTxn. rewrite bool_decide_eq_false_2 by done. unfold address_matches.
  change (tx_from (with_sig t s)) with (tx_from t). change (tx_pubkey (with_sig t s)) with (tx_pubkey t).
  rewrite (bool_decide_eq_true_2 _ Ha), with_sig_payload. cbn [negb].
  change (tx_sig (with_sig t s)) with s. rewrite Hv. cbn [negb]. done.
Qed.

Lemma block_run_user R idx w pre t post w' :
  tx_from t ≠ kNullAddr → block_run R idx w (pre ++ t :: post) w' → ∃ w1, transfer_ok w1 t.
Proof.
  intros Hu Hr. inversion Hr as [? cb l ? Hcb Hl Heq|? l ? HR Hl Heq]; subst.
  - destruct pre as [|cb' pre]; simplify_eq/=; [by destruct Hu, Hcb|].
    apply transfers_app in Hl as (w1 & _ & [Ht _]%transfers_cons_iff). by exists w1.
  - apply transfers_app in Hl as (w1 & _ & [Ht _]%transfers_cons_iff). by exists w1.
Qed.

(** A block that meets the rules V1 to V6 gets the verdict of its body. *)
Lemma connectBlock_body c b now :
  valid_next c b now → reason (applyBlockTxns (state_ c) b (reward_ c)).1 ≠ OK →
  connectBlock c b now = (reason (applyBlockTxns (state_ c) b (reward_ c)).1, c).
Proof.
  intros [H1 H2 H3 H4 H5 H6 H7] Hr. unfold connectBlock.
  rewrite H1, H2, H5, H6, Z.eqb_refl, !bool_decide_eq_true_2 by done. cbn [negb].
  rewrite (proj2 (Z.leb_gt _ _) H3), (proj2 (Z.ltb_ge _ _) H4), (proj2 (Nat.ltb_ge _ _) H7).
  destruct (applyBlockTxns _ _ _) as [ar w]. cbn [fst] in *. by rewrite bool_decide_eq_false_2.
Qed.

Lemma block_bad_sig R w b pre t post w' s :
  tx_from t ≠ kNullAddr → verify (tx_pubkey t) s (signed_payload t) = false →
  block_run R (h_index (header b)) w (pre ++ t :: post) w' → txns b = pre ++ with_sig t s :: post →
  reason (applyBlockTxns w b R).1 = BAD_SIG.
Proof.
  intros Hu Hv Hr Hb. unfold applyBlockTxns. rewrite Hb.
  set (loop := applyBlockTxns_loop w (h_index (header b)) (pre ++ with_sig t s :: post) 0 0).
  assert (reason loop.1.1 = BAD_SIG) as Hl.
  { subst loop. inversion Hr as [? cb l ? Hcb Hl Heq|? l ? HR Hl Heq]; subst.
    - destruct pre as [|cb' pre]; simplify_eq/=; [by destruct Hu, Hcb|].
      apply transfers_app in Hl as (w1 & Hpre & [Ht _]%transfers_cons_iff).
      pose proof Hcb as [Hn Hp Hs Hh Ha]. rewrite Ha in Hpre.
      rewrite bool_decide_eq_true_2, (proj2 (malformed_coinbase_false _ _)), Ha by done. cbn.
      rewrite (loop_app _ _ _ _ _ _ _ Hpre). by apply loop_bad_sig.
    - apply transfers_app in Hl as (w1 & Hpre & [Ht _]%transfers_cons_iff).
      rewrite (loop_app _ _ _ _ _ _ _ Hpre). by apply loop_bad_sig. }
  destruct loop as [[r cc] w2]. cbn [fst] in Hl. rewrite Hl, bool_decide_eq_false_2 by done. done.
Qed.
End replace.

(** ** The two builds *)

Section builds.
Context {H : HashFn} {C : Curve} {G : CurveGroup C} {CL : CurveLaws C} {N : Sodium} {NL : SodiumLaws N}.

#[export] Instance sodium_stricter : Stricter Nacl.sodium Ref10.ref10.
Proof. split. apply sodium_verify_ref10. Qed.
End builds.

(** Portability: what a libsodium build accepts, a ref10 build accepts with the
    same result: every history of blocks it connects (and the chain after it), every
    chain it can hold, and every chain file its from-genesis validator passes. *)
Theorem sodium_chains_portable (H : HashFn) (C : Curve) (G : CurveGroup C) (CL : CurveLaws C) (N : Sodium)
    (NL : SodiumLaws N) (D R now : Z) (c c' : Chain) (l : list (Block * Z)) (blocks : list Block) :
  (connect_all (E := Nacl.sodium) c l = Some c' → connect_all (E := Ref10.ref10) c l = Some c') ∧
  (reachable (E := Nacl.sodium) D R now c → reachable (E := Ref10.ref10) D R now c) ∧
  (vr_ok (replayFromGenesis (E := Nacl.sodium) blocks now D R) = true →
   vr_ok (replayFromGenesis (E := Ref10.ref10) blocks now D R) = true).
Proof.
  split; [apply (connect_all_stricter (E1 := Nacl.sodium))|].
  split; [apply (reachable_stricter (E1 := Nacl.sodium))|apply (replay_stricter (E1 := Nacl.sodium))].
Qed.

(** C10. The converse fails, so a network of both builds can split: take a block body
    a libsodium build accepts on chain [c], replace the signature of one of its
    transfers by the other one of the same message, and mine the result into a block
    that meets every other rule.  A ref10 build connects the block, with the effect
    of the original body; a libsodium build answers BAD_SIG and keeps its chain. *)
Theorem malleated_block_splits (H : HashFn) (C : Curve) (G : CurveGroup C) (CL : CurveLaws C) (N : Sodium)
    (NL : SodiumLaws N) (c : Chain) (b : Block) (now : Z) (pre post : list Txn) (t : Txn) (w : accounts) :
  tx_from t ≠ kNullAddr → scalar (high (tx_sig t)) + group_order < 2 ^ 253 →
  txns b = pre ++ with_sig t (malleate (tx_sig t)) :: post →
  block_run (E := Nacl.sodium) (reward_ c) (h_index (header b)) (state_ c) (pre ++ t :: post) w →
  valid_next c b now →
  connectBlock (E := Ref10.ref10) c b now = (OK, committed c b w) ∧
  connectBlock (E := Nacl.sodium) c b now = (BAD_SIG, c).
Proof.
  intros Hu Hs Hb Hr Hv.
  destruct (block_run_user (E := Nacl.sodium) _ _ _ _ _ _ _ Hu Hr) as (w1 & Ht). split.
  - apply (connectBlock_ok_iff (E := Ref10.ref10)). split; [done|]. exists w. split; [|done].
    rewrite Hb. apply (block_run_with_sig (E := Ref10.ref10)); [done| |].
    + apply ref10_malleable; [done|]. apply sodium_verify_ref10, (tr_sig (E := Nacl.sodium) _ _ Ht).
    + by apply (block_run_stricter (E1 := Nacl.sodium)).
  - assert (reason (applyBlockTxns (E := Nacl.sodium) (state_ c) b (reward_ c)).1 = BAD_SIG) as Hbad.
    { eapply (block_bad_sig (E := Nacl.sodium)); [done| |done|done]. by apply sodium_rejects_malleated. }
    rewrite (connectBlock_body (E := Nacl.sodium)) by (done || by rewrite Hbad). by rewrite Hbad.
Qed.

Module SplitDemo.
#[local] Existing Instances Demo.demo_hash EddsaDemo.curve EddsaDemo.group EddsaDemo.laws EddsaDemo.nacl EddsaDemo.nacl_laws.

Definition seedA : Seed32 := arr_lit 32 [7].
Definition addrA : Address20 := address (Ref10.derive_pubkey seedA).
Definition addrB : Address20 := address (Ref10.derive_pubkey (arr_lit 32 [9])).

Definition c0 : Chain := Chain_new 0 50.
Definition b1 : Block := ChainDemo.next c0 1704067300 [coinbaseTxn addrA 1].
Definition c1 : Chain := (connectBlock (E := Nacl.sodium) c0 b1 ChainDemo.now).2.

(** A payment signed by a libsodium wallet, in a block with a coinbase. *)
Definition pay : Txn := sign_txn (E := Nacl.sodium) seedA addrB 4 0.
Definition reward_txn : Txn := coinbaseTxn addrA 2.
Definition body : list Txn := [reward_txn; pay].
Definition b2 : Block := ChainDemo.next c1 1704067400 body.
Definition w2 : accounts := (applyBlockTxns (E := Nacl.sodium) (state_ c1) b2 50).2.

(** The same block with the other signature. *)
Definition b2' : Block := ChainDemo.next c1 1704067400 [reward_txn; with_sig pay (malleate (tx_sig pay))].

Lemma user : tx_from pay ≠ kNullAddr.
Proof. by vm_compute. Qed.
Lemma sodium_room : scalar (high (tx_sig pay)) + group_order < 2 ^ 253.
Proof. apply (bool_decide_unpack _). by vm_compute. Qed.

Lemma apply2 : (applyBlockTxns (E := Nacl.sodium) (state_ c1) b2 50).1 = mkApply OK [] 0.
Proof. by vm_compute. Qed.
Lemma run2 : block_run (E := Nacl.sodium) 50 2 (state_ c1) body w2.
Proof. by apply (applyBlockTxns_iff (E := Nacl.sodium) (state_ c1) b2 50), injective_projections; [apply apply2|]. Qed.

Lemma malleated_valid : valid_next c1 b2' ChainDemo.now.
Proof. split; apply (bool_decide_unpack _); by vm_compute. Qed.

Lemma sodium_connects1 : (connectBlock (E := Nacl.sodium) c0 b1 ChainDemo.now).1 = OK.
Proof. by vm_compute. Qed.
Lemma sodium_connect1 : connectBlock (E := Nacl.sodium) c0 b1 ChainDemo.now = (OK, c1).
Proof. unfold c1. rewrite <- sodium_connects1. apply surjective_pairing. Qed.

Lemma sodium_valid : valid_next c1 b2 ChainDemo.now.
Proof. split; apply (bool_decide_unpack _); by vm_compute. Qed.
Lemma sodium_connect2 : connectBlock (E := Nacl.sodium) c1 b2 ChainDemo.now = (OK, committed c1 b2 w2).
Proof. apply (connectBlock_ok_iff (E := Nacl.sodium)). split; [apply sodium_valid|]. exists w2. split; [apply run2|done]. Qed.

Definition blocks12 : list (Block * Z) := [(b1, ChainDemo.now); (b2, ChainDemo.now)].
Lemma history_sodium : connect_all (E := Nacl.sodium) c0 blocks12 = Some (committed c1 b2 w2).
Proof. unfold blocks12. cbn [connect_all]. by rewrite sodium_connect1, bool_decide_eq_true_2, sodium_connect2 by done. Qed.
End SplitDemo.

Lemma sodium_chains_portable_witness :
  connect_all (H := Demo.demo_hash) (E := Ref10.ref10 (C := EddsaDemo.curve)) SplitDemo.c0 SplitDemo.blocks12 =
  Some (committed SplitDemo.c1 SplitDemo.b2 SplitDemo.w2).
Proof.
  exact (proj1 (sodium_chains_portable Demo.demo_hash EddsaDemo.curve EddsaDemo.group EddsaDemo.laws EddsaDemo.nacl
    EddsaDemo.nacl_laws 0 50 ChainDemo.now SplitDemo.c0 (committed SplitDemo.c1 SplitDemo.b2 SplitDemo.w2)
    SplitDemo.blocks12 []) SplitDemo.history_sodium).
Defined.

Lemma malleated_block_splits_witness :
  (connectBlock (H := Demo.demo_hash) (E := Ref10.ref10 (C := EddsaDemo.curve)) SplitDemo.c1 SplitDemo.b2' ChainDemo.now).1 = OK ∧
  (connectBlock (H := Demo.demo_hash) (E := Nacl.sodium (N := EddsaDemo.nacl)) SplitDemo.c1 SplitDemo.b2' ChainDemo.now).1 = BAD_SIG.
Proof.
  destruct (malleated_block_splits Demo.demo_hash EddsaDemo.curve EddsaDemo.group EddsaDemo.laws EddsaDemo.nacl
    EddsaDemo.nacl_laws SplitDemo.c1 SplitDemo.b2' ChainDemo.now [SplitDemo.reward_txn] [] SplitDemo.pay SplitDemo.w2
    SplitDemo.user SplitDemo.sodium_room eq_refl SplitDemo.run2 SplitDemo.malleated_valid) as [-> ->].
  by split.
Defined.
