(* ===== verification/Mempool.v ===== *)
(** The mempool: [include/txchain/mempool/mempool.hpp],
    [src/mempool/mempool.cpp].

    The two hash maps are finite maps; [bySeq_], an ordered [std::map], is its
    ascending list of key/value pairs, so iteration order is list order.  The
    committed tip is seen through [account_at], which the C++ object holds as a
    callback into the live chain: here it is an argument of each call. *)

From Stdlib Require Import ZArith Lia Ascii String.
From stdpp Require Import base list strings gmap fin_maps sorting.
From S2P Require Import Prelude Sha256 Crypto Canonical Wallet Gate.

Module AdmitResult.
Inductive t :=
  | OK | BAD_SIG | BAD_ADDR | STALE_NONCE | INSUFFICIENT_FUNDS
  | UNPARSEABLE | DUPLICATE | MEMPOOL_FULL | PENDING_SLOT_BUSY.

End AdmitResult.

#[export] Instance AdmitResult_eq_dec : EqDecision AdmitResult.t.
Proof. solve_decision. Defined.

Definition reason_to_admit (r : Reason) : AdmitResult.t :=
  match r with
  | OK => AdmitResult.OK
  | BAD_ADDR => AdmitResult.BAD_ADDR
  | BAD_SIG => AdmitResult.BAD_SIG
  | STALE_NONCE => AdmitResult.STALE_NONCE
  | INSUFFICIENT_FUNDS => AdmitResult.INSUFFICIENT_FUNDS
  | _ => AdmitResult.UNPARSEABLE
  end.

Definition admit_result_name (a : AdmitResult.t) : list byte :=
  match a with
  | AdmitResult.OK => txt "OK"
  | AdmitResult.BAD_SIG => txt "BAD_SIG"
  | AdmitResult.BAD_ADDR => txt "BAD_ADDR"
  | AdmitResult.STALE_NONCE => txt "STALE_NONCE"
  | AdmitResult.INSUFFICIENT_FUNDS => txt "INSUFFICIENT_FUNDS"
  | AdmitResult.UNPARSEABLE => txt "UNPARSEABLE"
  | AdmitResult.DUPLICATE => txt "DUPLICATE"
  | AdmitResult.MEMPOOL_FULL => txt "MEMPOOL_FULL"
  | AdmitResult.PENDING_SLOT_BUSY => txt "PENDING_SLOT_BUSY"
  end.

Record MempoolEntry := mkEntryOf { me_txn : Txn; me_txid : Digest32; me_seq : Z }.

#[export] Instance MempoolEntry_eq_dec : EqDecision MempoolEntry.
Proof. solve_decision. Defined.

Record Mempool := mkPool {
  cap_ : nat;
  next_seq_ : Z;
  byTxid_ : gmap Digest32 MempoolEntry;
  bySender_ : gmap Address20 Digest32;
  bySeq_ : list (Z * Digest32)
}.

(** [m[k] = v] on an ordered map kept as its ascending list. *)
Fixpoint seq_insert (k : Z) (v : Digest32) (l : list (Z * Digest32)) : list (Z * Digest32) :=
  match l with
  | [] => [(k, v)]
  | (k', v') :: l' =>
      if k <? k' then (k, v) :: l
      else if k =? k' then (k, v) :: l'
      else (k', v') :: seq_insert k v l'
  end.

(** [m.erase(k)]. *)
Definition seq_erase (k : Z) (l : list (Z * Digest32)) : list (Z * Digest32) :=
  filter (λ p, p.1 ≠ k) l.

Section mempool.
Context {H : HashFn} {E : Ed25519}.

Definition Mempool_new (cap : nat) : Mempool := mkPool cap 0 ∅ ∅ [].

Definition contains (m : Mempool) (id : Digest32) : bool := bool_decide (is_Some (byTxid_ m !! id)).
Definition hasPending (m : Mempool) (from : Address20) : bool :=
  bool_decide (is_Some (bySender_ m !! from)).
Definition pool_size (m : Mempool) : nat := size (byTxid_ m).

Definition admit_txn (account_at : Address20 → AccountState) (m : Mempool) (t : Txn)
  : AdmitResult.t * Mempool :=
  return_if negb (tx_ver t =? kTxnVersion) with (AdmitResult.UNPARSEABLE, m) ;;
  let id := txid t in
  return_if contains m id with (AdmitResult.DUPLICATE, m) ;;
  let shadow := <[tx_from t := account_at (tx_from t)]> ∅ in
  let r := (applyTxn shadow t 0 1).1 in
  return_if bool_decide (r = BAD_ADDR) || bool_decide (r = BAD_SIG) || bool_decide (r = STALE_NONCE)
    with (reason_to_admit r, m) ;;
  return_if negb (bool_decide (r = OK)) && negb (bool_decide (r = INSUFFICIENT_FUNDS))
    with (AdmitResult.BAD_ADDR, m) ;;
  return_if hasPending m (tx_from t) with (AdmitResult.PENDING_SLOT_BUSY, m) ;;
  return_if bool_decide (r = INSUFFICIENT_FUNDS) with (AdmitResult.INSUFFICIENT_FUNDS, m) ;;
  return_if (cap_ m <=? pool_size m)%nat with (AdmitResult.MEMPOOL_FULL, m) ;;
  let seq := next_seq_ m in
  (AdmitResult.OK,
   mkPool (cap_ m) (u64 (next_seq_ m + 1))
     (<[id := mkEntryOf t id seq]> (byTxid_ m))
     (<[tx_from t := id]> (bySender_ m))
     (seq_insert seq id (bySeq_ m))).

(** The byte-level overload. *)
Definition admit_bytes (account_at : Address20 → AccountState) (m : Mempool) (txn_bytes : list byte)
  : AdmitResult.t * Mempool :=
  match deserialize_txn txn_bytes with
  | None => (AdmitResult.UNPARSEABLE, m)
  | Some t => admit_txn account_at m t
  end.

(** One iteration of [evictIncluded]. *)
Definition evict1 (m : Mempool) (t : Txn) : Mempool :=
  let id := txid t in
  match byTxid_ m !! id with
  | None => m
  | Some e =>
      mkPool (cap_ m) (next_seq_ m) (delete id (byTxid_ m))
        (if bool_decide (bySender_ m !! tx_from t = Some id) then delete (tx_from t) (bySender_ m)
         else bySender_ m)
        (seq_erase (me_seq e) (bySeq_ m))
  end.

Definition evictIncluded (m : Mempool) (l : list Txn) : Mempool := foldl evict1 m l.

Definition sortedBySeq (m : Mempool) : list MempoolEntry :=
  omap (λ p, byTxid_ m !! p.2) (bySeq_ m).

(** ** The admission gate *)

(** The stateless part of a transaction's validity. *)
Record authentic (t : Txn) : Prop := {
  au_ver : tx_ver t = kTxnVersion;
  au_user : tx_from t ≠ kNullAddr;
  au_addr : tx_from t = address (tx_pubkey t);
  au_sig : verify (tx_pubkey t) (tx_sig t) (signed_payload t) = true
}.

(** The gate's verdict on a user transaction, given its sender's account. *)
Definition user_verdict (from : AccountState) (t : Txn) : Reason :=
  if bool_decide (tx_from t = kNullAddr) then BAD_TXNS_HASH
  else if negb (address_matches (tx_from t) (tx_pubkey t)) then BAD_ADDR
  else if negb (verify (tx_pubkey t) (tx_sig t) (signed_payload t)) then BAD_SIG
  else if negb (tx_nonce t =? nonce from) then STALE_NONCE
  else if balance from <? tx_amount t then INSUFFICIENT_FUNDS
  else OK.

(** What the gate answers on the one-account shadow. *)
Lemma shadow_gate (account_at : Address20 → AccountState) t :
  (applyTxn (<[tx_from t := account_at (tx_from t)]> ∅) t 0 1).1 =
  user_verdict (account_at (tx_from t)) t.
Proof.
  unfold applyTxn, user_verdict. rewrite acct_at_insert. case_bool_decide; [done|].
  by split_guards.
Qed.

Lemma user_verdict_ok from t :
  tx_ver t = kTxnVersion →
  user_verdict from t = OK ↔
  authentic t ∧ tx_nonce t = nonce from ∧ tx_amount t <= balance from.
Proof.
  intros Hv. unfold user_verdict, address_matches. split.
  - intros Ha. split_guards_in Ha; simplify_eq; reflect_bools. by split_and!.
  - intros ([_ Hu Had Hs] & -> & Hf).
    rewrite Hs, Z.eqb_refl, (bool_decide_eq_true_2 _ Had), (bool_decide_eq_false_2 _ Hu). cbn [negb].
    by rewrite (proj2 (Z.ltb_ge _ _) Hf).
Qed.

Definition admitted (m : Mempool) (t : Txn) : Mempool :=
  mkPool (cap_ m) (u64 (next_seq_ m + 1))
    (<[txid t := mkEntryOf t (txid t) (next_seq_ m)]> (byTxid_ m))
    (<[tx_from t := txid t]> (bySender_ m))
    (seq_insert (next_seq_ m) (txid t) (bySeq_ m)).

Lemma admit_ok_iff account_at m t m' :
  admit_txn account_at m t = (AdmitResult.OK, m') ↔
  authentic t ∧ tx_nonce t = nonce (account_at (tx_from t)) ∧
  tx_amount t <= balance (account_at (tx_from t)) ∧
  byTxid_ m !! txid t = None ∧ bySender_ m !! tx_from t = None ∧ (pool_size m < cap_ m)%nat ∧
  m' = admitted m t.
Proof.
  unfold admit_txn, contains, hasPending. rewrite shadow_gate.
  destruct (Z.eqb_spec (tx_ver t) kTxnVersion) as [Hv|Hv]; cbn [negb];
    [|split; [done|]; intros ([] & _); done].
  pose proof (user_verdict_ok (account_at (tx_from t)) t Hv) as Hok.
  destruct (byTxid_ m !! txid t) as [e|] eqn:Hd.
  { rewrite bool_decide_eq_true_2 by done. split; [done|]. by intros (_ & _ & _ & ? & _). }
  rewrite bool_decide_eq_false_2 by (by intros []).
  destruct (bySender_ m !! tx_from t) as [i|] eqn:Hp.
  { rewrite (bool_decide_eq_true_2 (is_Some _)) by done. split; [|by intros (_ & _ & _ & _ & ? & _)].
    intros Ha. split_guards_in Ha; simplify_eq; by destruct (user_verdict _ t). }
  rewrite (bool_decide_eq_false_2 (is_Some _)) by (by intros []).
  destruct (Nat.leb_spec (cap_ m) (pool_size m)) as [Hc|Hc].
  { split; [|intros (_ & _ & _ & _ & _ & ? & _); lia].
    intros Ha. split_guards_in Ha; simplify_eq; by destruct (user_verdict _ t). }
  destruct (user_verdict (account_at (tx_from t)) t) eqn:Er; cbn.
  1: split; [intros [= <-]|intros (_ & _ & _ & _ & _ & _ & ->)]; tauto.
  all: split; [done|]; intros (Hau & Hn & Hf & _); by discriminate (proj2 Hok (conj Hau (conj Hn Hf))).
Qed.

Lemma admit_fail_unchanged account_at m t r m' :
  admit_txn account_at m t = (r, m') → r ≠ AdmitResult.OK → m' = m.
Proof. unfold admit_txn. intros Ha Hr. split_guards_in Ha; simplify_eq; done. Qed.

(** ** The pool invariant *)

Definition ascending (l : list (Z * Digest32)) : Prop := StronglySorted (λ p q, p.1 < q.1) l.

Record pool_wf (m : Mempool) : Prop := {
  wf_entry id e : byTxid_ m !! id = Some e →
    me_txid e = id ∧ txid (me_txn e) = id ∧ authentic (me_txn e) ∧ me_seq e < next_seq_ m;
  wf_seq s id : (s, id) ∈ bySeq_ m ↔ ∃ e, byTxid_ m !! id = Some e ∧ me_seq e = s;
  wf_ascending : ascending (bySeq_ m);
  wf_sender a id : bySender_ m !! a = Some id ↔ ∃ e, byTxid_ m !! id = Some e ∧ tx_from (me_txn e) = a;
  wf_cap : (pool_size m ≤ cap_ m)%nat;
  wf_next : 0 <= next_seq_ m
}.

Lemma seq_insert_last k v l : Forall (λ p, p.1 < k) l → seq_insert k v l = l ++ [(k, v)].
Proof.
  induction 1 as [|[k' v'] l Hk _ IH]; [done|]. cbn [seq_insert app]. simpl in Hk.
  rewrite (proj2 (Z.ltb_ge _ _)), (proj2 (Z.eqb_neq _ _)) by lia. by rewrite IH.
Qed.

Lemma ascending_snoc l k v : ascending l → Forall (λ p, p.1 < k) l → ascending (l ++ [(k, v)]).
Proof.
  intros Hl Hk. induction Hl as [|p l Hl IH Hp]; cbn [app]; [by repeat constructor|].
  inversion_clear Hk as [|? ? Hp1 Hk']. constructor; [by apply IH|].
  apply Forall_app. split; [done|]. by constructor.
Qed.

Lemma sorted_filter {A} (R : relation A) (P : A → Prop) `{∀ x, Decision (P x)} l :
  StronglySorted R l → StronglySorted R (filter P l).
Proof.
  induction 1 as [|p l Hl IH Hp]; [constructor|]. rewrite filter_cons. case_decide; [|done].
  constructor; [done|]. apply Forall_forall. intros x Hx. apply list_elem_of_filter in Hx as [_ Hx].
  by eapply Forall_forall in Hp.
Qed.

Lemma wf_seq_below m : pool_wf m → Forall (λ p, p.1 < next_seq_ m) (bySeq_ m).
Proof.
  intros Hm. apply Forall_forall. intros [s id] Hp. apply (wf_seq _ Hm) in Hp as (e & He & <-).
  by apply (wf_entry _ Hm) in He as (_ & _ & _ & ?).
Qed.

Lemma Mempool_new_wf cap : pool_wf (Mempool_new cap).
Proof.
  split; simpl; try done.
  - intros s id. split; [by intros ?%elem_of_nil|]. by intros (? & ? & _).
  - constructor.
  - intros a id. split; [done|]. by intros (? & ? & _).
  - unfold pool_size; simpl. rewrite map_size_empty. lia.
Qed.

Lemma admitted_wf account_at m t m' :
  pool_wf m → next_seq_ m < 2 ^ 64 - 1 → admit_txn account_at m t = (AdmitResult.OK, m') →
  pool_wf m' ∧ sortedBySeq m' = sortedBySeq m ++ [mkEntryOf t (txid t) (next_seq_ m)].
Proof.
  intros Hm Hb (Hau & _ & _ & Hd & Hp & Hc & ->)%admit_ok_iff.
  pose proof (wf_seq_below _ Hm) as Hlt. pose proof (wf_next _ Hm).
  assert (∀ s, (s, txid t) ∉ bySeq_ m) as Hfresh.
  { intros s (e & He & _)%(wf_seq _ Hm). congruence. }
  unfold admitted. rewrite u64_id by (unfold u64_ok; lia). rewrite seq_insert_last by done. split.
  - split; cbn [cap_ next_seq_ byTxid_ bySender_ bySeq_].
    + intros id e. rewrite lookup_insert. case_decide as Hi.
      * intros [= <-]. cbn. subst. split_and!; (done || lia).
      * intros (? & ? & ? & ?)%(wf_entry _ Hm). split_and!; (done || lia).
    + intros s id. rewrite elem_of_app, list_elem_of_singleton, (wf_seq _ Hm), lookup_insert.
      case_decide as Hi; [subst id|].
      * split; [|by intros (e & [= <-] & <-); right]. intros [(e & He & _)|[= ->]]; [congruence|].
        by eexists.
      * split; [intros [?|[= -> ->]]; done|]. by left.
    + by apply ascending_snoc; [apply wf_ascending|].
    + intros a id. rewrite !lookup_insert. repeat case_decide; subst.
      * split; [|done]. intros _. by eexists.
      * split; [by intros [=]|]. intros (e & He & Ha). exfalso.
        assert (bySender_ m !! tx_from t = Some id) as Hx; [|congruence].
        apply (wf_sender _ Hm). by exists e.
      * split; [|by intros (e & [= <-] & Ha)]. intros (e & He & _)%(wf_sender _ Hm). congruence.
      * apply (wf_sender _ Hm).
    + unfold pool_size in *; cbn [byTxid_ cap_]. rewrite map_size_insert_None by done. lia.
    + lia.
  - unfold sortedBySeq. cbn [byTxid_ bySeq_]. rewrite omap_app. cbn [omap list_omap snd].
    rewrite lookup_insert_eq. f_equal. apply list_omap_ext. apply Forall2_same_length_lookup_2; [done|].
    intros i p p' Hp1 Hp2. simplify_eq. rewrite lookup_insert_ne; [done|].
    intros Heq. apply (Hfresh p.1). rewrite Heq. destruct p. by eapply list_elem_of_lookup_2.
Qed.

(** ** Eviction *)

Lemma seq_erase_elem k l s id : (s, id) ∈ seq_erase k l ↔ (s, id) ∈ l ∧ s ≠ k.
Proof. unfold seq_erase. rewrite list_elem_of_filter. simpl. tauto. Qed.

(** An entry's place in admission order identifies it. *)
Lemma wf_seq_inj m id id' e e' :
  pool_wf m → byTxid_ m !! id = Some e → byTxid_ m !! id' = Some e' → me_seq e = me_seq e' → id = id'.
Proof.
  intros Hm He He' Heq.
  assert ((me_seq e, id) ∈ bySeq_ m) as H1 by (apply (wf_seq _ Hm); eauto).
  assert ((me_seq e, id') ∈ bySeq_ m) as H2 by (apply (wf_seq _ Hm); eauto).
  pose proof (wf_ascending _ Hm) as Hs. revert H1 H2. generalize (me_seq e). clear -Hs. intros s.
  induction Hs as [|p l Hl IH Hp]; [by intros ?%elem_of_nil|].
  rewrite Forall_forall in Hp. rewrite !elem_of_cons. intros [H1|H1] [H2|H2]; [congruence| | |by apply IH].
  - apply Hp in H2. subst p. simpl in H2. lia.
  - apply Hp in H1. subst p. simpl in H1. lia.
Qed.

Lemma wf_sender_inj m id id' e e' :
  pool_wf m → byTxid_ m !! id = Some e → byTxid_ m !! id' = Some e' →
  tx_from (me_txn e) = tx_from (me_txn e') → id = id'.
Proof.
  intros Hm He He' Heq.
  assert (bySender_ m !! tx_from (me_txn e) = Some id) by (apply (wf_sender _ Hm); eauto).
  assert (bySender_ m !! tx_from (me_txn e) = Some id') by (apply (wf_sender _ Hm); eauto).
  congruence.
Qed.

(** The pool keeps the transaction a block included, not a different one with
    the same digest. *)
Definition no_clash (m : Mempool) (t : Txn) : Prop :=
  ∀ e, byTxid_ m !! txid t = Some e → me_txn e = t.

Lemma evict1_wf m t :
  pool_wf m → no_clash m t →
  pool_wf (evict1 m t) ∧
  byTxid_ (evict1 m t) = delete (txid t) (byTxid_ m) ∧
  (contains m (txid t) = true → bySender_ (evict1 m t) !! tx_from t = None).
Proof.
  intros Hm Hc. unfold evict1, contains. destruct (byTxid_ m !! txid t) as [e|] eqn:He.
  2: { split; [done|]. split; [by rewrite delete_id|]. rewrite bool_decide_eq_false_2; [done|by intros []]. }
  pose proof (Hc e He) as Ht. subst t. destruct (wf_entry _ Hm _ _ He) as (_ & Hid & _ & _).
  assert (bySender_ m !! tx_from (me_txn e) = Some (txid (me_txn e))) as Hs.
  { apply (wf_sender _ Hm). exists e. by split. }
  rewrite bool_decide_eq_true_2 by done.
  split; [|split; [done|]; intros _; cbn; by rewrite lookup_delete_eq].
  split; cbn [cap_ next_seq_ byTxid_ bySender_ bySeq_].
  - intros id e' (Hne & He')%lookup_delete_Some. by apply (wf_entry _ Hm).
  - intros s id. rewrite seq_erase_elem, (wf_seq _ Hm). setoid_rewrite lookup_delete_Some. split.
    + intros [(e' & He' & <-) Hne]. exists e'. split_and!; [|done|done]. intros <-. congruence.
    + intros (e' & (Hne & He') & <-). split; [by eexists|]. intros Heq.
      by apply Hne, (wf_seq_inj m _ _ e e').
  - apply sorted_filter, Hm.
  - intros a id. rewrite lookup_delete_Some, (wf_sender _ Hm). setoid_rewrite lookup_delete_Some. split.
    + intros (Hne & e' & He' & <-). exists e'. split_and!; [|done|done]. intros <-. congruence.
    + intros (e' & (Hne & He') & <-). split; [|by eexists]. intros Heq.
      by apply Hne, (wf_sender_inj m _ _ e e').
  - pose proof (wf_cap _ Hm). unfold pool_size in *; cbn [byTxid_].
    rewrite map_size_delete_Some by done. lia.
  - apply Hm.
Qed.

Lemma evictIncluded_wf m l :
  pool_wf m → (∀ t, t ∈ l → no_clash m t) →
  pool_wf (evictIncluded m l) ∧
  (∀ id e, byTxid_ (evictIncluded m l) !! id = Some e ↔ byTxid_ m !! id = Some e ∧ id ∉ map txid l).
Proof.
  revert m. induction l as [|t l IH]; intros m Hm Hc; cbn [evictIncluded foldl map].
  { split; [done|]. intros id e. split; [intros ?; split; [done|apply not_elem_of_nil]|by intros []]. }
  destruct (evict1_wf m t Hm) as (Hw & Hd & _); [apply Hc; set_solver|].
  destruct (IH (evict1 m t) Hw) as [Hw' Hd'].
  { intros u Hu e. rewrite Hd. intros (_ & He)%lookup_delete_Some. eapply Hc; [set_solver|done]. }
  split; [done|]. intros id e. unfold evictIncluded in Hd'. rewrite Hd', Hd, lookup_delete_Some, not_elem_of_cons.
  split; [intros ((Hne & ?) & ?)|intros (? & Hne & ?)]; split_and!; done.
Qed.

(** ** Iteration order *)

Lemma sortedBySeq_elem m e :
  pool_wf m → e ∈ sortedBySeq m ↔ byTxid_ m !! me_txid e = Some e.
Proof.
  intros Hm. unfold sortedBySeq. rewrite list_elem_of_omap. split.
  - intros ([s id] & _ & He). simpl in He. destruct (wf_entry _ Hm _ _ He) as (<- & _). done.
  - intros He. exists (me_seq e, me_txid e). split; [|done]. apply (wf_seq _ Hm). eauto.
Qed.

Lemma sortedBySeq_ascending m :
  pool_wf m → StronglySorted (λ e e', me_seq e < me_seq e') (sortedBySeq m).
Proof.
  intros Hm. unfold sortedBySeq. pose proof (wf_ascending _ Hm) as Hs.
  assert (∀ s id, (s, id) ∈ bySeq_ m → ∃ e, byTxid_ m !! id = Some e ∧ me_seq e = s) as Hl.
  { intros s id. apply (wf_seq _ Hm). }
  induction Hs as [|[s id] l Hs IH Hp]; [constructor|]. cbn [omap list_omap snd].
  destruct (Hl s id) as (e & He & <-); [set_solver|]. rewrite He.
  specialize (IH ltac:(intros; apply Hl; set_solver)). constructor; [done|].
  apply Forall_forall. intros e' ([s' id'] & Hin & He')%list_elem_of_omap. simpl in He'.
  destruct (Hl s' id') as (e'' & He'' & <-); [set_solver|]. simplify_eq.
  by eapply Forall_forall in Hp; [|done].
Qed.

Lemma sortedBySeq_nodup {A} (f : MempoolEntry → A) m :
  pool_wf m → (∀ e e', byTxid_ m !! me_txid e = Some e → byTxid_ m !! me_txid e' = Some e' →
                       f e = f e' → me_txid e = me_txid e') →
  NoDup (map f (sortedBySeq m)).
Proof.
  intros Hm Hf. pose proof (sortedBySeq_ascending m Hm) as Hs.
  assert (∀ e, e ∈ sortedBySeq m → byTxid_ m !! me_txid e = Some e) as Hl.
  { intros e. by apply sortedBySeq_elem. }
  induction Hs as [|e l Hs IH Hp]; [constructor|]. cbn [map]. constructor.
  - intros (e' & Heq & Hin)%list_elem_of_fmap. rewrite Forall_forall in Hp.
    assert (me_txid e = me_txid e') as Hid by (apply Hf; [apply Hl; set_solver..|done]).
    assert (e = e') as <-.
    { assert (byTxid_ m !! me_txid e = Some e) by (apply Hl; set_solver).
      assert (byTxid_ m !! me_txid e' = Some e') by (apply Hl; set_solver). congruence. }
    specialize (Hp _ Hin). lia.
  - apply IH. intros. apply Hl. set_solver.
Qed.

(** ** Pools a node can hold

    Two things are left out that the code does not guard against and that do not
    happen in practice: evicting a transaction whose id collides with that of a
    different pooled one ([no_clash]; it takes a SHA-256 collision), and admitting
    when the 64-bit sequence counter is about to wrap around. *)

Inductive pool_reach (cap : nat) : Mempool → Prop :=
  | pool_start : pool_reach cap (Mempool_new cap)
  | pool_admit m account_at t : pool_reach cap m → next_seq_ m < 2 ^ 64 - 1 →
      pool_reach cap (admit_txn account_at m t).2
  | pool_admit_bytes m account_at b : pool_reach cap m → next_seq_ m < 2 ^ 64 - 1 →
      pool_reach cap (admit_bytes account_at m b).2
  | pool_evict m l : pool_reach cap m → (∀ t, t ∈ l → no_clash m t) →
      pool_reach cap (evictIncluded m l).

Lemma admit_wf account_at m t :
  pool_wf m → next_seq_ m < 2 ^ 64 - 1 → pool_wf (admit_txn account_at m t).2.
Proof.
  intros Hm Hb. destruct (admit_txn account_at m t) as [r m'] eqn:Ha. cbn.
  destruct (decide (r = AdmitResult.OK)) as [Hr|Hr]; [subst r|].
  - by destruct (admitted_wf _ _ _ _ Hm Hb Ha).
  - by rewrite (admit_fail_unchanged _ _ _ _ _ Ha Hr).
Qed.

Lemma admit_cap account_at m t : cap_ (admit_txn account_at m t).2 = cap_ m.
Proof.
  destruct (admit_txn account_at m t) as [r m'] eqn:Ha. cbn.
  destruct (decide (r = AdmitResult.OK)) as [Hr|Hr]; [subst r|].
  - by apply admit_ok_iff in Ha as (_ & _ & _ & _ & _ & _ & ->).
  - by rewrite (admit_fail_unchanged _ _ _ _ _ Ha Hr).
Qed.

Lemma evictIncluded_cap m l : cap_ (evictIncluded m l) = cap_ m.
Proof.
  revert m. induction l as [|t l IH]; intros m; [done|]. cbn [evictIncluded foldl].
  unfold evictIncluded in IH. rewrite IH. unfold evict1. by destruct (_ !! _).
Qed.

Lemma pool_reach_wf cap m : pool_reach cap m → pool_wf m ∧ cap_ m = cap.
Proof.
  induction 1 as [|m f t _ [Hw Hcap] Hb|m f b _ [Hw Hcap] Hb|m l _ [Hw Hcap] Hc].
  - split; [apply Mempool_new_wf|done].
  - split; [by apply admit_wf|by rewrite admit_cap].
  - unfold admit_bytes. destruct (deserialize_txn b); [|done].
    split; [by apply admit_wf|by rewrite admit_cap].
  - split; [by apply evictIncluded_wf|by rewrite evictIncluded_cap].
Qed.

Lemma pool_txids_nodup m : pool_wf m → NoDup (sortedBySeq m).
Proof.
  intros Hm. apply (NoDup_fmap_1 me_txid). by apply (sortedBySeq_nodup me_txid).
Qed.

Lemma evictIncluded_sorted m l :
  pool_wf m → (∀ t, t ∈ l → no_clash m t) →
  sortedBySeq (evictIncluded m l) = filter (λ e, me_txid e ∉ map txid l) (sortedBySeq m).
Proof.
  intros Hm Hc. destruct (evictIncluded_wf m l Hm Hc) as [Hw Hd].
  assert (AntiSymm (=) (λ e e' : MempoolEntry, me_seq e < me_seq e')) by (intros ???; lia).
  eapply StronglySorted_unique; [done|by apply sortedBySeq_ascending| |].
  - apply sorted_filter. by apply sortedBySeq_ascending.
  - apply NoDup_Permutation; [by apply pool_txids_nodup| |].
    + apply NoDup_filter. by apply pool_txids_nodup.
    + intros e. rewrite list_elem_of_filter, !sortedBySeq_elem, Hd by done. tauto.
Qed.

Lemma evictIncluded_frees m l t e :
  pool_wf m → (∀ t, t ∈ l → no_clash m t) → t ∈ l → byTxid_ m !! txid t = Some e →
  bySender_ (evictIncluded m l) !! tx_from t = None.
Proof.
  intros Hm Hc Ht He. destruct (evictIncluded_wf m l Hm Hc) as [Hw Hd].
  destruct (bySender_ (evictIncluded m l) !! tx_from t) as [id|] eqn:Hs; [|done].
  apply (wf_sender _ Hw) in Hs as (e' & He' & Hf).
  apply Hd in He' as [He' Hn]. pose proof (Hc t Ht e He) as <-.
  destruct (wf_sender_inj m _ _ _ _ Hm He He' (eq_sym Hf)).
  by destruct Hn; apply list_elem_of_fmap_2.
Qed.
End mempool.

(** C22. The mempool's invariant, in every pool reachable by admissions (of
    transactions or of bytes, against any tip; fewer than 2^64 - 1 of them) and
    evictions (of transactions whose id is not also that of a different pooled
    one, which would be a SHA-256 collision): the number of entries never exceeds
    the cap; the iteration view is exactly the set of entries, in strictly
    ascending admission order; every entry is authentic and filed under its own
    id; and each sender has at most one, the pending slot being taken exactly when
    it has one. *)
Theorem mempool_invariant {H : HashFn} {E : Ed25519} (cap : nat) (m : Mempool) :
  pool_reach cap m →
  (pool_size m ≤ cap)%nat ∧
  (∀ e, e ∈ sortedBySeq m ↔ byTxid_ m !! me_txid e = Some e) ∧
  StronglySorted (λ e e', me_seq e < me_seq e') (sortedBySeq m) ∧
  (∀ id e, byTxid_ m !! id = Some e → id = txid (me_txn e) ∧ authentic (me_txn e)) ∧
  NoDup (map (λ e, tx_from (me_txn e)) (sortedBySeq m)) ∧
  (∀ a, hasPending m a = true ↔ ∃ e, e ∈ sortedBySeq m ∧ tx_from (me_txn e) = a).
Proof.
  intros Hr. destruct (pool_reach_wf cap m Hr) as [Hm Hc]. split_and!.
  - rewrite <- Hc. apply Hm.
  - intros e. by apply sortedBySeq_elem.
  - by apply sortedBySeq_ascending.
  - by intros id e (<- & <- & ? & _)%(wf_entry _ Hm).
  - apply sortedBySeq_nodup; [done|]. intros e e' He He' Heq. by eapply wf_sender_inj.
  - intros a. unfold hasPending. rewrite bool_decide_eq_true. split.
    + intros [id (e & He & <-)%(wf_sender _ Hm)]. exists e. split; [|done].
      apply sortedBySeq_elem; [done|]. by destruct (wf_entry _ Hm _ _ He) as (-> & _).
    + intros (e & He%sortedBySeq_elem & <-); [|done]. exists (me_txid e). apply (wf_sender _ Hm). eauto.
Qed.

(** C23. Admission and inclusion cannot diverge: against a tip state [w], an admitted
    transaction is one the consensus gate accepts on [w], it joins the end of
    the iteration order, and a refusal changes nothing; conversely a version-1 user
    transaction the gate accepts is admitted whenever it is not a duplicate, its
    sender's slot is free and the pool is not full. *)
Theorem admit_agrees_with_gate {H : HashFn} {E : Ed25519} cap m (w : accounts) t bi ti :
  pool_reach cap m → next_seq_ m < 2 ^ 64 - 1 →
  (∀ m', admit_txn (acct_at w) m t = (AdmitResult.OK, m') →
         applyTxn w t bi ti = (OK, move w t) ∧
         sortedBySeq m' = sortedBySeq m ++ [mkEntryOf t (txid t) (next_seq_ m)]) ∧
  (∀ r m', admit_txn (acct_at w) m t = (r, m') → r ≠ AdmitResult.OK → m' = m) ∧
  (tx_ver t = kTxnVersion → tx_from t ≠ kNullAddr → (applyTxn w t bi ti).1 = OK →
   contains m (txid t) = false → hasPending m (tx_from t) = false → (pool_size m < cap)%nat →
   (admit_txn (acct_at w) m t).1 = AdmitResult.OK).
Proof.
  intros Hr Hb. destruct (pool_reach_wf cap m Hr) as [Hm Hc]. split_and!.
  - intros m' Ha. split; [|by eapply admitted_wf].
    apply admit_ok_iff in Ha as ([Hv Hu Had Hs] & Hn & Hf & _). apply applyTxn_user_ok; [done|].
    by split; [split|].
  - intros r m'. apply admit_fail_unchanged.
  - intros Hv Hu Ha Hd Hp Hs. destruct (applyTxn w t bi ti) as [r w'] eqn:Hap. cbn in Ha. subst r.
    apply applyTxn_user_ok in Hap as [[_ Had Hsig Hn Hf] _]; [|done].
    apply bool_decide_eq_false, eq_None_not_Some in Hd, Hp. rewrite <- Hc in Hs.
    rewrite (proj2 (admit_ok_iff (acct_at w) m t (admitted m t))); [done|]. by split_and!; [split|..].
Qed.

(** The commit hook: evicting a block's transactions removes exactly the
    included ones, keeps the others in their order, and frees the slot of every
    sender whose pending transaction was included. *)
Theorem evict_included {H : HashFn} {E : Ed25519} cap m (l : list Txn) :
  pool_reach cap m → (∀ t, t ∈ l → no_clash m t) →
  sortedBySeq (evictIncluded m l) = filter (λ e, me_txid e ∉ map txid l) (sortedBySeq m) ∧
  (∀ t, t ∈ l → contains m (txid t) = true → hasPending (evictIncluded m l) (tx_from t) = false).
Proof.
  intros Hr Hc. destruct (pool_reach_wf cap m Hr) as [Hm _]. split; [by apply evictIncluded_sorted|].
  intros t Ht [e He]%bool_decide_eq_true. apply bool_decide_eq_false.
  rewrite (evictIncluded_frees m l t e) by done. by intros [].
Qed.

Module PoolDemo.
#[local] Existing Instances Demo.demo_hash Demo.demo_ed.

Definition pay : Txn := sign_txn GateDemo.seedA GateDemo.addrB 4 0.
Definition m0 : Mempool := Mempool_new 8.
Definition m1 : Mempool := (admit_txn (acct_at GateDemo.ledger) m0 pay).2.

Lemma reach0 : pool_reach 8 m0.
Proof. constructor. Qed.
Lemma reach1 : pool_reach 8 m1.
Proof. apply pool_admit; [apply reach0|by vm_compute]. Qed.
Lemma room0 : next_seq_ m0 < 2 ^ 64 - 1.
Proof. by vm_compute. Qed.
Lemma admit1 : admit_txn (acct_at GateDemo.ledger) m0 pay = (AdmitResult.OK, m1).
Proof.
  unfold m1. rewrite (surjective_pairing (admit_txn _ _ _)) at 1. by f_equal.
Qed.
Lemma clash1 t : t ∈ [pay] → no_clash m1 t.
Proof.
  intros ->%list_elem_of_singleton e. assert (byTxid_ m1 !! txid pay = Some (mkEntryOf pay (txid pay) 0)) as ->.
  { apply (bool_decide_unpack _). by vm_compute. }
  by intros [= <-].
Qed.
End PoolDemo.

Lemma mempool_invariant_witness :
  NoDup (map (λ e, tx_from (me_txn e)) (sortedBySeq PoolDemo.m1)) ∧ (pool_size PoolDemo.m1 ≤ 8)%nat.
Proof.
  destruct (mempool_invariant (H := Demo.demo_hash) (E := Demo.demo_ed) 8 PoolDemo.m1 PoolDemo.reach1)
    as (Hc & _ & _ & _ & Hn & _).
  split; [exact Hn|exact Hc].
Defined.

Lemma admit_agrees_with_gate_witness :
  (applyTxn (H := Demo.demo_hash) (E := Demo.demo_ed) GateDemo.ledger PoolDemo.pay 1 1).1 = OK.
Proof.
  destruct (admit_agrees_with_gate (H := Demo.demo_hash) (E := Demo.demo_ed) 8 PoolDemo.m0
    GateDemo.ledger PoolDemo.pay 1 1 PoolDemo.reach0 PoolDemo.room0) as (Ha & _).
  destruct (Ha PoolDemo.m1 PoolDemo.admit1) as [Hg _]. by rewrite Hg.
Defined.

Lemma evict_included_witness :
  hasPending (evictIncluded (H := Demo.demo_hash) PoolDemo.m1 [PoolDemo.pay]) GateDemo.addrA = false.
Proof.
  apply (proj2 (evict_included (H := Demo.demo_hash) (E := Demo.demo_ed) 8 PoolDemo.m1 [PoolDemo.pay]
    PoolDemo.reach1 PoolDemo.clash1) PoolDemo.pay); [by apply list_elem_of_singleton|by vm_compute].
Defined.
