(* ===== verification/Pow.v ===== *)
(** Block production and fork choice: [src/pow/candidate.cpp],
    [src/pow/miner.cpp], [src/pow/forkchoice.cpp] and their headers under
    [include/txchain/pow/].

    The candidate's shadow ledger is the C++ [std::map] filled on first touch;
    [from] and [to] are references into it, so a transfer to oneself updates
    one account twice.  The nonce search is unbounded: [mine_loop] takes fuel
    (one unit per hash) and the theorems say how much is enough.  The stop
    flag is read from a stream, one value per iteration. *)

From Stdlib Require Import ZArith Lia Ascii String.
From stdpp Require Import base list strings gmap fin_maps sorting.
From S2P Require Import Prelude Sha256 Crypto Canonical Wallet Gate Chain Validate Mempool.

Record Candidate := mkCandidate { hdr : BlockHeader; c_txns : list Txn }.

(** ** Candidate assembly *)

(** The [touch] lambda of [buildCandidate]. *)
Definition touch (accountAt : Address20 → AccountState) (a : Address20) (shadow : accounts) : accounts :=
  match shadow !! a with Some _ => shadow | None => <[a := accountAt a]> shadow end.

(** The greedy selection loop: [sel] is [c.txns]. *)
Fixpoint select (accountAt : Address20 → AccountState) (shadow : accounts) (sel : list Txn)
    (l : list MempoolEntry) : list Txn :=
  match l with
  | [] => sel
  | e :: rest =>
      return_if (MAX_TXNS_PER_BLOCK <=? length sel)%nat with sel ;;
      let t := me_txn e in
      let shadow := touch accountAt (tx_from t) shadow in
      let shadow := touch accountAt (tx_to t) shadow in
      let from := acct_at shadow (tx_from t) in
      if negb (tx_nonce t =? nonce from) then select accountAt shadow sel rest
      else if balance from <? tx_amount t then select accountAt shadow sel rest
      else
        let shadow :=
          <[tx_from t := mkAcct (u64 (balance from - tx_amount t)) (u64 (nonce from + 1))]> shadow in
        let shadow := credit shadow (tx_to t) (tx_amount t) in
        select accountAt shadow (sel ++ [t]) rest
  end.

Section candidate.
Context {H : HashFn} {E : Ed25519}.

Definition buildCandidate (minerAddr : Address20) (tip_index : Z) (tip_hash : Digest32)
    (tip_timestamp now_s : Z) (mp : Mempool) (accountAt : Address20 → AccountState) : Candidate :=
  let height := u64 (tip_index + 1) in
  let sel := [coinbaseTxn minerAddr height] in
  let shadow := credit (touch accountAt minerAddr ∅) minerAddr COINBASE_REWARD in
  let sel := select accountAt shadow sel (sortedBySeq mp) in
  mkCandidate
    (mkHeader height (Z.max now_s (u64 (tip_timestamp + 1))) tip_hash (txns_hash sel) 0) sel.

(** ** The nonce search *)

Definition with_nonce (h : BlockHeader) (n : Z) : BlockHeader :=
  mkHeader (h_index h) (h_timestamp h) (h_prevHash h) (h_txnsHash h) n.

Definition bump_time (h : BlockHeader) : BlockHeader :=
  mkHeader (h_index h) (u64 (h_timestamp h + 1)) (h_prevHash h) (h_txnsHash h) (h_nonce h).

(** The [while (true)] of [mine] at iteration [i]; [None] when out of fuel. *)
Fixpoint mine_loop (fuel : nat) (stop : nat → bool) (i : nat) (difficulty : Z) (cand : Candidate)
    (nonce : Z) : option (option Block) :=
  match fuel with
  | O => None
  | S fuel =>
      return_if (Z.land nonce 0x3FFF =? 0) && stop i with Some None ;;
      let cand := mkCandidate (with_nonce (hdr cand) nonce) (c_txns cand) in
      return_if Target.meets_difficulty (block_hash (hdr cand)) difficulty
        with Some (Some (mkBlock (hdr cand) (c_txns cand))) ;;
      if nonce =? 2 ^ 64 - 1 then
        mine_loop fuel stop (S i) difficulty (mkCandidate (bump_time (hdr cand)) (c_txns cand)) 0
      else mine_loop fuel stop (S i) difficulty cand (nonce + 1)
  end.

Definition mine (fuel : nat) (cand : Candidate) (difficulty : Z) (stop : nat → bool)
  : option (option Block) := mine_loop fuel stop 0 difficulty cand 0.
End candidate.

(** ** Fork choice *)

Definition blockWork (difficulty : Z) : Z := Target.block_work difficulty.

Definition cumulativeWork (blocks : list Block) (difficulty : Z) : Z :=
  match blocks with
  | [] => 0
  | _ => u128 ((Z.of_nat (length blocks) - 1) * blockWork difficulty)
  end.

Definition candidateWins (candidateCumWork activeCumWork : Z) : bool := activeCumWork <? candidateCumWork.

Record ImportResult := mkImport {
  ir_valid : bool;
  ir_won : bool;
  ir_status : VerifyResult;
  ir_active_work : Z;
  ir_candidate_work : Z
}.

Definition evaluateImport {H : HashFn} {E : Ed25519} (active candidate : list Block) (now_s difficulty reward : Z)
  : ImportResult :=
  let status := replayFromGenesis candidate now_s difficulty reward in
  let valid := vr_ok status in
  let active_work := cumulativeWork active difficulty in
  let candidate_work := cumulativeWork candidate difficulty in
  mkImport valid (valid && candidateWins candidate_work active_work) status active_work candidate_work.

(** ** The shadow follows the gate *)

Section shadow.
Context {H : HashFn} {E : Ed25519}.

(** The shadow, completed by the committed accounts, is the ledger [w]. *)
Definition agrees (accountAt : Address20 → AccountState) (shadow w : accounts) : Prop :=
  ∀ a, default (accountAt a) (shadow !! a) = acct_at w a.

Lemma agrees_touch accountAt a shadow w :
  agrees accountAt shadow w → agrees accountAt (touch accountAt a shadow) w.
Proof.
  intros Hs b. rewrite <- Hs. unfold touch. destruct (shadow !! a) as [s|] eqn:Ha; [done|].
  rewrite lookup_insert. case_decide; [subst|done]. by rewrite Ha.
Qed.

Lemma touch_keeps accountAt a b shadow : is_Some (shadow !! b) → is_Some (touch accountAt a shadow !! b).
Proof.
  intros Hb. unfold touch. destruct (shadow !! a) eqn:Ha; [done|].
  rewrite lookup_insert. by case_decide.
Qed.

Lemma touch_present accountAt a shadow : is_Some (touch accountAt a shadow !! a).
Proof. unfold touch. destruct (shadow !! a) eqn:Ha; [by rewrite Ha|by rewrite lookup_insert_eq]. Qed.

Lemma agrees_read accountAt shadow w a :
  agrees accountAt shadow w → is_Some (shadow !! a) → acct_at shadow a = acct_at w a.
Proof. intros Hs [s Ha]. rewrite <- Hs. unfold acct_at. by rewrite Ha. Qed.

Lemma agrees_insert accountAt shadow w a s :
  agrees accountAt shadow w → agrees accountAt (<[a := s]> shadow) (<[a := s]> w).
Proof.
  intros Hs b. unfold acct_at. rewrite !lookup_insert. case_decide; [done|]. apply Hs.
Qed.

Lemma agrees_credit accountAt shadow w a v :
  agrees accountAt shadow w → is_Some (shadow !! a) →
  agrees accountAt (credit shadow a v) (credit w a v).
Proof.
  intros Hs Ha. unfold credit. rewrite (agrees_read _ _ _ _ Hs Ha). by apply agrees_insert.
Qed.

(** Between two accounts, the two reference updates are the gate's move. *)
Lemma credit_after_debit (w : accounts) t :
  tx_from t ≠ tx_to t →
  credit (<[tx_from t := mkAcct (u64 (balance (acct_at w (tx_from t)) - tx_amount t))
                                (u64 (nonce (acct_at w (tx_from t)) + 1))]> w)
         (tx_to t) (tx_amount t) = move w t.
Proof. intros Hne. unfold credit, move. by rewrite acct_at_insert_ne. Qed.

(** The shadow after a transaction is taken, as [select] computes it. *)
Lemma agrees_taken accountAt shadow w t :
  agrees accountAt shadow w → tx_from t ≠ tx_to t →
  let sh := touch accountAt (tx_to t) (touch accountAt (tx_from t) shadow) in
  let from := acct_at sh (tx_from t) in
  agrees accountAt sh w ∧ from = acct_at w (tx_from t) ∧
  agrees accountAt (credit (<[tx_from t := mkAcct (u64 (balance from - tx_amount t)) (u64 (nonce from + 1))]> sh)
    (tx_to t) (tx_amount t)) (move w t).
Proof.
  intros Hs Hne sh from. assert (agrees accountAt sh w) as Hsh by (by do 2 apply agrees_touch).
  assert (is_Some (sh !! tx_from t)) as Hf by apply touch_keeps, touch_present.
  assert (from = acct_at w (tx_from t)) as Hfrom by (by eapply agrees_read).
  split_and!; [done..|]. rewrite Hfrom, <- credit_after_debit by done. apply agrees_credit; [by apply agrees_insert|].
  rewrite lookup_insert_ne by done. apply touch_present.
Qed.

Definition sound_entry (e : MempoolEntry) : Prop :=
  authentic (me_txn e) ∧ tx_from (me_txn e) ≠ tx_to (me_txn e).

Lemma select_transfers accountAt shadow w sel l :
  agrees accountAt shadow w → Forall sound_entry l → (length sel ≤ MAX_TXNS_PER_BLOCK)%nat →
  ∃ new w', select accountAt shadow sel l = sel ++ new ∧ transfers w new w' ∧
            (length (sel ++ new) ≤ MAX_TXNS_PER_BLOCK)%nat ∧ sublist new (map me_txn l).
Proof.
  revert shadow w sel. induction l as [|e l IH]; intros shadow w sel Hs Hl Hlen; cbn [select map].
  { exists [], w. rewrite app_nil_r. split_and!; [done|constructor|done|constructor]. }
  apply Forall_cons in Hl as [[[_ Hu Had Hsig] Hne] Hl'].
  destruct (Nat.leb_spec MAX_TXNS_PER_BLOCK (length sel)) as [Hfull|Hroom].
  { exists [], w. rewrite app_nil_r. split_and!; [done|constructor|done|apply sublist_nil_l]. }
  set (t := me_txn e) in *. destruct (agrees_taken _ _ _ t Hs Hne) as (Hsh & Hfrom & Hm).
  set (sh := touch accountAt (tx_to t) (touch accountAt (tx_from t) shadow)) in *. rewrite Hfrom in *.
  destruct (Z.eqb_spec (tx_nonce t) (nonce (acct_at w (tx_from t)))) as [Hn|Hn]; cbn [negb].
  2: { destruct (IH sh w sel Hsh Hl' Hlen) as (new & w' & ? & ? & ? & ?). exists new, w'.
       split_and!; try done. by constructor. }
  destruct (Z.ltb_spec (balance (acct_at w (tx_from t))) (tx_amount t)) as [Hb|Hb].
  { destruct (IH sh w sel Hsh Hl' Hlen) as (new & w' & ? & ? & ? & ?). exists new, w'.
    split_and!; try done. by constructor. }
  destruct (IH _ _ (sel ++ [t]) Hm Hl') as (new & w' & Heq & Htr & Hlen' & Hsub).
  { rewrite length_app. simpl. lia. }
  exists (t :: new), w'. rewrite Heq, <- app_assoc. rewrite <- app_assoc in Hlen'.
  split_and!; [done| |done|by constructor]. econstructor; [by split|done].
Qed.
End shadow.

(** ** The search loop *)

Section search.
Context {H : HashFn} {E : Ed25519}.

(** What the search may change in a header. *)
Definition same_work_fields (h h' : BlockHeader) : Prop :=
  h_index h = h_index h' ∧ h_prevHash h = h_prevHash h' ∧ h_txnsHash h = h_txnsHash h'.

Lemma mine_loop_sound fuel stop i D cand n b :
  mine_loop fuel stop i D cand n = Some (Some b) →
  Target.meets_difficulty (block_hash (header b)) D = true ∧ txns b = c_txns cand ∧
  same_work_fields (header b) (hdr cand).
Proof.
  revert i cand n. induction fuel as [|fuel IH]; intros i cand n; cbn [mine_loop]; [done|].
  destruct (_ && _); [done|]. destruct (Target.meets_difficulty (block_hash (hdr _)) _) eqn:Hm.
  { intros ?; simplify_eq. by split_and!. }
  destruct (_ =? _); intros (Hb & Ht & Hf)%IH; by split_and!.
Qed.

Lemma mine_loop_finds fuel stop i D cand n k :
  (∀ i, stop i = false) → 0 <= k → k <= n < 2 ^ 64 →
  Target.meets_difficulty (block_hash (with_nonce (hdr cand) n)) D = true →
  (∀ m, k <= m < n → Target.meets_difficulty (block_hash (with_nonce (hdr cand) m)) D = false) →
  n - k < Z.of_nat fuel →
  mine_loop fuel stop i D cand k = Some (Some (mkBlock (with_nonce (hdr cand) n) (c_txns cand))).
Proof.
  intros Hstop. revert i cand k. induction fuel as [|fuel IH]; intros i cand k Hk0 Hk Hn Hlt Hf; [lia|].
  cbn [mine_loop hdr c_txns]. rewrite Hstop, andb_false_r.
  destruct (Z.eq_dec k n) as [->|Hne]; [by rewrite Hn|].
  rewrite (Hlt k) by lia. rewrite (proj2 (Z.eqb_neq _ _)) by lia.
  apply (IH (S i) (mkCandidate (with_nonce (hdr cand) k) (c_txns cand)) (k + 1)); cbn [hdr c_txns];
    [lia|lia|done| |lia].
  intros m Hm. apply Hlt. lia.
Qed.

(** The poll comes round every 2^14 nonces, whatever the search meets. *)
Lemma mine_loop_polled fuel stop i D cand n (d : nat) :
  (∀ j, (i ≤ j)%nat → stop j = true) → 0 <= n < 2 ^ 64 → (n + Z.of_nat d) mod 2 ^ 14 = 0 →
  (d < fuel)%nat → mine_loop fuel stop i D cand n ≠ None.
Proof.
  revert i cand n d. induction fuel as [|fuel IH]; intros i cand n d Hstop Hn Hd Hf; [lia|].
  cbn [mine_loop]. change 0x3FFF with (Z.ones 14). rewrite Z.land_ones by lia.
  rewrite Hstop, andb_true_r by lia. destruct (Z.eqb_spec (n mod 2 ^ 14) 0) as [|Hne]; [done|].
  destruct d as [|d]; [by rewrite Z.add_0_r in Hd|].
  destruct (Target.meets_difficulty _ _); [done|].
  destruct (Z.eqb_spec n (2 ^ 64 - 1)) as [->|].
  - apply (IH _ _ _ d); [intros; apply Hstop; lia|lia| |lia].
    replace (2 ^ 64 - 1 + Z.of_nat (S d)) with (Z.of_nat d + 2 ^ 50 * 2 ^ 14) in Hd by lia.
    by rewrite Z.mod_add in Hd by done.
  - apply (IH _ _ _ d); [intros; apply Hstop; lia|lia| |lia].
    by replace (n + 1 + Z.of_nat d) with (n + Z.of_nat (S d)) by lia.
Qed.

Lemma mine_loop_stops fuel stop i D cand n k :
  (∀ j, (k ≤ j)%nat → stop j = true) → 0 <= n < 2 ^ 64 →
  Z.max 0 (Z.of_nat k - Z.of_nat i) + 2 ^ 14 <= Z.of_nat fuel →
  mine_loop fuel stop i D cand n ≠ None.
Proof.
  intros Hstop. revert i cand n.
  induction fuel as [|fuel IH]; intros i cand n Hn Hf; [lia|].
  destruct (Nat.le_gt_cases k i) as [Hk|Hk].
  - set (d := Z.to_nat ((- n) mod 2 ^ 14)).
    assert (0 <= (- n) mod 2 ^ 14 < 2 ^ 14) as Hd by (apply Z.mod_pos_bound; done).
    apply (mine_loop_polled _ _ _ _ _ _ d); [intros; apply Hstop; lia|done| |].
    + unfold d. rewrite Z2Nat.id by lia. rewrite Z.add_mod_idemp_r by done. by rewrite Z.add_opp_diag_r.
    + unfold d. lia.
  - cbn [mine_loop]. destruct (_ && _); [done|]. destruct (Target.meets_difficulty _ _); [done|].
    destruct (Z.eqb_spec n (2 ^ 64 - 1)); apply IH; lia.
Qed.
End search.

(** C24. The miner's product is always a valid block: on any chain whose tip is not
    ahead of the clock's window, the candidate assembled from any reachable
    mempool without self-transfers, once a nonce meets the chain's difficulty,
    is accepted by [connectBlock]; its body is the coinbase followed by pool
    transactions in admission order, at most 8 in all. *)
Theorem candidate_connects {H : HashFn} {E : Ed25519} (c : Chain) (mp : Mempool) cap miner now_s n :
  let cand := buildCandidate miner (height c) (tipHash c) (h_timestamp (tip_header c)) now_s mp (account c) in
  let b := mkBlock (with_nonce (hdr cand) n) (c_txns cand) in
  pool_reach cap mp → Forall (λ e, tx_from (me_txn e) ≠ tx_to (me_txn e)) (sortedBySeq mp) →
  0 <= h_timestamp (tip_header c) → 0 <= now_s →
  h_timestamp (tip_header c) + 1 <= now_s + MAX_CLOCK_SKEW_S < 2 ^ 64 →
  Target.meets_difficulty (block_hash (header b)) (difficulty_ c) = true →
  (∃ c', connectBlock c b now_s = (OK, c') ∧ blocks_ c' = blocks_ c ++ [b]) ∧
  ∃ new, txns b = coinbaseTxn miner (u64 (height c + 1)) :: new ∧
         sublist new (map me_txn (sortedBySeq mp)) ∧ (length (txns b) ≤ MAX_TXNS_PER_BLOCK)%nat.
Proof.
  intros cand b Hr Hself Hts Hnow Hwin Hpow. destruct (pool_reach_wf cap mp Hr) as [Hm _].
  set (cb := coinbaseTxn miner (u64 (height c + 1))).
  destruct (select_transfers (account c) (credit (touch (account c) miner ∅) miner COINBASE_REWARD)
    (credit (state_ c) miner COINBASE_REWARD) [cb] (sortedBySeq mp)) as (new & w' & Hsel & Htr & Hlen & Hsub).
  { apply agrees_credit; [|apply touch_present]. apply agrees_touch. intros a. by rewrite lookup_empty. }
  { apply Forall_forall. intros e He. split; [|by eapply Forall_forall in Hself].
    apply sortedBySeq_elem in He; [|done]. by apply (wf_entry _ Hm) in He as (_ & _ & ? & _). }
  { unfold MAX_TXNS_PER_BLOCK. simpl. lia. }
  assert (txns b = cb :: new) as Hb by exact Hsel.
  split; [|exists new; split_and!; [done|done|by rewrite Hb]].
  exists (committed c b w'). split; [|done]. apply connectBlock_ok_iff. split.
  - unfold MAX_CLOCK_SKEW_S in *. unfold valid_next.
    assert (h_timestamp (header b) = Z.max now_s (h_timestamp (tip_header c) + 1)) as Et.
    { cbn. rewrite u64_id by (unfold u64_ok; lia). done. }
    split; try done; rewrite ?Et, ?Hb; [lia| |exact Hlen].
    rewrite u64_id by (unfold u64_ok, MAX_CLOCK_SKEW_S; lia). unfold MAX_CLOCK_SKEW_S. lia.
  - exists w'. split; [|done]. rewrite Hb. by apply run_coinbase.
Qed.

(** C39. The nonce search is correct: whatever it returns meets the difficulty and
    differs from the candidate only in nonce and timestamp; and when no stop is
    requested it returns the candidate with the least satisfying nonce, given
    one iteration per nonce tried. *)
Theorem mine_correct {H : HashFn} (cand : Candidate) (D : Z) (stop : nat → bool) :
  (∀ fuel b, mine fuel cand D stop = Some (Some b) →
     Target.meets_difficulty (block_hash (header b)) D = true ∧ txns b = c_txns cand ∧
     h_index (header b) = h_index (hdr cand) ∧ h_prevHash (header b) = h_prevHash (hdr cand) ∧
     h_txnsHash (header b) = h_txnsHash (hdr cand)) ∧
  (∀ n fuel, (∀ i, stop i = false) → 0 <= n < 2 ^ 64 →
     Target.meets_difficulty (block_hash (with_nonce (hdr cand) n)) D = true →
     (∀ m, 0 <= m < n → Target.meets_difficulty (block_hash (with_nonce (hdr cand) m)) D = false) →
     n < Z.of_nat fuel →
     mine fuel cand D stop = Some (Some (mkBlock (with_nonce (hdr cand) n) (c_txns cand)))).
Proof.
  split.
  - intros fuel b (Hb & Ht & Hi & Hp & Hx)%mine_loop_sound. by split_and!.
  - intros n fuel Hs Hn Hm Hlt Hf. apply mine_loop_finds; try done; lia.
Qed.

(** The search is interruptible: if the stop flag is up from iteration [k] on,
    [mine] returns (a block or nothing) within 2^14 further iterations, whatever
    the difficulty and even across exhaustion of the nonce space. *)
Theorem mine_stops {H : HashFn} (cand : Candidate) (D : Z) (stop : nat → bool) (k fuel : nat) :
  (∀ j, (k ≤ j)%nat → stop j = true) → Z.of_nat k + 2 ^ 14 <= Z.of_nat fuel →
  mine fuel cand D stop ≠ None.
Proof. intros Hs Hf. apply (mine_loop_stops _ _ _ _ _ _ k); [done|done|lia]. Qed.

(** Fork choice: for the difficulties and lengths a chain can have, an import
    wins exactly when the candidate passes the full replay and is strictly longer
    than the active chain; a tie keeps the incumbent, and the work it compares is
    the cumulative work [connectBlock] keeps. *)
Theorem import_wins_iff {H : HashFn} {E : Ed25519} (active candidate : list Block) now_s D R :
  0 <= D <= 64 → Z.of_nat (length active) < 2 ^ 63 → Z.of_nat (length candidate) < 2 ^ 63 →
  let r := evaluateImport active candidate now_s D R in
  (ir_won r = true ↔
     vr_ok (replayFromGenesis candidate now_s D R) = true ∧ (length active < length candidate)%nat
     ∧ (1 < length candidate)%nat) ∧
  (∀ c now, now + MAX_CLOCK_SKEW_S < 2 ^ 64 → reachable D R now c → blocks_ c = active →
            ir_active_work r = cumWork_ c).
Proof.
  intros HD Ha Hc r. pose proof (Target.block_work_range D) as Hw.
  assert (Target.block_work D = 2 ^ D) as Ew.
  { unfold Target.block_work. rewrite (proj2 (Z.leb_gt _ _)) by lia.
    rewrite Z.shiftl_1_l. apply Z.mod_small. split; [lia|]. apply Z.pow_lt_mono_r; lia. }
  assert (0 < 2 ^ D <= 2 ^ 64) as Hpow by (split; [lia|apply Z.pow_le_mono_r; lia]).
  assert (∀ l : list Block, Z.of_nat (length l) < 2 ^ 63 →
          cumulativeWork l D = (Z.max 1 (Z.of_nat (length l)) - 1) * 2 ^ D) as Hcum.
  { intros l Hl. destruct l as [|b l]; [done|]. unfold cumulativeWork, blockWork. rewrite Ew.
    cbn [length] in *. rewrite Z.max_r by lia. apply Z.mod_small. split; [nia|].
    apply Z.le_lt_trans with (2 ^ 63 * 2 ^ 64); [|done]. apply Z.mul_le_mono_nonneg; lia. }
  split.
  - cbn [r evaluateImport ir_won]. rewrite andb_true_iff. unfold candidateWins.
    rewrite Z.ltb_lt, !Hcum by done. rewrite <- Z.mul_lt_mono_pos_r by lia. split.
    + intros [Hv Hlt]. split; [done|lia].
    + intros (Hv & Hlt & H1). split; [done|lia].
  - intros c now Hn Hr Hb. destruct (reachable_shape D R now c Hn Hr) as [l Hs].
    rewrite (sh_work _ _ _ _ _ Hs). cbn [r evaluateImport ir_active_work].
    rewrite (sh_blocks _ _ _ _ _ Hs) in Hb. subst active. unfold cumulativeWork, blockWork.
    f_equal. cbn [length]. f_equal. lia.
Qed.

(** ** Worked examples *)

Module PowDemo.
#[local] Existing Instances Demo.demo_hash Demo.demo_ed.

Definition pay2 : Txn := sign_txn GateDemo.seedA GateDemo.addrB 3 1.
Definition pool : Mempool := (admit_txn (account ChainDemo.c2) (Mempool_new 8) pay2).2.
Definition cand : Candidate :=
  buildCandidate GateDemo.addrB (height ChainDemo.c2) (tipHash ChainDemo.c2)
    (h_timestamp (tip_header ChainDemo.c2)) ChainDemo.now pool (account ChainDemo.c2).
Definition mined : Block := mkBlock (with_nonce (hdr cand) 5) (c_txns cand).

Lemma pool_ok : pool_reach 8 pool.
Proof. apply pool_admit; [constructor|by vm_compute]. Qed.
Lemma pool_no_self : Forall (λ e, tx_from (me_txn e) ≠ tx_to (me_txn e)) (sortedBySeq pool).
Proof. apply (bool_decide_unpack _). by vm_compute. Qed.
Lemma tip_ts : 0 <= h_timestamp (tip_header ChainDemo.c2).
Proof. by vm_compute. Qed.
Lemma window : h_timestamp (tip_header ChainDemo.c2) + 1 <= ChainDemo.now + MAX_CLOCK_SKEW_S < 2 ^ 64.
Proof. split; by vm_compute. Qed.
Lemma pow5 : Target.meets_difficulty (block_hash (header mined)) (difficulty_ ChainDemo.c2) = true.
Proof. by vm_compute. Qed.
Lemma now_nonneg : 0 <= ChainDemo.now.
Proof. done. Qed.
Lemma short1 : Z.of_nat (length (blocks_ ChainDemo.c1)) < 2 ^ 63.
Proof. by vm_compute. Qed.
Lemma short2 : Z.of_nat (length (blocks_ ChainDemo.c2)) < 2 ^ 63.
Proof. by vm_compute. Qed.
Lemma longer : (length (blocks_ ChainDemo.c1) < length (blocks_ ChainDemo.c2))%nat ∧
               (1 < length (blocks_ ChainDemo.c2))%nat.
Proof. vm_compute. lia. Qed.
End PowDemo.

Lemma candidate_connects_witness :
  ∃ c', connectBlock (H := Demo.demo_hash) (E := Demo.demo_ed) ChainDemo.c2 PowDemo.mined ChainDemo.now = (OK, c').
Proof.
  destruct (candidate_connects (H := Demo.demo_hash) (E := Demo.demo_ed) ChainDemo.c2 PowDemo.pool 8
    GateDemo.addrB ChainDemo.now 5 PowDemo.pool_ok PowDemo.pool_no_self PowDemo.tip_ts
    PowDemo.now_nonneg PowDemo.window PowDemo.pow5) as [(c' & Hc & _) _].
  exists c'. exact Hc.
Defined.

Lemma mine_stops_witness :
  mine (H := Demo.demo_hash) (Z.to_nat 16384) PowDemo.cand 300 (λ _, true) ≠ None.
Proof. apply (mine_stops (H := Demo.demo_hash) _ _ _ 0); [done|]. rewrite Z2Nat.id; lia. Defined.

Lemma import_wins_iff_witness :
  ir_won (evaluateImport (H := Demo.demo_hash) (E := Demo.demo_ed)
    (blocks_ ChainDemo.c1) (blocks_ ChainDemo.c2) ChainDemo.now 0 50) = true.
Proof.
  destruct (import_wins_iff (H := Demo.demo_hash) (E := Demo.demo_ed) (blocks_ ChainDemo.c1)
    (blocks_ ChainDemo.c2) ChainDemo.now 0 50 ltac:(lia) PowDemo.short1 PowDemo.short2) as [Hw _].
  apply Hw. split; [exact ReplayDemo.valid2|exact PowDemo.longer].
Defined.
