(* ===== verification/Picojson.v ===== *)
(** The vendored JSON reader as the program uses it:
    [third_party/json/picojson.h] with [PICOJSON_USE_INT64], and
    [picojson::parse(value&, const std::string&)].

    An [input] is the list of bytes not yet consumed.  A reader that fails
    may have consumed some of them, but a failure stops the whole parse and
    only its existence is reported to the program, so failing readers return
    no position.  Besides succeeding or failing, constructing a [value] from
    an infinite double throws [std::overflow_error], and the program's casts of
    a double may be undefined: outcomes have a case for each, the last being
    exhausted fuel, which [parse_not_out_of_fuel] excludes. *)

From Stdlib Require Import ZArith Lia Ascii String.
From stdpp Require Import base list strings.
From S2P Require Import Prelude.

Inductive outcome (A : Type) :=
  | Ret (a : A)       (* normal return *)
  | Fail              (* [false], [std::nullopt] or a non-empty error string *)
  | Throw             (* an exception leaves the function *)
  | Undefined         (* undefined behaviour: a double cast out of range *)
  | NoFuel.
Arguments Ret {A}.
Arguments Fail {A}.
Arguments Throw {A}.
Arguments Undefined {A}.
Arguments NoFuel {A}.

#[export] Instance outcome_eq_dec `{EqDecision A} : EqDecision (outcome A).
Proof. solve_decision. Defined.

Definition obind {A B} (o : outcome A) (f : A → outcome B) : outcome B :=
  match o with Ret a => f a | Fail => Fail | Throw => Throw | Undefined => Undefined | NoFuel => NoFuel end.

Notation "'let*' p ':=' o 'in' k" := (obind o (λ p, k))
  (at level 10, p pattern, o at level 100, k at level 200) : txchain_scope.

(** ** Finite doubles and [strtod]

    A finite double is [(-1)^neg * m * 2^e].  The conversion from decimal
    rounds to 53 significant bits, half to even, with gradual underflow. *)

Record double := Dbl { d_neg : bool; d_m : Z; d_e : Z }.

(** Round the positive rational [n/d]; [None] when it exceeds every finite double. *)
Definition round_ratio (n d : Z) : option (Z * Z) :=
  let k := Z.log2 n - Z.log2 d in
  let geq := if 0 <=? k then d * 2 ^ k <=? n else d <=? n * 2 ^ (- k) in
  let fl := if geq then k else k - 1 in
  let e := Z.max (fl - 52) (-1074) in
  let num := if e <? 0 then n * 2 ^ (- e) else n in
  let den := if e <? 0 then d else d * 2 ^ e in
  let q := num / den in
  let r := num mod den in
  let m := if (den <? 2 * r) || ((den =? 2 * r) && Z.odd q) then q + 1 else q in
  if 1024 <=? Z.log2 m + e then None else Some (m, e).

Inductive strtod_result :=
  | NotNumber                 (* [endp] is not the end of the string *)
  | Overflow                  (* [HUGE_VAL], with either sign *)
  | Finite (d : double).

(** The longest prefix of decimal digits. *)
Fixpoint span_digits (l : list byte) : list byte * list byte :=
  match l with
  | c :: l' => if is_digit c then let '(a, b) := span_digits l' in (c :: a, b) else ([], l)
  | [] => ([], [])
  end.

Definition is_char (n : Z) (c : byte) : bool := byte_to_Z c =? n.

(** An optional sign. *)
Definition strip_sign (l : list byte) : bool * list byte :=
  match l with
  | c :: l' => if is_char 45 c then (true, l') else if is_char 43 c then (false, l') else (false, l)
  | [] => (false, [])
  end.

(** An exponent part up to the end of the string: [None] when malformed. *)
Definition exponent (l : list byte) : option Z :=
  match l with
  | [] => Some 0
  | c :: l' =>
      if is_char 101 c || is_char 69 c then
        let '(neg, l1) := strip_sign l' in
        let '(ds, l2) := span_digits l1 in
        match ds, l2 with
        | _ :: _, [] => Some (if neg then - dec_value ds else dec_value ds)
        | _, _ => None
        end
      else None
  end.

(** [strtod] on a string of digits, signs, dots and [e]s, required to consume all of it. *)
Definition strtod (s : list byte) : strtod_result :=
  let '(neg, l) := strip_sign s in
  let '(ip, l) := span_digits l in
  let '(fp, l) := match l with c :: l' => if is_char 46 c then span_digits l' else ([], l) | [] => ([], []) end in
  match ip ++ fp, exponent l with
  | _ :: _, Some ex =>
      let m := dec_value (ip ++ fp) in
      let e10 := ex - Z.of_nat (length fp) in
      if m =? 0 then Finite (Dbl neg 0 0)
      else
        match round_ratio (if 0 <=? e10 then m * 10 ^ e10 else m)
                          (if 0 <=? e10 then 1 else 10 ^ (- e10)) with
        | Some (m, e) => Finite (Dbl neg m e)
        | None => Overflow
        end
  | _, _ => NotNumber
  end.

(** [strtoimax(s, &endp, 10)] with no [ERANGE] and [endp] at the end of the string. *)
Definition strtoimax (s : list byte) : option Z :=
  let '(neg, l) := strip_sign s in
  match span_digits l with
  | (c :: ds, []) =>
      let v := if neg then - dec_value (c :: ds) else dec_value (c :: ds) in
      if (- 2 ^ 63 <=? v) && (v <? 2 ^ 63) then Some v else None
  | _ => None
  end.

(** ** Values *)

Inductive value :=
  | null
  | boolean (b : bool)
  | int64 (i : Z)
  | number (d : double)
  | vstring (s : list byte)
  | varray (a : list value)
  | vobject (o : list (list byte * value)).

(** [o[key] = v] and [o.find(key)] on the [std::map] of an object, kept in
    insertion order (the program looks keys up, it never iterates). *)
Fixpoint obj_set (k : list byte) (v : value) (o : list (list byte * value)) : list (list byte * value) :=
  match o with
  | [] => [(k, v)]
  | (k', v') :: o' => if bool_decide (k' = k) then (k, v) :: o' else (k', v') :: obj_set k v o'
  end.

Fixpoint obj_find (k : list byte) (o : list (list byte * value)) : option value :=
  match o with
  | [] => None
  | (k', v) :: o' => if bool_decide (k' = k) then Some v else obj_find k o'
  end.

(** ** The reader *)

Definition is_ws (c : byte) : bool :=
  is_char 32 c || is_char 9 c || is_char 10 c || is_char 13 c.

Fixpoint skip_ws (l : list byte) : list byte :=
  match l with c :: l' => if is_ws c then skip_ws l' else l | [] => [] end.

(** White space is skipped even when the expected byte is not there. *)
Definition expect (expected : Z) (l : list byte) : bool * list byte :=
  match skip_ws l with
  | c :: l' => if is_char expected c then (true, l') else (false, c :: l')
  | [] => (false, [])
  end.

Fixpoint match_text (pattern l : list byte) : option (list byte) :=
  match pattern, l with
  | [], _ => Some l
  | p :: pattern, c :: l => if bool_decide (c = p) then match_text pattern l else None
  | _ :: _, [] => None
  end.

Definition hex_digit (c : byte) : option Z :=
  let h := byte_to_Z c in
  if (48 <=? h) && (h <=? 57) then Some (h - 48)
  else if (65 <=? h) && (h <=? 70) then Some (h - 55)
  else if (97 <=? h) && (h <=? 102) then Some (h - 87)
  else None.

Definition _parse_quadhex (a b c d : byte) : option Z :=
  match hex_digit a, hex_digit b, hex_digit c, hex_digit d with
  | Some a, Some b, Some c, Some d => Some (((a * 16 + b) * 16 + c) * 16 + d)
  | _, _, _, _ => None
  end.

(** The UTF-8 bytes of a code point. *)
Definition utf8 (u : Z) : list byte :=
  let tail sh := Z_to_byte (Z.lor 0x80 (Z.land (Z.shiftr u sh) 0x3F)) in
  if u <? 0x80 then [Z_to_byte u]
  else if u <? 0x800 then [Z_to_byte (Z.lor 0xC0 (Z.shiftr u 6)); tail 0]
  else if u <? 0x10000 then [Z_to_byte (Z.lor 0xE0 (Z.shiftr u 12)); tail 6; tail 0]
  else [Z_to_byte (Z.lor 0xF0 (Z.shiftr u 18)); tail 12; tail 6; tail 0].

Definition simple_escape (c : byte) : option byte :=
  let h := byte_to_Z c in
  if (h =? 34) || (h =? 92) || (h =? 47) then Some c
  else if h =? 98 then Some (Z_to_byte 8)
  else if h =? 102 then Some (Z_to_byte 12)
  else if h =? 110 then Some (Z_to_byte 10)
  else if h =? 114 then Some (Z_to_byte 13)
  else if h =? 116 then Some (Z_to_byte 9)
  else None.

(** The body of a string literal up to its closing quote; [out] is the string so far. *)
Fixpoint _parse_string (out l : list byte) : outcome (list byte * list byte) :=
  match l with
  | [] => Fail
  | ch :: l1 =>
      if byte_to_Z ch <? 32 then Fail
      else if is_char 34 ch then Ret (out, l1)
      else if is_char 92 ch then
        match l1 with
        | [] => Fail
        | e :: l2 =>
            if is_char 117 e then
              match l2 with
              | a :: b :: c :: d :: l3 =>
                  match _parse_quadhex a b c d with
                  | None => Fail
                  | Some u =>
                      if (0xD800 <=? u) && (u <=? 0xDFFF) then
                        if 0xDC00 <=? u then Fail
                        else
                          match l3 with
                          | x :: y :: a :: b :: c :: d :: l4 =>
                              if is_char 92 x && is_char 117 y then
                                match _parse_quadhex a b c d with
                                | None => Fail
                                | Some second =>
                                    if (0xDC00 <=? second) && (second <=? 0xDFFF) then
                                      _parse_string
                                        (out ++ utf8 (Z.lor (Z.shiftl (u - 0xD800) 10)
                                                            (Z.land (second - 0xDC00) 0x3FF) + 0x10000)) l4
                                    else Fail
                                end
                              else Fail
                          | _ => Fail
                          end
                      else _parse_string (out ++ utf8 u) l3
                  end
              | _ => Fail
              end
            else
              match simple_escape e with
              | None => Fail
              | Some c => _parse_string (out ++ [c]) l2
              end
        end
      else _parse_string (out ++ [ch]) l1
  end.

Definition is_number_char (c : byte) : bool :=
  is_digit c || is_char 43 c || is_char 45 c || is_char 101 c || is_char 69 c || is_char 46 c.

Fixpoint _parse_number (l : list byte) : list byte * list byte :=
  match l with
  | c :: l' => if is_number_char c then let '(a, b) := _parse_number l' in (c :: a, b) else ([], l)
  | [] => ([], [])
  end.

(** [std::numeric_limits] checks, then [strtod]; [value(double)] throws on infinity. *)
Definition number_value (num_str : list byte) : outcome value :=
  match strtoimax num_str with
  | Some ival => Ret (int64 ival)
  | None =>
      match strtod num_str with
      | NotNumber => Fail
      | Overflow => Throw
      | Finite f => Ret (number f)
      end
  end.

(** [_parse] with the [default_parse_context]: [depths] bounds the nesting of
    arrays ([parse_array_start] decrements it); objects only require it to be
    positive.  [parse_items] and [parse_members] are the two [do] loops. *)
Fixpoint _parse (fuel depths : nat) (l : list byte) : outcome (value * list byte) :=
  match fuel with
  | O => NoFuel
  | S fuel =>
      match skip_ws l with
      | [] => Fail
      | ch :: l =>
          if is_char 110 ch then
            match match_text (txt "ull") l with Some l => Ret (null, l) | None => Fail end
          else if is_char 102 ch then
            match match_text (txt "alse") l with Some l => Ret (boolean false, l) | None => Fail end
          else if is_char 116 ch then
            match match_text (txt "rue") l with Some l => Ret (boolean true, l) | None => Fail end
          else if is_char 34 ch then
            let* (s, l) := _parse_string [] l in Ret (vstring s, l)
          else if is_char 91 ch then
            match depths with
            | O => Fail
            | S depths =>
                let '(closed, l) := expect 93 l in
                if closed then Ret (varray [], l) else parse_items fuel depths [] l
            end
          else if is_char 123 ch then
            match depths with
            | O => Fail
            | S _ =>
                let '(closed, l) := expect 125 l in
                if closed then Ret (vobject [], l) else parse_members fuel depths [] l
            end
          else if is_digit ch || is_char 45 ch then
            let '(num_str, l) := _parse_number (ch :: l) in
            let* v := number_value num_str in Ret (v, l)
          else Fail
      end
  end
with parse_items (fuel depths : nat) (a : list value) (l : list byte) : outcome (value * list byte) :=
  match fuel with
  | O => NoFuel
  | S fuel =>
      let* (v, l) := _parse fuel depths l in
      let a := a ++ [v] in
      let '(more, l) := expect 44 l in
      if more then parse_items fuel depths a l
      else let '(closed, l) := expect 93 l in if closed then Ret (varray a, l) else Fail
  end
with parse_members (fuel depths : nat) (o : list (list byte * value)) (l : list byte)
  : outcome (value * list byte) :=
  match fuel with
  | O => NoFuel
  | S fuel =>
      let '(opened, l) := expect 34 l in
      if negb opened then Fail else
      let* (key, l) := _parse_string [] l in
      let '(colon, l) := expect 58 l in
      if negb colon then Fail else
      let* (v, l) := _parse fuel depths l in
      let o := obj_set key v o in
      let '(more, l) := expect 44 l in
      if more then parse_members fuel depths o l
      else let '(closed, l) := expect 125 l in if closed then Ret (vobject o, l) else Fail
  end.

Definition DEFAULT_MAX_DEPTHS : nat := 100.

(** Fuel for an input of [n] bytes: two calls per byte, and one to start. *)
Definition parse_fuel (n : nat) : nat := 2 * n + 1.

(** [picojson::parse(v, s)]: bytes after the first value are not looked at. *)
Definition parse (s : list byte) : outcome value :=
  let* (v, _) := _parse (parse_fuel (length s)) DEFAULT_MAX_DEPTHS s in Ret v.

Example parse_doc :
  parse (txt " {" ++ quoted (txt "a") ++ txt ": [1, -2,null ], " ++ quoted (txt "b") ++ txt ":1.5e1}x") =
  Ret (vobject [(txt "a", varray [int64 1; int64 (-2); null]); (txt "b", number (Dbl false 8444249301319680 (-49)))]).
Proof. by vm_compute. Qed.

Example parse_big : parse (txt "1e999") = Throw.
Proof. by vm_compute. Qed.

Example parse_surrogate :
  parse (txt "" ++ quoted (txt "\ud83d\ude00\n")) =
  Ret (vstring (Z_to_byte <$> [0xF0; 0x9F; 0x98; 0x80; 10])).
Proof. by vm_compute. Qed.

(** ** Progress and termination *)

Lemma skip_ws_length l : (length (skip_ws l) ≤ length l)%nat.
Proof. induction l as [|c l IH]; cbn [skip_ws]; [done|]. destruct (is_ws c); cbn [length]; lia. Qed.

Lemma expect_length n l b l' :
  expect n l = (b, l') → (if b then length l' < length l else length l' ≤ length l)%nat.
Proof.
  unfold expect. pose proof (skip_ws_length l) as Hl. destruct (skip_ws l) as [|c k].
  - intros [= <- <-]. simpl in *. lia.
  - destruct (is_char n c); intros [= <- <-]; cbn [length] in *; lia.
Qed.

Lemma match_text_length p l l' : match_text p l = Some l' → (length l' ≤ length l)%nat.
Proof.
  revert l. induction p as [|c p IH]; intros [|x l]; cbn [match_text]; try done.
  - by intros [= <-].
  - by intros [= <-].
  - case_bool_decide; [|done]. intros Hl%IH. cbn [length]. lia.
Qed.

Lemma parse_string_length out l s l' : _parse_string out l = Ret (s, l') → (length l' < length l)%nat.
Proof.
  revert out. induction l as [l IH] using (induction_ltof1 _ (@length byte)); unfold ltof in IH.
  intros out. destruct l as [|ch l1]; cbn [_parse_string]; [done|]. intros Hp.
  assert (∀ k out, (length k < length (ch :: l1))%nat → _parse_string out k = Ret (s, l') →
                   (length l' < length (ch :: l1))%nat) as Hrec.
  { intros k out' Hk Hk'. apply IH in Hk'; [|done]. lia. }
  clear IH. repeat match type of Hp with
    | context [match ?x with _ => _ end] =>
        match type of x with
        | list byte => destruct x
        | _ => destruct x eqn:?
        end
    end; try discriminate Hp; try (eapply Hrec; [|exact Hp]; cbn [length]; lia).
  injection Hp as <- <-. cbn [length]. lia.
Qed.

Lemma parse_number_length l a b : _parse_number l = (a, b) → (length b ≤ length l)%nat.
Proof.
  revert a. induction l as [|c l IH]; intros a; cbn [_parse_number]; [by intros [= <- <-]|].
  destruct (is_number_char c); [|by intros [= <- <-]].
  destruct (_parse_number l) as [x y]. intros [= <- <-]. cbn [length]. specialize (IH _ eq_refl). lia.
Qed.

(** Case analysis along a reader: the next scrutinee of [Hp], outermost first. *)
Ltac step_reader Hp :=
  match type of Hp with
  | context [obind ?o _] => let E := fresh "Eo" in destruct o as [[? ?]| | | |] eqn:E; cbn [obind] in Hp
  | context [let '(_, _) := ?p in _] => let E := fresh "Ep" in destruct p as [? ?] eqn:E
  | context [if negb ?c then _ else _] => let E := fresh "Ec" in destruct c eqn:E; cbn [negb] in Hp
  | context [if ?c then _ else _] => let E := fresh "Ec" in destruct c eqn:E
  | context [match ?o with Some _ => _ | None => _ end] => let E := fresh "Em" in destruct o eqn:E
  | context [match ?n with O => _ | S _ => _ end] => destruct n
  end.

Lemma number_start ch l a b :
  (is_digit ch || is_char 45 ch)%bool = true → _parse_number (ch :: l) = (a, b) →
  (length b ≤ length l)%nat.
Proof.
  intros Hch. cbn [_parse_number]. assert (is_number_char ch = true) as ->.
  { unfold is_number_char. apply orb_true_iff in Hch as [-> | ->]; [done|]. by rewrite !orb_true_r. }
  destruct (_parse_number l) as [x y] eqn:E. intros [= <- <-]. by eapply parse_number_length.
Qed.

Lemma reader_length fuel :
  (∀ d l v l', _parse fuel d l = Ret (v, l') → (length l' < length l)%nat) ∧
  (∀ d a l v l', parse_items fuel d a l = Ret (v, l') → (length l' < length l)%nat) ∧
  (∀ d o l v l', parse_members fuel d o l = Ret (v, l') → (length l' < length l)%nat).
Proof.
  induction fuel as [|fuel (IHv & IHa & IHo)]; [done|]. split_and!.
  - intros d l v l' Hp. cbn [_parse] in Hp. pose proof (skip_ws_length l) as Hw.
    destruct (skip_ws l) as [|ch k]; [done|]. cbn [length] in Hw.
    destruct (is_digit ch || is_char 45 ch) eqn:Hd.
    all: repeat step_reader Hp; simplify_eq;
      repeat match goal with
      | H : match_text _ _ = Some _ |- _ => apply match_text_length in H
      | H : _parse_string _ _ = Ret _ |- _ => apply parse_string_length in H
      | H : expect _ _ = _ |- _ => apply expect_length in H
      | H : _parse_number _ = _ |- _ => apply number_start in H; [|done]
      | H : parse_items _ _ _ _ = Ret _ |- _ => apply IHa in H
      | H : parse_members _ _ _ _ = Ret _ |- _ => apply IHo in H
      end; try lia.
    all: by destruct (number_value _); simplify_eq/=; lia.
  - intros d a l v l' Hp. cbn [parse_items] in Hp. repeat step_reader Hp; simplify_eq;
      repeat match goal with
      | H : _parse _ _ _ = Ret _ |- _ => apply IHv in H
      | H : expect _ _ = _ |- _ => apply expect_length in H
      | H : parse_items _ _ _ _ = Ret _ |- _ => apply IHa in H
      end; lia.
  - intros d o l v l' Hp. cbn [parse_members] in Hp. repeat step_reader Hp; simplify_eq;
      repeat match goal with
      | H : _parse _ _ _ = Ret _ |- _ => apply IHv in H
      | H : _parse_string _ _ = Ret _ |- _ => apply parse_string_length in H
      | H : expect _ _ = _ |- _ => apply expect_length in H
      | H : parse_members _ _ _ _ = Ret _ |- _ => apply IHo in H
      end; lia.
Qed.

Lemma reader_total fuel :
  (∀ d l, (2 * length l + 1 ≤ fuel)%nat → _parse fuel d l ≠ NoFuel) ∧
  (∀ d a l, (2 * length l + 2 ≤ fuel)%nat → parse_items fuel d a l ≠ NoFuel) ∧
  (∀ d o l, (2 * length l + 2 ≤ fuel)%nat → parse_members fuel d o l ≠ NoFuel).
Proof.
  assert (∀ out l, _parse_string out l ≠ NoFuel) as Hstr.
  { intros out l. revert out.
    induction l as [l IH] using (induction_ltof1 _ (@length byte)); unfold ltof in IH.
    intros out. destruct l as [|ch l1]; cbn [_parse_string]; [done|].
    repeat match goal with
      | |- context [match ?x with _ => _ end] =>
          match type of x with list byte => destruct x | _ => destruct x end
      end; try done; apply IH; cbn [length]; lia. }
  induction fuel as [|fuel (IHv & IHa & IHo)]; [split_and!; intros; lia|]. split_and!.
  - intros d l Hf Hp. cbn [_parse] in Hp. pose proof (skip_ws_length l) as Hw.
    destruct (skip_ws l) as [|ch k]; [done|]. cbn [length] in Hw.
    repeat step_reader Hp; try discriminate Hp;
      try (by apply Hstr in Eo || by apply Hstr in Hp);
      repeat match goal with
      | H : expect _ _ = _ |- _ => apply expect_length in H
      end; cbn [length] in *.
    all: try (eapply IHa; [|exact Hp]; lia). all: try (eapply IHo; [|exact Hp]; lia).
    all: revert Hp; unfold number_value; destruct (strtoimax _); [done|]; by destruct (strtod _).
  - intros d a l Hf Hp. cbn [parse_items] in Hp. repeat step_reader Hp; try discriminate Hp.
    + apply (proj1 (reader_length _)) in Eo. apply expect_length in Ep. eapply IHa; [|exact Hp]. lia.
    + eapply IHv; [|exact Eo]. lia.
  - intros d o l Hf Hp. cbn [parse_members] in Hp.
    repeat step_reader Hp; try discriminate Hp; try (by apply Hstr in Eo);
      repeat match goal with
      | H : expect _ _ = _ |- _ => apply expect_length in H
      | H : _parse_string _ _ = Ret _ |- _ => apply parse_string_length in H
      | H : _parse _ _ _ = Ret _ |- _ => apply (proj1 (reader_length _)) in H
      end.
    + eapply IHo; [|exact Hp]. lia.
    + eapply IHv; [|eassumption]. lia.
Qed.

Lemma parse_not_out_of_fuel s : parse s ≠ NoFuel.
Proof.
  unfold parse. pose proof (proj1 (reader_total (parse_fuel (length s))) DEFAULT_MAX_DEPTHS s) as Ht.
  destruct (_parse _ _ s) as [[v l]| | | |]; cbn [obind]; try done. exfalso. apply Ht; [|done].
  unfold parse_fuel. lia.
Qed.

(** ** Compact texts

    The texts the program writes: strings without escapes, non-negative
    integers, arrays and objects without white space. *)

Fixpoint join (sep : list byte) (l : list (list byte)) : list byte :=
  match l with
  | [] => []
  | [x] => x
  | x :: l' => x ++ sep ++ join sep l'
  end.

Fixpoint print (v : value) : list byte :=
  match v with
  | vstring s => quoted s
  | int64 i => to_string i
  | varray a => txt "[" ++ join (txt ",") (map print a) ++ txt "]"
  | vobject o => txt "{" ++ join (txt ",") (map (λ kv, quoted kv.1 ++ txt ":" ++ print kv.2) o) ++ txt "}"
  | null => txt "null"
  | boolean b => if b then txt "true" else txt "false"
  | number _ => []
  end.

Definition plain_char (c : byte) : bool := (32 <=? byte_to_Z c) && negb (is_char 34 c) && negb (is_char 92 c).

Definition plain (s : list byte) : Prop := Forall (λ c, plain_char c = true) s.

(** Values the round trip covers, read with array nesting at most [d]. *)
Fixpoint printable (d : nat) (v : value) : Prop :=
  match v with
  | vstring s => plain s
  | int64 i => 0 <= i < 2 ^ 63
  | varray a => match d with O => False | S d => foldr (λ v P, printable d v ∧ P) True a end
  | vobject o => (0 < d)%nat ∧ NoDup o.*1 ∧ foldr (λ kv P, (plain kv.1 ∧ printable d kv.2) ∧ P) True o
  | null | boolean _ => True
  | number _ => False
  end.

(** A number is not followed by a byte that would extend it. *)
Definition stops (rest : list byte) : Prop :=
  match rest with c :: _ => is_number_char c = false | [] => True end.

Lemma parse_string_plain out s rest :
  plain s → _parse_string out (s ++ quote :: rest) = Ret (out ++ s, rest).
Proof.
  intros Hs. revert out. induction Hs as [|c s Hc _ IH]; intros out; cbn [app _parse_string].
  { change (byte_to_Z quote <? 32) with false. change (is_char 34 quote) with true. by rewrite app_nil_r. }
  unfold plain_char in Hc. apply andb_true_iff in Hc as [[Hlo%Z.leb_le Hq%negb_true_iff]%andb_true_iff Hb%negb_true_iff].
  rewrite (proj2 (Z.ltb_ge _ _) Hlo), Hq, Hb, IH. by rewrite <- app_assoc.
Qed.

Lemma digit_is_number c : is_digit c = true → is_number_char c = true.
Proof. intros Hc. unfold is_number_char. by rewrite Hc. Qed.

Lemma digit_not_char c n : is_digit c = true → n < 48 ∨ 57 < n → is_char n c = false.
Proof. unfold is_digit, is_char. intros. lia. Qed.

Lemma parse_number_digits ds rest :
  Forall (λ c, is_digit c = true) ds → stops rest → _parse_number (ds ++ rest) = (ds, rest).
Proof.
  induction 1 as [|c ds Hc _ IH]; intros Hr; cbn [app _parse_number].
  - destruct rest as [|c rest]; cbn [_parse_number]; [done|]. by rewrite Hr.
  - rewrite (digit_is_number c Hc). by rewrite IH.
Qed.

Lemma span_digits_all ds : Forall (λ c, is_digit c = true) ds → span_digits ds = (ds, []).
Proof. induction 1 as [|c ds Hc _ IH]; cbn [span_digits]; [done|]. by rewrite Hc, IH. Qed.

Lemma strtoimax_to_string i : 0 <= i < 2 ^ 63 → strtoimax (to_string i) = Some i.
Proof.
  intros Hi. pose proof (to_string_digits i ltac:(lia)) as Hd.
  pose proof (to_string_value i ltac:(lia)) as Hv. pose proof (to_string_nonempty i) as Hn.
  unfold strtoimax. destruct (to_string i) as [|c ds] eqn:E; [done|]. cbn [strip_sign].
  apply Forall_cons in Hd as Hd'. destruct Hd' as [Hc _].
  rewrite !(digit_not_char c) by (done || lia). rewrite span_digits_all by done. rewrite Hv.
  rewrite (proj2 (Z.leb_le _ _)), (proj2 (Z.ltb_lt _ _)) by lia. done.
Qed.

Lemma expect_here n c l : is_ws c = false → is_char n c = true → expect n (c :: l) = (true, l).
Proof. intros Hw Hc. unfold expect. cbn [skip_ws]. by rewrite Hw, Hc. Qed.

Lemma expect_other n c l : is_ws c = false → is_char n c = false → expect n (c :: l) = (false, c :: l).
Proof. intros Hw Hc. unfold expect. cbn [skip_ws]. by rewrite Hw, Hc. Qed.

Lemma obj_set_fresh k v o : k ∉ o.*1 → obj_set k v o = o ++ [(k, v)].
Proof.
  induction o as [|[k' v'] o IH]; intros Hk; cbn [obj_set app]; [done|].
  rewrite fmap_cons, not_elem_of_cons in Hk. destruct Hk as [Hne Hk].
  rewrite bool_decide_eq_false_2 by (intros ->; by apply Hne). by rewrite IH.
Qed.

(** The first byte of a printed value is neither white space nor [']']. *)
Lemma print_head d v :
  printable d v → ∃ c l, print v = c :: l ∧ is_ws c = false ∧ is_char 93 c = false.
Proof.
  destruct v as [|[]|i|x|s|a|o]; cbn [print printable]; try done; try (intros; by eexists _, _).
  - intros Hi. pose proof (to_string_digits i ltac:(lia)) as Hd. pose proof (to_string_nonempty i).
    destruct (to_string i) as [|c l]; [done|]. apply Forall_cons in Hd as [Hc _]. exists c, l.
    split; [done|]. unfold is_ws. rewrite !(digit_not_char c) by (done || lia). done.
Qed.

(** Induction over values through their lists. *)
Lemma value_nested_ind (P : value → Prop) :
  P null → (∀ b, P (boolean b)) → (∀ i, P (int64 i)) → (∀ d, P (number d)) → (∀ s, P (vstring s)) →
  (∀ a, Forall P a → P (varray a)) → (∀ o, Forall (λ kv, P kv.2) o → P (vobject o)) → ∀ v, P v.
Proof.
  intros Hn Hb Hi Hd Hs Ha Ho. fix IH 1. intros [|b|i|d|s|a|o].
  1: exact Hn. 1: apply Hb. 1: apply Hi. 1: apply Hd. 1: apply Hs.
  - apply Ha. induction a as [|v a IHa]; constructor; [apply IH|exact IHa].
  - apply Ho. induction o as [|[k v] o IHo]; constructor; [apply IH|exact IHo].
Qed.

(** Only a bare number depends on what follows it. *)
Definition ends (v : value) (rest : list byte) : Prop :=
  match v with int64 _ => stops rest | _ => True end.

Lemma stops_ends v rest : stops rest → ends v rest.
Proof. by destruct v. Qed.

Definition reads_back (v : value) : Prop :=
  ∀ d fuel rest, printable d v → ends v rest → (2 * length (print v ++ rest) + 1 ≤ fuel)%nat →
  _parse fuel d (print v ++ rest) = Ret (v, rest).

Lemma join_cons sep x y l : join sep (x :: y :: l) = x ++ sep ++ join sep (y :: l).
Proof. done. Qed.

(** One-byte texts as lists of one byte. *)
Ltac open_txt :=
  change (txt ",") with [Z_to_byte 44] in *; change (txt ":") with [Z_to_byte 58] in *;
  change (txt "]") with [Z_to_byte 93] in *; change (txt "}") with [Z_to_byte 125] in *;
  cbn [app] in *.

(** Lengths of concatenations. *)
Ltac length_lia := repeat (rewrite length_app in * || cbn [length app] in * ); lia.

(** The tail of an array text, from its next item on. *)
Lemma items_read_back d x a acc fuel rest :
  Forall reads_back (x :: a) → foldr (λ v P, printable d v ∧ P) True (x :: a) →
  (2 * length (join (txt ",") (map print (x :: a)) ++ txt "]" ++ rest) + 2 ≤ fuel)%nat →
  parse_items fuel d acc (join (txt ",") (map print (x :: a)) ++ txt "]" ++ rest) =
  Ret (varray (acc ++ x :: a), rest).
Proof.
  revert x acc fuel. induction a as [|y a IH]; intros x acc fuel Hrb Hpr Hf;
    (destruct fuel as [|fuel]; [lia|]); apply Forall_cons in Hrb as [Hx Hrb]; destruct Hpr as [Hpx Hpr];
    open_txt; cbn [parse_items].
  - cbn [map join] in *. rewrite (Hx d) by (done || lia || by apply stops_ends). cbn [obind].
    by rewrite expect_other, expect_here by done.
  - cbn [map] in *. rewrite join_cons, <- !app_assoc in *. cbn [app] in *.
    rewrite (Hx d) by (done || lia || by apply stops_ends). cbn [obind]. rewrite expect_here by done.
    rewrite IH; [by rewrite <- app_assoc|done|done|]. length_lia.
Qed.

Definition member_text (kv : list byte * value) : list byte := quoted kv.1 ++ txt ":" ++ print kv.2.

(** One member, from its opening quote to the end of its value. *)
Lemma member_read_back d k v o fuel rest :
  reads_back v → plain k → printable d v → k ∉ o.*1 → stops rest →
  (2 * length (member_text (k, v) ++ rest) + 2 ≤ S fuel)%nat →
  parse_members (S fuel) d o (member_text (k, v) ++ rest) =
  let '(more, l) := expect 44 rest in
  if more then parse_members fuel d (o ++ [(k, v)]) l
  else let '(closed, l) := expect 125 l in if closed then Ret (vobject (o ++ [(k, v)]), l) else Fail.
Proof.
  intros Hv Hk Hp Hfresh Hr Hf. unfold member_text, quoted in *. cbn [fst snd] in *.
  rewrite <- !app_assoc in *. open_txt. cbn [parse_members]. rewrite expect_here by done. cbn [negb].
  rewrite parse_string_plain by done. cbn [obind app]. rewrite expect_here by done. cbn [negb].
  rewrite (Hv d); [|done|by apply stops_ends|length_lia]. cbn [obind]. by rewrite obj_set_fresh.
Qed.

Lemma members_read_back d x o acc fuel rest :
  Forall (λ kv, reads_back kv.2) (x :: o) →
  foldr (λ kv P, (plain kv.1 ∧ printable d kv.2) ∧ P) True (x :: o) →
  NoDup (acc ++ x :: o).*1 →
  (2 * length (join (txt ",") (map member_text (x :: o)) ++ txt "}" ++ rest) + 2 ≤ fuel)%nat →
  parse_members fuel d acc (join (txt ",") (map member_text (x :: o)) ++ txt "}" ++ rest) =
  Ret (vobject (acc ++ x :: o), rest).
Proof.
  revert x acc fuel. induction o as [|y o IH]; intros [k v] acc fuel Hrb Hpr Hnd Hf;
    (destruct fuel as [|fuel]; [lia|]); apply Forall_cons in Hrb as [Hx Hrb]; destruct Hpr as [[Hk Hpx] Hpr];
    cbn [fst snd] in *; open_txt.
  all: assert (k ∉ acc.*1) as Hfresh by
    (rewrite fmap_app, fmap_cons in Hnd; apply NoDup_app in Hnd as (_ & Hd & _); intros Hin;
     apply (Hd k Hin); left).
  - cbn [map join] in *. rewrite member_read_back by (done || lia).
    by rewrite expect_other, expect_here by done.
  - cbn [map] in *. rewrite join_cons, <- !app_assoc in *. cbn [app] in *.
    rewrite member_read_back by (done || lia). rewrite expect_here by done.
    rewrite IH; [by rewrite <- app_assoc|done|done|by rewrite <- app_assoc|]. length_lia.
Qed.

(** Reading back a compact text gives the value it was written from. *)
Lemma print_reads_back v : reads_back v.
Proof.
  induction v as [|b|i|x|s|a IH|o IH] using value_nested_ind; intros d fuel rest Hp Hr Hf;
    (destruct fuel as [|fuel]; [lia|]); cbn [_parse].
  - cbn. by destruct rest.
  - destruct b; cbn; by destruct rest.
  - cbn [print printable] in *. pose proof (to_string_digits i ltac:(lia)) as Hd.
    pose proof (strtoimax_to_string i Hp) as Hst. pose proof (to_string_nonempty i).
    destruct (to_string i) as [|c l] eqn:E; [done|]. apply Forall_cons in Hd as Hd'. destruct Hd' as [Hc _].
    cbn [app skip_ws]. unfold is_ws. rewrite !(digit_not_char c) by (done || lia). cbn [orb].
    rewrite !(digit_not_char c) by (done || lia). rewrite Hc. cbn [orb]. change (c :: l ++ rest) with ((c :: l) ++ rest).
    rewrite parse_number_digits by done. unfold number_value. by rewrite Hst.
  - done.
  - cbn [print]. unfold quoted. cbn [app skip_ws].
    rewrite <- app_assoc. cbn [app].
    change (is_ws quote) with false. cbn iota. change (is_char 34 quote) with true.
    change (is_char 110 quote) with false. change (is_char 102 quote) with false.
    change (is_char 116 quote) with false. cbn iota. by rewrite parse_string_plain.
  - cbn [print] in *. cbn [printable] in Hp. destruct d as [|d]; [done|].
    rewrite <- !app_assoc in *. change (txt "[") with [Z_to_byte 91] in *. cbn [app] in *.
    change (skip_ws (Z_to_byte 91 :: ?l)) with (Z_to_byte 91 :: l). cbn iota.
    destruct a as [|x a]; [by cbn; destruct rest|].
    destruct (print_head d x) as (c & k & Ex & Hws & Hcl); [by destruct Hp|].
    assert (∃ k', join (txt ",") (map print (x :: a)) ++ txt "]" ++ rest = c :: k') as [k' Ek].
    { destruct a; cbn [map join]; rewrite Ex; by eexists. }
    cbn [length] in Hf. rewrite Ek. change (expect 93 (c :: k')) with (expect 93 (c :: k')).
    change (is_char 110 (Z_to_byte 91)) with false. change (is_char 102 (Z_to_byte 91)) with false.
    change (is_char 116 (Z_to_byte 91)) with false. change (is_char 34 (Z_to_byte 91)) with false.
    change (is_char 91 (Z_to_byte 91)) with true. cbn iota.
    rewrite expect_other by done. rewrite <- Ek. apply (items_read_back d x a []); [done|done|lia].
  - cbn [print] in *. destruct Hp as (Hd & Hnd & Hp). destruct d as [|d]; [lia|].
    rewrite <- !app_assoc in *. change (txt "{") with [Z_to_byte 123] in *. cbn [app] in *.
    change (skip_ws (Z_to_byte 123 :: ?l)) with (Z_to_byte 123 :: l). cbn iota.
    destruct o as [|x o]; [by cbn; destruct rest|].
    assert (∃ k', join (txt ",") (map member_text (x :: o)) ++ txt "}" ++ rest = quote :: k') as [k' Ek].
    { destruct o; cbn [map join]; unfold member_text at 1; unfold quoted; by eexists. }
    cbn [length] in Hf. unfold member_text in Ek. rewrite Ek.
    change (is_char 110 (Z_to_byte 123)) with false. change (is_char 102 (Z_to_byte 123)) with false.
    change (is_char 116 (Z_to_byte 123)) with false. change (is_char 34 (Z_to_byte 123)) with false.
    change (is_char 91 (Z_to_byte 123)) with false. change (is_char 123 (Z_to_byte 123)) with true. cbn iota.
    rewrite expect_other by done. rewrite <- Ek. apply (members_read_back (S d) x o []); [done|done|done|].
    unfold member_text. lia.
Qed.

Lemma parse_print v rest :
  printable DEFAULT_MAX_DEPTHS v → ends v rest → parse (print v ++ rest) = Ret v.
Proof. intros Hp Hr. unfold parse. by rewrite (print_reads_back v DEFAULT_MAX_DEPTHS) by done. Qed.

(** ** Truncated texts

    A proper prefix of a compact text is refused; a bare number cut short is
    read as another number with nothing after it. *)

Definition cut_short (v : value) : Prop :=
  ∀ d fuel p q, print v = p ++ q → q ≠ [] → printable d v → (2 * length p + 1 ≤ fuel)%nat →
  _parse fuel d p = Fail ∨ ((∃ i, v = int64 i) ∧ ∃ j, _parse fuel d p = Ret (int64 j, [])).

Lemma parse_string_cut out s p q : plain s → s = p ++ q → _parse_string out p = Fail.
Proof.
  revert out s. induction p as [|c p IH]; intros out s Hs ->; [done|]. cbn [app] in Hs.
  apply Forall_cons in Hs as [Hc Hs]. cbn [_parse_string]. unfold plain_char in Hc.
  apply andb_true_iff in Hc as [[Hlo%Z.leb_le Hq%negb_true_iff]%andb_true_iff Hb%negb_true_iff].
  rewrite (proj2 (Z.ltb_ge _ _) Hlo), Hq, Hb. by eapply IH.
Qed.

(** A quoted text cut before its end, after the opening quote. *)
Lemma quoted_cut out s p q : plain s → s ++ [quote] = p ++ q → q ≠ [] → _parse_string out p = Fail.
Proof.
  intros Hs Heq Hq. apply app_eq_inv in Heq as [(k & -> & Hk)|(k & -> & Hk)].
  - by eapply parse_string_cut.
  - destruct k as [|c k]; [|by destruct k, q]. rewrite app_nil_r in *. by eapply (parse_string_cut out s s []); rewrite ?app_nil_r.
Qed.

(** A value that ends the input, whole or cut, is followed by nothing the
    reader of a list expects. *)
Lemma cut_or_whole v d fuel p q :
  reads_back v → cut_short v → print v = p ++ q → printable d v → (2 * length p + 1 ≤ fuel)%nat →
  _parse fuel d p = Fail ∨ ∃ w, _parse fuel d p = Ret (w, []).
Proof.
  intros Hr Hc Heq Hp Hf. destruct q as [|c q].
  - right. exists v. rewrite app_nil_r in Heq. rewrite <- Heq in *. rewrite <- (app_nil_r (print v)). apply Hr; [done| |].
    + by apply stops_ends.
    + by rewrite app_nil_r.
  - destruct (Hc d fuel p (c :: q) Heq ltac:(done) Hp Hf) as [->|(_ & j & ->)]; [by left|right; by exists (int64 j)].
Qed.

Lemma expect_nil n : expect n [] = (false, []).
Proof. done. Qed.

(** One member, cut anywhere up to its end. *)
Lemma member_cut d k v o fuel p q :
  reads_back v → cut_short v → plain k → printable d v → member_text (k, v) = p ++ q →
  (2 * length p + 1 ≤ fuel)%nat → parse_members (S fuel) d o p = Fail.
Proof.
  intros Hr Hc Hk Hv Heq Hf. unfold member_text, quoted in Heq. cbn [fst snd] in Heq.
  destruct p as [|c p]; [done|]. rewrite <- !app_assoc in Heq. open_txt. injection Heq as <- Heq.
  cbn [parse_members]. rewrite expect_here by done. cbn [negb length] in *.
  change (k ++ quote :: Z_to_byte 58 :: print v) with (k ++ [quote] ++ Z_to_byte 58 :: print v) in Heq. rewrite app_assoc in Heq.
  apply app_eq_inv in Heq as [(t & Hs & Ht)|(t & -> & Ht)].
  - destruct t as [|c t]; [|by rewrite (quoted_cut [] k p (c :: t))].
    rewrite app_nil_r in Hs. subst p. rewrite parse_string_plain by done. done.
  - rewrite <- app_assoc. cbn [app]. rewrite parse_string_plain by done. cbn [obind app].
    destruct t as [|c t]; [done|]. injection Ht as <- Ht. rewrite expect_here by done. cbn [negb].
    destruct (cut_or_whole v d fuel t q Hr Hc Ht Hv) as [->|[w ->]]; [length_lia|done|done].
Qed.

(** The members of an object up to its brace, cut anywhere before the end. *)
Lemma members_cut d x o acc fuel p q :
  Forall (λ kv, reads_back kv.2) (x :: o) → Forall (λ kv, cut_short kv.2) (x :: o) →
  foldr (λ kv P, (plain kv.1 ∧ printable d kv.2) ∧ P) True (x :: o) → NoDup (acc ++ x :: o).*1 →
  join (txt ",") (map member_text (x :: o)) ++ txt "}" = p ++ q → q ≠ [] → (2 * length p + 2 ≤ fuel)%nat →
  parse_members fuel d acc p = Fail.
Proof.
  revert x acc fuel p. induction o as [|y o IH]; intros [k v] acc fuel p Hrb Hcs Hpr Hnd Heq Hq Hf;
    (destruct fuel as [|fuel]; [lia|]); apply Forall_cons in Hrb as [Hr Hrb]; apply Forall_cons in Hcs as [Hc Hcs];
    destruct Hpr as [[Hk Hv] Hpr]; cbn [fst snd] in *.
  - cbn [map join] in Heq. apply app_eq_inv in Heq as [(t & Heq & Ht)|(t & -> & Ht)].
    + eapply member_cut; [..|exact Heq|lia]; done.
    + destruct t as [|c t]; [|by destruct t, q]. rewrite app_nil_r in *.
      eapply (member_cut _ _ _ _ _ _ []); [..|by rewrite app_nil_r|lia]; done.
  - cbn [map] in Heq. rewrite join_cons, <- !app_assoc in Heq. apply app_eq_inv in Heq as [(t & Heq & Ht)|(t & -> & Ht)].
    + eapply member_cut; [..|exact Heq|lia]; done.
    + open_txt. destruct t as [|c t].
      { rewrite app_nil_r in *. eapply (member_cut _ _ _ _ _ _ []); [..|by rewrite app_nil_r|lia]; done. }
      injection Ht as <- Ht. rewrite member_read_back; [|done..| |done|length_lia].
      2: { rewrite fmap_app, fmap_cons in Hnd. apply NoDup_app in Hnd as (_ & Hd & _). intros Hin. apply (Hd k Hin). left. }
      rewrite expect_here by done. eapply IH; [done..| |exact Ht|done|length_lia]. by rewrite <- app_assoc.
Qed.

Lemma items_cut d x a acc fuel p q :
  Forall reads_back (x :: a) → Forall cut_short (x :: a) → foldr (λ v P, printable d v ∧ P) True (x :: a) →
  join (txt ",") (map print (x :: a)) ++ txt "]" = p ++ q → q ≠ [] → (2 * length p + 2 ≤ fuel)%nat →
  parse_items fuel d acc p = Fail.
Proof.
  assert (∀ v acc fuel p q, reads_back v → cut_short v → print v = p ++ q → printable d v →
    (2 * length p + 1 ≤ fuel)%nat → parse_items (S fuel) d acc p = Fail) as Hone.
  { intros v acc' fuel' p' q' Hr Hc Heq Hp Hf. cbn [parse_items].
    by destruct (cut_or_whole v d fuel' p' q' Hr Hc Heq Hp Hf) as [->|[w ->]]. }
  revert x acc fuel p. induction a as [|y a IH]; intros x acc fuel p Hrb Hcs Hpr Heq Hq Hf;
    (destruct fuel as [|fuel]; [lia|]); apply Forall_cons in Hrb as [Hr Hrb]; apply Forall_cons in Hcs as [Hc Hcs];
    destruct Hpr as [Hv Hpr].
  - cbn [map join] in Heq. apply app_eq_inv in Heq as [(t & Heq & Ht)|(t & -> & Ht)].
    + eapply Hone; [..|exact Heq| |lia]; done.
    + destruct t as [|c t]; [|by destruct t, q]. rewrite app_nil_r in *.
      eapply (Hone x _ _ _ []); [..|by rewrite app_nil_r| |lia]; done.
  - cbn [map] in Heq. rewrite join_cons, <- !app_assoc in Heq. apply app_eq_inv in Heq as [(t & Heq & Ht)|(t & -> & Ht)].
    + eapply Hone; [..|exact Heq| |lia]; done.
    + open_txt. destruct t as [|c t].
      { rewrite app_nil_r in *. eapply (Hone x _ _ _ []); [..|by rewrite app_nil_r| |lia]; done. }
      injection Ht as <- Ht. cbn [parse_items]. rewrite (Hr d); [|done| |length_lia].
      2: { by apply stops_ends. }
      cbn [obind]. rewrite expect_here by done. eapply IH; [done..|exact Ht|done|length_lia].
Qed.

(** A word of letters cut short. *)
Lemma match_text_cut w p q : w = p ++ q → q ≠ [] → match_text w p = None.
Proof.
  revert p. induction w as [|c w IH]; intros p Heq Hq.
  - symmetry in Heq. apply app_nil in Heq as [_ ?]. done.
  - destruct p as [|c' p]; [done|]. injection Heq as <- Heq. cbn [match_text].
    rewrite bool_decide_eq_true_2 by done. by apply IH.
Qed.

Lemma number_cut i fuel d c p q :
  0 <= i < 2 ^ 63 → to_string i = c :: p ++ q → ∃ j, _parse (S fuel) d (c :: p) = Ret (int64 j, []).
Proof.
  intros Hi Heq. pose proof (to_string_digits i ltac:(lia)) as Hd. pose proof (to_string_value i ltac:(lia)) as Hv.
  rewrite Heq in Hd, Hv. change (c :: p ++ q) with ((c :: p) ++ q) in *. apply Forall_app in Hd as [Hd Hdq].
  assert (0 <= dec_value (c :: p) <= i) as Hr.
  { rewrite <- Hv. by apply dec_value_prefix. }
  exists (dec_value (c :: p)). apply Forall_cons in Hd as Hd'. destruct Hd' as [Hc _]. cbn [_parse skip_ws]. unfold is_ws.
  rewrite !(digit_not_char c) by (done || lia). cbn [orb]. rewrite !(digit_not_char c) by (done || lia). rewrite Hc. cbn [orb].
  rewrite <- (app_nil_r (c :: p)) at 1. rewrite parse_number_digits by done.
  unfold number_value, strtoimax. cbn [strip_sign]. rewrite !(digit_not_char c) by (done || lia).
  rewrite span_digits_all by done. rewrite (proj2 (Z.leb_le _ _)), (proj2 (Z.ltb_lt _ _)) by lia. done.
Qed.

Lemma print_cut v : cut_short v.
Proof.
  induction v as [|b|i|x|s|a IH|o IH] using value_nested_ind; intros d fuel p q Heq Hq Hp Hf;
    (destruct fuel as [|fuel]; [lia|]); (destruct p as [|c p]; [by left|]); cbn [print app] in Heq.
  - left. injection Heq as <- Heq.
    trans (match match_text (txt "ull") p with Some l => Ret (null, l) | None => Fail end); [done|].
    by rewrite (match_text_cut (txt "ull") p q).
  - left. destruct b; injection Heq as <- Heq.
    + trans (match match_text (txt "rue") p with Some l => Ret (boolean true, l) | None => Fail end); [done|].
      by rewrite (match_text_cut (txt "rue") p q).
    + trans (match match_text (txt "alse") p with Some l => Ret (boolean false, l) | None => Fail end); [done|].
      by rewrite (match_text_cut (txt "alse") p q).
  - right. split; [by exists i|]. by eapply number_cut.
  - done.
  - left. unfold quoted in Heq. injection Heq as <- Heq. cbn [_parse skip_ws]. change (is_ws quote) with false. cbn iota.
    change (is_char 110 quote) with false. change (is_char 102 quote) with false.
    change (is_char 116 quote) with false. change (is_char 34 quote) with true. cbn iota.
    by rewrite (quoted_cut [] s p q).
  - left. cbn [printable] in Hp. destruct d as [|d]; [done|]. change (txt "[") with [Z_to_byte 91] in Heq.
    cbn [app] in Heq. injection Heq as <- Heq. cbn [length] in Hf.
    cbn [_parse]. change (skip_ws (Z_to_byte 91 :: p)) with (Z_to_byte 91 :: p). cbn iota.
    change (is_char 110 (Z_to_byte 91)) with false. change (is_char 102 (Z_to_byte 91)) with false.
    change (is_char 116 (Z_to_byte 91)) with false. change (is_char 34 (Z_to_byte 91)) with false.
    change (is_char 91 (Z_to_byte 91)) with true. cbn iota.
    destruct p as [|c p]; [destruct fuel as [|[|fuel]]; [lia|lia|done]|].
    destruct a as [|x a]; [cbn in Heq; destruct p, q; by simplify_eq/=|].
    destruct (print_head d x) as (c' & k & Ex & Hws & Hcl); [by destruct Hp|].
    assert (c = c') as ->.
    { destruct a; cbn [map join] in Heq; rewrite Ex in Heq; by injection Heq. }
    rewrite expect_other by done. eapply (items_cut d x a []); [|done|done|exact Heq|done|cbn [length] in *; lia].
    apply Forall_forall. intros y _. apply print_reads_back.
  - left. cbn [printable] in Hp. destruct Hp as (Hd & Hnd & Hp). destruct d as [|d]; [lia|].
    change (txt "{") with [Z_to_byte 123] in Heq. cbn [app] in Heq. injection Heq as <- Heq. cbn [length] in Hf.
    cbn [_parse]. change (skip_ws (Z_to_byte 123 :: p)) with (Z_to_byte 123 :: p). cbn iota.
    change (is_char 110 (Z_to_byte 123)) with false. change (is_char 102 (Z_to_byte 123)) with false.
    change (is_char 116 (Z_to_byte 123)) with false. change (is_char 34 (Z_to_byte 123)) with false.
    change (is_char 91 (Z_to_byte 123)) with false. change (is_char 123 (Z_to_byte 123)) with true. cbn iota.
    destruct p as [|c p]; [destruct fuel as [|fuel]; [lia|done]|].
    destruct o as [|x o]; [cbn in Heq; destruct p, q; by simplify_eq/=|].
    assert (c = quote) as ->.
    { destruct o; cbn [map join] in Heq; unfold quoted in Heq; by injection Heq. }
    rewrite expect_other by done. eapply (members_cut (S d) x o []); [|done|done|done|exact Heq|done|cbn [length] in *; lia].
    apply Forall_forall. intros y _. apply print_reads_back.
Qed.

(** A compact array, object or string cut anywhere is refused. *)
Lemma parse_cut v p q :
  printable DEFAULT_MAX_DEPTHS v → (∀ i, v ≠ int64 i) → print v = p ++ q → q ≠ [] → parse p = Fail.
Proof.
  intros Hp Hv Heq Hq. unfold parse.
  by destruct (print_cut v DEFAULT_MAX_DEPTHS (parse_fuel (length p)) p q Heq Hq Hp) as [->|([i ->] & _)]; [|done|by destruct (Hv i)].
Qed.
