(* ===== verification/Bench.v ===== *)
(** The difficulty benchmark: [tools/mine_bench.cpp].

    It times the nonce search on coinbase-only candidates over genesis.  The
    readings of the clock, in nanoseconds, are an argument; durations are doubles,
    rounded as file Picojson rounds, and printed by [printf]. *)

From Stdlib Require Import ZArith Lia Ascii String.
From stdpp Require Import base list strings gmap sorting.
From S2P Require Import Prelude Text Sha256 Crypto Canonical Wallet Gate Chain Mempool Pow Picojson.

(** ** [std::chrono::duration<double>] *)

Definition double_of_Z (z : Z) : double :=
  if z =? 0 then Dbl false 0 0
  else match round_ratio (Z.abs z) 1 with Some (m, e) => Dbl (z <? 0) m e | None => Dbl (z <? 0) 0 0 end.

(** The quotient of a double by the integer [n]. *)
Definition double_div (x : double) (n : Z) : double :=
  if d_m x =? 0 then x
  else
    let num := if 0 <=? d_e x then d_m x * 2 ^ d_e x else d_m x in
    let den := if 0 <=? d_e x then n else n * 2 ^ (- d_e x) in
    match round_ratio num den with Some (m, e) => Dbl (d_neg x) m e | None => x end.

(** [duration<double>(t1 - t0).count()], from nanoseconds. *)
Definition seconds (ns : Z) : double := double_div (double_of_Z ns) (10 ^ 9).

(** The value in units of the least positive double, which orders doubles. *)
Definition scaled (x : double) : Z := (if d_neg x then -1 else 1) * (d_m x * 2 ^ (d_e x + 1074)).
Definition double_le (x y : double) : Prop := scaled x <= scaled y.
#[export] Instance double_le_dec : RelDecision double_le := λ x y, Z_le_dec (scaled x) (scaled y).
#[export] Instance double_le_trans : Transitive double_le.
Proof. intros x y z. unfold double_le. lia. Qed.
#[export] Instance double_le_total : Total double_le.
Proof. intros x y. unfold double_le. lia. Qed.

(** ** [printf] *)

Definition pad (n : nat) (l : list byte) : list byte := replicate (n - length l) space ++ l.

(** [%.4f]: ten-thousandths, rounded half to even on the exact value. *)
Definition fixed4 (x : double) : list byte :=
  let num := if 0 <=? d_e x then d_m x * 2 ^ d_e x * 10 ^ 4 else d_m x * 10 ^ 4 in
  let den := if 0 <=? d_e x then 1 else 2 ^ (- d_e x) in
  let q := num / den in
  let r := num mod den in
  let k := if (den <? 2 * r) || ((den =? 2 * r) && Z.odd q) then q + 1 else q in
  let digits := to_string (k mod 10 ^ 4) in
  (if d_neg x then [Z_to_byte 45] else []) ++ to_string (k / 10 ^ 4) ++ [Z_to_byte 46] ++
  replicate (4 - length digits) (Z_to_byte 48) ++ digits.

Definition gap : list byte := [space; space].
Definition bench_header (samples : Z) : list byte :=
  txt "mine_bench: " ++ signed_to_string samples ++ txt " samples/D, coinbase-only blocks" ++ [newline] ++
  pad 4 (txt "D") ++ gap ++ pad 10 (txt "min(s)") ++ gap ++ pad 10 (txt "median(s)") ++ gap ++ pad 10 (txt "max(s)") ++ [newline].
Definition bench_row (D : Z) (lo md hi : double) : list byte :=
  pad 4 (to_string D) ++ gap ++ pad 10 (fixed4 lo) ++ gap ++ pad 10 (fixed4 md) ++ gap ++ pad 10 (fixed4 hi) ++ [newline].

(** ** The program *)

(** The two arguments; [argv] starts with the name of the program. *)
Definition bench_samples (argv : list (list byte)) : Z :=
  match argv with _ :: s :: _ => atoi s | _ => 6 end.
Definition bench_difficulties (argv : list (list byte)) : list Z :=
  match argv with _ :: _ :: d :: ds => map (λ a, to_unsigned (strtoull a)) (d :: ds) | _ => [12; 16; 20] end.

Section bench.
Context {H : HashFn} {E : Ed25519}.

Definition bench_miner : Address20 := arr_of 20 (replicate 20 (Z_to_byte 0x33)).
Definition no_accounts (a : Address20) : AccountState := mkAcct 0 0.

Definition bench_base : Candidate :=
  let g := header genesisBlock in
  buildCandidate bench_miner 0 (block_hash g) (h_timestamp g) (u64 (h_timestamp g + 1)) (Mempool_new 4096) no_accounts.

(** The candidate of sample [s]. *)
Definition bench_candidate (s : nat) : Candidate :=
  let h := hdr bench_base in
  let t := u64 (u64 (h_timestamp (header genesisBlock) + 1) + Z.of_nat s) in
  mkCandidate (mkHeader (h_index h) t (h_prevHash h) (h_txnsHash h) (h_nonce h)) (c_txns bench_base).

(** The inner loop from sample [s], [k] of them, the clock having been read [r]
    times; [None] when the search runs out of fuel. *)
Fixpoint bench_times (fuel : nat) (clock : nat → Z) (D : Z) (s k r : nat) (secs : list double) : option (list double * nat) :=
  match k with
  | O => Some (secs, r)
  | S k =>
      match mine fuel (bench_candidate s) D (λ _, false) with
      | None => None
      | Some None => bench_times fuel clock D (S s) k (r + 2) secs
      | Some (Some _) => bench_times fuel clock D (S s) k (r + 2) (secs ++ [seconds (clock (r + 1)%nat - clock r)])
      end
  end.

(** The three figures of the sorted times. *)
Definition bench_figures (secs : list double) : double * double * double :=
  let secs := merge_sort double_le secs in
  let zero := Dbl false 0 0 in
  (default zero (head secs), default zero (secs !! (length secs / 2)%nat), default zero (last secs)).

Fixpoint bench_rows (fuel : nat) (clock : nat → Z) (samples : nat) (r : nat) (Ds : list Z) : option (list byte) :=
  match Ds with
  | [] => Some []
  | D :: Ds =>
      '(secs, r) ← bench_times fuel clock D 0 samples r [];
      let '(lo, md, hi) := bench_figures secs in
      rows ← bench_rows fuel clock samples r Ds;
      Some (bench_row D lo md hi ++ rows)
  end.

Definition mine_bench (fuel : nat) (clock : nat → Z) (argv : list (list byte)) : option (list byte) :=
  let samples := bench_samples argv in
  rows ← bench_rows fuel clock (Z.to_nat samples) 0 (bench_difficulties argv);
  Some (bench_header samples ++ rows).

(** ** What it measures *)

(** Every sample is a real mining task: the block found for it is one the chain
    of that difficulty would accept on top of genesis. *)
Lemma bench_block_connects fuel D s b now :
  mine fuel (bench_candidate s) D (λ _, false) = Some (Some b) →
  GENESIS_TIMESTAMP < h_timestamp (header b) <= u64 (now + MAX_CLOCK_SKEW_S) →
  ∃ c, connectBlock (Chain_new D COINBASE_REWARD) b now = (OK, c) ∧ blocks_ c = [genesisBlock; b].
Proof.
  intros Hmine Hnow. destruct (mine_loop_sound _ _ _ _ _ _ _ Hmine) as (Hpow & Htx & Hi & Hp & Hh).
  set (w := credit (applyGenesis ∅) bench_miner COINBASE_REWARD).
  exists (committed (Chain_new D COINBASE_REWARD) b w). split; [|done]. apply connectBlock_ok_iff. split.
  - split; try done; [apply Hnow|apply Hnow| |].
    + rewrite Hh. unfold computeTxnsHash. by rewrite Htx.
    + rewrite Htx. cbn. unfold MAX_TXNS_PER_BLOCK. lia.
  - exists w. split; [|done]. rewrite Hi, Htx. apply run_coinbase; [by split|constructor].
Qed.

(** The times of [k] samples, one after another. *)
Definition elapsed (clock : nat → Z) (k r : nat) : list double :=
  map (λ i, seconds (clock (r + 2 * i + 1)%nat - clock (r + 2 * i)%nat)) (seq 0 k).

Lemma bench_times_all fuel clock D s k r secs :
  (∀ i, (s ≤ i < s + k)%nat → ∃ b, mine fuel (bench_candidate i) D (λ _, false) = Some (Some b)) →
  bench_times fuel clock D s k r secs = Some (secs ++ elapsed clock k r, (r + 2 * k)%nat).
Proof.
  revert s r secs. induction k as [|k IH]; intros s r secs Hm; cbn [bench_times].
  { unfold elapsed. by rewrite app_nil_r, Nat.add_0_r. }
  destruct (Hm s ltac:(lia)) as [b ->]. rewrite IH by (intros; apply Hm; lia). do 2 f_equal; [|lia].
  rewrite <- app_assoc. f_equal. unfold elapsed. cbn [seq map app]. f_equal; [by rewrite Nat.add_0_r|].
  rewrite <- seq_shift, map_map. apply map_ext. intros i. do 3 f_equal; lia.
Qed.

Lemma sorted_lookup l i j x y :
  StronglySorted double_le l → l !! i = Some x → l !! j = Some y → (i ≤ j)%nat → double_le x y.
Proof.
  intros Hs. revert i j. induction Hs as [|z l Hs IH Hz]; intros i j Hi Hj Hij; [done|].
  destruct i as [|i], j as [|j]; cbn in *; simplify_eq; [unfold double_le; lia| |lia|].
  - rewrite Forall_forall in Hz. eapply Hz, list_elem_of_lookup_2, Hj.
  - eapply (IH i j); [done..|lia].
Qed.

(** The three figures are the least, the middle and the greatest of the times. *)
Lemma bench_figures_ok secs lo md hi :
  secs ≠ [] → bench_figures secs = (lo, md, hi) →
  lo ∈ secs ∧ md ∈ secs ∧ hi ∈ secs ∧ double_le lo md ∧ double_le md hi ∧
  ∀ x, x ∈ secs → double_le lo x ∧ double_le x hi.
Proof.
  intros Hne. unfold bench_figures. pose proof (merge_sort_Permutation double_le secs) as Hp.
  pose proof (StronglySorted_merge_sort double_le secs) as Hs. revert Hp Hs.
  generalize (merge_sort double_le secs). intros l Hp Hs [[<- <-]%pair_equal_spec <-]%pair_equal_spec.
  assert (0 < length l)%nat as Hl.
  { rewrite Hp. destruct secs; [done|]. cbn. lia. }
  assert (length l / 2 < length l)%nat as Hmid by (apply Nat.div_lt; lia).
  destruct (lookup_lt_is_Some_2 l 0 Hl) as [lo H0]. destruct (lookup_lt_is_Some_2 l _ Hmid) as [md H1].
  destruct (lookup_lt_is_Some_2 l (length l - 1) ltac:(lia)) as [hi H2].
  rewrite head_lookup, last_lookup, <- Nat.sub_1_r, H0, H1, H2. cbn [default].
  assert (∀ i j x y, l !! i = Some x → l !! j = Some y → (i ≤ j)%nat → double_le x y) as Hle
    by (intros; by eapply sorted_lookup).
  split_and!; try (rewrite <- Hp; by eapply list_elem_of_lookup_2).
  - by eapply (Hle 0%nat (length l / 2)%nat); [..|lia].
  - eapply (Hle (length l / 2)%nat (length l - 1)%nat); [done..|]. lia.
  - intros x Hx. rewrite <- Hp in Hx. apply list_elem_of_lookup in Hx as [i Hi]. pose proof (lookup_lt_Some _ _ _ Hi).
    split; [apply (Hle 0%nat i)|apply (Hle i (length l - 1)%nat)]; try done; lia.
Qed.

(** The report: given fuel for every search, a row for each difficulty, with the
    least, the middle and the greatest of the times of all its samples. *)
Fixpoint reported (clock : nat → Z) (k r : nat) (Ds : list Z) : list byte :=
  match Ds with
  | [] => []
  | D :: Ds =>
      let '(lo, md, hi) := bench_figures (elapsed clock k r) in
      bench_row D lo md hi ++ reported clock k (r + 2 * k) Ds
  end.

Theorem mine_bench_report fuel clock argv :
  let k := Z.to_nat (bench_samples argv) in
  (∀ D i, D ∈ bench_difficulties argv → (i < k)%nat → ∃ b, mine fuel (bench_candidate i) D (λ _, false) = Some (Some b)) →
  mine_bench fuel clock argv =
  Some (bench_header (bench_samples argv) ++ reported clock k 0 (bench_difficulties argv)).
Proof.
  intros k Hm. unfold mine_bench. fold k.
  assert (∀ r Ds, (∀ D, D ∈ Ds → D ∈ bench_difficulties argv) → bench_rows fuel clock k r Ds = Some (reported clock k r Ds)) as ->; [|done..].
  intros r Ds. revert r. induction Ds as [|D Ds IH]; intros r Hin; [done|]. cbn [bench_rows reported].
  rewrite (bench_times_all fuel clock D 0 k r []); [|intros i Hi; apply Hm; [apply Hin, list_elem_of_here|lia]].
  cbn [mbind option_bind app]. destruct (bench_figures _) as [[lo md] hi]. rewrite IH; [done|].
  intros D' HD. by apply Hin, list_elem_of_further.
Qed.
End bench.

Module BenchDemo.
#[local] Existing Instances Demo.demo_hash Demo.demo_ed.

(** Two samples at difficulty 1, of 1.5 and 0.25 seconds. *)
Definition argv : list (list byte) := map txt ["mine_bench"; "2"; "1"].
Definition clock (i : nat) : Z := default 0 ([0; 1500000000; 2000000000; 2250000000] !! i).

Example bench_prints :
  mine_bench 8 clock argv = Some (bench_header 2 ++ txt "   1      0.2500      1.5000      1.5000" ++ [newline]).
Proof. apply (bool_decide_unpack _). by vm_compute. Qed.
End BenchDemo.
