(* ===== verification/Json.v ===== *)
(** The JSON line codec of blocks: [src/serialize/json.cpp], and the field
    extractors of [src/rpc/rpc.cpp] that share its reading of numbers.

    The writer concatenates text; the reader goes through the [Picojson]
    model.  [std::nullopt] and [return false] are [Fail]. *)

From Stdlib Require Import ZArith Lia Ascii String.
From stdpp Require Import base list strings.
From S2P Require Import Prelude Sha256 Crypto Canonical Picojson.

(** A key and its colon; a quoted hexadecimal string. *)
Definition jkey (k : string) : list byte := quoted (txt k) ++ txt ":".
Definition jhex {N} (a : arr N) : list byte := quoted (Hex.to_hex (arr_list a)).

Section writer.
Context {H : HashFn}.

Definition txn_to_json (t : Txn) : list byte :=
  txt "{" ++
  jkey "ver" ++ to_string (tx_ver t) ++ txt "," ++
  jkey "from" ++ jhex (tx_from t) ++ txt "," ++
  jkey "to" ++ jhex (tx_to t) ++ txt "," ++
  jkey "amount" ++ to_string (tx_amount t) ++ txt "," ++
  jkey "nonce" ++ to_string (tx_nonce t) ++ txt "," ++
  jkey "pubkey" ++ jhex (tx_pubkey t) ++ txt "," ++
  jkey "sig" ++ jhex (tx_sig t) ++ txt "," ++
  jkey "txid" ++ jhex (txid t) ++ txt "}".

(** The [for] loop over [block.txns]: a comma before all but the first. *)
Fixpoint txns_to_json (first : bool) (l : list Txn) : list byte :=
  match l with
  | [] => []
  | t :: l => (if first then [] else txt ",") ++ txn_to_json t ++ txns_to_json false l
  end.

Definition to_json_line (b : Block) : list byte :=
  txt "{" ++ jkey "header" ++ txt "{" ++
  jkey "index" ++ to_string (h_index (header b)) ++ txt "," ++
  jkey "timestamp" ++ to_string (h_timestamp (header b)) ++ txt "," ++
  jkey "prevHash" ++ jhex (h_prevHash (header b)) ++ txt "," ++
  jkey "txnsHash" ++ jhex (h_txnsHash (header b)) ++ txt "," ++
  jkey "nonce" ++ to_string (h_nonce (header b)) ++ txt "}," ++
  jkey "txns" ++ txt "[" ++ txns_to_json true (txns b) ++ txt "]," ++
  jkey "blockHash" ++ jhex (block_hash (header b)) ++ txt "}".
End writer.

(** [static_cast<std::uint64_t>(d)] of a non-negative double: truncation,
    undefined when the result does not fit. *)
Definition double_to_u64 (d : double) : outcome Z :=
  let i := if 0 <=? d_e d then d_m d * 2 ^ d_e d else d_m d / 2 ^ (- d_e d) in
  if (0 <=? i) && (i <? 2 ^ 64) then Ret i else Undefined.

(** [d < 0]; minus zero is not below zero. *)
Definition double_negative (d : double) : bool := d_neg d && negb (d_m d =? 0).

Definition get_u64 (o : list (list byte * value)) (key : string) : outcome Z :=
  match obj_find (txt key) o with
  | Some (int64 x) => if x <? 0 then Fail else Ret (u64 x)
  | Some (number d) => if double_negative d then Fail else double_to_u64 d
  | _ => Fail
  end.

Definition get_hex (o : list (list byte * value)) (key : string) (N : nat) : outcome (arr N) :=
  match obj_find (txt key) o with
  | Some (vstring s) => match Hex.from_hex N s with Some a => Ret a | None => Fail end
  | _ => Fail
  end.

(** The body of the transaction loop of [from_json_line]. *)
Definition txn_of_value (tv : value) : outcome Txn :=
  match tv with
  | vobject to =>
      let* ver := get_u64 to "ver" in
      if negb (ver =? kTxnVersion) then Fail else
      let* from := get_hex to "from" 20 in
      let* to_ := get_hex to "to" 20 in
      let* amount := get_u64 to "amount" in
      let* nonce := get_u64 to "nonce" in
      let* pubkey := get_hex to "pubkey" 32 in
      let* sig := get_hex to "sig" 64 in
      Ret (mkTxn ver from to_ amount nonce pubkey sig)
  | _ => Fail
  end.

Fixpoint txns_of_values (l : list value) : outcome (list Txn) :=
  match l with
  | [] => Ret []
  | tv :: l => let* t := txn_of_value tv in let* ts := txns_of_values l in Ret (t :: ts)
  end.

Definition block_of_value (v : value) : outcome Block :=
  match v with
  | vobject root =>
      match obj_find (txt "header") root with
      | Some (vobject hobj) =>
          let* index := get_u64 hobj "index" in
          let* timestamp := get_u64 hobj "timestamp" in
          let* prevHash := get_hex hobj "prevHash" 32 in
          let* txnsHash := get_hex hobj "txnsHash" 32 in
          let* nonce := get_u64 hobj "nonce" in
          match obj_find (txt "txns") root with
          | Some (varray l) =>
              let* ts := txns_of_values l in
              Ret (mkBlock (mkHeader index timestamp prevHash txnsHash nonce) ts)
          | _ => Fail
          end
      | _ => Fail
      end
  | _ => Fail
  end.

Definition from_json_line (line : list byte) : outcome Block :=
  let* v := parse line in block_of_value v.

(** [rpc::json_get_string] and [rpc::json_get_u64]. *)
Definition json_get_string (json : list byte) (key : string) : outcome (list byte) :=
  let* v := parse json in
  match v with
  | vobject o => match obj_find (txt key) o with Some (vstring s) => Ret s | _ => Fail end
  | _ => Fail
  end.

Definition json_get_u64 (json : list byte) (key : string) : outcome Z :=
  let* v := parse json in
  match v with vobject o => get_u64 o key | _ => Fail end.

(** ** The value a block is written as *)

Definition hex_value {N} (a : arr N) : value := vstring (Hex.to_hex (arr_list a)).

Section value_of_block.
Context {H : HashFn}.

Definition txn_value (t : Txn) : value := vobject [
  (txt "ver", int64 (tx_ver t)); (txt "from", hex_value (tx_from t)); (txt "to", hex_value (tx_to t));
  (txt "amount", int64 (tx_amount t)); (txt "nonce", int64 (tx_nonce t));
  (txt "pubkey", hex_value (tx_pubkey t)); (txt "sig", hex_value (tx_sig t));
  (txt "txid", hex_value (txid t))].

Definition block_value (b : Block) : value := vobject [
  (txt "header", vobject [
     (txt "index", int64 (h_index (header b))); (txt "timestamp", int64 (h_timestamp (header b)));
     (txt "prevHash", hex_value (h_prevHash (header b))); (txt "txnsHash", hex_value (h_txnsHash (header b)));
     (txt "nonce", int64 (h_nonce (header b)))]);
  (txt "txns", varray (map txn_value (txns b)));
  (txt "blockHash", hex_value (block_hash (header b)))].

Lemma txn_to_json_eq t : txn_to_json t = print (txn_value t).
Proof.
  unfold txn_to_json, txn_value, jkey, jhex, hex_value. cbn [print map join fst snd].
  rewrite <- !app_assoc. reflexivity.
Qed.

Lemma txns_to_json_eq l : txns_to_json true l = join (txt ",") (map print (map txn_value l)).
Proof.
  assert (∀ t l, txns_to_json false (t :: l) = txt "," ++ join (txt ",") (map print (map txn_value (t :: l)))) as Hf.
  { intros t l'. revert t. induction l' as [|u l' IH]; intros t.
    - cbn [txns_to_json map join]. by rewrite txn_to_json_eq, app_nil_r.
    - change (txns_to_json false (t :: u :: l')) with (txt "," ++ txn_to_json t ++ txns_to_json false (u :: l')).
      by rewrite IH, txn_to_json_eq. }
  destruct l as [|t l]; [done|]. cbn [txns_to_json]. rewrite txn_to_json_eq. cbn [app].
  destruct l as [|u l]; [cbn [txns_to_json map join]; by rewrite app_nil_r|]. by rewrite Hf.
Qed.

Lemma to_json_line_eq b : to_json_line b = print (block_value b).
Proof.
  unfold to_json_line, block_value. rewrite txns_to_json_eq.
  unfold jkey, jhex, hex_value. cbn [print map join fst snd].
  rewrite <- !app_assoc. reflexivity.
Qed.
End value_of_block.

(** ** Reading a written block back *)

(** Evaluate a look-up of a literal key in an object with literal keys. *)
Ltac eval_find :=
  repeat (cbn [obj_find];
    match goal with
    | |- context [bool_decide (txt ?a = txt ?b)] =>
        let r := eval vm_compute in (bool_decide (txt a = txt b)) in
        change (bool_decide (txt a = txt b)) with r; cbn iota
    end).

(** The integers of a block that the reader takes exactly. *)
Definition json_exact (b : Block) : Prop :=
  (0 <= h_index (header b) < 2 ^ 63 ∧ 0 <= h_timestamp (header b) < 2 ^ 63 ∧
   0 <= h_nonce (header b) < 2 ^ 63) ∧
  Forall (λ t, tx_ver t = kTxnVersion ∧ 0 <= tx_amount t < 2 ^ 63 ∧ 0 <= tx_nonce t < 2 ^ 63) (txns b).

#[export] Instance json_exact_dec b : Decision (json_exact b).
Proof. unfold json_exact. apply _. Defined.

(** Unfold a chain of monadic reads that returned. *)
Ltac step_reads Hp :=
  repeat (match type of Hp with
    | obind ?o _ = Ret _ => let E := fresh "Er" in destruct o eqn:E; cbn [obind] in Hp; try discriminate Hp
    | context [if negb ?c then _ else _] => let E := fresh "Ec" in destruct c eqn:E; cbn [negb] in Hp; try discriminate Hp
    | context [match ?v with _ => _ end] => let E := fresh "Ev" in destruct v eqn:E; try discriminate Hp
    end).

Section read_back.
Context {H : HashFn}.

Lemma hex_plain {N} (a : arr N) : plain (Hex.to_hex (arr_list a)).
Proof.
  eapply Forall_impl; [apply Hex.to_hex_digits|]. cbn beta. intros c.
  unfold Hex.is_lower_hex, plain_char, is_char, is_digit. intros. lia.
Qed.

Lemma key_plain (k : string) : forallb plain_char (txt k) = true → plain (txt k).
Proof. intros Hk. apply Forall_forall. intros c Hc. eapply forallb_forall in Hk; [done|]. by apply list_elem_of_In. Qed.

Lemma txn_value_printable d t :
  (0 < d)%nat → tx_ver t = kTxnVersion → 0 <= tx_amount t < 2 ^ 63 → 0 <= tx_nonce t < 2 ^ 63 →
  printable d (txn_value t).
Proof.
  intros Hd Hv Ha Hn. cbn [txn_value printable]. split; [done|]. split.
  - apply (bool_decide_unpack _). by vm_compute.
  - cbn [foldr fst snd]. rewrite Hv. split_and!; try (by apply key_plain); try apply hex_plain; (done || lia).
Qed.

Lemma block_value_printable b : json_exact b → printable DEFAULT_MAX_DEPTHS (block_value b).
Proof.
  intros [(Hi & Ht & Hn) Hx]. unfold DEFAULT_MAX_DEPTHS. cbn [block_value printable].
  split; [lia|]. split; [apply (bool_decide_unpack _); by vm_compute|].
  cbn [foldr fst snd]. split_and!; try (by apply key_plain); try apply hex_plain; try done; try lia.
  - cbn [printable]. split; [lia|]. split; [apply (bool_decide_unpack _); by vm_compute|].
    cbn [foldr fst snd]. split_and!; try (by apply key_plain); try apply hex_plain; done.
  - cbn [printable]. induction Hx as [|t l (Hv & Ha & Htn) _ IH]; cbn [map foldr]; [done|].
    split; [|exact IH]. apply txn_value_printable; (done || lia).
Qed.

Lemma get_hex_value {N} (a : arr N) o key :
  obj_find (txt key) o = Some (hex_value a) → get_hex o key N = Ret a.
Proof. unfold get_hex. intros ->. cbn [hex_value]. by rewrite Hex.from_to_hex. Qed.

Lemma get_u64_value i o key :
  0 <= i < 2 ^ 63 → obj_find (txt key) o = Some (int64 i) → get_u64 o key = Ret i.
Proof.
  intros Hi. unfold get_u64. intros ->. rewrite (proj2 (Z.ltb_ge _ _)) by lia.
  by rewrite u64_id by (unfold u64_ok; lia).
Qed.

Lemma txn_of_txn_value t :
  tx_ver t = kTxnVersion → 0 <= tx_amount t < 2 ^ 63 → 0 <= tx_nonce t < 2 ^ 63 →
  txn_of_value (txn_value t) = Ret t.
Proof.
  intros Hv Ha Hn. unfold txn_of_value, txn_value.
  rewrite (get_u64_value (tx_ver t)); [|by rewrite Hv|by eval_find]. cbn [obind].
  rewrite Hv, Z.eqb_refl. cbn [negb].
  rewrite (get_hex_value (tx_from t)) by (by eval_find). cbn [obind].
  rewrite (get_hex_value (tx_to t)) by (by eval_find). cbn [obind].
  rewrite (get_u64_value (tx_amount t)) by (done || by eval_find). cbn [obind].
  rewrite (get_u64_value (tx_nonce t)) by (done || by eval_find). cbn [obind].
  rewrite (get_hex_value (tx_pubkey t)) by (by eval_find). cbn [obind].
  rewrite (get_hex_value (tx_sig t)) by (by eval_find). cbn [obind].
  destruct t; simpl in *; congruence.
Qed.

Lemma block_of_block_value b : json_exact b → block_of_value (block_value b) = Ret b.
Proof.
  intros [(Hi & Ht & Hn) Hx]. unfold block_of_value, block_value. eval_find.
  rewrite (get_u64_value (h_index (header b))) by (done || by eval_find). cbn [obind].
  rewrite (get_u64_value (h_timestamp (header b))) by (done || by eval_find). cbn [obind].
  rewrite (get_hex_value (h_prevHash (header b))) by (by eval_find). cbn [obind].
  rewrite (get_hex_value (h_txnsHash (header b))) by (by eval_find). cbn [obind].
  rewrite (get_u64_value (h_nonce (header b))) by (done || by eval_find). cbn [obind].
  assert (txns_of_values (map txn_value (txns b)) = Ret (txns b)) as ->.
  { induction Hx as [|t l (Hv & Ha & Htn) _ IH]; cbn [map txns_of_values]; [done|].
    rewrite txn_of_txn_value by done. cbn [obind]. by rewrite IH. }
  destruct b as [[] ?]. done.
Qed.

Lemma json_reads_back b rest : json_exact b → from_json_line (to_json_line b ++ rest) = Ret b.
Proof.
  intros Hb. unfold from_json_line. rewrite to_json_line_eq, parse_print; [|by apply block_value_printable|done].
  by apply block_of_block_value.
Qed.

(** A line cut anywhere before its closing brace is malformed. *)
Lemma json_line_cut b p q : json_exact b → to_json_line b = p ++ q → q ≠ [] → from_json_line p = Fail.
Proof.
  intros Hb Heq Hq. unfold from_json_line. rewrite to_json_line_eq in Heq.
  by rewrite (parse_cut (block_value b) p q) by (done || by apply block_value_printable).
Qed.

Lemma get_u64_ok o key v : get_u64 o key = Ret v → u64_ok v.
Proof.
  unfold get_u64. destruct (obj_find _ _) as [[]|]; try done.
  - destruct (_ <? _); [done|]. intros [= <-]. apply u64_range.
  - destruct (double_negative d); [done|]. unfold double_to_u64.
    destruct (_ && _) eqn:E; [|done]. intros [= <-]. reflect_bools. by split.
Qed.

Lemma txn_of_value_ok tv t : txn_of_value tv = Ret t → txn_ok t ∧ tx_ver t = kTxnVersion.
Proof.
  unfold txn_of_value. destruct tv; try done. intros Hp. step_reads Hp. injection Hp as <-.
  repeat match goal with H : get_u64 _ _ = Ret _ |- _ => apply get_u64_ok in H end. reflect_bools. subst.
  by split_and!.
Qed.

Lemma txns_of_values_ok l ts :
  txns_of_values l = Ret ts → Forall (λ t, txn_ok t ∧ tx_ver t = kTxnVersion) ts.
Proof.
  revert ts. induction l as [|v l IH]; intros ts; cbn [txns_of_values]; [by intros [= <-]|].
  intros Hp. step_reads Hp. injection Hp as <-. constructor; [by eapply txn_of_value_ok|by apply IH].
Qed.
End read_back.

(** C31. The chain file's line codec loses nothing: a block whose integers are below
    2^63 (and whose transactions carry version 1) is read back exactly from the
    line it is written as, whatever bytes follow the line's closing brace. *)
Theorem json_line_roundtrip {H : HashFn} (b : Block) (rest : list byte) :
  json_exact b → from_json_line (to_json_line b ++ rest) = Ret b.
Proof. apply json_reads_back. Qed.

(** No reader of values needs fuel. *)
Section no_fuel.

Lemma obind_no_fuel {A B} (o : outcome A) (f : A → outcome B) :
  o ≠ NoFuel → (∀ a, f a ≠ NoFuel) → obind o f ≠ NoFuel.
Proof. intros Ho Hf. destruct o; cbn [obind]; try done. Qed.

Lemma get_u64_no_fuel o key : get_u64 o key ≠ NoFuel.
Proof.
  unfold get_u64, double_to_u64. destruct (obj_find _ _) as [[]|]; try done.
  - by destruct (_ <? _).
  - destruct (double_negative _); [done|]. by destruct (_ && _).
Qed.

Lemma get_hex_no_fuel o key N : get_hex o key N ≠ NoFuel.
Proof. unfold get_hex. destruct (obj_find _ _) as [[]|]; try done. by destruct (Hex.from_hex _ _). Qed.

Lemma txn_of_value_no_fuel tv : txn_of_value tv ≠ NoFuel.
Proof.
  unfold txn_of_value. destruct tv; try done. apply obind_no_fuel; [apply get_u64_no_fuel|]. intros ver.
  destruct (negb _); [done|].
  repeat (apply obind_no_fuel; [first [apply get_u64_no_fuel|apply get_hex_no_fuel]|intros ?]). done.
Qed.

Lemma txns_of_values_no_fuel l : txns_of_values l ≠ NoFuel.
Proof.
  induction l as [|v l IH]; cbn [txns_of_values]; [done|].
  apply obind_no_fuel; [apply txn_of_value_no_fuel|]. intros t. by apply obind_no_fuel.
Qed.

Lemma block_of_value_no_fuel v : block_of_value v ≠ NoFuel.
Proof.
  unfold block_of_value. destruct v as [| | | | | |o]; try done.
  destruct (obj_find _ o) as [[| | | | | |h]|]; try done.
  repeat (apply obind_no_fuel; [first [apply get_u64_no_fuel|apply get_hex_no_fuel]|intros ?]).
  destruct (obj_find _ o) as [[]|]; try done.
  apply obind_no_fuel; [apply txns_of_values_no_fuel|done].
Qed.
End no_fuel.

Lemma block_of_value_ok v b :
  block_of_value v = Ret b → block_ok b ∧ Forall (λ t, tx_ver t = kTxnVersion) (txns b).
Proof.
  unfold block_of_value. destruct v as [| | | | | |o]; try done.
  destruct (obj_find _ o) as [[| | | | | |h]|]; try done. intros Hp. step_reads Hp. injection Hp as <-.
  repeat match goal with H : get_u64 _ _ = Ret _ |- _ => apply get_u64_ok in H end.
  match goal with H : txns_of_values _ = Ret _ |- _ => apply txns_of_values_ok, Forall_and in H as [Ht Hv] end.
  split; [split; [by split_and!|done]|done].
Qed.

(** C40. Whatever the line, the reader terminates, and a block it returns is well
    formed: every integer is in its machine range and every transaction has
    version 1. *)
Theorem from_json_line_ok (line : list byte) :
  from_json_line line ≠ NoFuel ∧
  ∀ b, from_json_line line = Ret b → block_ok b ∧ Forall (λ t, tx_ver t = kTxnVersion) (txns b).
Proof.
  split.
  - apply obind_no_fuel; [apply parse_not_out_of_fuel|apply block_of_value_no_fuel].
  - intros b Hb. unfold from_json_line in Hb. destruct (parse line); try done. by eapply block_of_value_ok.
Qed.

Module JsonDemo.
#[local] Existing Instance Demo.demo_hash.

Definition t1 : Txn := mkTxn 1 (arr_lit 20 [1]) (arr_lit 20 [2]) 7 3 (arr_lit 32 [3]) (arr_lit 64 [4]).
Definition with_time (ts : Z) : Block :=
  mkBlock (mkHeader 5 ts (arr_lit 32 [9]) (arr_lit 32 [8]) 77) [t1].

Lemma exact1 : json_exact (with_time 1704067300).
Proof. apply (bool_decide_unpack _). by vm_compute. Qed.
End JsonDemo.

Lemma json_line_roundtrip_witness :
  from_json_line (to_json_line (H := Demo.demo_hash) (JsonDemo.with_time 1704067300) ++ txt "garbage") =
  Ret (JsonDemo.with_time 1704067300).
Proof. apply (json_line_roundtrip (H := Demo.demo_hash)). exact JsonDemo.exact1. Defined.

(** Defects of the line reader: an integer the writer wrote exactly is read back
    as a different one from 2^63 on (it is converted through a double), for
    values near 2^64 the cast is undefined behaviour, a decimal number exceeding
    every double makes the reader throw instead of answering "malformed", and a
    fractional number is silently truncated. *)
Theorem json_number_defects :
  let _ := Demo.demo_hash in
  block_ok (JsonDemo.with_time (2 ^ 63 + 1)) ∧
  from_json_line (to_json_line (JsonDemo.with_time (2 ^ 63 + 1))) = Ret (JsonDemo.with_time (2 ^ 63)) ∧
  from_json_line (to_json_line (JsonDemo.with_time (2 ^ 64 - 1))) = Undefined ∧
  from_json_line (txt "{" ++ jkey "header" ++ txt "1e999}") = Throw ∧
  json_get_u64 (txt "{" ++ jkey "nonce" ++ txt "1.75}") "nonce" = Ret 1.
Proof.
  split; [apply (bool_decide_unpack _); by vm_compute|]. split_and!; apply (bool_decide_unpack _); by vm_compute.
Qed.
