(* ===== verification/Store.v ===== *)
(** The chain file: [include/txchain/chain/store.hpp], [src/chain/store.cpp].

    A file is [None] when it does not exist, else its bytes.  The system
    calls of one operation answer from a script [io]: whether [open]
    succeeds, what each [write] returns, whether [fsync] succeeds.  A script
    that ends before the write loop does leaves the call unfinished ([None]). *)

From Stdlib Require Import ZArith Lia Ascii String.
From stdpp Require Import base list strings.
From S2P Require Import Prelude Text Sha256 Crypto Canonical Wallet Gate Chain Validate Picojson Json.

Inductive write_result :=
  | Wrote (n : nat)     (* [n] bytes accepted, at most what was offered *)
  | Interrupted         (* -1 with [EINTR] *)
  | Failed.             (* -1 with another error *)

Record io := mkIo { open_ok : bool; writes : list write_result; fsync_ok : bool }.

Definition chain_path (datadir : list byte) : list byte := path_join datadir (txt "chain.jsonl").

(** The write loop: the bytes left to write and the file so far. *)
Fixpoint write_all (ws : list write_result) (data file : list byte) : option (bool * list byte) :=
  match data with
  | [] => Some (true, file)
  | _ =>
      match ws with
      | [] => None
      | Interrupted :: ws => write_all ws data file
      | Failed :: _ => Some (false, file)
      | Wrote n :: ws => write_all ws (drop n data) (file ++ take n data)
      end
  end.

(** [open] with the given starting contents, write everything, [fsync]. *)
Definition write_file (sys : io) (start : option (list byte)) (opened data : list byte)
  : option (bool * option (list byte)) :=
  return_if negb (open_ok sys) with Some (false, start) ;;
  '(ok, file) ← write_all (writes sys) data opened;
  Some (ok && fsync_ok sys, Some file).

Section store.
Context {H : HashFn}.

(** [O_APPEND | O_CREAT]: the old contents, empty for a new file. *)
Definition appendBlock (sys : io) (file : option (list byte)) (b : Block) : option (bool * option (list byte)) :=
  let line := to_json_line b ++ [newline] in
  write_file sys file (default [] file) line.

(** [O_CREAT | O_TRUNC]: the old contents are gone once [open] returns. *)
Definition rewrite (sys : io) (file : option (list byte)) (blocks : list Block)
  : option (bool * option (list byte)) :=
  let out := flat_map (λ b, to_json_line b ++ [newline]) blocks in
  write_file sys file [] out.

Record LoadResult := mkLoad { lr_blocks : list Block; lr_status : VerifyResult }.

(** The status a [LoadResult] is born with. *)
Definition status_ok : VerifyResult := mkVerify true 0 OK [].

Fixpoint load_loop (blocks : list Block) (idx : Z) (lines : list (list byte)) : outcome LoadResult :=
  match lines with
  | [] => Ret (mkLoad blocks status_ok)
  | line :: rest =>
      if bool_decide (line = []) then load_loop blocks idx rest
      else
        match from_json_line line with
        | Ret b => load_loop (blocks ++ [b]) (idx + 1) rest
        | Fail => Ret (mkLoad blocks (fail idx BAD_TXNS_HASH (txt "malformed chain.jsonl line")))
        | Throw => Throw
        | Undefined => Undefined
        | NoFuel => NoFuel
        end
  end.

Definition load (file : option (list byte)) : outcome LoadResult :=
  match file with
  | None => Ret (mkLoad [] (fail 0 BAD_LINK (txt "cannot open chain.jsonl")))
  | Some contents => load_loop [] 0 (getlines [] contents)
  end.

(** ** Lemmas *)

Lemma write_all_prefix ws data file ok file' :
  write_all ws data file = Some (ok, file') →
  ∃ n, file' = file ++ take n data ∧ (ok = true → file' = file ++ data).
Proof.
  revert data file. induction ws as [|w ws IH]; intros data file Hw.
  - destruct data; [|done]. injection Hw as <- <-. exists 0%nat. by rewrite take_0, app_nil_r.
  - destruct data as [|c data]; [injection Hw as <- <-; exists 0%nat; by rewrite take_0, app_nil_r|].
    cbn [write_all] in Hw. destruct w as [n| |].
    + apply IH in Hw as (k & -> & Hok). exists (n + k)%nat. split.
      * rewrite <- app_assoc, take_take_drop. done.
      * intros Ht. rewrite (Hok Ht). by rewrite <- app_assoc, take_drop.
    + by apply IH in Hw.
    + injection Hw as <- <-. exists 0%nat. by rewrite take_0, app_nil_r.
Qed.

Lemma load_loop_app blocks idx lines lines' :
  (∀ r, load_loop blocks idx lines = Ret r → vr_ok (lr_status r) = true →
   load_loop blocks idx (lines ++ lines') =
   load_loop (lr_blocks r) (idx + Z.of_nat (length (lr_blocks r)) - Z.of_nat (length blocks)) lines').
Proof.
  revert blocks idx. induction lines as [|l lines IH]; intros blocks idx r; cbn [app load_loop].
  - intros [= <-] _. cbn. f_equal. lia.
  - case_bool_decide; [apply IH|]. destruct (from_json_line l); try done.
    + intros Hr Hok. rewrite (IH _ _ _ Hr Hok). rewrite length_app. cbn [length]. f_equal. lia.
    + by intros [= <-].
Qed.

(** A printed text has no control characters, in particular no newline. *)
Lemma print_no_control v d : printable d v → Forall (λ c, 32 <= byte_to_Z c) (print v).
Proof.
  assert (∀ l, Forall (λ c, is_digit c = true) l → Forall (λ c, 32 <= byte_to_Z c) l) as Hdig.
  { intros l Hl. eapply Forall_impl; [done|]. unfold is_digit. simpl. intros. lia. }
  assert (∀ s, plain s → Forall (λ c, 32 <= byte_to_Z c) s) as Hpl.
  { intros l Hl. eapply Forall_impl; [done|]. unfold plain_char. simpl. intros. lia. }
  assert (∀ ls, Forall (Forall (λ c, 32 <= byte_to_Z c)) ls →
          Forall (λ c, 32 <= byte_to_Z c) (join (txt ",") ls)) as Hjoin.
  { intros ls Hls. induction Hls as [|x ls Hx Hls IH]; cbn [join]; [constructor|].
    destruct ls; [done|]. apply Forall_app; split; [done|]. apply Forall_app; split; [|done].
    by repeat constructor. }
  assert (∀ s, plain s → Forall (λ c, 32 <= byte_to_Z c) (quoted s)) as Hq.
  { intros s Hs. unfold quoted. apply Forall_app; split; [by repeat constructor|].
    apply Forall_app; split; [auto|by repeat constructor]. }
  revert d. induction v as [|b|i|x|s|a IH|o IH] using value_nested_ind; intros d Hp; cbn [print].
  - by repeat constructor.
  - destruct b; by repeat constructor.
  - apply Hdig, to_string_digits. apply Hp.
  - constructor.
  - auto.
  - apply Forall_app; split; [by repeat constructor|]. apply Forall_app; split; [|by repeat constructor].
    apply Hjoin. destruct d as [|d]; [done|]. cbn [printable] in Hp.
    induction IH as [|v a Hv _ IHa]; cbn [map]; constructor; [apply (Hv d); apply Hp|apply IHa; apply Hp].
  - apply Forall_app; split; [by repeat constructor|]. apply Forall_app; split; [|by repeat constructor].
    apply Hjoin. destruct Hp as (_ & _ & Hp).
    induction IH as [|[k v] o Hv _ IHo]; cbn [map]; constructor; [|apply IHo; apply Hp].
    cbn [fst snd]. destruct Hp as [[Hk Hpv] _].
    apply Forall_app; split; [auto|]. apply Forall_app; split; [by repeat constructor|]. by apply (Hv d).
Qed.

Lemma line_no_newline b : json_exact b → newline ∉ to_json_line b.
Proof.
  intros Hb Hin. rewrite to_json_line_eq in Hin.
  pose proof (print_no_control _ _ (block_value_printable b Hb)) as Hf.
  rewrite Forall_forall in Hf. specialize (Hf _ Hin). by vm_compute in Hf.
Qed.

Lemma line_not_nil b : to_json_line b ≠ [].
Proof. done. Qed.

(** A file made of complete lines. *)
Definition terminated (f : list byte) : Prop := f = [] ∨ ∃ f', f = f' ++ [newline].

Lemma getlines_terminated cur f rest :
  (cur = [] ∧ f = []) ∨ (∃ f', f = f' ++ [newline]) →
  getlines cur (f ++ rest) = getlines cur f ++ getlines [] rest.
Proof.
  revert cur. induction f as [|c f IH]; intros cur Hf.
  - destruct Hf as [[-> _]|[f' Hf]]; [done|by destruct f'].
  - cbn [app getlines]. destruct Hf as [[_ ?]|[f' Hf]]; [done|]. destruct f' as [|c' f'].
    + injection Hf as -> ->. rewrite bool_decide_eq_true_2 by done. done.
    + injection Hf as -> ->. case_bool_decide; rewrite IH; eauto.
Qed.

Lemma load_append f b bs :
  terminated f → json_exact b → load (Some f) = Ret (mkLoad bs status_ok) →
  load (Some (f ++ to_json_line b ++ [newline])) = Ret (mkLoad (bs ++ [b]) status_ok).
Proof.
  intros Hf Hb Hl. unfold load in *. rewrite getlines_terminated by (destruct Hf; auto).
  rewrite (load_loop_app _ _ _ _ _ Hl) by done. rewrite getlines_app by (by apply line_no_newline).
  cbn [app getlines load_loop lr_blocks]. rewrite bool_decide_eq_false_2 by apply line_not_nil.
  rewrite <- (app_nil_r (to_json_line b)). by rewrite json_reads_back.
Qed.

(** What follows complete lines and holds no newline is one more line. *)
Lemma load_last f l bs :
  terminated f → newline ∉ l → l ≠ [] → load (Some f) = Ret (mkLoad bs status_ok) →
  load (Some (f ++ l)) = load_loop bs (Z.of_nat (length bs)) [l].
Proof.
  intros Hf Hl Hn Hload. unfold load in *. rewrite getlines_terminated by (destruct Hf; auto).
  rewrite (load_loop_app _ _ _ _ _ Hload) by done. rewrite getlines_end by done. cbn [app lr_blocks length]. f_equal. lia.
Qed.

Lemma load_lines bs :
  Forall json_exact bs →
  load (Some (flat_map (λ b, to_json_line b ++ [newline]) bs)) = Ret (mkLoad bs status_ok).
Proof.
  induction bs as [|b bs IH] using rev_ind; intros Hbs; [done|].
  apply Forall_app in Hbs as [Hbs Hb]. apply Forall_cons in Hb as [Hb _].
  rewrite flat_map_app. cbn [flat_map]. rewrite app_nil_r. apply load_append; [|done|by apply IH].
  destruct bs as [|x bs] using rev_ind; [by left|right].
  rewrite flat_map_app. cbn [flat_map]. rewrite app_nil_r, app_assoc. by eexists.
Qed.
End store.

(** Appending is safe under every behaviour of the system calls: short writes,
    interruptions and failures leave the old file with at most a prefix of the
    new line after it; and success means that the whole line is there, so that
    the next load returns the old blocks followed by the new one. *)
Theorem append_then_load {H : HashFn} sys file b ok file' :
  appendBlock sys file b = Some (ok, file') →
  (∃ n, file' = file ∨ file' = Some (default [] file ++ take n (to_json_line b ++ [newline]))) ∧
  (ok = true →
   file' = Some (default [] file ++ to_json_line b ++ [newline]) ∧
   ∀ bs, terminated (default [] file) → json_exact b →
         load (Some (default [] file)) = Ret (mkLoad bs status_ok) →
         load file' = Ret (mkLoad (bs ++ [b]) status_ok)).
Proof.
  unfold appendBlock, write_file. destruct (open_ok sys); cbn [negb].
  2: { intros [= <- <-]. split; [exists 0%nat; by left|done]. }
  destruct (write_all _ _ _) as [[w f]|] eqn:Hw; [|done]. intros [= <- <-].
  apply write_all_prefix in Hw as (n & -> & Hok). split; [exists n; by right|].
  intros [Ht _]%andb_true_iff. rewrite (Hok Ht). split; [done|]. intros bs Hf Hb Hl. by apply load_append.
Qed.

(** Rewriting replaces the chain: when it reports success the file holds exactly
    the given blocks and loads back to them; while it runs the old contents are
    already gone (the file is a prefix of the new one). *)
Theorem rewrite_then_load {H : HashFn} sys file bs ok file' :
  rewrite sys file bs = Some (ok, file') → Forall json_exact bs →
  (ok = true → load file' = Ret (mkLoad bs status_ok)) ∧
  (open_ok sys = true → ∃ n, file' = Some (take n (flat_map (λ b, to_json_line b ++ [newline]) bs))).
Proof.
  unfold rewrite, write_file. intros Hr Hb. destruct (open_ok sys); cbn [negb] in Hr.
  2: { by injection Hr as <- <-. }
  destruct (write_all _ _ _) as [[w f]|] eqn:Hw; [|done]. injection Hr as <- <-.
  apply write_all_prefix in Hw as (n & -> & Hok). cbn [app] in *. split; [|intros _; by exists n].
  intros [Ht _]%andb_true_iff. rewrite (Hok Ht). by apply load_lines.
Qed.

(** C18. Crash consistency of the append: when a crash or a full disk leaves only [n]
    bytes of a new line after a good file, the next load sees the old chain if
    nothing was written, the new one if the whole text of the line was, and
    otherwise refuses the file, naming the torn line.  A crash that lost only the
    newline is silent, and dangerous: the next append, though it reports
    success, writes onto the same line, and its block is never seen again. *)
Theorem torn_append {H : HashFn} f b bs n :
  terminated f → json_exact b → load (Some f) = Ret (mkLoad bs status_ok) →
  let line := to_json_line b in
  let torn := f ++ take n (line ++ [newline]) in
  load (Some torn) =
    Ret (if (n =? 0)%nat then mkLoad bs status_ok
         else if (n <? length line)%nat
           then mkLoad bs (fail (Z.of_nat (length bs)) BAD_TXNS_HASH (txt "malformed chain.jsonl line"))
           else mkLoad (bs ++ [b]) status_ok) ∧
  (n = length line → ∀ sys b' file', json_exact b' → appendBlock sys (Some torn) b' = Some (true, file') →
     load file' = Ret (mkLoad (bs ++ [b]) status_ok)).
Proof.
  intros Hf Hb Hl line torn. pose proof (line_no_newline b Hb) as Hnl. split.
  - subst torn. destruct (Nat.eqb_spec n 0) as [->|H0]; [by rewrite take_0, app_nil_r|].
    destruct (Nat.ltb_spec n (length line)) as [Hlt|Hge].
    + rewrite take_app_le by lia.
      assert (take n line ≠ []) as Hn by (intros Ht%(f_equal length); rewrite length_take in Ht; change (length (@nil byte)) with 0%nat in Ht; lia).
      assert (drop n line ≠ []) as Hd by (intros Ht%(f_equal length); rewrite length_drop in Ht; change (length (@nil byte)) with 0%nat in Ht; lia).
      rewrite (load_last _ _ bs); [|done| | |done].
      * cbn [load_loop]. rewrite bool_decide_eq_false_2 by done.
        by rewrite (json_line_cut b (take n line) (drop n line)) by (done || by rewrite take_drop).
      * intros Hin. apply Hnl. fold line. rewrite <- (take_drop n line). by apply elem_of_app; left.
      * done.
    + destruct (decide (n = length line)) as [->|Hne].
      * rewrite take_app_le, take_ge by lia. rewrite (load_last _ _ bs) by (done || by apply line_not_nil).
        cbn [load_loop]. rewrite bool_decide_eq_false_2 by apply line_not_nil.
        subst line. rewrite <- (app_nil_r (to_json_line b)). by rewrite json_reads_back.
      * rewrite take_ge by (rewrite length_app; cbn [length]; lia). by apply load_append.
  - intros -> sys b' file' Hb' Ha. destruct (proj2 (append_then_load _ _ _ _ _ Ha) eq_refl) as [-> _].
    assert (torn = f ++ line) as -> by (unfold torn; by rewrite take_app_le, take_ge by lia).
    change (default [] (Some (f ++ line))) with (f ++ line). rewrite <- app_assoc. unfold load in *.
    rewrite getlines_terminated by (destruct Hf; auto). rewrite (load_loop_app _ _ _ _ _ Hl) by done.
    rewrite (app_assoc line). rewrite getlines_app.
    2: { intros [Hin|Hin]%elem_of_app; [done|]. by apply (line_no_newline b' Hb'). }
    cbn [app getlines load_loop lr_blocks]. rewrite bool_decide_eq_false_2 by (by destruct line).
    subst line. by rewrite json_reads_back.
Qed.

Module StoreDemo.
Definition good_io : io := mkIo true [Wrote 5; Interrupted; Wrote 100000] true.
Definition file1 : option (list byte) :=
  Some (to_json_line (H := Demo.demo_hash) (JsonDemo.with_time 1704067300) ++ [newline]).
Lemma append1 :
  appendBlock (H := Demo.demo_hash) good_io None (JsonDemo.with_time 1704067300) = Some (true, file1).
Proof. by vm_compute. Qed.
Lemma rewrite1 :
  rewrite (H := Demo.demo_hash) good_io (Some [newline]) [JsonDemo.with_time 1704067300] = Some (true, file1).
Proof. by vm_compute. Qed.
Lemma exact_all : Forall json_exact [JsonDemo.with_time 1704067300].
Proof. constructor; [exact JsonDemo.exact1|constructor]. Qed.
End StoreDemo.

Lemma append_then_load_witness :
  load StoreDemo.file1 = Ret (mkLoad [JsonDemo.with_time 1704067300] status_ok).
Proof.
  destruct (append_then_load (H := Demo.demo_hash) _ _ _ _ _ StoreDemo.append1) as [_ Hl].
  destruct (Hl eq_refl) as [_ Hload]. exact (Hload [] (or_introl eq_refl) JsonDemo.exact1 eq_refl).
Defined.

Lemma rewrite_then_load_witness :
  load StoreDemo.file1 = Ret (mkLoad [JsonDemo.with_time 1704067300] status_ok).
Proof.
  exact (proj1 (rewrite_then_load (H := Demo.demo_hash) _ _ _ _ _ StoreDemo.rewrite1
    StoreDemo.exact_all) eq_refl).
Defined.

Module TornDemo.
Definition block : Block := JsonDemo.with_time 1704067300.
Definition line : list byte := to_json_line (H := Demo.demo_hash) block.
Definition twice : option (list byte) := Some (line ++ line ++ [newline]).
Definition again : list byte := [] ++ take (length line) (line ++ [newline]).
Lemma append2 : appendBlock (H := Demo.demo_hash) StoreDemo.good_io (Some again) block = Some (true, twice).
Proof. by vm_compute. Qed.
Lemma cut5 : (if (5 =? 0)%nat then mkLoad [] status_ok
  else if (5 <? length (to_json_line (H := Demo.demo_hash) block))%nat
    then mkLoad [] (fail (Z.of_nat (length (@nil Block))) BAD_TXNS_HASH (txt "malformed chain.jsonl line"))
    else mkLoad ([] ++ [block]) status_ok) = mkLoad [] (fail 0 BAD_TXNS_HASH (txt "malformed chain.jsonl line")).
Proof. by vm_compute. Qed.
End TornDemo.

(** Five bytes of a line are refused; a second block appended after a line that
    lost its newline is gone. *)
Lemma torn_append_witness :
  load (Some ([] ++ take 5 (TornDemo.line ++ [newline]))) =
    Ret (mkLoad [] (fail 0 BAD_TXNS_HASH (txt "malformed chain.jsonl line"))) ∧
  load TornDemo.twice = Ret (mkLoad [TornDemo.block] status_ok).
Proof.
  destruct (torn_append (H := Demo.demo_hash) [] _ [] 5 (or_introl eq_refl) JsonDemo.exact1 eq_refl) as [H5 _].
  destruct (torn_append (H := Demo.demo_hash) [] _ [] (length TornDemo.line) (or_introl eq_refl) JsonDemo.exact1 eq_refl) as [_ Hg].
  split; [exact (eq_trans H5 (f_equal Ret TornDemo.cut5))|].
  exact (Hg eq_refl _ _ _ JsonDemo.exact1 TornDemo.append2).
Defined.
