(* ===== verification/Keyfile.v ===== *)
(** The wallet key file: [wallet_save], [wallet_load] and
    [load_or_create_wallet] of [src/wallet/wallet.cpp].

    A key file is its permission bits and its bytes; the system calls answer
    from a script, as in [Store]. *)

From Stdlib Require Import ZArith Lia Ascii String.
From stdpp Require Import base list strings.
From S2P Require Import Prelude Text Sha256 Crypto Canonical Wallet Picojson Json Store.

Definition kWalletVersion : Z := 1.

Record keyfile := mkKeyfile { kf_mode : Z; kf_bytes : list byte }.

#[export] Instance keyfile_eq_dec : EqDecision keyfile.
Proof. solve_decision. Defined.
#[export] Instance Wallet_eq_dec : EqDecision Wallet.
Proof. solve_decision. Defined.

(** The calls of one [wallet_save]: those of [Store.io], and [fchmod]. *)
Record key_io := mkKeyIo { k_io : io; fchmod_ok : bool; k_umask : Z }.

Record LoadResult := mkKeyLoad {
  kl_ok : bool;
  kl_wallet : Wallet;
  kl_error : list byte;
  kl_world_readable : bool
}.

#[export] Instance LoadResult_eq_dec : EqDecision LoadResult.
Proof. solve_decision. Defined.

Definition mode_0600 : Z := 384.
(** [S_IRWXG | S_IRWXO]. *)
Definition group_other : Z := 63.

(** [Wallet{}]. *)
Definition no_wallet : Wallet := mkWallet (arr_zero 32) (arr_zero 32) (arr_zero 20).

Definition wallet_json (w : Wallet) : list byte :=
  txt "{" ++ jkey "version" ++ to_string kWalletVersion ++
  txt "," ++ jkey "priv" ++ jhex (w_seed w) ++
  txt "," ++ jkey "pub" ++ jhex (w_pubkey w) ++
  txt "," ++ jkey "address" ++ jhex (w_address w) ++ txt "}" ++ [newline].

(** [O_CREAT] gives a new file mode [0600 & ~umask]; an old one keeps its
    mode until [fchmod].  [O_TRUNC] empties both. *)
Definition opened_mode (sys : key_io) (file : option keyfile) : Z :=
  match file with Some f => kf_mode f | None => Z.ldiff mode_0600 (k_umask sys) end.

Definition wallet_save (sys : key_io) (file : option keyfile) (w : Wallet) : option (bool * option keyfile) :=
  let json := wallet_json w in
  return_if negb (open_ok (k_io sys)) with Some (false, file) ;;
  return_if negb (fchmod_ok sys) with Some (false, Some (mkKeyfile (opened_mode sys file) [])) ;;
  '(ok, bytes) ← Store.write_all (writes (k_io sys)) json [];
  Some (ok && fsync_ok (k_io sys), Some (mkKeyfile mode_0600 bytes)).

(** [r.error = e; return r]. *)
Definition refuse (world_readable : bool) (e : list byte) : outcome LoadResult :=
  Ret (mkKeyLoad false no_wallet e world_readable).

(** [!from_hex<N>(s, stored) || stored != expected], of a display field that
    is present and a string. *)
Definition stored_mismatch {N} (o : list (list byte * value)) (key : string) (expected : arr N) : bool :=
  match obj_find (txt key) o with
  | Some (vstring s) =>
      match Hex.from_hex N s with Some stored => negb (bool_decide (stored = expected)) | None => true end
  | _ => false
  end.

(** An integer [version] other than the one this build writes. *)
Definition bad_version (o : list (list byte * value)) : bool :=
  match obj_find (txt "version") o with
  | Some (int64 v) => negb (v =? kWalletVersion)
  | _ => false
  end.

Section keyfile.
Context {H : HashFn} {E : Ed25519}.

(** The wallet read from the parsed object. *)
Definition wallet_of_object (world_readable : bool) (o : list (list byte * value)) : outcome LoadResult :=
  return_if bad_version o with refuse world_readable (txt "wallet.key: unsupported version") ;;
  match obj_find (txt "priv") o with
  | Some (vstring s) =>
      match Hex.from_hex 32 s with
      | Some seed =>
          let pubkey := derive_pubkey seed in
          let w := mkWallet seed pubkey (address pubkey) in
          return_if stored_mismatch o "pub" (w_pubkey w)
            with refuse world_readable (txt "wallet.key: stored pub does not match derive_pubkey(seed)") ;;
          return_if stored_mismatch o "address" (w_address w)
            with refuse world_readable (txt "wallet.key: stored address does not match SHA-256(pub)[:20]") ;;
          Ret (mkKeyLoad true w [] world_readable)
      | None => refuse world_readable (txt "wallet.key: priv is not a 32-byte seed")
      end
  | _ => refuse world_readable (txt "wallet.key: missing priv")
  end.

(** [readable]: whether the [ifstream] opens. *)
Definition wallet_load (path : list byte) (file : option keyfile) (readable : bool) : outcome LoadResult :=
  match file with
  | None => refuse false (txt "wallet.key: cannot open " ++ path)
  | Some f =>
      let world_readable := negb (Z.land (kf_mode f) group_other =? 0) in
      return_if negb readable with refuse world_readable (txt "wallet.key: cannot read " ++ path) ;;
      match parse (kf_bytes f) with
      | Ret (vobject o) => wallet_of_object world_readable o
      | Ret _ | Fail => refuse world_readable (txt "wallet.key: malformed JSON")
      | Throw => Throw
      | Undefined => Undefined
      | NoFuel => NoFuel
      end
  end.

(** [None] when the script of system calls ends early; [Throw] where
    [wallet_create] throws for want of randomness. *)
Definition load_or_create_wallet (csprng : option Seed32) (sys : key_io) (readable : bool)
    (datadir : list byte) (file : option keyfile) : option (outcome LoadResult * option keyfile) :=
  let path := wallet_path_for_datadir datadir in
  match file with
  | Some _ => Some (wallet_load path file readable, file)
  | None =>
      match wallet_create csprng with
      | None => Some (Throw, file)
      | Some w =>
          '(saved, file') ← wallet_save sys file w;
          return_if negb saved with Some (refuse false (txt "wallet.key: cannot write " ++ path), file') ;;
          Some (Ret (mkKeyLoad true w [] false), file')
      end
  end.

(** ** Lemmas *)

(** The public key and the address are the ones the seed derives. *)
Definition derived (w : Wallet) : Prop :=
  w_pubkey w = derive_pubkey (w_seed w) ∧ w_address w = address (w_pubkey w).

Lemma wallet_create_derived csprng w : wallet_create csprng = Some w → derived w.
Proof. destruct csprng as [seed|]; [|done]. cbn. by intros [= <-]. Qed.

Definition wallet_value (w : Wallet) : value := vobject [
  (txt "version", int64 kWalletVersion); (txt "priv", hex_value (w_seed w));
  (txt "pub", hex_value (w_pubkey w)); (txt "address", hex_value (w_address w))].

Lemma wallet_json_eq w : wallet_json w = print (wallet_value w) ++ [newline].
Proof.
  unfold wallet_json, wallet_value, jkey, jhex, hex_value. cbn [print map join fst snd].
  rewrite <- !app_assoc. reflexivity.
Qed.

Lemma wallet_json_parses w : parse (wallet_json w) = Ret (wallet_value w).
Proof.
  rewrite wallet_json_eq. apply parse_print; [|done]. unfold DEFAULT_MAX_DEPTHS, wallet_value. cbn [printable].
  split; [lia|]. split; [apply (bool_decide_unpack _); by vm_compute|].
  cbn [foldr fst snd]. split_and!; try (by apply key_plain); try apply hex_plain; done.
Qed.

Lemma stored_mismatch_hex {N} o key (a b : arr N) :
  obj_find (txt key) o = Some (hex_value a) → stored_mismatch o key b = negb (bool_decide (a = b)).
Proof. intros Hf. unfold stored_mismatch. by rewrite Hf; cbn [hex_value]; rewrite Hex.from_to_hex. Qed.

Lemma wallet_load_saved path w : 
  derived w → wallet_load path (Some (mkKeyfile mode_0600 (wallet_json w))) true = Ret (mkKeyLoad true w [] false).
Proof.
  intros [Hp Ha]. unfold wallet_load. cbn [kf_bytes kf_mode negb]. rewrite wallet_json_parses.
  unfold wallet_value, wallet_of_object, bad_version. eval_find. change (negb (kWalletVersion =? kWalletVersion)) with false. cbn iota.
  cbn [hex_value]. rewrite Hex.from_to_hex. cbn [w_pubkey w_address].
  rewrite (stored_mismatch_hex _ _ (w_pubkey w)) by (by eval_find).
  rewrite (stored_mismatch_hex _ _ (w_address w)) by (by eval_find).
  rewrite <- Hp, <- Ha, !bool_decide_eq_true_2 by done. destruct w; simpl in *; by subst.
Qed.

Lemma bad_version_false o :
  bad_version o = false ↔ ∀ v, obj_find (txt "version") o = Some (int64 v) → v = kWalletVersion.
Proof.
  unfold bad_version. destruct (obj_find _ o) as [[]|]; try (split; [intros _ ? [=]|done]).
  rewrite negb_false_iff, Z.eqb_eq. split; [by intros -> ? [= ->]|]. intros Hv. by apply Hv.
Qed.

(** A display field that is present as text is the rendering of [a], up to
    the case of the digits. *)
Definition field_matches {N} (o : list (list byte * value)) (key : string) (a : arr N) : Prop :=
  ∀ s, obj_find (txt key) o = Some (vstring s) → Hex.from_hex N s = Some a.

Lemma stored_mismatch_false {N} o key (a : arr N) : stored_mismatch o key a = false ↔ field_matches o key a.
Proof.
  unfold stored_mismatch, field_matches. destruct (obj_find _ _) as [[]|]; try (split; [intros _ ? [=]|done]).
  destruct (Hex.from_hex N _) as [c|] eqn:Ec.
  - rewrite negb_false_iff, bool_decide_eq_true. split; [intros -> ? [= <-]; done|intros Hf]. specialize (Hf _ eq_refl). congruence.
  - split; [done|]. intros Hf. specialize (Hf _ eq_refl). congruence.
Qed.

Lemma wallet_load_derived path file readable r :
  wallet_load path file readable = Ret r → kl_ok r = true → derived (kl_wallet r).
Proof.
  unfold wallet_load, refuse. destruct file as [f|]; [|by intros [= <-]]. destruct readable; cbn [negb]; [|by intros [= <-]].
  destruct (parse _) as [[| | | | | |o]| | | |]; try done; try (by intros [= <-]).
  unfold wallet_of_object, refuse. intros Hr.
  repeat (case_match || split_guards_in Hr); by simplify_eq.
Qed.
End keyfile.

(** C37. What a key file must contain to be accepted, and what is then loaded: a
    wallet is returned exactly when the file can be read, parses as an object
    whose integer [version], if any, is 1, whose [priv] is 64 hex digits, and
    whose [pub] and [address], where they are text, are the ones the seed derives;
    the wallet is the seed with the derived key and address, never the stored
    copies, and the exposure flag says whether group or others have any access. *)
Theorem wallet_load_iff {H : HashFn} {E : Ed25519} path file readable w e wr :
  wallet_load path file readable = Ret (mkKeyLoad true w e wr) ↔
  ∃ f o s, file = Some f ∧ readable = true ∧ parse (kf_bytes f) = Ret (vobject o) ∧
    (∀ v, obj_find (txt "version") o = Some (int64 v) → v = kWalletVersion) ∧
    obj_find (txt "priv") o = Some (vstring s) ∧ Hex.from_hex 32 s = Some (w_seed w) ∧
    field_matches o "pub" (w_pubkey w) ∧ field_matches o "address" (w_address w) ∧
    derived w ∧ e = [] ∧ wr = negb (Z.land (kf_mode f) 63 =? 0).
Proof.
  split.
  - unfold wallet_load, refuse. destruct file as [f|]; [|done]. destruct readable; cbn [negb]; [|done].
    destruct (parse _) as [[| | | | | |o]| | | |] eqn:Ep; try done.
    unfold wallet_of_object, refuse. destruct (bad_version o) eqn:Ev; [done|].
    destruct (obj_find (txt "priv") o) as [[| | | |s| |]|] eqn:Es; try done.
    destruct (Hex.from_hex 32 s) as [seed|] eqn:Eh; [|done].
    destruct (stored_mismatch o "pub" _) eqn:E1; [done|]. destruct (stored_mismatch o "address" _) eqn:E2; [done|].
    intros [= <- <- <-]. apply stored_mismatch_false in E1, E2. exists f, o, s. split_and!; try done.
    by apply bad_version_false.
  - intros (f & o & s & -> & -> & Hp & Hv & Hs & Hh & H1 & H2 & [Hd1 Hd2] & -> & ->).
    unfold wallet_load. cbn [negb]. rewrite Hp. unfold wallet_of_object.
    rewrite (proj2 (bad_version_false o) Hv), Hs, Hh. cbn [w_pubkey w_address]. rewrite <- Hd1, <- Hd2.
    rewrite (proj2 (stored_mismatch_false _ _ _) H1), (proj2 (stored_mismatch_false _ _ _) H2).
    by destruct w.
Qed.

(** A saved key is a key that loads back: when [wallet_save] reports success the
    file has mode 0600 whatever it had before, and loading it gives the same
    wallet without a warning; a save that fails after the file was opened has
    destroyed what the file held before. *)
Theorem wallet_save_load {H : HashFn} {E : Ed25519} sys file w ok file' :
  wallet_save sys file w = Some (ok, file') → derived w →
  (ok = true → kf_mode <$> file' = Some mode_0600 ∧
               ∀ path, wallet_load path file' true = Ret (mkKeyLoad true w [] false)) ∧
  (open_ok (k_io sys) = false → file' = file ∧ ok = false) ∧
  (open_ok (k_io sys) = true → ∃ n, kf_bytes <$> file' = Some (take n (wallet_json w))).
Proof.
  unfold wallet_save. intros Hs Hw. destruct (open_ok (k_io sys)); cbn [negb] in Hs; [|by injection Hs as <- <-].
  destruct (fchmod_ok sys); cbn [negb] in Hs; [|injection Hs as <- <-; split_and!; [done..|]; by exists 0%nat].
  destruct (Store.write_all _ _ _) as [[b bytes]|] eqn:Ew; [|done]. injection Hs as <- <-.
  apply write_all_prefix in Ew as (n & -> & Hok). split_and!; [|done|intros _; by exists n].
  intros [Hb _]%andb_true_iff. split; [done|]. intros path. rewrite (Hok Hb). by apply wallet_load_saved.
Qed.

(** Start-up is stable: a first start that reports success has created a key
    which every later start, whatever its randomness and its disk, loads back
    unchanged; and a first start whose file was created but not written leaves
    a key file that every later start refuses. *)
Theorem load_or_create_stable {H : HashFn} {E : Ed25519} csprng sys datadir r file' :
  load_or_create_wallet csprng sys true datadir None = Some (Ret r, file') →
  (kl_ok r = true → ∀ csprng' sys',
     load_or_create_wallet csprng' sys' true datadir file' = Some (Ret r, file')) ∧
  (kf_bytes <$> file' = Some [] → ∀ csprng' sys' r' file'',
     load_or_create_wallet csprng' sys' true datadir file' = Some (Ret r', file'') → kl_ok r' = false).
Proof.
  unfold load_or_create_wallet. destruct (wallet_create csprng) as [w|] eqn:Ec; [|done].
  apply wallet_create_derived in Ec.
  destruct (wallet_save sys None w) as [[saved f']|] eqn:Es; cbn [mbind option_bind]; [|done]. intros Hr. split.
  - intros Hok csprng' sys'. unfold wallet_save in Es.
    destruct (open_ok (k_io sys)); cbn [negb] in Es; [|injection Es as <- <-; by injection Hr as <- <-].
    destruct (fchmod_ok sys); cbn [negb] in Es; [|injection Es as <- <-; by injection Hr as <- <-].
    destruct (Store.write_all _ _ _) as [[b bytes]|] eqn:Ew; [|done]. injection Es as <- <-.
    apply write_all_prefix in Ew as (n & -> & Hall).
    destruct b; [|by injection Hr as <- <-]. destruct (fsync_ok (k_io sys)); [|by injection Hr as <- <-].
    cbn [andb negb] in Hr. injection Hr as <- <-. cbn [app] in Hall. rewrite (Hall eq_refl).
    by rewrite wallet_load_saved.
  - destruct file' as [[m bytes]|]; [|done]. cbn [fmap option_fmap option_map kf_bytes]. intros [= ->] csprng' sys' r' f''.
    change (wallet_load ?p (Some (mkKeyfile m [])) true) with
      (refuse (negb (Z.land m group_other =? 0)) (txt "wallet.key: malformed JSON")).
    by intros [= <- <-].
Qed.

Module KeyDemo.
#[local] Existing Instances Demo.demo_hash Demo.demo_ed.

Definition seed : Seed32 := arr_lit 32 [7; 7].
Definition w : Wallet := mkWallet seed (derive_pubkey seed) (address (derive_pubkey seed)).
Definition disk : key_io := mkKeyIo (mkIo true [Wrote 10; Interrupted; Wrote 1000] true) true 18.
Definition full_disk : key_io := mkKeyIo (mkIo true [Failed] true) true 18.
Definition saved : option keyfile := Some (mkKeyfile mode_0600 (wallet_json w)).

Lemma w_derived : derived w.
Proof. by split. Qed.

Lemma saves : wallet_save disk (Some (mkKeyfile 438 (txt "old key"))) w = Some (true, saved).
Proof. apply (bool_decide_unpack _). by vm_compute. Qed.

Lemma creates :
  load_or_create_wallet (Some seed) disk true [] None = Some (Ret (mkKeyLoad true w [] false), saved).
Proof. apply (bool_decide_unpack _). by vm_compute. Qed.

Lemma creates_empty :
  load_or_create_wallet (Some seed) full_disk true [] None =
  Some (Ret (mkKeyLoad false no_wallet (txt "wallet.key: cannot write wallet.key") false),
        Some (mkKeyfile mode_0600 [])).
Proof. apply (bool_decide_unpack _). by vm_compute. Qed.
End KeyDemo.

Lemma wallet_save_load_witness :
  wallet_load (H := Demo.demo_hash) (E := Demo.demo_ed) [] KeyDemo.saved true = Ret (mkKeyLoad true KeyDemo.w [] false).
Proof.
  destruct (wallet_save_load (H := Demo.demo_hash) (E := Demo.demo_ed) _ _ _ _ _ KeyDemo.saves KeyDemo.w_derived)
    as [Hok _].
  exact (proj2 (Hok eq_refl) []).
Defined.

Lemma load_or_create_stable_witness :
  load_or_create_wallet (H := Demo.demo_hash) (E := Demo.demo_ed) None KeyDemo.full_disk true [] KeyDemo.saved =
    Some (Ret (mkKeyLoad true KeyDemo.w [] false), KeyDemo.saved) ∧
  (∀ r' f, load_or_create_wallet (H := Demo.demo_hash) (E := Demo.demo_ed) (Some KeyDemo.seed) KeyDemo.disk true []
             (Some (mkKeyfile mode_0600 [])) = Some (Ret r', f) → kl_ok r' = false).
Proof.
  split.
  - exact (proj1 (load_or_create_stable (H := Demo.demo_hash) (E := Demo.demo_ed) _ _ _ _ _ KeyDemo.creates)
             eq_refl None KeyDemo.full_disk).
  - exact (proj2 (load_or_create_stable (H := Demo.demo_hash) (E := Demo.demo_ed) _ _ _ _ _ KeyDemo.creates_empty)
             eq_refl (Some KeyDemo.seed) KeyDemo.disk).
Defined.
