(* ===== verification/Node.v ===== *)
(** The node: configuration, boot gate, block commits and the event loop of the
    node process: [include/txchain/node/node.hpp], [src/node/node.cpp],
    [apps/txnode/main.cpp].

    A [Node] is its configuration, its in-memory chain and the bytes of its
    chain file; operations that write take the script [sys] of the system
    calls they make (file Store). *)

From Stdlib Require Import ZArith Lia Ascii String.
From stdpp Require Import base list strings gmap fin_maps sorting.
From S2P Require Import Prelude Text Sha256 Crypto Canonical Wallet Gate Chain Validate Mempool Pow Picojson Json Store.

(** ** Configuration *)

Record NodeConfig := mkConfig {
  datadir : list byte;
  mine_flag : bool;
  seal_cadence_ms : Z;
  seal_empty : bool;
  max_txns_per_block : Z;
  difficulty : Z;
  node_index : Z;
  port_base : Z;
  rpc_port : Z;
  no_rpc : bool;
  no_p2p : bool;
  max_skew_s : Z;
  log_format : list byte
}.

Definition default_config : NodeConfig :=
  mkConfig (txt "./txchain-data") false 5000 true 8 0 0 29000 0 false false 7200 (txt "json").

Definition kRpcPortOffset : Z := 1000.

Definition rpc_port_for (cfg : NodeConfig) : Z :=
  if negb (rpc_port cfg =? 0) then rpc_port cfg else port_base cfg + kRpcPortOffset + node_index cfg.

Definition should_seal_now (cfg : NodeConfig) (elapsed_ms mempool_size : Z) : bool :=
  return_if negb (mine_flag cfg) with false ;;
  return_if max_txns_per_block cfg <=? mempool_size with true ;;
  return_if seal_cadence_ms cfg =? 0 with false ;;
  seal_cadence_ms cfg <=? elapsed_ms.

(** ** The node *)

Record BootResult := mkBoot { br_ok : bool; br_status : VerifyResult }.

Record Node := mkNode { cfg_ : NodeConfig; chain_ : Chain; file_ : option (list byte) }.

Section node.
Context {H : HashFn} {E : Ed25519}.

(** Coinbase issuance turns on exactly when the difficulty is positive. *)
Definition node_reward (cfg : NodeConfig) : Z := if 0 <? difficulty cfg then COINBASE_REWARD else 0.

Definition Node_new (cfg : NodeConfig) (file : option (list byte)) : Node :=
  mkNode cfg (Chain_new (difficulty cfg) (node_reward cfg)) file.

(** [store.appendBlock(b)] with its result dropped; [NoFuel] when the script is too short. *)
Definition append_ignoring (sys : io) (nd : Node) (b : Block) : outcome Node :=
  match appendBlock sys (file_ nd) b with
  | Some (_, file) => Ret (mkNode (cfg_ nd) (chain_ nd) file)
  | None => NoFuel
  end.

(** The reconnect loop of [Node::boot] from block index [i] on. *)
Fixpoint reconnect (c : Chain) (i : Z) (blocks : list Block) (now_s : Z) : BootResult * Chain :=
  match blocks with
  | [] => (mkBoot true status_ok, c)
  | b :: rest =>
      let '(r, c) := connectBlock c b now_s in
      return_if negb (bool_decide (r = OK))
        with (mkBoot false (mkVerify false i r (txt "reconnect failed")), c) ;;
      reconnect c (i + 1) rest now_s
  end.

(** [Node::boot] with a fresh [BootResult]. *)
Definition boot (sys : io) (cfg : NodeConfig) (file : option (list byte)) (now_s : Z)
  : outcome (BootResult * Node) :=
  let node := Node_new cfg file in
  let has_blocks := match file with Some (_ :: _) => true | _ => false end in
  if negb has_blocks then
    let* node := append_ignoring sys node genesisBlock in Ret (mkBoot true status_ok, node)
  else
    let* lr := load file in
    if negb (vr_ok (lr_status lr)) then Ret (mkBoot false (lr_status lr), node)
    else
      match lr_blocks lr with
      | [] => let* node := append_ignoring sys node genesisBlock in Ret (mkBoot true status_ok, node)
      | b0 :: rest =>
          if negb (bool_decide (b0 = genesisBlock)) then
            Ret (mkBoot false (mkVerify false 0 BAD_LINK (txt "genesis mismatch")), node)
          else
            let vr := replayFromGenesis (b0 :: rest) now_s (difficulty cfg) (node_reward cfg) in
            if negb (vr_ok vr) then Ret (mkBoot false vr, node)
            else
              let '(out, c) := reconnect (chain_ node) 1 rest now_s in
              Ret (out, mkNode cfg c file)
      end.

(** The block [seal_next_block] assembles on the tip. *)
Definition sealed_block (c : Chain) (now_s : Z) (l : list Txn) : Block :=
  mkBlock (mkHeader (u64 (height c + 1)) (Z.max now_s (u64 (h_timestamp (tip_header c) + 1)))
             (tipHash c) (txns_hash l) 0) l.

Definition commitBlock (sys : io) (nd : Node) (b : Block) (now_s : Z) : outcome (Reason * Node) :=
  let '(r, c) := connectBlock (chain_ nd) b now_s in
  if negb (bool_decide (r = OK)) then Ret (r, mkNode (cfg_ nd) c (file_ nd))
  else let* nd := append_ignoring sys (mkNode (cfg_ nd) c (file_ nd)) b in Ret (OK, nd).

Definition seal_next_block (sys : io) (nd : Node) (now_s : Z) (l : list Txn) : outcome (Reason * Node) :=
  let b := sealed_block (chain_ nd) now_s l in
  let '(r, c) := connectBlock (chain_ nd) b now_s in
  if negb (bool_decide (r = OK)) then Ret (r, mkNode (cfg_ nd) c (file_ nd))
  else let* nd := append_ignoring sys (mkNode (cfg_ nd) c (file_ nd)) b in Ret (OK, nd).

(** ** One iteration of the event loop of [txnode] *)

(** The batch of the cadence mode: up to a block's worth of admitted transactions. *)
Definition drain (mp : Mempool) : list Txn :=
  take MAX_TXNS_PER_BLOCK (map me_txn (sortedBySeq mp)).

(** Cadence mode, when [should_seal_now] fires. *)
Definition seal_tick (sys : io) (nd : Node) (mp : Mempool) (now_s : Z) : outcome (Reason * Node * Mempool) :=
  let batch := drain mp in
  let* (r, nd) := seal_next_block sys nd now_s batch in
  if bool_decide (r = OK) && negb (length batch =? 0)%nat then Ret (r, nd, evictIncluded mp batch)
  else Ret (r, nd, mp).

(** Proof-of-work mode: the snapshot, and the commit of a mined block if the
    tip has not moved since. *)
Definition snapshot (nd : Node) (mp : Mempool) (miner : Address20) (now_s : Z) : Candidate :=
  let c := chain_ nd in
  buildCandidate miner (height c) (tipHash c) (h_timestamp (tip_header c)) now_s mp (account c).

Definition commit_mined (sys : io) (nd : Node) (mp : Mempool) (mined : Block) (now_s : Z)
  : outcome (bool * Node * Mempool) :=
  let c := chain_ nd in
  if (u64 (height c + 1) =? h_index (header mined)) && bool_decide (tipHash c = h_prevHash (header mined)) then
    let* (r, nd) := commitBlock sys nd mined now_s in
    if bool_decide (r = OK) then
      Ret (true, nd, if (1 <? length (txns mined))%nat then evictIncluded mp (drop 1 (txns mined)) else mp)
    else Ret (false, nd, mp)
  else Ret (false, nd, mp).
End node.

(** ** Boot *)

(** A load that succeeds carries the plain success status. *)
Lemma load_ok_shape file r :
  load file = Ret r → vr_ok (lr_status r) = true → r = mkLoad (lr_blocks r) status_ok.
Proof.
  unfold load. destruct file as [f|]; [|by intros [= <-]].
  generalize (getlines [] f) (@nil Block) 0. intros lines. induction lines as [|l lines IH]; intros bs i; cbn [load_loop].
  { by intros [= <-]. }
  case_bool_decide; [apply IH|]. destruct (from_json_line l); try done; [apply IH|]. by intros [= <-].
Qed.

Section boot_lemmas.
Context {H : HashFn} {E : Ed25519}.

(** Blocks that replay from a chain's state reconnect one after another. *)
Lemma reconnect_ok D R now c l1 l2 i w :
  now + MAX_CLOCK_SKEW_S < 2 ^ 64 → 0 <= now → chain_shape D R now c l1 → Forall block_ok l2 →
  chained D now 1 (header genesisBlock) (l1 ++ l2) → runs R (state_ c) l2 w →
  ∃ c', reconnect c i l2 now = (mkBoot true status_ok, c') ∧ chain_shape D R now c' (l1 ++ l2) ∧
        state_ c' = w.
Proof.
  intros Hn H0. revert c l1 i. induction l2 as [|b l2 IH]; intros c l1 i Hs Hok Hch Hr; cbn [reconnect].
  { exists c. rewrite app_nil_r. inversion Hr; subst. done. }
  apply Forall_cons in Hok as [Hb Hok]. inversion Hr as [|? ? ? w1 ? Hrun Hr']; subst.
  replace (l1 ++ b :: l2) with ((l1 ++ [b]) ++ l2) in Hch |- * by by rewrite <- app_assoc.
  assert (valid_next c b now) as Hv.
  { apply (shape_next _ _ _ _ _ b now Hs).
    assert (∀ k h l l', chained D now k h (l ++ l') → chained D now k h l) as Hpre.
    { intros k h l. revert k h. induction l as [|x l IHl]; intros k h l'; cbn [app chained]; [done|].
      intros [? ?]. split; [done|by eapply IHl]. }
    apply Hpre in Hch. by apply chained_snoc in Hch as [_ ?]. }
  assert (connectBlock c b now = (OK, committed c b w1)) as ->.
  { apply connectBlock_ok_iff. split; [done|]. exists w1. by rewrite (sh_reward _ _ _ _ _ Hs). }
  rewrite bool_decide_eq_true_2 by done. cbn [negb].
  apply (IH (committed c b w1) (l1 ++ [b])); try done. by eapply committed_shape.
Qed.

Lemma load_ok_blocks f bs :
  load (Some f) = Ret (mkLoad bs status_ok) → Forall block_ok bs.
Proof.
  unfold load. assert (∀ lines acc idx, Forall block_ok acc → load_loop acc idx lines = Ret (mkLoad bs status_ok) →
    Forall block_ok bs) as Hl; [|by apply Hl].
  induction lines as [|l lines IH]; intros acc idx Hacc; cbn [load_loop]; [by intros [= <-]|].
  case_bool_decide; [by apply IH|]. destruct (from_json_line l) as [b| | | |] eqn:Eb; try done.
  apply IH. apply Forall_app. split; [done|]. constructor; [|constructor].
  unfold from_json_line in Eb. destruct (parse l); try done. by eapply block_of_value_ok.
Qed.

(** A file that starts with the genesis block and replays boots into its chain. *)
Lemma boot_starts sys cfg f now l :
  now + MAX_CLOCK_SKEW_S < 2 ^ 64 → 0 <= now →
  load (Some f) = Ret (mkLoad (genesisBlock :: l) status_ok) →
  vr_ok (replayFromGenesis (genesisBlock :: l) now (difficulty cfg) (node_reward cfg)) = true →
  ∃ c, boot sys cfg (Some f) now = Ret (mkBoot true status_ok, mkNode cfg c (Some f)) ∧
       blocks_ c = genesisBlock :: l ∧ runs (node_reward cfg) (applyGenesis ∅) l (state_ c) ∧
       chain_shape (difficulty cfg) (node_reward cfg) now c l.
Proof.
  intros Hn H0 Hl Hvr. destruct f as [|c0 f]; [done|].
  pose proof (load_ok_blocks _ _ Hl) as Hok. apply Forall_cons in Hok as [_ Hok].
  unfold boot. rewrite Hl. cbn [negb obind lr_status lr_blocks vr_ok status_ok].
  rewrite bool_decide_eq_true_2 by done. cbn [negb]. rewrite Hvr. cbn [negb].
  apply replay_ok_iff in Hvr as (b0' & l' & w & [= <- <-] & (_ & _ & _ & Hch & Hr) & _).
  destruct (reconnect_ok (difficulty cfg) (node_reward cfg) now (Chain_new (difficulty cfg) (node_reward cfg))
    [] l 1 w Hn H0 (genesis_shape _ _ _) Hok Hch Hr) as (c & Hrec & Hs & Hw).
  exists c. cbn [Node_new chain_]. rewrite Hrec. split; [done|]. rewrite Hw.
  split; [by rewrite (sh_blocks _ _ _ _ _ Hs)|]. split; [done|exact Hs].
Qed.
End boot_lemmas.

Lemma boot_decides {H : HashFn} {E : Ed25519} sys cfg f now b0 l :
  now + MAX_CLOCK_SKEW_S < 2 ^ 64 → 0 <= now →
  load (Some f) = Ret (mkLoad (b0 :: l) status_ok) →
  let vr := replayFromGenesis (b0 :: l) now (difficulty cfg) (node_reward cfg) in
  if bool_decide (b0 = genesisBlock) && vr_ok vr then
    ∃ c, boot sys cfg (Some f) now = Ret (mkBoot true status_ok, mkNode cfg c (Some f)) ∧
         blocks_ c = b0 :: l ∧ runs (node_reward cfg) (applyGenesis ∅) l (state_ c) ∧
         chain_shape (difficulty cfg) (node_reward cfg) now c l
  else
    boot sys cfg (Some f) now =
      Ret (mkBoot false (if bool_decide (b0 = genesisBlock) then vr
                         else mkVerify false 0 BAD_LINK (txt "genesis mismatch")), Node_new cfg (Some f)).
Proof.
  intros Hn H0 Hl vr. case_bool_decide as Hg; cbn [andb].
  - subst b0. destruct (vr_ok vr) eqn:Hvr; [by apply boot_starts|].
    destruct f as [|c0 f]; [done|]. unfold boot. rewrite Hl.
    cbn [negb obind lr_status lr_blocks vr_ok status_ok]. rewrite bool_decide_eq_true_2 by done.
    cbn [negb]. fold vr. by rewrite Hvr.
  - destruct f as [|c0 f]; [done|]. unfold boot. rewrite Hl.
    cbn [negb obind lr_status lr_blocks vr_ok status_ok]. by rewrite bool_decide_eq_false_2.
Qed.

(** C17. The boot gate: a node whose file loads to blocks starts exactly when block 0
    is the canonical genesis and the file passes the full replay at the node's
    difficulty and reward; it then holds precisely the file's chain, with the
    account state the replay computed.  Otherwise it reports the replay's own
    verdict (or the genesis mismatch); "reconnect failed" never happens. *)
Theorem boot_gate {H : HashFn} {E : Ed25519} sys cfg f now b0 l :
  now + MAX_CLOCK_SKEW_S < 2 ^ 64 → 0 <= now →
  load (Some f) = Ret (mkLoad (b0 :: l) status_ok) →
  let vr := replayFromGenesis (b0 :: l) now (difficulty cfg) (node_reward cfg) in
  if bool_decide (b0 = genesisBlock) && vr_ok vr then
    ∃ c, boot sys cfg (Some f) now = Ret (mkBoot true status_ok, mkNode cfg c (Some f)) ∧
         blocks_ c = b0 :: l ∧ runs (node_reward cfg) (applyGenesis ∅) l (state_ c) ∧
         chain_shape (difficulty cfg) (node_reward cfg) now c l
  else
    boot sys cfg (Some f) now =
      Ret (mkBoot false (if bool_decide (b0 = genesisBlock) then vr
                         else mkVerify false 0 BAD_LINK (txt "genesis mismatch")), Node_new cfg (Some f)).
Proof. apply boot_decides. Qed.

(** ** Durability *)

Section durability.
Context {H : HashFn} {E : Ed25519}.

(** The file holds exactly the in-memory chain, in complete lines. *)
Definition node_synced (nd : Node) : Prop :=
  ∃ f, file_ nd = Some f ∧ terminated f ∧ load (Some f) = Ret (mkLoad (blocks_ (chain_ nd)) status_ok).

Lemma append_synced sys f b bs file' :
  terminated f → json_exact b → load (Some f) = Ret (mkLoad bs status_ok) →
  appendBlock sys (Some f) b = Some (true, file') →
  ∃ f', file' = Some f' ∧ terminated f' ∧ load (Some f') = Ret (mkLoad (bs ++ [b]) status_ok).
Proof.
  intros Hf Hb Hl Ha. unfold appendBlock, write_file in Ha. destruct (open_ok sys); cbn [negb] in Ha; [|done].
  destruct (write_all _ _ _) as [[w g]|] eqn:Hw; [|done]. cbn in Ha. injection Ha as Hok <-.
  apply andb_true_iff in Hok as [-> _]. apply write_all_prefix in Hw as (n & _ & Hg).
  rewrite (Hg eq_refl). eexists. split; [done|]. split; [|by apply load_append].
  right. exists (f ++ to_json_line b). by rewrite app_assoc.
Qed.

Lemma transfers_det w l w1 w2 : transfers w l w1 → transfers w l w2 → w1 = w2.
Proof. induction 1; inversion 1; subst; auto. Qed.

Lemma block_run_det R idx w l w1 w2 : block_run R idx w l w1 → block_run R idx w l w2 → w1 = w2.
Proof.
  intros H1 H2. apply (applyBlockTxns_iff w (mkBlock (mkHeader idx 0 (arr_zero 32) (arr_zero 32) 0) l)) in H1, H2.
  congruence.
Qed.

Lemma runs_det R w l w1 w2 : runs R w l w1 → runs R w l w2 → w1 = w2.
Proof.
  intros H1. revert w2. induction H1 as [|w b l w1 w' Hb _ IH]; intros w2 H2; inversion H2; subst; [done|].
  apply IH. match goal with H : block_run _ _ w _ ?x |- runs _ w1 _ _ => by rewrite (block_run_det _ _ _ _ _ _ Hb H) end.
Qed.
End durability.

(** ** The pool stays includable *)

Section progress.
Context {H : HashFn} {E : Ed25519}.

(** A transfer by somebody else keeps a valid transfer valid. *)
Lemma transfer_ok_move w t u :
  ledger_ok w → transfer_ok w t → tx_from t ≠ tx_to t → 0 <= tx_amount t →
  transfer_ok w u → tx_from u ≠ tx_from t → transfer_ok (move w t) u.
Proof.
  intros Hw Ht Hne Ha [Hu Had Hs Hn Hf] Hd. pose proof (tr_funds _ _ Ht).
  pose proof (two_balances_le_supply w _ _ Hw Hne). pose proof (lok_total _ Hw).
  pose proof (ledger_balance w (tx_to t) Hw).
  split; try done.
  - by rewrite nonce_move, decide_False by done.
  - rewrite acct_at_move by done. case_decide as Hto.
    + cbn [balance]. rewrite u64_id by (unfold u64_ok; lia). rewrite Hto in Hf. lia.
    + by rewrite decide_False.
Qed.

(** Valid transfers by different senders run one after another, and leave every
    other sender's valid transfer valid. *)
Lemma independent_transfers w l :
  ledger_ok w → Forall (λ t, transfer_ok w t ∧ tx_from t ≠ tx_to t ∧ 0 <= tx_amount t) l →
  NoDup (map tx_from l) →
  ∃ w', transfers w l w' ∧ ledger_ok w' ∧
        ∀ u, transfer_ok w u → tx_from u ∉ map tx_from l → transfer_ok w' u.
Proof.
  revert w. induction l as [|t l IH]; intros w Hw Hl Hnd.
  { exists w. split; [constructor|]. by split. }
  apply Forall_cons in Hl as [(Ht & Hne & Ha) Hl]. cbn [map] in Hnd. apply NoDup_cons in Hnd as [Hnin Hnd].
  destruct (move_effect w t Hw Ht Hne Ha) as (_ & _ & Hw').
  destruct (IH (move w t) Hw') as (w' & Htr & Hok & Hk).
  - apply Forall_forall. intros u Hu. eapply Forall_forall in Hl as (Hu1 & Hu2 & Hu3); [|exact Hu].
    split_and!; [|done|done]. apply transfer_ok_move; try done.
    intros Heq. apply Hnin. rewrite <- Heq. apply list_elem_of_fmap_2. done.
  - done.
  - exists w'. split; [by constructor|]. split; [done|]. intros u Hu Hni. cbn [map] in Hni.
    apply not_elem_of_cons in Hni as [Hu1 Hu2]. apply Hk; [|done]. by apply transfer_ok_move.
Qed.

(** Every pooled transaction is one the tip would accept, and none is to its own
    sender (the gate takes those too, but they mint, and batches of them need not
    stay acceptable). *)
Definition pool_fresh (w : accounts) (mp : Mempool) : Prop :=
  ∀ e, e ∈ sortedBySeq mp →
    transfer_ok w (me_txn e) ∧ tx_from (me_txn e) ≠ tx_to (me_txn e) ∧ 0 <= tx_amount (me_txn e).

Lemma filter_drop {A B} `{EqDecision B} (f : A → B) n l :
  NoDup (map f l) → filter (λ x, f x ∉ map f (take n l)) l = drop n l.
Proof.
  assert (∀ a b, NoDup (map f (a ++ b)) → filter (λ x, f x ∉ map f a) (a ++ b) = b) as Hf.
  { intros a b Hnd. rewrite map_app in Hnd. apply NoDup_app in Hnd as (_ & Hd & _). rewrite filter_app.
    assert (filter (λ x, f x ∉ map f a) b = b) as Eb.
    { apply list_filter_all. intros x Hx Hin. apply (Hd _ Hin). by apply list_elem_of_fmap_2. }
    rewrite Eb. replace (filter _ a) with (@nil A); [done|]. symmetry. apply list_filter_none.
    intros x Hx Hn. apply Hn. by apply list_elem_of_fmap_2. }
  intros Hnd. specialize (Hf (take n l) (drop n l)). rewrite take_drop in Hf. by apply Hf.
Qed.

Lemma taken_no_clash mp k t : pool_wf mp → t ∈ take k (map me_txn (sortedBySeq mp)) → no_clash mp t.
Proof.
  intros Hm Ht e He. apply elem_of_take in Ht as (i & Ht & _).
  apply list_elem_of_lookup_2, list_elem_of_fmap in Ht as (e' & -> & He').
  apply sortedBySeq_elem in He'; [|done]. destruct (wf_entry _ Hm _ _ He') as (_ & Hid & _).
  rewrite Hid in He. congruence.
Qed.

Lemma drain_no_clash mp t : pool_wf mp → t ∈ drain mp → no_clash mp t.
Proof. apply taken_no_clash. Qed.

(** Evicting the first transactions leaves the others, in order. *)
Lemma evict_taken mp k :
  pool_wf mp → sortedBySeq (evictIncluded mp (take k (map me_txn (sortedBySeq mp)))) = drop k (sortedBySeq mp).
Proof.
  intros Hm. rewrite evictIncluded_sorted by (done || intros; by eapply taken_no_clash).
  assert (map txid (take k (map me_txn (sortedBySeq mp))) = map me_txid (take k (sortedBySeq mp))) as ->.
  { rewrite <- fmap_take. rewrite map_map. apply map_ext_in. intros e He.
    apply list_elem_of_In, elem_of_take in He as (i & He & _). apply list_elem_of_lookup_2 in He.
    apply sortedBySeq_elem in He; [|done]. by destruct (wf_entry _ Hm _ _ He) as (_ & -> & _). }
  apply filter_drop. by apply (sortedBySeq_nodup me_txid).
Qed.

Lemma evict_drained mp :
  pool_wf mp → sortedBySeq (evictIncluded mp (drain mp)) = drop MAX_TXNS_PER_BLOCK (sortedBySeq mp).
Proof. apply evict_taken. Qed.

(** A batch of at most eight transfers seals, when the clock allows it. *)
Lemma sealed_connects c now batch w' :
  transfers (state_ c) batch w' → (length batch ≤ MAX_TXNS_PER_BLOCK)%nat → difficulty_ c = 0 → reward_ c = 0 →
  0 <= h_timestamp (tip_header c) → 0 <= now →
  h_timestamp (tip_header c) + 1 <= now + MAX_CLOCK_SKEW_S < 2 ^ 64 →
  connectBlock c (sealed_block c now batch) now = (OK, committed c (sealed_block c now batch) w').
Proof.
  intros Htr Hlen HD HR Hts Hnow Hwin. apply connectBlock_ok_iff. split.
  - unfold MAX_CLOCK_SKEW_S in *. unfold valid_next.
    assert (h_timestamp (header (sealed_block c now batch)) = Z.max now (h_timestamp (tip_header c) + 1)) as Et.
    { cbn. by rewrite u64_id by (unfold u64_ok; lia). }
    split; try done; rewrite ?Et.
    + lia.
    + rewrite u64_id by (unfold u64_ok, MAX_CLOCK_SKEW_S; lia). unfold MAX_CLOCK_SKEW_S. lia.
    + rewrite HD. apply Target.meets_difficulty_0.
  - exists w'. split; [|done]. apply run_plain; [lia|done].
Qed.
End progress.

(** Durability: on a synchronised node (its file holds exactly its chain), a
    block committed with a successful append leaves the node synchronised, the
    file holding the extended chain; and restarting a synchronised node whose
    chain is reachable at the configured difficulty and free of self-transfers
    recovers the same blocks and the same account state. *)
Theorem restart_recovers {H : HashFn} {E : Ed25519} (nd : Node) sys now :
  node_synced nd →
  (∀ b nd' file', json_exact b → commitBlock sys nd b now = Ret (OK, nd') →
     appendBlock sys (file_ nd) b = Some (true, file') →
     node_synced nd' ∧ blocks_ (chain_ nd') = blocks_ (chain_ nd) ++ [b]) ∧
  (now + MAX_CLOCK_SKEW_S < 2 ^ 64 → 0 <= now → 0 < difficulty (cfg_ nd) →
   reachable (difficulty (cfg_ nd)) COINBASE_REWARD now (chain_ nd) →
   no_self (all_txns (blocks_ (chain_ nd))) → height (chain_ nd) < 2 ^ 58 →
   ∃ c, boot sys (cfg_ nd) (file_ nd) now = Ret (mkBoot true status_ok, mkNode (cfg_ nd) c (file_ nd)) ∧
        blocks_ c = blocks_ (chain_ nd) ∧ state_ c = state_ (chain_ nd)).
Proof.
  intros (f & Hf & Ht & Hl). split.
  - intros b nd' file' Hb Hc Ha. unfold commitBlock in Hc.
    destruct (connectBlock (chain_ nd) b now) as [r c] eqn:Hconn.
    case_bool_decide as Hr; cbn [negb] in Hc; [|by simplify_eq]. subst r.
    unfold append_ignoring in Hc. cbn [file_ cfg_ chain_] in Hc. rewrite Ha in Hc. injection Hc as <-.
    apply connectBlock_ok_iff in Hconn as (_ & w & _ & ->). cbn [chain_ committed blocks_]. split; [|done].
    rewrite Hf in Ha. destruct (append_synced _ _ _ _ _ Ht Hb Hl Ha) as (f' & -> & Ht' & Hl').
    by exists f'.
  - intros Hn H0 HD Hr Hs Hh. destruct (reachable_shape _ _ _ _ Hn Hr) as [l Hsh].
    assert (Hb := sh_blocks _ _ _ _ _ Hsh). rewrite Hb in Hl.
    assert (node_reward (cfg_ nd) = COINBASE_REWARD) as HR.
    { unfold node_reward. by rewrite (proj2 (Z.ltb_lt _ _) HD). }
    rewrite (shape_height _ _ _ _ _ Hsh) in Hh. rewrite Hb in Hs.
    destruct (runs_supply _ _ _ _ (sh_runs _ _ _ _ _ Hsh) applyGenesis_ok (sh_ok _ _ _ _ _ Hsh) Hs) as (Es & _ & _ & Hcb).
    { rewrite genesis_supply. unfold GENESIS_SUPPLY, COINBASE_REWARD. lia. }
    rewrite Hcb, genesis_supply in Es by done.
    assert (vr_ok (replayFromGenesis (genesisBlock :: l) now (difficulty (cfg_ nd)) (node_reward (cfg_ nd))) = true) as Hv.
    { rewrite HR. apply replay_ok_iff. exists genesisBlock, l, (state_ (chain_ nd)). split; [done|].
      split; [split_and!; [done..| |]; apply Hsh|]. unfold expected_supply. rewrite Es.
      unfold GENESIS_SUPPLY, COINBASE_REWARD in *.
      by rewrite !(u64_id (Z.of_nat _)), (u64_id (_ * 50)), Z.mul_comm by (unfold u64_ok; lia). }
    destruct (boot_starts sys (cfg_ nd) f now l Hn H0 Hl Hv) as (c & Hboot & Hbl & Hrun & _).
    exists c. rewrite Hf. split; [done|]. split; [by rewrite Hbl, Hb|].
    rewrite HR in Hrun. eapply runs_det; [exact Hrun|apply Hsh].
Qed.

(** A defect of the commit path: [commitBlock] drops the result of the durable
    append, so when the file cannot even be opened it still answers OK with the
    in-memory chain advanced, and the node is no longer synchronised: its file
    does not hold the block. *)
Theorem commit_ignores_append_failure {H : HashFn} {E : Ed25519} (nd : Node) b now c :
  connectBlock (chain_ nd) b now = (OK, c) → node_synced nd →
  ∃ nd', commitBlock (mkIo false [] false) nd b now = Ret (OK, nd') ∧
         blocks_ (chain_ nd') = blocks_ (chain_ nd) ++ [b] ∧ file_ nd' = file_ nd ∧ ¬ node_synced nd'.
Proof.
  intros Hc (f & Hf & Ht & Hl). unfold commitBlock. rewrite Hc. cbn.
  apply connectBlock_ok_iff in Hc as (_ & w & _ & ->). eexists. split; [done|]. split; [done|]. split; [done|].
  intros (f' & Hf' & _ & Hl'). cbn [file_ chain_ committed blocks_] in *.
  assert (f' = f) as -> by congruence. rewrite Hl in Hl'. injection Hl' as Hx.
  apply (f_equal length) in Hx. rewrite length_app in Hx. simpl in Hx. lia.
Qed.

(** C30. Progress of the cadence node: while the pool holds only transactions the tip
    would accept, none of them from an account to itself, on a ledger whose balances
    sum to less than 2^64, and the clock is not behind the tip by more than the
    allowed skew, every seal succeeds with the first transactions in admission
    order, the included ones leave the pool, and pool and ledger are again such on
    the new tip - so it is never stuck on a bad batch.  (Self-transfers, which the
    gate accepts too, are outside: they mint.) *)
Theorem seal_progress {H : HashFn} {E : Ed25519} sys (nd : Node) mp cap now file' ok :
  let c := chain_ nd in
  let batch := drain mp in
  pool_reach cap mp → pool_fresh (state_ c) mp → ledger_ok (state_ c) →
  difficulty_ c = 0 → reward_ c = 0 →
  0 <= h_timestamp (tip_header c) → 0 <= now →
  h_timestamp (tip_header c) + 1 <= now + MAX_CLOCK_SKEW_S < 2 ^ 64 →
  appendBlock sys (file_ nd) (sealed_block c now batch) = Some (ok, file') →
  ∃ nd' mp', seal_tick sys nd mp now = Ret (OK, nd', mp') ∧
    blocks_ (chain_ nd') = blocks_ c ++ [sealed_block c now batch] ∧
    sortedBySeq mp' = drop MAX_TXNS_PER_BLOCK (sortedBySeq mp) ∧
    pool_reach cap mp' ∧ pool_fresh (state_ (chain_ nd')) mp' ∧ ledger_ok (state_ (chain_ nd')).
Proof.
  intros c batch Hreach Hfresh Hw HD HR Hts Hnow Hwin Happ. destruct (pool_reach_wf cap mp Hreach) as [Hm _].
  assert (NoDup (map (λ e, tx_from (me_txn e)) (sortedBySeq mp))) as Hnd.
  { apply sortedBySeq_nodup; [done|]. intros e e' He He' Heq. by eapply wf_sender_inj. }
  assert (map tx_from batch = map (λ e, tx_from (me_txn e)) (take MAX_TXNS_PER_BLOCK (sortedBySeq mp))) as Hfrom.
  { unfold batch, drain. by rewrite <- fmap_take, map_map. }
  assert (NoDup (map tx_from batch ++ map (λ e, tx_from (me_txn e)) (drop MAX_TXNS_PER_BLOCK (sortedBySeq mp)))) as Hnd2.
  { by rewrite Hfrom, <- map_app, take_drop. }
  apply NoDup_app in Hnd2 as (Hnd1 & Hdisj & _).
  destruct (independent_transfers (state_ c) batch Hw) as (w' & Htr & Hw' & Hkeep); [|done|].
  { apply Forall_forall. intros t Ht. unfold batch, drain in Ht. apply elem_of_take in Ht as (i & Ht & _).
    apply list_elem_of_lookup_2, list_elem_of_fmap in Ht as (e & -> & He). by apply Hfresh. }
  assert (connectBlock c (sealed_block c now batch) now = (OK, committed c (sealed_block c now batch) w')) as Hconn.
  { apply sealed_connects; try done. unfold batch, drain. rewrite length_take. lia. }
  exists (mkNode (cfg_ nd) (committed c (sealed_block c now batch) w') file').
  exists (if negb (length batch =? 0)%nat then evictIncluded mp batch else mp).
  assert (sortedBySeq (if negb (length batch =? 0)%nat then evictIncluded mp batch else mp) =
          drop MAX_TXNS_PER_BLOCK (sortedBySeq mp)) as Hsort.
  { destruct (length batch =? 0)%nat eqn:Hb; cbn [negb]; [|by apply evict_drained].
    apply Nat.eqb_eq, length_zero_iff_nil in Hb. unfold batch, drain in Hb.
    destruct (sortedBySeq mp); [done|]. by cbn in Hb. }
  split; [|split; [done|]; split; [done|]; split; [|split; [|done]]].
  - unfold seal_tick. fold batch. unfold seal_next_block. fold c. rewrite Hconn.
    rewrite bool_decide_eq_true_2 by done. cbn [negb]. unfold append_ignoring. cbn [file_ cfg_ chain_].
    rewrite Happ. cbn [obind]. rewrite bool_decide_eq_true_2 by done. by destruct (length batch =? 0)%nat.
  - destruct (negb _); [|done]. apply pool_evict; [done|]. intros t Ht. by apply drain_no_clash.
  - intros e He. rewrite Hsort in He. cbn [chain_ committed state_].
    assert (e ∈ sortedBySeq mp) as Hin.
    { rewrite <- (take_drop MAX_TXNS_PER_BLOCK). apply elem_of_app. by right. }
    destruct (Hfresh e Hin) as (Hok & Hne & Ha). split_and!; [|done|done]. apply Hkeep; [done|].
    intros Hx. apply (Hdisj _ Hx). by apply (list_elem_of_fmap_2 (λ e, tx_from (me_txn e))).
Qed.

(** ** Worked examples *)

Module NodeDemo.
#[local] Existing Instances Demo.demo_hash Demo.demo_ed.

(** The worked chain of file Chain at difficulty 1, which every digest of the
    demonstration hash meets, and its file. *)
Definition cfg1 : NodeConfig :=
  mkConfig (txt "d") true 0 true 8 1 0 29000 0 false false 7200 (txt "json").
Definition k1 : Chain := (connectBlock (Chain_new 1 50) ChainDemo.b1 ChainDemo.now).2.
Definition k2 : Chain := (connectBlock k1 ChainDemo.b2 ChainDemo.now).2.
Definition lines (bs : list Block) : list byte := flat_map (λ b, to_json_line b ++ [newline]) bs.
Definition nd1 : Node := mkNode cfg1 k1 (Some (lines (blocks_ k1))).
Definition nd2 : Node := mkNode cfg1 k2 (Some (lines (blocks_ k2))).

Lemma connect_k1 : connectBlock (Chain_new 1 50) ChainDemo.b1 ChainDemo.now = (OK, k1).
Proof. apply ChainDemo.connect_ok. by vm_compute. Qed.
Lemma connect_k2 : connectBlock k1 ChainDemo.b2 ChainDemo.now = (OK, k2).
Proof. apply ChainDemo.connect_ok. by vm_compute. Qed.

Lemma exact_k1 : Forall json_exact (blocks_ k1).
Proof. apply (bool_decide_unpack _). by vm_compute. Qed.
Lemma exact_k2 : Forall json_exact (blocks_ k2).
Proof. apply (bool_decide_unpack _). by vm_compute. Qed.

Lemma synced bs c : Forall json_exact bs → blocks_ c = bs → bs ≠ [] →
  node_synced (mkNode cfg1 c (Some (lines bs))).
Proof.
  intros Hb Hc Hne. exists (lines bs). split; [done|]. split; [|cbn; rewrite Hc; by apply load_lines].
  right. destruct bs as [|b bs _] using rev_ind; [done|]. unfold lines.
  rewrite flat_map_app. cbn [flat_map]. rewrite app_nil_r, app_assoc. by eexists.
Qed.

Lemma nonempty_k1 : blocks_ k1 ≠ [].
Proof. by vm_compute. Qed.
Lemma nonempty_k2 : blocks_ k2 ≠ [].
Proof. by vm_compute. Qed.
Lemma synced1 : node_synced nd1.
Proof. exact (synced _ k1 exact_k1 eq_refl nonempty_k1). Qed.
Lemma synced2 : node_synced nd2.
Proof. exact (synced _ k2 exact_k2 eq_refl nonempty_k2). Qed.

Lemma reach_k2 : reachable 1 COINBASE_REWARD ChainDemo.now k2.
Proof.
  eapply (reach_connect _ _ _ k1 ChainDemo.b2 ChainDemo.now); [|apply ChainDemo.b2_ok|done|apply connect_k2].
  eapply (reach_connect _ _ _ _ ChainDemo.b1 ChainDemo.now); [constructor|apply ChainDemo.b1_ok|done|apply connect_k1].
Qed.
Lemma no_self_k2 : no_self (all_txns (blocks_ k2)).
Proof. apply (bool_decide_unpack _). by vm_compute. Qed.
Lemma height_k2 : height k2 < 2 ^ 58.
Proof. by vm_compute. Qed.
Lemma load2 : load (Some (lines (blocks_ k2))) = Ret (mkLoad (genesisBlock :: [ChainDemo.b1; ChainDemo.b2]) status_ok).
Proof.
  change (lines (blocks_ k2)) with (flat_map (λ b, to_json_line b ++ [newline]) (blocks_ k2)).
  rewrite load_lines by exact exact_k2.
  assert (blocks_ k2 = genesisBlock :: [ChainDemo.b1; ChainDemo.b2]) as ->; [|done].
  apply (bool_decide_unpack _). by vm_compute.
Qed.

Lemma valid_k2 :
  bool_decide (genesisBlock = genesisBlock) &&
  vr_ok (replayFromGenesis (genesisBlock :: [ChainDemo.b1; ChainDemo.b2]) ChainDemo.now
           (difficulty cfg1) (node_reward cfg1)) = true.
Proof. vm_compute. reflexivity. Qed.

(** A cadence node (difficulty 0, no coinbase required) whose account A was
    credited by a coinbase, with A's payment in the pool. *)
Definition q1 : Chain := (connectBlock (Chain_new 0 0) ChainDemo.b1 ChainDemo.now).2.
Definition pool : Mempool := (admit_txn (account q1) (Mempool_new 8) ChainDemo.pay).2.
Definition nq : Node := mkNode default_config q1 None.

Lemma ledger_ok_compute w :
  bool_decide (map_Forall (λ _ s, 0 <= balance s ∧ u64_ok (nonce s)) w) = true → supply w < 2 ^ 64 → ledger_ok w.
Proof.
  intros Hw%bool_decide_eq_true Hs. split; [| |done].
  - intros a s Ha. by apply (Hw a s).
  - intros a s Ha. by apply (Hw a s).
Qed.
Lemma ledger_q1 : ledger_ok (state_ q1).
Proof. apply ledger_ok_compute; by vm_compute. Qed.
Lemma pool_reach_q1 : pool_reach 8 pool.
Proof. apply pool_admit; [constructor|by vm_compute]. Qed.
Lemma pool_one : sortedBySeq pool = [mkEntryOf ChainDemo.pay (txid ChainDemo.pay) 0].
Proof. apply (bool_decide_unpack _). by vm_compute. Qed.
Lemma fresh_q1 : pool_fresh (state_ q1) pool.
Proof.
  intros e. rewrite pool_one. intros ->%list_elem_of_singleton. cbn [me_txn].
  split; [|split; [by vm_compute|done]].
  assert ((applyTxn (state_ q1) ChainDemo.pay 2 0).1 = OK) as Ha by (by vm_compute).
  destruct (applyTxn (state_ q1) ChainDemo.pay 2 0) as [r w] eqn:Hr. cbn in Ha. subst r.
  apply applyTxn_user_ok in Hr; [by apply Hr|by vm_compute].
Qed.
Lemma tip_q1 : 0 <= h_timestamp (tip_header q1).
Proof. by vm_compute. Qed.
Lemma window_q1 : h_timestamp (tip_header q1) + 1 <= ChainDemo.now + MAX_CLOCK_SKEW_S < 2 ^ 64.
Proof. split; by vm_compute. Qed.
Definition file_q : option (list byte) := Some (to_json_line (sealed_block q1 ChainDemo.now (drain pool)) ++ [newline]).
Lemma append_q :
  appendBlock (mkIo true [Wrote 100000] true) None (sealed_block q1 ChainDemo.now (drain pool)) = Some (true, file_q).
Proof. apply (bool_decide_unpack _). by vm_compute. Qed.
End NodeDemo.

Lemma boot_gate_witness :
  ∃ c, boot (H := Demo.demo_hash) (E := Demo.demo_ed) StoreDemo.good_io NodeDemo.cfg1 (file_ NodeDemo.nd2) ChainDemo.now =
       Ret (mkBoot true status_ok, mkNode NodeDemo.cfg1 c (file_ NodeDemo.nd2)).
Proof.
  pose proof (boot_gate (H := Demo.demo_hash) (E := Demo.demo_ed) StoreDemo.good_io NodeDemo.cfg1 _ ChainDemo.now _ _
    ChainDemo.now_room PowDemo.now_nonneg NodeDemo.load2) as Hb.
  assert (bool_decide (genesisBlock (H := Demo.demo_hash) = genesisBlock (H := Demo.demo_hash)) &&
    vr_ok (replayFromGenesis (H := Demo.demo_hash) (E := Demo.demo_ed)
      (genesisBlock (H := Demo.demo_hash) :: [ChainDemo.b1; ChainDemo.b2]) ChainDemo.now
      (difficulty NodeDemo.cfg1) (node_reward NodeDemo.cfg1)) = true) as Hc by exact NodeDemo.valid_k2.
  cbv zeta in Hb. rewrite Hc in Hb. destruct Hb as (c & Hb & _). exists c. exact Hb.
Defined.

Lemma restart_recovers_witness :
  ∃ c, boot (H := Demo.demo_hash) (E := Demo.demo_ed) StoreDemo.good_io (cfg_ NodeDemo.nd2) (file_ NodeDemo.nd2) ChainDemo.now =
       Ret (mkBoot true status_ok, mkNode (cfg_ NodeDemo.nd2) c (file_ NodeDemo.nd2)) ∧
       state_ c = state_ (chain_ NodeDemo.nd2).
Proof.
  destruct (proj2 (restart_recovers (H := Demo.demo_hash) (E := Demo.demo_ed) NodeDemo.nd2 StoreDemo.good_io ChainDemo.now
    NodeDemo.synced2) ChainDemo.now_room PowDemo.now_nonneg eq_refl NodeDemo.reach_k2 NodeDemo.no_self_k2
    NodeDemo.height_k2) as (c & Hb & _ & Hs).
  exists c. split; [exact Hb|exact Hs].
Defined.

Lemma commit_ignores_append_failure_witness :
  ∃ nd', commitBlock (H := Demo.demo_hash) (E := Demo.demo_ed) (mkIo false [] false) NodeDemo.nd1 ChainDemo.b2 ChainDemo.now
         = Ret (OK, nd') ∧ file_ nd' = file_ NodeDemo.nd1.
Proof.
  destruct (commit_ignores_append_failure (H := Demo.demo_hash) (E := Demo.demo_ed) NodeDemo.nd1 ChainDemo.b2
    ChainDemo.now NodeDemo.k2 NodeDemo.connect_k2 NodeDemo.synced1) as (nd' & Hc & _ & Hf & _).
  exists nd'. split; [exact Hc|exact Hf].
Defined.

Lemma seal_progress_witness :
  ∃ nd' mp', seal_tick (H := Demo.demo_hash) (E := Demo.demo_ed) (mkIo true [Wrote 100000] true) NodeDemo.nq NodeDemo.pool
               ChainDemo.now = Ret (OK, nd', mp') ∧ sortedBySeq mp' = [].
Proof.
  destruct (seal_progress (H := Demo.demo_hash) (E := Demo.demo_ed) _ NodeDemo.nq NodeDemo.pool 8 ChainDemo.now _ _
    NodeDemo.pool_reach_q1 NodeDemo.fresh_q1 NodeDemo.ledger_q1 eq_refl eq_refl NodeDemo.tip_q1
    PowDemo.now_nonneg NodeDemo.window_q1 NodeDemo.append_q) as (nd' & mp' & Ht & _ & Hs & _).
  exists nd', mp'. split; [exact Ht|]. rewrite Hs, NodeDemo.pool_one. reflexivity.
Defined.
