(* ===== verification/Config.v ===== *)
(** Configuration of the node process: [resolve_config] of
    [src/node/node.cpp], with the overlay of the JSON config file.

    [argv] is the list of arguments after the program name; the file system is
    a function from paths to contents. *)

From Stdlib Require Import ZArith Lia Ascii String.
From stdpp Require Import base list strings.
From S2P Require Import Prelude Text Picojson Json Node.

(** ** Field updates *)

Section setters.
Variable cfg : NodeConfig.
Definition set_datadir v := mkConfig v (mine_flag cfg) (seal_cadence_ms cfg) (seal_empty cfg) (max_txns_per_block cfg)
  (difficulty cfg) (node_index cfg) (port_base cfg) (rpc_port cfg) (no_rpc cfg) (no_p2p cfg) (max_skew_s cfg) (log_format cfg).
Definition set_mine v := mkConfig (datadir cfg) v (seal_cadence_ms cfg) (seal_empty cfg) (max_txns_per_block cfg)
  (difficulty cfg) (node_index cfg) (port_base cfg) (rpc_port cfg) (no_rpc cfg) (no_p2p cfg) (max_skew_s cfg) (log_format cfg).
Definition set_cadence v := mkConfig (datadir cfg) (mine_flag cfg) v (seal_empty cfg) (max_txns_per_block cfg)
  (difficulty cfg) (node_index cfg) (port_base cfg) (rpc_port cfg) (no_rpc cfg) (no_p2p cfg) (max_skew_s cfg) (log_format cfg).
Definition set_seal_empty v := mkConfig (datadir cfg) (mine_flag cfg) (seal_cadence_ms cfg) v (max_txns_per_block cfg)
  (difficulty cfg) (node_index cfg) (port_base cfg) (rpc_port cfg) (no_rpc cfg) (no_p2p cfg) (max_skew_s cfg) (log_format cfg).
Definition set_max_txns v := mkConfig (datadir cfg) (mine_flag cfg) (seal_cadence_ms cfg) (seal_empty cfg) v
  (difficulty cfg) (node_index cfg) (port_base cfg) (rpc_port cfg) (no_rpc cfg) (no_p2p cfg) (max_skew_s cfg) (log_format cfg).
Definition set_difficulty v := mkConfig (datadir cfg) (mine_flag cfg) (seal_cadence_ms cfg) (seal_empty cfg) (max_txns_per_block cfg)
  v (node_index cfg) (port_base cfg) (rpc_port cfg) (no_rpc cfg) (no_p2p cfg) (max_skew_s cfg) (log_format cfg).
Definition set_node_index v := mkConfig (datadir cfg) (mine_flag cfg) (seal_cadence_ms cfg) (seal_empty cfg) (max_txns_per_block cfg)
  (difficulty cfg) v (port_base cfg) (rpc_port cfg) (no_rpc cfg) (no_p2p cfg) (max_skew_s cfg) (log_format cfg).
Definition set_port_base v := mkConfig (datadir cfg) (mine_flag cfg) (seal_cadence_ms cfg) (seal_empty cfg) (max_txns_per_block cfg)
  (difficulty cfg) (node_index cfg) v (rpc_port cfg) (no_rpc cfg) (no_p2p cfg) (max_skew_s cfg) (log_format cfg).
Definition set_rpc_port v := mkConfig (datadir cfg) (mine_flag cfg) (seal_cadence_ms cfg) (seal_empty cfg) (max_txns_per_block cfg)
  (difficulty cfg) (node_index cfg) (port_base cfg) v (no_rpc cfg) (no_p2p cfg) (max_skew_s cfg) (log_format cfg).
Definition set_no_rpc v := mkConfig (datadir cfg) (mine_flag cfg) (seal_cadence_ms cfg) (seal_empty cfg) (max_txns_per_block cfg)
  (difficulty cfg) (node_index cfg) (port_base cfg) (rpc_port cfg) v (no_p2p cfg) (max_skew_s cfg) (log_format cfg).
Definition set_no_p2p v := mkConfig (datadir cfg) (mine_flag cfg) (seal_cadence_ms cfg) (seal_empty cfg) (max_txns_per_block cfg)
  (difficulty cfg) (node_index cfg) (port_base cfg) (rpc_port cfg) (no_rpc cfg) v (max_skew_s cfg) (log_format cfg).
Definition set_max_skew v := mkConfig (datadir cfg) (mine_flag cfg) (seal_cadence_ms cfg) (seal_empty cfg) (max_txns_per_block cfg)
  (difficulty cfg) (node_index cfg) (port_base cfg) (rpc_port cfg) (no_rpc cfg) (no_p2p cfg) v (log_format cfg).
Definition set_log_format v := mkConfig (datadir cfg) (mine_flag cfg) (seal_cadence_ms cfg) (seal_empty cfg) (max_txns_per_block cfg)
  (difficulty cfg) (node_index cfg) (port_base cfg) (rpc_port cfg) (no_rpc cfg) (no_p2p cfg) (max_skew_s cfg) v.
End setters.

(** ** The config file *)

(** The lambdas [get_bool], [get_str] and [get_u64]: the value of the key, or
    what the field held before. *)
Definition cfg_bool (o : list (list byte * value)) (k : string) (out : bool) : bool :=
  match obj_find (txt k) o with Some (boolean b) => b | _ => out end.

Definition cfg_str (o : list (list byte * value)) (k : string) (out : list byte) : list byte :=
  match obj_find (txt k) o with Some (vstring s) => s | _ => out end.

Definition cfg_u64 (o : list (list byte * value)) (k : string) (out : Z) : outcome Z :=
  match obj_find (txt k) o with
  | Some (int64 x) => Ret (if 0 <=? x then u64 x else out)
  | Some (number d) => if double_negative d then Ret out else double_to_u64 d
  | _ => Ret out
  end.

Definition overlay (o : list (list byte * value)) (cfg : NodeConfig) : outcome NodeConfig :=
  let cfg := set_datadir cfg (cfg_str o "datadir" (datadir cfg)) in
  let cfg := set_mine cfg (cfg_bool o "mine" (mine_flag cfg)) in
  let cfg := set_seal_empty cfg (cfg_bool o "seal_empty" (seal_empty cfg)) in
  let cfg := set_no_rpc cfg (cfg_bool o "no_rpc" (no_rpc cfg)) in
  let cfg := set_no_p2p cfg (cfg_bool o "no_p2p" (no_p2p cfg)) in
  let* v := cfg_u64 o "seal_cadence_ms" (seal_cadence_ms cfg) in
  let cfg := set_cadence cfg v in
  let* v := cfg_u64 o "max_skew_s" (max_skew_s cfg) in
  let cfg := set_max_skew cfg v in
  let* tmp := cfg_u64 o "max_txns_per_block" (max_txns_per_block cfg) in
  let cfg := set_max_txns cfg tmp in
  let* tmp := cfg_u64 o "difficulty" (difficulty cfg) in
  let cfg := set_difficulty cfg (to_unsigned tmp) in
  let* tmp := cfg_u64 o "node_index" (u64 (node_index cfg)) in
  let cfg := set_node_index cfg (to_int tmp) in
  let* tmp := cfg_u64 o "port_base" (u64 (port_base cfg)) in
  let cfg := set_port_base cfg (to_int tmp) in
  Ret (set_log_format cfg (cfg_str o "log_format" (log_format cfg))).

(** A missing, malformed or non-object file changes nothing. *)
Definition apply_config_file (content : option (list byte)) (cfg : NodeConfig) : outcome NodeConfig :=
  match content with
  | None => Ret cfg
  | Some content =>
      match parse content with
      | Ret (vobject o) => overlay o cfg
      | Ret _ | Fail => Ret cfg
      | Throw => Throw
      | Undefined => Undefined
      | NoFuel => NoFuel
      end
  end.

(** ** The command line *)

Definition truthy (v : list byte) : bool := bool_decide (v = txt "true") || bool_decide (v = txt "1").

Definition is_flag (arg : list byte) (f : string) : bool := bool_decide (arg = txt f).

(** Phase 1: the last [--datadir] and [--config] that have a successor. *)
Fixpoint prescan (argv : list (list byte)) (dd config_file : list byte) : list byte * list byte :=
  match argv with
  | a :: ((b :: _) as rest) =>
      if is_flag a "--datadir" then prescan rest b config_file
      else if is_flag a "--config" then prescan rest dd b
      else prescan rest dd config_file
  | _ => (dd, config_file)
  end.

(** Flags that take the next argument as their value. *)
Definition takes_value (f : list byte) : bool :=
  is_flag f "--datadir" || is_flag f "--config" || is_flag f "--seal-cadence" || is_flag f "--seal-empty" ||
  is_flag f "--max-txns-per-block" || is_flag f "--difficulty" || is_flag f "--node-index" ||
  is_flag f "--port-base" || is_flag f "--rpc-port" || is_flag f "--max-skew" || is_flag f "--log-format".

(** The effect of one flag; [v] is the argument [val()] took. *)
Definition apply_flag (cfg : NodeConfig) (f v : list byte) : NodeConfig :=
  if is_flag f "--datadir" then set_datadir cfg v
  else if is_flag f "--config" then cfg
  else if is_flag f "--mine" then set_mine cfg true
  else if is_flag f "--no-rpc" then set_no_rpc cfg true
  else if is_flag f "--no-p2p" then set_no_p2p cfg true
  else if is_flag f "--seal-cadence" then set_cadence cfg (strtoull v)
  else if is_flag f "--seal-empty" then set_seal_empty cfg (truthy v)
  else if is_flag f "--max-txns-per-block" then set_max_txns cfg (strtoull v)
  else if is_flag f "--difficulty" then set_difficulty cfg (to_unsigned (strtoull v))
  else if is_flag f "--node-index" then set_node_index cfg (to_int (strtol v))
  else if is_flag f "--port-base" then set_port_base cfg (to_int (strtol v))
  else if is_flag f "--rpc-port" then set_rpc_port cfg (to_int (strtol v))
  else if is_flag f "--max-skew" then set_max_skew cfg (strtoull v)
  else if is_flag f "--log-format" then set_log_format cfg v
  else cfg.

(** Phase 3: [++i] past a value, the empty string when there is none. *)
Fixpoint apply_cli (argv : list (list byte)) (cfg : NodeConfig) : NodeConfig :=
  match argv with
  | [] => cfg
  | f :: rest =>
      if takes_value f then
        match rest with
        | v :: rest => apply_cli rest (apply_flag cfg f v)
        | [] => apply_flag cfg f []
        end
      else apply_cli rest (apply_flag cfg f [])
  end.

Definition resolve_config (files : list byte → option (list byte)) (argv : list (list byte)) : outcome NodeConfig :=
  let '(dd, config_file) := prescan argv (datadir default_config) [] in
  let cfg := set_datadir default_config dd in
  let path := if bool_decide (config_file = []) then dd ++ txt "/node.json" else config_file in
  let* cfg := apply_config_file (files path) cfg in
  Ret (apply_cli argv cfg).

(** ** Specification: three layers

    A field is what the last occurrence of its flag says, else what the config
    file says, else the built-in default. *)

(** The flags of a command line with the values they take. *)
Fixpoint flags_of (argv : list (list byte)) : list (list byte * list byte) :=
  match argv with
  | [] => []
  | f :: rest =>
      if takes_value f then
        match rest with
        | v :: rest => (f, v) :: flags_of rest
        | [] => [(f, [])]
        end
      else (f, []) :: flags_of rest
  end.

(** The value of the last occurrence of [f], converted, or [dflt]. *)
Definition on_cli {A} (l : list (list byte * list byte)) (f : string) (conv : list byte → A) (dflt : A) : A :=
  foldl (λ acc p, if is_flag p.1 f then conv p.2 else acc) dflt l.

(** The object in the config file, empty when there is none. *)
Definition file_object (content : option (list byte)) : list (list byte * value) :=
  match content with
  | Some c => match parse c with Ret (vobject o) => o | _ => [] end
  | None => []
  end.

Lemma args_ind (P : list (list byte) → Prop) :
  P [] → (∀ f, P [f]) → (∀ f v l, P l → P (v :: l) → P (f :: v :: l)) → ∀ l, P l.
Proof.
  intros H0 H1 H2 l. assert (P l ∧ ∀ x, P (x :: l)) as [? _]; [|done].
  induction l as [|v l [IH1 IH2]]; [by split|]. split; [apply IH2|]. intros f. apply H2; [done|apply IH2].
Qed.

Lemma apply_cli_flags argv cfg : apply_cli argv cfg = foldl (λ c p, apply_flag c p.1 p.2) cfg (flags_of argv).
Proof.
  revert cfg. induction argv as [|f|f v l IH1 IH2] using args_ind; intros cfg; [done| |].
  - cbn [apply_cli flags_of]. by destruct (takes_value f).
  - cbn [apply_cli flags_of]. destruct (takes_value f); cbn [foldl fst snd]; [apply IH1|apply IH2].
Qed.

Lemma is_flag_eq a f : is_flag a f = true → a = txt f.
Proof. apply bool_decide_eq_true_1. Qed.

(** One flag updates one field: the fields of a folded command line. *)
Lemma fold_field {A} (get : NodeConfig → A) (f : string) (conv : list byte → A) l cfg :
  (∀ c p, get (apply_flag c p.1 p.2) = if is_flag p.1 f then conv p.2 else get c) →
  get (foldl (λ c p, apply_flag c p.1 p.2) cfg l) = on_cli l f conv (get cfg).
Proof.
  intros Hf. unfold on_cli. revert cfg. induction l as [|p l IH]; intros cfg; [done|].
  cbn [foldl]. by rewrite IH, Hf.
Qed.

(** Which field a flag sets, by cases on the flag. *)
Ltac flag_cases :=
  let c := fresh "c" in let a := fresh "flag" in let v := fresh "v" in
  intros c [a v]; cbn [fst snd]; unfold apply_flag;
  repeat match goal with
    | |- context [if is_flag a ?g then _ else _] =>
        let E := fresh "E" in destruct (is_flag a g) eqn:E;
        [apply is_flag_eq in E; subst a; try reflexivity; by vm_compute|]
    end; reflexivity.

Lemma to_int_u64 z : - 2 ^ 31 <= z < 2 ^ 31 → to_int (u64 z) = z.
Proof.
  intros Hz. unfold to_int, u64. rewrite <- (Z.mod_mod_divide (z mod 2 ^ 64 + 2 ^ 31) (2 ^ 64) (2 ^ 32)) by (by exists (2 ^ 32)).
  rewrite Z.add_mod_idemp_l by done. rewrite Z.mod_mod_divide by (by exists (2 ^ 32)).
  rewrite Z.mod_small by lia. lia.
Qed.

(** A file that is missing, malformed or not an object is an empty object. *)
Lemma apply_config_file_object content dd cfg :
  apply_config_file content (set_datadir default_config dd) = Ret cfg →
  overlay (file_object content) (set_datadir default_config dd) = Ret cfg.
Proof.
  unfold apply_config_file, file_object.
  destruct content as [c|]; [|by intros [= <-]]. destruct (parse c) as [[]| | | |]; try (by intros [= <-]); done.
Qed.

(** The effective configuration has the documented precedence, field by field:
    the last occurrence of the field's flag on the command line, else the key of
    the config file ([--config], else [<datadir>/node.json] with the datadir of
    the command line) if it has the right type, else the built-in default; numbers
    are converted to the width of their field. *)
Theorem config_precedence files argv cfg :
  resolve_config files argv = Ret cfg →
  let '(dd, config_file) := prescan argv (txt "./txchain-data") [] in
  let o := file_object (files (if bool_decide (config_file = []) then dd ++ txt "/node.json" else config_file)) in
  let l := flags_of argv in
  ∃ cadence skew cap diff idx base,
    cfg_u64 o "seal_cadence_ms" 5000 = Ret cadence ∧ cfg_u64 o "max_skew_s" 7200 = Ret skew ∧
    cfg_u64 o "max_txns_per_block" 8 = Ret cap ∧ cfg_u64 o "difficulty" 0 = Ret diff ∧
    cfg_u64 o "node_index" 0 = Ret idx ∧ cfg_u64 o "port_base" 29000 = Ret base ∧
    datadir cfg = on_cli l "--datadir" id (cfg_str o "datadir" dd) ∧
    mine_flag cfg = on_cli l "--mine" (λ _, true) (cfg_bool o "mine" false) ∧
    seal_cadence_ms cfg = on_cli l "--seal-cadence" strtoull cadence ∧
    seal_empty cfg = on_cli l "--seal-empty" truthy (cfg_bool o "seal_empty" true) ∧
    max_txns_per_block cfg = on_cli l "--max-txns-per-block" strtoull cap ∧
    difficulty cfg = on_cli l "--difficulty" (λ v, to_unsigned (strtoull v)) (to_unsigned diff) ∧
    node_index cfg = on_cli l "--node-index" (λ v, to_int (strtol v)) (to_int idx) ∧
    port_base cfg = on_cli l "--port-base" (λ v, to_int (strtol v)) (to_int base) ∧
    rpc_port cfg = on_cli l "--rpc-port" (λ v, to_int (strtol v)) 0 ∧
    no_rpc cfg = on_cli l "--no-rpc" (λ _, true) (cfg_bool o "no_rpc" false) ∧
    no_p2p cfg = on_cli l "--no-p2p" (λ _, true) (cfg_bool o "no_p2p" false) ∧
    max_skew_s cfg = on_cli l "--max-skew" strtoull skew ∧
    log_format cfg = on_cli l "--log-format" id (cfg_str o "log_format" (txt "json")).
Proof.
  unfold resolve_config. change (datadir default_config) with (txt "./txchain-data").
  destruct (prescan argv _ []) as [dd config_file]. intros Hc.
  set (content := files _) in *. clearbody content.
  destruct (apply_config_file content (set_datadir default_config dd)) as [c0| | | |] eqn:Ef; try done.
  cbn [obind] in Hc. injection Hc as <-. apply apply_config_file_object in Ef.
  cbn zeta. set (o := file_object content) in *. clearbody o. unfold overlay in Ef.
  repeat (match type of Ef with obind ?x _ = Ret _ =>
    let E := fresh "Ev" in destruct x eqn:E; cbn [obind] in Ef; try discriminate Ef end).
  injection Ef as <-. rewrite apply_cli_flags. do 6 eexists.
  do 6 (split; [eassumption|]).
  split_and!;
    match goal with |- context [on_cli _ ?f ?conv _] => rewrite (fold_field _ f conv) by flag_cases; reflexivity end.
Qed.

Module ConfigDemo.
Definition files (p : list byte) : option (list byte) :=
  if bool_decide (p = txt "/data/node.json")
  then Some (txt "{" ++ jkey "mine" ++ txt "true," ++ jkey "difficulty" ++ txt "12," ++ jkey "port_base" ++ txt "30000}")
  else None.
Definition argv : list (list byte) := map txt ["--datadir"; "/data"; "--difficulty"; "20"; "--rpc-port"; "8080"; "--bogus"]%string.
Definition cfg : NodeConfig :=
  mkConfig (txt "/data") true 5000 true 8 20 0 30000 8080 false false 7200 (txt "json").
Lemma resolved : resolve_config files argv = Ret cfg.
Proof. by vm_compute. Qed.
End ConfigDemo.

Lemma config_precedence_witness : difficulty ConfigDemo.cfg = 20 ∧ rpc_port_for ConfigDemo.cfg = 8080.
Proof.
  destruct (config_precedence ConfigDemo.files ConfigDemo.argv ConfigDemo.cfg ConfigDemo.resolved)
    as (a & b & c & d & e & f & _ & _ & _ & _ & _ & _ & _ & _ & _ & _ & _ & Hd & _ & _ & Hr & _).
  split; [rewrite Hd; by vm_compute|]. unfold rpc_port_for. rewrite Hr. by vm_compute.
Defined.
