(* ===== verification/Rpc.v ===== *)
(** The RPC endpoints: [src/rpc/rpc.cpp], [include/txchain/rpc/rpc.hpp], and
    the closures [txnode] installs in the context.

    [handle_request] is the pure dispatcher of the code: a request and a
    context give a response and the mempool afterwards. *)

From Stdlib Require Import ZArith Lia Ascii String.
From stdpp Require Import base list strings gmap.
From S2P Require Import Prelude Text Sha256 Crypto Canonical Wallet Gate Chain Mempool Picojson Json Store Node.

Import Facade.

Record TipInfo := mkTip {
  t_index : Z;
  t_blockHash : Digest32;
  t_prevHash : Digest32;
  t_cumWork : Z;
  t_difficulty : Z;
  t_timestamp : Z
}.

(** [mempool_account] is the committed-tip callback the mempool object holds. *)
Record RpcContext := mkCtx {
  ctx_account : Address20 → AccountState;
  ctx_tip : TipInfo;
  ctx_mempool : Mempool;
  mempool_account : Address20 → AccountState
}.

Record RpcResponse := mkResp { status : Z; resp_body : list byte }.

#[export] Instance RpcResponse_eq_dec : EqDecision RpcResponse.
Proof. solve_decision. Defined.

Definition json_error (token detail : list byte) : list byte :=
  txt "{" ++ jkey "error" ++ quoted token ++ txt "," ++ jkey "detail" ++ quoted detail ++ txt "}".

(** The digits the [while (v > 0)] loop pushes, lowest first; forty digits hold
    every 128-bit value. *)
Fixpoint u128_digits (fuel : nat) (v : Z) : list byte :=
  match fuel with
  | O => []
  | S fuel => if 0 <? v then digit (v mod 10) :: u128_digits fuel (v / 10) else []
  end.

Definition u128_to_string (v : Z) : list byte :=
  return_if v =? 0 with txt "0" ;;
  rev (u128_digits 40 v).

Definition is_blank (c : byte) : bool :=
  (byte_to_Z c =? 32) || (byte_to_Z c =? 9) || (byte_to_Z c =? 13) || (byte_to_Z c =? 10).

Fixpoint trim_left (l : list byte) : list byte :=
  match l with [] => [] | c :: l' => if is_blank c then trim_left l' else l end.

(** Forward from the front, then backward from the end. *)
Definition trim (s : list byte) : list byte := rev (trim_left (rev (trim_left s))).

Definition admit_status (a : AdmitResult.t) : Z :=
  match a with
  | AdmitResult.OK => 200
  | AdmitResult.STALE_NONCE | AdmitResult.DUPLICATE | AdmitResult.PENDING_SLOT_BUSY => 409
  | AdmitResult.MEMPOOL_FULL => 503
  | AdmitResult.UNPARSEABLE => 400
  | AdmitResult.BAD_ADDR | AdmitResult.BAD_SIG | AdmitResult.INSUFFICIENT_FUNDS => 400
  end.

Section rpc.
Context {H : HashFn} {E : Ed25519}.

Definition submit_tx (body : list byte) (ctx : RpcContext) : RpcResponse * Mempool :=
  let hex := trim body in
  match Hex.from_hex kTxnSize hex with
  | None => (mkResp 400 (json_error (txt "PARSE_ERROR") (txt "body must be a 153-byte hex-encoded txn")),
             ctx_mempool ctx)
  | Some bytes =>
      let '(ar, mp) := admit_bytes (mempool_account ctx) (ctx_mempool ctx) (arr_list bytes) in
      return_if bool_decide (ar = AdmitResult.OK)
        with (mkResp 200 (txt "{" ++ jkey "txid" ++ jhex (sha256 (arr_list bytes)) ++ txt "}"), mp) ;;
      let token := if bool_decide (ar = AdmitResult.UNPARSEABLE) then txt "PARSE_ERROR" else admit_result_name ar in
      (mkResp (admit_status ar) (json_error token (txt "rejected by admit()")), mp)
  end.

Definition account_resp (addr_hex : list byte) (ctx : RpcContext) : RpcResponse :=
  match Hex.from_hex 20 addr_hex with
  | None => mkResp 400 (json_error (txt "BAD_REQUEST") (txt "address must be 40 hex chars"))
  | Some a =>
      let acct := ctx_account ctx a in
      let confirmed := nonce acct in
      let pending := u64 (confirmed + (if hasPending (ctx_mempool ctx) a then 1 else 0)) in
      mkResp 200 (txt "{" ++ jkey "address" ++ jhex a ++ txt "," ++ jkey "balance" ++ to_string (balance acct) ++
                  txt "," ++ jkey "confirmedNonce" ++ to_string confirmed ++
                  txt "," ++ jkey "pendingNonce" ++ to_string pending ++ txt "}")
  end.

Definition tip_resp (ctx : RpcContext) : RpcResponse :=
  let t := ctx_tip ctx in
  mkResp 200 (txt "{" ++ jkey "index" ++ to_string (t_index t) ++ txt "," ++ jkey "blockHash" ++ jhex (t_blockHash t) ++
              txt "," ++ jkey "prevHash" ++ jhex (t_prevHash t) ++
              txt "," ++ jkey "cumWork" ++ quoted (u128_to_string (t_cumWork t)) ++
              txt "," ++ jkey "difficulty" ++ to_string (t_difficulty t) ++
              txt "," ++ jkey "timestamp" ++ to_string (t_timestamp t) ++ txt "}").

(** The target without its query string. *)
Definition path_of (target : list byte) : list byte :=
  match find (txt "?") target with Some q => take q target | None => target end.

Definition handle_request (method target body : list byte) (ctx : RpcContext) : RpcResponse * Mempool :=
  let path := path_of target in
  return_if bool_decide (method = txt "POST") && bool_decide (path = txt "/tx") with submit_tx body ctx ;;
  return_if bool_decide (method = txt "GET") && bool_decide (path = txt "/tip") with (tip_resp ctx, ctx_mempool ctx) ;;
  return_if bool_decide (method = txt "GET") && is_prefix (txt "/account/") path
    with (account_resp (drop (length (txt "/account/")) path) ctx, ctx_mempool ctx) ;;
  (mkResp 404 (json_error (txt "NOT_FOUND") (txt "unknown route")), ctx_mempool ctx).

(** The tip closure of [txnode]. *)
Definition tip_info (c : Chain) : TipInfo :=
  let blk := default genesisBlock (blockAt c (height c)) in
  mkTip (height c) (block_hash (header blk)) (h_prevHash (header blk)) (cumWork_ c) (difficulty_ c)
        (h_timestamp (header blk)).

(** The context [txnode] builds: both account callbacks read the live chain. *)
Definition node_ctx (nd : Node) (mp : Mempool) : RpcContext :=
  mkCtx (account (chain_ nd)) (tip_info (chain_ nd)) mp (account (chain_ nd)).

(** ** The texts of the responses, as values *)

Definition error_value (token detail : list byte) : value :=
  vobject [(txt "error", vstring token); (txt "detail", vstring detail)].
Definition txid_value (d : Digest32) : value := vobject [(txt "txid", hex_value d)].
Definition account_value (a : Address20) (bal confirmed pending : Z) : value := vobject [
  (txt "address", hex_value a); (txt "balance", int64 bal);
  (txt "confirmedNonce", int64 confirmed); (txt "pendingNonce", int64 pending)].
Definition tip_value (t : TipInfo) : value := vobject [
  (txt "index", int64 (t_index t)); (txt "blockHash", hex_value (t_blockHash t));
  (txt "prevHash", hex_value (t_prevHash t)); (txt "cumWork", vstring (u128_to_string (t_cumWork t)));
  (txt "difficulty", int64 (t_difficulty t)); (txt "timestamp", int64 (t_timestamp t))].

Lemma json_error_eq token detail : json_error token detail = print (error_value token detail).
Proof. unfold json_error, error_value, jkey. cbn [print map join fst snd]. rewrite <- !app_assoc. reflexivity. Qed.

Lemma txid_eq d : txt "{" ++ jkey "txid" ++ jhex d ++ txt "}" = print (txid_value d).
Proof. unfold txid_value, jkey, jhex, hex_value. cbn [print map join fst snd]. rewrite <- !app_assoc. reflexivity. Qed.

Lemma account_eq a ctx :
  resp_body (account_resp (Hex.to_hex (arr_list a)) ctx) =
  print (account_value a (balance (ctx_account ctx a)) (nonce (ctx_account ctx a))
           (u64 (nonce (ctx_account ctx a) + (if hasPending (ctx_mempool ctx) a then 1 else 0)))).
Proof.
  unfold account_resp. rewrite Hex.from_to_hex. cbn [resp_body].
  unfold account_value, jkey, jhex, hex_value. cbn [print map join fst snd]. rewrite <- !app_assoc. reflexivity.
Qed.

Lemma tip_eq ctx : resp_body (tip_resp ctx) = print (tip_value (ctx_tip ctx)).
Proof.
  unfold tip_resp, tip_value, jkey, jhex, hex_value. cbn [resp_body print map join fst snd].
  rewrite <- !app_assoc. reflexivity.
Qed.
End rpc.

(** ** Lemmas *)

Lemma token_plain l : forallb plain_char l = true → plain l.
Proof. intros Hk. apply Forall_forall. intros c Hc. eapply forallb_forall in Hk; [done|]. by apply list_elem_of_In. Qed.

Lemma nodup_keys (o : list (list byte)) : bool_decide (NoDup o) = true → NoDup o.
Proof. apply bool_decide_eq_true_1. Qed.

(** A printable object is one whose keys are distinct plain texts and whose
    members are printable. *)
Ltac printable_object :=
  unfold DEFAULT_MAX_DEPTHS; cbn [printable]; split; [lia|]; split; [apply nodup_keys; by vm_compute|];
  cbn [foldr fst snd]; split_and!; try (by apply key_plain); try apply hex_plain; try done; try lia.

Lemma parse_object v : printable DEFAULT_MAX_DEPTHS v → (∀ i, v ≠ int64 i) → parse (print v) = Ret v.
Proof.
  intros Hp Hi. rewrite <- (app_nil_r (print v)). apply parse_print; [done|]. by destruct v.
Qed.

Lemma json_get_string_object o key s :
  printable DEFAULT_MAX_DEPTHS (vobject o) → obj_find (txt key) o = Some (vstring s) →
  json_get_string (print (vobject o)) key = Ret s.
Proof. intros Hp Hf. unfold json_get_string. rewrite parse_object by done. cbn [obind]. by rewrite Hf. Qed.

Lemma json_get_u64_object o key i :
  printable DEFAULT_MAX_DEPTHS (vobject o) → obj_find (txt key) o = Some (int64 i) → 0 <= i < 2 ^ 63 →
  json_get_u64 (print (vobject o)) key = Ret i.
Proof.
  intros Hp Hf Hi. unfold json_get_u64. rewrite parse_object by done. cbn [obind]. by apply get_u64_value.
Qed.

Lemma error_token token detail :
  plain token → plain detail → json_get_string (json_error token detail) "error" = Ret token.
Proof.
  intros Ht Hd. rewrite json_error_eq. unfold error_value. apply json_get_string_object; [|by eval_find].
  by printable_object.
Qed.

Lemma txid_token (d : Digest32) :
  json_get_string (txt "{" ++ jkey "txid" ++ jhex d ++ txt "}") "txid" = Ret (Hex.to_hex (arr_list d)).
Proof.
  rewrite txid_eq. unfold txid_value. apply json_get_string_object; [|by eval_find]. by printable_object.
Qed.

Lemma trim_left_blank ws l :
  Forall (λ c, is_blank c = true) ws → trim_left (ws ++ l) = trim_left l.
Proof. induction 1 as [|c ws Hc _ IH]; [done|]. cbn [app trim_left]. by rewrite Hc. Qed.

Lemma trim_left_none l :
  match l with c :: _ => is_blank c = false | [] => True end → trim_left l = l.
Proof. destruct l as [|c l]; [done|]. intros Hc. cbn [trim_left]. by rewrite Hc. Qed.

(** Trimming takes exactly the blanks around a text without blanks. *)
Lemma trim_around ws1 ws2 l :
  Forall (λ c, is_blank c = true) ws1 → Forall (λ c, is_blank c = true) ws2 →
  Forall (λ c, is_blank c = false) l → l ≠ [] → trim (ws1 ++ l ++ ws2) = l.
Proof.
  intros H1 H2 Hl Hne. unfold trim. rewrite trim_left_blank by done.
  rewrite (trim_left_none (l ++ ws2)) by (destruct l; [done|by apply Forall_cons in Hl as [? _]]).
  rewrite rev_app_distr, trim_left_blank by (by apply Forall_rev).
  rewrite trim_left_none, rev_involutive; [done|].
  destruct l as [|c l _] using rev_ind; [done|]. rewrite rev_app_distr. cbn [rev app].
  by apply Forall_app in Hl as [_ [? _]%Forall_cons].
Qed.

Lemma hex_not_blank b : Forall (λ c, is_blank c = false) (Hex.to_hex b).
Proof.
  eapply Forall_impl; [apply Hex.to_hex_digits|]. cbn beta. intros c.
  unfold Hex.is_lower_hex, is_blank, is_digit. lia.
Qed.

(** [while (v > 0)] and the recursive decimal rendering agree. *)
Lemma u128_digits_eq fuel v :
  0 < v < 10 ^ Z.of_nat fuel → rev (u128_digits fuel v) = dec_digits fuel v.
Proof.
  revert v. induction fuel as [|fuel IH]; intros v Hv; [simpl in Hv; lia|].
  cbn [u128_digits dec_digits]. rewrite (proj2 (Z.ltb_lt 0 v)) by lia. cbn [rev].
  assert (0 <= v / 10 < 10 ^ Z.of_nat fuel) as Hd.
  { rewrite Nat2Z.inj_succ, Z.pow_succ_r in Hv by lia. split; [apply Z.div_pos; lia|apply Z.div_lt_upper_bound; lia]. }
  destruct (Z.ltb_spec v 10) as [Hs|Hs].
  - rewrite Z.div_small, Z.mod_small by lia. by destruct fuel.
  - rewrite IH; [done|]. split; [|lia]. assert (1 <= v / 10) by (apply Z.div_le_lower_bound; lia). lia.
Qed.

Lemma u128_to_string_eq v : 0 <= v < 2 ^ 128 → u128_to_string v = to_string v.
Proof.
  intros Hv. unfold u128_to_string. destruct (Z.eqb_spec v 0) as [->|Hn]; [done|].
  apply u128_digits_eq. change (10 ^ Z.of_nat 40) with 10000000000000000000000000000000000000000. lia.
Qed.

Lemma digits_plain l : Forall (λ c, is_digit c = true) l → plain l.
Proof. intros Hl. eapply Forall_impl; [done|]. cbn beta. intros c. unfold is_digit, plain_char, is_char. lia. Qed.

Lemma admit_name_plain a : plain (admit_result_name a).
Proof. apply token_plain. by destruct a. Qed.

(** A query string, or none. *)
Definition is_query (q : list byte) : Prop := q = [] ∨ ∃ q', q = txt "?" ++ q'.

Lemma path_of_query p q : Z_to_byte 63 ∉ p → is_query q → path_of (p ++ q) = p.
Proof.
  unfold path_of. change (txt "?") with [Z_to_byte 63]. intros Hp [->|[q' ->]].
  - by rewrite app_nil_r, find_char_none.
  - change (txt "?" ++ q') with (Z_to_byte 63 :: q'). by rewrite find_char_app, take_app_length by done.
Qed.

Section endpoints.
Context {H : HashFn} {E : Ed25519}.

Lemma account_value_printable (a : Address20) b n p :
  0 <= b < 2 ^ 63 → 0 <= n < 2 ^ 63 → 0 <= p < 2 ^ 63 →
  printable DEFAULT_MAX_DEPTHS (account_value a b n p).
Proof. intros. unfold account_value. by printable_object. Qed.

Lemma tip_value_printable t :
  0 <= t_index t < 2 ^ 63 → 0 <= t_cumWork t < 2 ^ 128 → 0 <= t_difficulty t < 2 ^ 63 →
  0 <= t_timestamp t < 2 ^ 63 → printable DEFAULT_MAX_DEPTHS (tip_value t).
Proof.
  intros. unfold tip_value. printable_object. cbn [printable]. rewrite u128_to_string_eq by done.
  apply digits_plain, to_string_digits. lia.
Qed.

Lemma submit_hex ws1 ws2 t ctx :
  txn_ok t → tx_ver t = kTxnVersion →
  Forall (λ c, is_blank c = true) ws1 → Forall (λ c, is_blank c = true) ws2 →
  submit_tx (ws1 ++ Hex.to_hex (serialize_txn t) ++ ws2) ctx =
  let '(ar, mp) := admit_txn (mempool_account ctx) (ctx_mempool ctx) t in
  (if bool_decide (ar = AdmitResult.OK)
   then mkResp 200 (txt "{" ++ jkey "txid" ++ jhex (txid t) ++ txt "}")
   else mkResp (admit_status ar)
          (json_error (if bool_decide (ar = AdmitResult.UNPARSEABLE) then txt "PARSE_ERROR" else admit_result_name ar)
             (txt "rejected by admit()")), mp).
Proof.
  intros Ht Hv H1 H2. unfold submit_tx.
  rewrite trim_around by (done || apply hex_not_blank ||
    (intros Hn%(f_equal length); rewrite Hex.to_hex_length, serialize_txn_length in Hn; done)).
  assert (serialize_txn t = arr_list (arr_of kTxnSize (serialize_txn t))) as Es
    by (by rewrite arr_of_list by apply serialize_txn_length).
  rewrite Es at 1. rewrite Hex.from_to_hex, <- Es. unfold admit_bytes, txid.
  rewrite deserialize_of_serialize by done. destruct (admit_txn _ _ t) as [ar mp]. by case_bool_decide.
Qed.

Lemma account_path_plain (a : Address20) : Z_to_byte 63 ∉ txt "/account/" ++ Hex.to_hex (arr_list a).
Proof.
  intros [Hin|Hin]%elem_of_app.
  - revert Hin. apply (bool_decide_unpack _). by vm_compute.
  - pose proof (Hex.to_hex_digits (arr_list a)) as Hd. rewrite Forall_forall in Hd.
    specialize (Hd _ Hin). by vm_compute in Hd.
Qed.

(** Timestamps of a chain stay below the clock bound. *)
Lemma chained_skew D now idx h l :
  chained D now idx h l → h_timestamp h <= u64 (now + MAX_CLOCK_SKEW_S) →
  h_timestamp h <= h_timestamp (tip_of h l) <= u64 (now + MAX_CLOCK_SKEW_S).
Proof.
  revert idx h. induction l as [|b l IH]; intros idx h; cbn [chained]; [unfold tip_of; simpl; lia|].
  intros [[] Hl] _. rewrite tip_of_cons. destruct (IH _ _ Hl); lia.
Qed.

Lemma tip_info_shape D R now c :
  now + MAX_CLOCK_SKEW_S < 2 ^ 63 → GENESIS_TIMESTAMP <= now → reachable D R now c →
  let t := tip_info c in
  t_index t = height c ∧ t_blockHash t = tipHash c ∧
  t_cumWork t = u128 (height c * Target.block_work D) ∧ t_difficulty t = D ∧
  0 <= t_timestamp t < 2 ^ 63 ∧ 0 <= height c.
Proof.
  intros Hn Hg Hc. destruct (reachable_shape D R now c) as [l Hs]; [lia|done|]. cbn zeta.
  pose proof (shape_height _ _ _ _ _ Hs) as Hh. pose proof (shape_tip _ _ _ _ _ Hs) as Htip.
  assert (header (default genesisBlock (blockAt c (height c))) = tip_header c) as Eb.
  { unfold blockAt, tip_header. rewrite Hh, Nat2Z.id. f_equal. f_equal.
    rewrite (sh_blocks _ _ _ _ _ Hs), last_lookup. done. }
  unfold tip_info. cbn [t_index t_blockHash t_cumWork t_difficulty t_timestamp]. rewrite Eb.
  split; [done|]. split; [done|]. rewrite Hh, (sh_work _ _ _ _ _ Hs). split; [done|].
  split; [apply Hs|]. split; [|lia]. rewrite Htip.
  pose proof (chained_skew _ _ _ _ _ (sh_chained _ _ _ _ _ Hs)) as Ht.
  change (h_timestamp (header genesisBlock)) with GENESIS_TIMESTAMP in Ht.
  unfold GENESIS_TIMESTAMP, MAX_CLOCK_SKEW_S in *. rewrite u64_id in Ht by (unfold u64_ok; lia). lia.
Qed.
(** The transaction a body carries. *)
Definition submitted (body : list byte) : option Txn :=
  bytes ← Hex.from_hex kTxnSize (trim body); deserialize_txn (arr_list bytes).

(** The only effect of a request: a [POST /tx] that is admitted. *)
Lemma request_effect method target body ctx r mp :
  handle_request method target body ctx = (r, mp) →
  mp = ctx_mempool ctx ∨
  method = txt "POST" ∧ path_of target = txt "/tx" ∧ status r = 200 ∧
  ∃ t, submitted body = Some t ∧ txn_ok t ∧ map Hex.lower (trim body) = Hex.to_hex (serialize_txn t) ∧
       admit_txn (mempool_account ctx) (ctx_mempool ctx) t = (AdmitResult.OK, mp).
Proof.
  unfold handle_request. intros Hr.
  destruct (bool_decide (method = txt "POST")) eqn:Em; cbn [andb] in Hr.
  2: { split_guards_in Hr; simplify_eq; by left. }
  destruct (bool_decide (path_of target = txt "/tx")) eqn:Ep; [|split_guards_in Hr; simplify_eq; by left].
  reflect_bools. unfold submit_tx in Hr.
  destruct (Hex.from_hex kTxnSize (trim body)) as [bytes|] eqn:Eh; [|simplify_eq; by left].
  destruct (admit_bytes _ _ _) as [ar mp'] eqn:Ea.
  assert (mp' = mp) as -> by (split_guards_in Hr; by simplify_eq).
  unfold admit_bytes in Ea. destruct (deserialize_txn (arr_list bytes)) as [t|] eqn:Ed; [|simplify_eq; by left].
  destruct (decide (ar = AdmitResult.OK)) as [->|Hno]; [|apply admit_fail_unchanged in Ea; [by left|done]].
  rewrite bool_decide_eq_true_2 in Hr by done. injection Hr as <-. right. split_and!; [done..|]. exists t.
  split; [unfold submitted; by rewrite Eh; cbn [mbind option_bind]|].
  apply deserialize_sound in Ed as (-> & Hok & _). split_and!; [done| |done]. symmetry. by apply from_hex_renders.
Qed.
End endpoints.

(** Submitting a transaction over RPC is admitting it: [POST /tx] with the
    hexadecimal canonical encoding (blanks around it and a query string allowed)
    leaves the mempool exactly as [Mempool::admit] does, answers with the status
    of the admission result, and the client reads back the transaction id on
    success and the reason token otherwise. *)
Theorem post_tx_is_admit {H : HashFn} {E : Ed25519} (t : Txn) ctx query ws1 ws2 :
  txn_ok t → tx_ver t = kTxnVersion → is_query query →
  Forall (λ c, is_blank c = true) ws1 → Forall (λ c, is_blank c = true) ws2 →
  ∃ body, let '(ar, mp) := admit_txn (mempool_account ctx) (ctx_mempool ctx) t in
    handle_request (txt "POST") (txt "/tx" ++ query) (ws1 ++ Hex.to_hex (serialize_txn t) ++ ws2) ctx =
      (mkResp (admit_status ar) body, mp) ∧
    (ar = AdmitResult.OK → json_get_string body "txid" = Ret (Hex.to_hex (arr_list (txid t)))) ∧
    (ar ≠ AdmitResult.OK → json_get_string body "error" =
       Ret (if bool_decide (ar = AdmitResult.UNPARSEABLE) then txt "PARSE_ERROR" else admit_result_name ar)).
Proof.
  intros Ht Hv Hq H1 H2. unfold handle_request. rewrite path_of_query; [|apply (bool_decide_unpack _); by vm_compute|done].
  change (bool_decide (txt "POST" = txt "POST") && bool_decide (txt "/tx" = txt "/tx")) with true. cbn iota.
  rewrite submit_hex by done. destruct (admit_txn _ _ t) as [ar mp]. case_bool_decide as Hr.
  - subst ar. eexists. split; [reflexivity|]. split; [intros _; apply txid_token|done].
  - eexists. split; [reflexivity|]. split; [done|]. intros _. apply error_token; [|by apply token_plain].
    case_bool_decide; [by apply token_plain|apply admit_name_plain].
Qed.

(** The RPC surface can change the node in one way only: a request after which the
    mempool differs is a [POST /tx] answered 200 whose body is, up to surrounding
    blanks and the case of the digits, the hexadecimal encoding of a transaction
    the mempool admitted; every other request is a read. *)
Theorem rpc_only_admits {H : HashFn} {E : Ed25519} method target body ctx r mp :
  handle_request method target body ctx = (r, mp) → mp ≠ ctx_mempool ctx →
  method = txt "POST" ∧ path_of target = txt "/tx" ∧ status r = 200 ∧
  ∃ t, map Hex.lower (trim body) = Hex.to_hex (serialize_txn t) ∧
       admit_txn (mempool_account ctx) (ctx_mempool ctx) t = (AdmitResult.OK, mp).
Proof.
  intros [?|(Hm & Hp & Hs & t & _ & _ & Ht & Ha)]%request_effect Hne; [done|]. split_and!; [done..|]. by exists t.
Qed.

(** What a wallet learns from [GET /account/{addr}]: the committed balance and
    nonce, and as pending nonce the committed one plus one exactly when the
    sender has a transaction in the pool (values below 2^63, which the client
    reads exactly). *)
Theorem get_account_spec {H : HashFn} {E : Ed25519} (a : Address20) ctx query :
  let acct := ctx_account ctx a in
  let pending := nonce acct + (if hasPending (ctx_mempool ctx) a then 1 else 0) in
  0 <= balance acct < 2 ^ 63 → 0 <= nonce acct < 2 ^ 63 - 1 → is_query query →
  ∃ body, handle_request (txt "GET") (txt "/account/" ++ Hex.to_hex (arr_list a) ++ query) [] ctx =
            (mkResp 200 body, ctx_mempool ctx) ∧
    json_get_string body "address" = Ret (Hex.to_hex (arr_list a)) ∧
    json_get_u64 body "balance" = Ret (balance acct) ∧
    json_get_u64 body "confirmedNonce" = Ret (nonce acct) ∧
    json_get_u64 body "pendingNonce" = Ret pending.
Proof.
  intros acct pending Hb Hn Hq. exists (resp_body (account_resp (Hex.to_hex (arr_list a)) ctx)).
  assert (0 <= pending < 2 ^ 63) as Hp by (unfold pending; destruct (hasPending _ _); lia).
  split.
  { unfold handle_request. rewrite app_assoc, path_of_query; [|by apply account_path_plain|done].
    rewrite is_prefix_app, drop_app_length. by unfold account_resp; rewrite Hex.from_to_hex. }
  rewrite account_eq. fold acct. rewrite u64_id by (unfold u64_ok; fold pending; lia). fold pending.
  assert (0 <= nonce acct < 2 ^ 63) as Hn2 by lia.
  pose proof (account_value_printable a _ _ _ Hb Hn2 Hp) as Hpr.
  unfold account_value in *. split_and!.
  - apply json_get_string_object; [done|by eval_find].
  - apply json_get_u64_object; [done|by eval_find|done].
  - apply json_get_u64_object; [done|by eval_find|lia].
  - apply json_get_u64_object; [done|by eval_find|done].
Qed.

(** What [GET /tip] reports of a node: on every reachable chain the index is the
    height, the hash is the hash the next block must link to, and the decimal
    cumulative work is height * 2^D. *)
Theorem get_tip_spec {H : HashFn} {E : Ed25519} (D R now : Z) (nd : Node) mp :
  now + MAX_CLOCK_SKEW_S < 2 ^ 63 → GENESIS_TIMESTAMP <= now → reachable D R now (chain_ nd) → 0 <= D < 2 ^ 32 →
  height (chain_ nd) < 2 ^ 63 →
  ∃ body, handle_request (txt "GET") (txt "/tip") [] (node_ctx nd mp) = (mkResp 200 body, mp) ∧
    json_get_u64 body "index" = Ret (height (chain_ nd)) ∧
    json_get_string body "blockHash" = Ret (Hex.to_hex (arr_list (tipHash (chain_ nd)))) ∧
    json_get_u64 body "difficulty" = Ret D ∧
    json_get_string body "cumWork" = Ret (to_string (u128 (height (chain_ nd) * Target.block_work D))).
Proof.
  intros Hnow Hg Hr HD Hh. destruct (tip_info_shape D R now (chain_ nd)) as (Hi & Hb & Hw & Hd & Ht & Hrange); [done..|].
  exists (resp_body (tip_resp (node_ctx nd mp))). split; [done|]. rewrite tip_eq. cbn [ctx_tip node_ctx].
  assert (printable DEFAULT_MAX_DEPTHS (tip_value (tip_info (chain_ nd)))) as Hp.
  { apply tip_value_printable; rewrite ?Hi, ?Hw, ?Hd; try lia. unfold u128. apply Z.mod_pos_bound. lia. }
  unfold tip_value in *. rewrite Hi, Hb, Hw, Hd in *. rewrite u128_to_string_eq in *
    by (unfold u128; apply Z.mod_pos_bound; lia). split_and!.
  - apply json_get_u64_object; [done|by eval_find|lia].
  - apply json_get_string_object; [done|by eval_find].
  - apply json_get_u64_object; [done|by eval_find|lia].
  - apply json_get_string_object; [done|by eval_find].
Qed.

Module RpcDemo.
#[local] Existing Instances Demo.demo_hash Demo.demo_ed.

Definition pay : Txn := PoolDemo.pay.
Definition tip0 : TipInfo := tip_info (Chain_new 0 0).
Definition ctx0 : RpcContext := mkCtx (acct_at GateDemo.ledger) tip0 PoolDemo.m0 (acct_at GateDemo.ledger).
Definition post : list byte := Hex.to_hex (serialize_txn pay) ++ txt "  ".
Definition answer : RpcResponse * Mempool := handle_request (txt "POST") (txt "/tx?x=1") post ctx0.

Lemma pay_ok : txn_ok pay.
Proof. apply (bool_decide_unpack _). by vm_compute. Qed.
Lemma pay_ver : tx_ver pay = kTxnVersion.
Proof. done. Qed.
Lemma query1 : is_query (txt "?x=1").
Proof. right. by exists (txt "x=1"). Qed.
Lemma blanks : Forall (λ c, is_blank c = true) (txt "  ").
Proof. by repeat constructor. Qed.
Lemma no_blanks : Forall (λ c, is_blank c = true) [].
Proof. constructor. Qed.
Lemma changed : answer.2 ≠ ctx_mempool ctx0.
Proof. intros He%(f_equal pool_size). revert He. by vm_compute. Qed.

Definition nd2 : Node := mkNode default_config ChainDemo.c2 None.
Definition ctx2 : RpcContext := node_ctx nd2 PoolDemo.m0.
Lemma balance2 : 0 <= balance (ctx_account ctx2 GateDemo.addrA) < 2 ^ 63.
Proof. by vm_compute. Qed.
Lemma nonce2 : 0 <= nonce (ctx_account ctx2 GateDemo.addrA) < 2 ^ 63 - 1.
Proof. by vm_compute. Qed.
Lemma plain_query : is_query [].
Proof. by left. Qed.
Lemma height_nd2 : height (chain_ nd2) < 2 ^ 63.
Proof. by vm_compute. Qed.
End RpcDemo.

Lemma post_tx_is_admit_witness :
  ∃ body, let '(ar, mp) := admit_txn (H := Demo.demo_hash) (E := Demo.demo_ed)
                             (mempool_account RpcDemo.ctx0) (ctx_mempool RpcDemo.ctx0) RpcDemo.pay in
    handle_request (H := Demo.demo_hash) (E := Demo.demo_ed) (txt "POST") (txt "/tx" ++ txt "?x=1")
      ([] ++ Hex.to_hex (serialize_txn RpcDemo.pay) ++ txt "  ") RpcDemo.ctx0 = (mkResp (admit_status ar) body, mp) ∧
    (ar = AdmitResult.OK →
     json_get_string body "txid" = Ret (Hex.to_hex (arr_list (txid (H := Demo.demo_hash) RpcDemo.pay)))) ∧
    (ar ≠ AdmitResult.OK → json_get_string body "error" =
       Ret (if bool_decide (ar = AdmitResult.UNPARSEABLE) then txt "PARSE_ERROR" else admit_result_name ar)).
Proof.
  exact (post_tx_is_admit (H := Demo.demo_hash) (E := Demo.demo_ed) RpcDemo.pay RpcDemo.ctx0 (txt "?x=1") [] (txt "  ")
    RpcDemo.pay_ok RpcDemo.pay_ver RpcDemo.query1 RpcDemo.no_blanks RpcDemo.blanks).
Defined.

Lemma rpc_only_admits_witness : status (RpcDemo.answer.1) = 200.
Proof.
  exact (proj1 (proj2 (proj2 (rpc_only_admits (H := Demo.demo_hash) (E := Demo.demo_ed) _ _ _ _ _ _
    (surjective_pairing RpcDemo.answer) RpcDemo.changed)))).
Defined.

Lemma get_account_spec_witness :
  ∃ body, handle_request (H := Demo.demo_hash) (E := Demo.demo_ed) (txt "GET")
            (txt "/account/" ++ Hex.to_hex (arr_list GateDemo.addrA) ++ []) [] RpcDemo.ctx2 =
          (mkResp 200 body, ctx_mempool RpcDemo.ctx2) ∧
    json_get_u64 body "confirmedNonce" = Ret (nonce (ctx_account RpcDemo.ctx2 GateDemo.addrA)).
Proof.
  destruct (get_account_spec (H := Demo.demo_hash) (E := Demo.demo_ed) GateDemo.addrA RpcDemo.ctx2 []
    RpcDemo.balance2 RpcDemo.nonce2 RpcDemo.plain_query) as (body & Hb & _ & _ & Hn & _).
  exists body. split; [exact Hb|exact Hn].
Defined.

Lemma get_tip_spec_witness :
  ∃ body, handle_request (H := Demo.demo_hash) (E := Demo.demo_ed) (txt "GET") (txt "/tip") []
            (node_ctx (H := Demo.demo_hash) RpcDemo.nd2 PoolDemo.m0) = (mkResp 200 body, PoolDemo.m0) ∧
    json_get_u64 body "index" = Ret (height (chain_ RpcDemo.nd2)).
Proof.
  destruct (get_tip_spec (H := Demo.demo_hash) (E := Demo.demo_ed) 0 50 ChainDemo.now RpcDemo.nd2 PoolDemo.m0
    eq_refl ltac:(done) ChainDemo.reach2 ltac:(done) RpcDemo.height_nd2) as (body & Hb & Hi & _).
  exists body. split; [exact Hb|exact Hi].
Defined.
