(* ===== verification/Http.v ===== *)
(** The HTTP/1.1 transport: the request reader and responder of
    [src/rpc/http_server.cpp] and the client of [src/rpc/http_client.cpp].

    A connection delivers its bytes in chunks, one per [read]; an empty chunk
    is a [read] that returns 0 or fails.  A script of chunks that ends while
    the code still reads leaves the call blocked ([None]).  A [write] to a peer
    that is gone raises SIGPIPE, which neither program ignores: it ends the
    process there ([None] again, told apart by [hung_up]).  The server object
    is its port, its listening descriptor and its stop flag; the system calls
    that set it up answer from a script, and the descriptors the process holds
    are a set.  The request handler is a state-passing function. *)

From Stdlib Require Import ZArith Lia Ascii String.
From stdpp Require Import base list strings gmap fin_sets.
From S2P Require Import Prelude Text Picojson Store Rpc.

Definition crlf : list byte := [Z_to_byte 13; Z_to_byte 10].
Definition blank_line : list byte := crlf ++ crlf.

(** ** Server: [http_server.cpp] *)

Definition kMaxRequestBytes : Z := 2 ^ 20.

Definition reason_phrase (status : Z) : list byte :=
  if status =? 200 then txt "OK"
  else if status =? 400 then txt "Bad Request"
  else if status =? 404 then txt "Not Found"
  else if status =? 409 then txt "Conflict"
  else if status =? 503 then txt "Service Unavailable"
  else txt "Error".

Definition size_of (l : list byte) : Z := Z.of_nat (length l).

(** The header loop: the request so far and where its headers end, or
    [None] inside when [read_request] returns false. *)
Fixpoint read_headers (s : list (list byte)) (req : list byte)
  : option (option (list byte * nat * list (list byte))) :=
  match s with
  | [] => None
  | chunk :: s =>
      return_if bool_decide (chunk = []) with Some None ;;
      let req := req ++ chunk in
      return_if kMaxRequestBytes <? size_of req with Some None ;;
      match find blank_line req with
      | Some header_end => Some (Some (req, header_end, s))
      | None => read_headers s req
      end
  end.

(** [content_length * 10 + digit] on a [std::size_t]. *)
Fixpoint size_digits (n : Z) (p : list byte) : Z :=
  match p with
  | c :: p => if is_digit c then size_digits (u64 (n * 10 + (byte_to_Z c - 48))) p else n
  | [] => n
  end.

Fixpoint skip_tabs (p : list byte) : list byte :=
  match p with
  | c :: p' => if (byte_to_Z c =? 32) || (byte_to_Z c =? 9) then skip_tabs p' else p
  | [] => []
  end.

Definition content_length (lower : list byte) : Z :=
  match find (txt "content-length:") lower with
  | None => 0
  | Some cl => size_digits 0 (skip_tabs (drop (cl + length (txt "content-length:")) lower))
  end.

(** The body loop; a short body is handed on as it is. *)
Fixpoint read_body (s : list (list byte)) (need : Z) (req : list byte) : option (bool * list byte) :=
  if need <=? 0 then Some (true, req)
  else
    match s with
    | [] => None
    | chunk :: s =>
        return_if bool_decide (chunk = []) with Some (true, req) ;;
        let req := req ++ chunk in
        return_if kMaxRequestBytes <? size_of req with Some (false, req) ;;
        read_body s (need - Z.min need (size_of chunk)) req
    end.

Definition read_request (s : list (list byte)) : option (bool * list byte) :=
  r ← read_headers s [];
  match r with
  | None => Some (false, [])
  | Some (req, header_end, s) =>
      let lower := map to_lower (take header_end req) in
      let content_length := content_length lower in
      let body_have := size_of req - (Z.of_nat header_end + 4) in
      let need := if body_have <? content_length then content_length - body_have else 0 in
      read_body s need req
  end.

(** Method, target and body of a request with a well-formed request line. *)
Definition request_of (req : list byte) : option (list byte * list byte * list byte) :=
  let line := match find crlf req with Some line_end => take line_end req | None => req end in
  sp1 ← find (txt " ") line;
  let after := drop (sp1 + 1) line in
  len ← find (txt " ") after;
  let body := match find blank_line req with Some hdr_end => drop (hdr_end + 4) req | None => [] end in
  Some (take sp1 line, take len after, body).

Definition response_text (resp : RpcResponse) : list byte :=
  txt "HTTP/1.1 " ++ to_string (status resp) ++ txt " " ++ reason_phrase (status resp) ++
  crlf ++ txt "Content-Type: application/json" ++ crlf ++ txt "Content-Length: " ++
  to_string (size_of (resp_body resp)) ++ crlf ++ txt "Connection: close" ++ blank_line ++ resp_body resp.

Definition malformed_line : RpcResponse :=
  mkResp 400 (json_error (txt "BAD_REQUEST") (txt "malformed request line")).

(** What one [write] on a connection does.  The descriptors are plain sockets,
    written with [write] and no flag, and SIGPIPE keeps its default action. *)
Inductive socket_result :=
  | Took (n : nat)      (* [n] bytes accepted, at most what was offered *)
  | Again               (* -1 with [EINTR] *)
  | Refused             (* -1 with another error *)
  | Hung_up.            (* the peer has closed: [EPIPE], and SIGPIPE ends the process *)

(** The server's write loop: the bytes left to write and those sent.  [None] when
    it does not come back, blocked on a peer that takes nothing or killed. *)
Fixpoint write_all (ws : list socket_result) (data sent : list byte) : option (bool * list byte) :=
  match data with
  | [] => Some (true, sent)
  | _ =>
      match ws with
      | [] | Hung_up :: _ => None
      | Again :: ws => write_all ws data sent
      | Refused :: _ => Some (false, sent)
      | Took n :: ws => write_all ws (drop n data) (sent ++ take n data)
      end
  end.

(** The write loop meets a peer that is gone: the process is killed. *)
Fixpoint hung_up (ws : list socket_result) (data : list byte) : bool :=
  match data with
  | [] => false
  | _ =>
      match ws with
      | [] | Refused :: _ => false
      | Hung_up :: _ => true
      | Again :: ws => hung_up ws data
      | Took n :: ws => hung_up ws (drop n data)
      end
  end.

(** The object: a descriptor of -1 is no descriptor. *)
Record HttpServer := mkServer { port_ : Z; listen_fd_ : Z; stop_ : bool }.

Definition HttpServer_new (port : Z) : HttpServer := mkServer port (-1) false.

(** What the system answers while a listener is set up: the descriptor (negative
    on failure), whether a port can be bound, whether [listen] succeeds, and the
    port [getsockname] reports. *)
Record sockets := mkSockets { sk_socket : Z; sk_bind : Z → bool; sk_listen : bool; sk_name : option Z }.

(** [htons(static_cast<std::uint16_t>(port))]. *)
Definition u16 (z : Z) : Z := z mod 2 ^ 16.

(** [fds] are the descriptors the process holds. *)
Definition start (sys : sockets) (fds : gset Z) (srv : HttpServer) : bool * HttpServer * gset Z :=
  let fd := sk_socket sys in
  return_if fd <? 0 with (false, mkServer (port_ srv) fd (stop_ srv), fds) ;;
  let fds := {[fd]} ∪ fds in
  return_if negb (sk_bind sys (u16 (port_ srv)))
    with (false, mkServer (port_ srv) (-1) (stop_ srv), fds ∖ {[fd]}) ;;
  return_if negb (sk_listen sys) with (false, mkServer (port_ srv) (-1) (stop_ srv), fds ∖ {[fd]}) ;;
  let port := match sk_name sys with Some p => p | None => port_ srv end in
  (true, mkServer port fd (stop_ srv), fds).

Definition stop (srv : HttpServer) : HttpServer := mkServer (port_ srv) (listen_fd_ srv) true.

(** [~HttpServer]: the descriptors left. *)
Definition destroy (fds : gset Z) (srv : HttpServer) : gset Z :=
  if 0 <=? listen_fd_ srv then fds ∖ {[listen_fd_ srv]} else fds.

Section server.
Context {S : Type} (handler : S → list byte → list byte → list byte → RpcResponse * S).

(** The state after one connection and the bytes sent on it; a failure of the
    write loop is ignored. *)
Definition serve_connection (st : S) (s : list (list byte)) (ws : list socket_result) : option (S * list byte) :=
  '(ok, req) ← read_request s;
  return_if negb ok with Some (st, []) ;;
  let '(resp, st) :=
    match request_of req with
    | Some (method, target, body) => handler st method target body
    | None => (malformed_line, st)
    end in
  '(_, sent) ← write_all ws (response_text resp) [];
  Some (st, sent).

(** One turn of the accept loop: what [stop_] reads, then what [poll] and
    [accept] bring. *)
Inductive turn :=
  | Stopped
  | Idle                  (* [poll] times out or fails, or [accept] fails *)
  | Connection (s : list (list byte)) (ws : list socket_result).

(** The accept loop over its turns; [None] when it is still running, blocked in
    a connection or killed in one, at the end of the script. *)
Fixpoint run (st : S) (turns : list turn) : option (S * list (list byte)) :=
  match turns with
  | [] => None
  | Stopped :: _ => Some (st, [])
  | Idle :: turns => run st turns
  | Connection s ws :: turns =>
      '(st, sent) ← serve_connection st s ws;
      '(st, outs) ← run st turns;
      Some (st, sent :: outs)
  end.
End server.

(** ** Client: [http_client.cpp] *)

Record HttpResult := mkHttp { ok : bool; http_status : Z; http_body : list byte }.

#[export] Instance HttpResult_eq_dec : EqDecision HttpResult.
Proof. solve_decision. Defined.

Definition no_answer : HttpResult := mkHttp false 0 [].

Definition request_text (method host path body : list byte) : list byte :=
  method ++ txt " " ++ path ++ txt " HTTP/1.1" ++ crlf ++ txt "Host: " ++ host ++ crlf ++
  txt "Connection: close" ++ crlf ++ txt "Content-Type: application/json" ++ crlf ++
  txt "Content-Length: " ++ to_string (size_of body) ++ blank_line ++ body.

(** The client's write loop gives up on [w <= 0], interruptions included; a
    server that is gone kills the tool. *)
Fixpoint send_all (ws : list socket_result) (data sent : list byte) : option (bool * list byte) :=
  match data with
  | [] => Some (true, sent)
  | _ =>
      match ws with
      | [] | Hung_up :: _ => None
      | Took (Datatypes.S n) :: ws => send_all ws (drop (Datatypes.S n) data) (sent ++ take (Datatypes.S n) data)
      | _ :: _ => Some (false, sent)
      end
  end.

(** [while ((n = read(...)) > 0)]. *)
Fixpoint read_all (s : list (list byte)) : option (list byte) :=
  match s with
  | [] => None
  | chunk :: s => if bool_decide (chunk = []) then Some [] else app chunk <$> read_all s
  end.

(** [status * 10 + digit] on an [int]: undefined when it overflows. *)
Fixpoint int_digits (n : Z) (p : list byte) : outcome Z :=
  match p with
  | c :: p =>
      if is_digit c then
        let n := n * 10 + (byte_to_Z c - 48) in
        if n <? 2 ^ 31 then int_digits n p else Undefined
      else Ret n
  | [] => Ret n
  end.

Definition parse_response (resp : list byte) : outcome HttpResult :=
  match find (txt " ") resp with
  | None => Ret no_answer
  | Some sp1 =>
      let* st := int_digits 0 (drop (sp1 + 1) resp) in
      Ret (mkHttp true st
             (match find blank_line resp with Some hdr_end => drop (hdr_end + 4) resp | None => [] end))
  end.

(** One exchange, on a socket that connects or not: what reaches the server
    and the result. *)
Definition http_request (connects : bool) (ws : list socket_result) (replies : list (list byte))
    (method host path body : list byte) : option (list byte * outcome HttpResult) :=
  return_if negb connects with Some ([], Ret no_answer) ;;
  '(sent_all, sent) ← send_all ws (request_text method host path body) [];
  return_if negb sent_all with Some (sent, Ret no_answer) ;;
  resp ← read_all replies;
  Some (sent, parse_response resp).

Definition http_get connects ws replies host path := http_request connects ws replies (txt "GET") host path [].
Definition http_post connects ws replies host path body :=
  http_request connects ws replies (txt "POST") host path body.

(** ** Lemmas *)

(** A piece of a request line or a host name: no blank, line end or colon. *)
Definition token_char (c : byte) : bool :=
  negb ((byte_to_Z c =? 32) || (byte_to_Z c =? 13) || (byte_to_Z c =? 10) || (byte_to_Z c =? 58)).
Definition token (l : list byte) : Prop := Forall (λ c, token_char c = true) l.

Lemma token_lacks l c : token l → token_char c = false → c ∉ l.
Proof. unfold token. rewrite Forall_forall. intros Hl Hc Hin. specialize (Hl c Hin). cbn beta in Hl. congruence. Qed.

Lemma lower_colon c : to_lower c = Z_to_byte 58 → c = Z_to_byte 58.
Proof. destruct c as [[] [] [] [] [] [] [] []]; vm_compute; congruence. Qed.

Lemma lower_token_colon l : token l → Z_to_byte 58 ∉ map to_lower l.
Proof.
  intros Hl Hin. apply list_elem_of_In, in_map_iff in Hin as (c & Hc & Hin%list_elem_of_In).
  apply lower_colon in Hc as ->. by refine (token_lacks l _ Hl _ Hin).
Qed.

Lemma lower_digits l : Forall (λ c, is_digit c = true) l → map to_lower l = l.
Proof.
  induction 1 as [|c l Hc _ IH]; [done|]. cbn [map]. rewrite IH. f_equal.
  unfold to_lower, is_digit in *. rewrite (proj2 (andb_false_iff _ _)); [done|]. left. lia.
Qed.

Lemma digits_lack l c : Forall (λ c, is_digit c = true) l → is_digit c = false → c ∉ l.
Proof. rewrite Forall_forall. intros Hl Hc Hin. specialize (Hl c Hin). cbn beta in Hl. congruence. Qed.

Lemma dec_fold_mono ds n :
  Forall (λ c, is_digit c = true) ds → 0 <= n → n <= foldl (λ v b, v * 10 + (byte_to_Z b - 48)) n ds.
Proof.
  intros Hds. revert n. induction Hds as [|c ds Hc _ IH]; intros n Hn; cbn [foldl]; [lia|].
  unfold is_digit in Hc. specialize (IH (n * 10 + (byte_to_Z c - 48)) ltac:(lia)). lia.
Qed.

(** One goal per appended piece. *)
Ltac split_skips := repeat match goal with |- skips _ (_ ++ _) => apply skips_app end.

(** The parts of a client request whose first line and headers are as the
    client writes them. *)
Record plain_request (method host path : list byte) : Prop := {
  pr_method : token method; pr_host : token host; pr_path : token path
}.

Definition headers_text (method host path body : list byte) : list byte :=
  method ++ txt " " ++ path ++ txt " HTTP/1.1" ++ crlf ++ txt "Host: " ++ host ++ crlf ++
  txt "Connection: close" ++ crlf ++ txt "Content-Type: application/json" ++ crlf ++
  txt "Content-Length: " ++ to_string (size_of body).

Lemma request_text_eq method host path body :
  request_text method host path body = headers_text method host path body ++ blank_line ++ body.
Proof. unfold request_text, headers_text. by rewrite <- !app_assoc. Qed.

Lemma size_of_nonneg l : 0 <= size_of l.
Proof. unfold size_of. lia. Qed.

Lemma token_no_cr l : token l → Z_to_byte 13 ∉ l.
Proof. intros Hl. by apply token_lacks. Qed.

Lemma string_no_cr l : forallb (λ c, negb (bool_decide (c = Z_to_byte 13))) l = true → Z_to_byte 13 ∉ l.
Proof.
  intros Hf Hin%list_elem_of_In. eapply forallb_forall in Hf; [|exact Hin]. by rewrite bool_decide_eq_true_2 in Hf.
Qed.

Lemma number_no_cr l : Z_to_byte 13 ∉ to_string (size_of l).
Proof. eapply digits_lack; [apply to_string_digits, size_of_nonneg|done]. Qed.

(** A text ending in a byte that the pattern does not have. *)
Lemma skips_text p l sep u :
  l = u ++ [sep] → p ≠ [] → bool_decide (sep ∈ p) = false → find p u = None → skips p l.
Proof. intros -> Hp Hs. apply skips_sep; [done|exact (bool_decide_eq_false_1 _ Hs)]. Qed.

Definition host_header : list byte := crlf ++ txt "Host: ".
Definition fixed_headers : list byte :=
  crlf ++ txt "Connection: close" ++ crlf ++ txt "Content-Type: application/json" ++ crlf ++ txt "Content-Length: ".

Lemma headers_text_eq method host path body :
  headers_text method host path body =
  method ++ txt " " ++ path ++ txt " HTTP/1.1" ++ host_header ++ host ++ fixed_headers ++
  to_string (size_of body).
Proof. unfold headers_text, fixed_headers, host_header. by rewrite <- !app_assoc. Qed.

(** No end of headers inside the headers of a client request. *)
Lemma skips_headers method host path body :
  plain_request method host path → skips blank_line (headers_text method host path body).
Proof.
  intros [Hm Hh Hp]. rewrite headers_text_eq. split_skips.
  - by apply skips_head, token_no_cr.
  - by apply skips_head, string_no_cr.
  - by apply skips_head, token_no_cr.
  - by apply skips_head, string_no_cr.
  - apply (skips_text _ _ space (crlf ++ txt "Host:")); by vm_compute.
  - by apply skips_head, token_no_cr.
  - apply (skips_text _ _ space (take 68 fixed_headers)); by vm_compute.
  - apply skips_head, number_no_cr.
Qed.

(** A token, perhaps with a carriage return, and a separator. *)
Definition piece (l e : list byte) (sep : byte) : list byte := l ++ e ++ [sep].

Lemma skips_lower_piece l e sep :
  token l → Forall (λ c, byte_to_Z c = 13) e → sep = space ∨ sep = newline →
  skips (txt "content-length:") (map to_lower (piece l e sep)).
Proof.
  intros Hl He Hs. unfold piece. rewrite app_assoc, map_app.
  assert (map to_lower [sep] = [sep]) as -> by (by destruct Hs as [->| ->]).
  apply skips_sep; [done|destruct Hs as [->| ->]; apply (bool_decide_unpack _); by vm_compute|].
  apply (find_none_char (Z_to_byte 58)); [apply (bool_decide_unpack _); by vm_compute|].
  rewrite map_app. intros [Hin|Hin]%elem_of_app; [by apply (lower_token_colon l)|].
  apply list_elem_of_In, in_map_iff in Hin as (c & Hc & Hin%list_elem_of_In).
  rewrite Forall_forall in He. apply lower_colon in Hc as ->. by specialize (He _ Hin).
Qed.

Definition version_host : list byte := txt "HTTP/1.1" ++ crlf ++ txt "Host: ".
Definition connection_headers : list byte :=
  txt "Connection: close" ++ crlf ++ txt "Content-Type: application/json" ++ crlf.
Definition length_prefix (method host path : list byte) : list byte :=
  piece method [] space ++ piece path [] space ++ version_host ++ piece host [Z_to_byte 13] newline ++
  connection_headers.

Lemma skips_length_prefix method host path :
  plain_request method host path → skips (txt "content-length:") (map to_lower (length_prefix method host path)).
Proof.
  intros [Hm Hh Hp]. unfold length_prefix. rewrite !map_app. split_skips.
  - apply skips_lower_piece; [done|constructor|by left].
  - apply skips_lower_piece; [done|constructor|by left].
  - apply (skips_text _ _ space (map to_lower (take 15 version_host))); by vm_compute.
  - apply skips_lower_piece; [done|by constructor|by right].
  - apply (skips_text _ _ newline (map to_lower (take 50 connection_headers))); by vm_compute.
Qed.

Lemma headers_lower method host path body :
  map to_lower (headers_text method host path body) =
  map to_lower (length_prefix method host path) ++ txt "content-length:" ++ space :: to_string (size_of body).
Proof.
  rewrite <- (lower_digits (to_string (size_of body))) by apply to_string_digits, size_of_nonneg.
  change (txt "content-length:" ++ space :: map to_lower (to_string (size_of body)))
    with (map to_lower (txt "Content-Length: " ++ to_string (size_of body))).
  rewrite <- map_app. f_equal. unfold headers_text, length_prefix, piece, version_host, connection_headers.
  by rewrite <- !app_assoc.
Qed.

Lemma size_digits_value ds n rest :
  Forall (λ c, is_digit c = true) ds → match rest with c :: _ => is_digit c = false | [] => True end → 0 <= n →
  foldl (λ v b, v * 10 + (byte_to_Z b - 48)) n ds < 2 ^ 64 →
  size_digits n (ds ++ rest) = foldl (λ v b, v * 10 + (byte_to_Z b - 48)) n ds.
Proof.
  intros Hds Hr. revert n. induction Hds as [|c ds Hc Hds IH]; intros n Hn Hb.
  - destruct rest as [|c rest]; [done|]. cbn. by rewrite Hr.
  - cbn [app size_digits foldl] in *. rewrite Hc.
    assert (0 <= byte_to_Z c - 48) as Hd by (unfold is_digit in Hc; lia).
    pose proof (dec_fold_mono ds (n * 10 + (byte_to_Z c - 48)) Hds ltac:(lia)) as Hm.
    rewrite u64_id by (unfold u64_ok; lia). apply IH; lia.
Qed.

Lemma content_length_read method host path body :
  plain_request method host path → size_of body < 2 ^ 64 →
  content_length (map to_lower (headers_text method host path body)) = size_of body.
Proof.
  intros Hp Hb. unfold content_length. rewrite headers_lower, skips_find by by apply skips_length_prefix.
  rewrite app_assoc, drop_app_exact by by rewrite length_app.
  change (skip_tabs (space :: ?l)) with (skip_tabs l).
  pose proof (size_of_nonneg body) as Hn. pose proof (to_string_digits (size_of body) Hn) as Hd.
  assert (skip_tabs (to_string (size_of body)) = to_string (size_of body)) as ->.
  { destruct (to_string (size_of body)) as [|c l]; [done|]. apply Forall_cons in Hd as [Hc _]. unfold is_digit in Hc.
    cbn [skip_tabs]. by rewrite (proj2 (orb_false_iff _ _)) by lia. }
  rewrite <- (app_nil_r (to_string _)). pose proof (to_string_value (size_of body) ltac:(lia)) as Hv.
  unfold dec_value in Hv. by rewrite size_digits_value; rewrite ?Hv.
Qed.

(** Reading the rest of a body that is on its way. *)
Lemma read_body_rest s more need req :
  Forall (λ c, c ≠ []) s → need = size_of (concat s) → size_of req + need <= kMaxRequestBytes →
  read_body (s ++ more) need req = Some (true, req ++ concat s).
Proof.
  intros Hs. revert need req. induction Hs as [|c s Hc _ IH]; intros need req Hn Hr; cbn [app concat read_body] in *.
  - change (size_of []) with 0 in Hn. subst need. rewrite app_nil_r. by destruct more.
  - unfold size_of in *. rewrite length_app in *.
    assert (0 < length c)%nat by (destruct c; [done|cbn; lia]).
    rewrite (proj2 (Z.leb_gt _ _)), bool_decide_eq_false_2 by (done || lia).
    rewrite (proj2 (Z.ltb_ge _ _)) by lia. rewrite IH; [by rewrite <- app_assoc|lia|rewrite ?length_app; lia].
Qed.

(** The header loop stops at a prefix of the stream that holds the headers. *)
Lemma read_headers_text s more pre text n :
  Forall (λ c, c ≠ []) s → text = pre ++ concat s → size_of text <= kMaxRequestBytes →
  find blank_line text = Some n → find blank_line pre = None →
  ∃ s1 s2, s = s1 ++ s2 ∧
    read_headers (s ++ more) pre = Some (Some (pre ++ concat s1, n, s2 ++ more)) ∧
    find blank_line (pre ++ concat s1) = Some n.
Proof.
  intros Hs. revert pre. induction Hs as [|c s Hc _ IH]; intros pre Et Hmax Hn Hpre; cbn [app concat read_headers] in *.
  - rewrite app_nil_r in Et. congruence.
  - rewrite bool_decide_eq_false_2 by done.
    assert (size_of (pre ++ c) <= kMaxRequestBytes) as Hle.
    { unfold size_of in *. rewrite Et, !length_app in Hmax. rewrite length_app. lia. }
    rewrite (proj2 (Z.ltb_ge _ _)) by done. rewrite app_assoc in Et.
    destruct (find blank_line (pre ++ c)) as [m|] eqn:Em.
    + assert (m = n) as -> by (apply (find_extend _ _ (concat s)) in Em; congruence).
      exists [c], s. cbn [app concat]. by rewrite app_nil_r.
    + destruct (IH (pre ++ c)) as (s1 & s2 & -> & Hr & Hf); [done..|].
      exists (c :: s1), s2. cbn [app concat]. by rewrite app_assoc.
Qed.

(** A client request is read whole, however the network cuts it. *)
Lemma read_request_text method host path body s more :
  plain_request method host path → concat s = request_text method host path body → Forall (λ c, c ≠ []) s →
  size_of (request_text method host path body) <= kMaxRequestBytes →
  read_request (s ++ more) = Some (true, request_text method host path body).
Proof.
  intros Hp Hc Hs Hmax. set (hd := headers_text method host path body) in *.
  pose proof (skips_find _ _ body (skips_headers _ _ _ body Hp)) as Hf. rewrite <- request_text_eq in Hf. fold hd in Hf.
  unfold read_request.
  destruct (read_headers_text s more [] _ _ Hs (eq_sym Hc) Hmax Hf) as (s1 & s2 & -> & Hr & Hf1); [done|].
  cbn [app] in *. rewrite Hr. cbn [mbind option_bind]. rewrite concat_app in Hc. apply Forall_app in Hs as [_ Hs].
  assert (take (length hd) (concat s1) = hd) as Ht.
  { apply find_spec in Hf1 as [Hpre _]. apply is_prefix_length in Hpre. rewrite length_drop in Hpre. cbn in Hpre.
    rewrite <- (take_app_le _ (concat s2)), Hc by lia. rewrite request_text_eq. by apply take_app_length. }
  assert (size_of (concat s1) + size_of (concat s2) = size_of hd + 4 + size_of body) as Hlen.
  { apply (f_equal length) in Hc. unfold size_of. rewrite request_text_eq, !length_app in Hc. fold hd in Hc.
    cbn [length blank_line crlf app] in Hc. lia. }
  assert (content_length (map to_lower hd) = size_of body) as Hcl.
  { apply content_length_read; [done|]. unfold kMaxRequestBytes, size_of in *.
    rewrite request_text_eq, !length_app in Hmax. lia. }
  rewrite Ht, Hcl. change (Z.of_nat (length hd)) with (size_of hd).
  rewrite read_body_rest; [by rewrite Hc|done| |].
  - pose proof (size_of_nonneg (concat s2)). destruct (Z.ltb_spec (size_of (concat s1) - (size_of hd + 4)) (size_of body)); lia.
  - rewrite <- Hc in Hmax. unfold size_of in *. rewrite length_app in Hmax.
    destruct (_ <? _) eqn:E; reflect_bools; lia.
Qed.

Definition first_line (method path : list byte) : list byte := method ++ txt " " ++ path ++ txt " HTTP/1.1".

Lemma request_first_line method host path body :
  ∃ rest, request_text method host path body = first_line method path ++ crlf ++ rest.
Proof. eexists. unfold request_text, first_line. rewrite <- !app_assoc. reflexivity. Qed.

(** The request line of a client request. *)
Lemma request_of_text method host path body :
  plain_request method host path → request_of (request_text method host path body) = Some (method, path, body).
Proof.
  intros Hp. pose proof (skips_find _ _ body (skips_headers _ _ _ body Hp)) as Hf. rewrite <- request_text_eq in Hf.
  assert (drop (length (headers_text method host path body) + 4) (request_text method host path body) = body) as Hd.
  { rewrite request_text_eq, app_assoc. apply drop_app_exact. by rewrite length_app. }
  unfold request_of. rewrite Hf, Hd. destruct Hp as [Hm Hh Hpt].
  destruct (request_first_line method host path body) as [rest Er].
  assert (skips crlf (first_line method path)) as Hs.
  { unfold first_line. split_skips; try (by apply skips_head, token_no_cr); by apply skips_head, string_no_cr. }
  rewrite Er, (skips_find _ _ rest Hs), take_app_length. unfold first_line.
  change (txt " ") with [space].
  change (method ++ [space] ++ path ++ txt " HTTP/1.1") with (method ++ space :: path ++ space :: txt "HTTP/1.1").
  rewrite find_char_app by by apply token_lacks. cbn [mbind option_bind].
  replace (drop (length method + 1) (method ++ space :: path ++ space :: txt "HTTP/1.1"))
    with (path ++ space :: txt "HTTP/1.1").
  2: { rewrite (cons_middle space method), app_assoc, drop_app_exact by by rewrite length_app. done. }
  rewrite find_char_app by by apply token_lacks. cbn [mbind option_bind].
  by rewrite !take_app_exact.
Qed.

(** ** The response *)

Lemma int_digits_value ds n rest :
  Forall (λ c, is_digit c = true) ds → match rest with c :: _ => is_digit c = false | [] => True end → 0 <= n →
  foldl (λ v b, v * 10 + (byte_to_Z b - 48)) n ds < 2 ^ 31 →
  int_digits n (ds ++ rest) = Ret (foldl (λ v b, v * 10 + (byte_to_Z b - 48)) n ds).
Proof.
  intros Hds Hr. revert n. induction Hds as [|c ds Hc Hds IH]; intros n Hn Hb.
  - destruct rest as [|c rest]; [done|]. cbn. by rewrite Hr.
  - cbn [app int_digits foldl] in *. rewrite Hc.
    assert (0 <= byte_to_Z c - 48) as Hd by (unfold is_digit in Hc; lia).
    pose proof (dec_fold_mono ds (n * 10 + (byte_to_Z c - 48)) Hds ltac:(lia)) as Hm.
    rewrite (proj2 (Z.ltb_lt _ _)) by lia. apply IH; lia.
Qed.

Lemma phrase_no_cr st : Z_to_byte 13 ∉ reason_phrase st.
Proof.
  unfold reason_phrase. repeat match goal with |- context [if ?c then _ else _] => destruct c end;
    by apply string_no_cr.
Qed.

Definition type_header : list byte := crlf ++ txt "Content-Type: application/json" ++ crlf ++ txt "Content-Length: ".
Definition close_header : list byte := crlf ++ txt "Connection: close".

Definition status_line_and_headers (r : RpcResponse) : list byte :=
  txt "HTTP/1.1 " ++ to_string (status r) ++ txt " " ++ reason_phrase (status r) ++ type_header ++
  to_string (size_of (resp_body r)) ++ close_header.

Lemma response_text_eq r : response_text r = status_line_and_headers r ++ blank_line ++ resp_body r.
Proof. unfold response_text, status_line_and_headers, type_header, close_header. by rewrite <- !app_assoc. Qed.

Lemma skips_response r : 0 <= status r → skips blank_line (status_line_and_headers r).
Proof.
  intros Hs. unfold status_line_and_headers. split_skips.
  - by apply skips_head, string_no_cr.
  - apply skips_head. eapply digits_lack; [by apply to_string_digits|done].
  - by apply skips_head, string_no_cr.
  - apply skips_head, phrase_no_cr.
  - apply (skips_text _ _ space (take 49 type_header)); by vm_compute.
  - apply skips_head, number_no_cr.
  - apply (skips_text _ _ (Z_to_byte 101) (take 18 close_header)); by vm_compute.
Qed.

(** The client reads the status and the body the server wrote. *)
Lemma parse_response_text r :
  0 <= status r < 2 ^ 31 → parse_response (response_text r) = Ret (mkHttp true (status r) (resp_body r)).
Proof.
  intros Hs. pose proof (skips_find _ _ (resp_body r) (skips_response r ltac:(lia))) as Hf. rewrite <- response_text_eq in Hf.
  unfold parse_response. rewrite Hf.
  assert (drop (length (status_line_and_headers r) + 4) (response_text r) = resp_body r) as ->.
  { rewrite response_text_eq, app_assoc. apply drop_app_exact. by rewrite length_app. }
  unfold response_text. change (txt "HTTP/1.1 " ++ ?k) with (txt "HTTP/1.1" ++ space :: k).
  change (txt " ") with [space]. rewrite find_char_app by (apply (bool_decide_unpack _); by vm_compute).
  change (drop (length (txt "HTTP/1.1") + 1) (txt "HTTP/1.1" ++ space :: ?k)) with k. cbn [app].
  rewrite int_digits_value; [|by apply to_string_digits; lia|done|done|].
  - cbn [obind]. change (foldl _ 0 (to_string (status r))) with (dec_value (to_string (status r))).
    by rewrite to_string_value by lia.
  - change (foldl _ 0 (to_string (status r))) with (dec_value (to_string (status r))). rewrite to_string_value by lia. lia.
Qed.

Lemma write_all_sent ws data sent b sent' :
  write_all ws data sent = Some (b, sent') →
  ∃ n, sent' = sent ++ take n data ∧ (b = true → sent' = sent ++ data).
Proof.
  revert data sent. induction ws as [|w ws IH]; intros data sent Hw.
  - destruct data; [|done]. injection Hw as <- <-. exists 0%nat. by rewrite take_0, app_nil_r.
  - destruct data as [|c data]; [injection Hw as <- <-; exists 0%nat; by rewrite take_0, app_nil_r|].
    cbn [write_all] in Hw. destruct w as [n| | |]; [| |injection Hw as <- <-|done].
    + apply IH in Hw as (m & -> & Hok). exists (n + m)%nat. split.
      * by rewrite <- app_assoc, take_take_drop.
      * intros Ht. rewrite (Hok Ht). by rewrite <- app_assoc, take_drop.
    + by apply IH in Hw.
    + exists 0%nat. by rewrite take_0, app_nil_r.
Qed.

(** A killed write loop has not come back. *)
Lemma hung_up_killed ws data sent : hung_up ws data = true → write_all ws data sent = None.
Proof.
  revert data sent. induction ws as [|w ws IH]; intros data sent Hh; destruct data as [|c data]; try done.
  cbn [hung_up write_all] in *. destruct w as [n| | |]; try done; by apply IH.
Qed.

Lemma send_all_sent ws data sent delivered :
  send_all ws data sent = Some (true, delivered) → delivered = sent ++ data.
Proof.
  revert data sent. induction ws as [|w ws IH]; intros data sent; destruct data as [|c data]; cbn [send_all].
  1,3: by intros [= <-]; rewrite app_nil_r.
  - done.
  - destruct w as [[|n]| | |]; try done. intros Hs. apply IH in Hs as ->. by rewrite <- app_assoc, take_drop.
Qed.

Lemma read_all_concat s : Forall (λ c, c ≠ []) s → read_all (s ++ [[]]) = Some (concat s).
Proof.
  induction 1 as [|c s Hc _ IH]; [done|]. cbn [app read_all concat]. rewrite bool_decide_eq_false_2 by done.
  by rewrite IH.
Qed.

(** What the reader accepts is bounded, and its headers are complete. *)
Lemma read_headers_sound s req r req' n s' :
  read_headers s req = Some r → r = Some (req', n, s') →
  size_of req' <= kMaxRequestBytes ∧ find blank_line req' = Some n.
Proof.
  revert req. induction s as [|c s IH]; intros req; cbn [read_headers]; [done|].
  case_bool_decide; [by intros [= <-]|]. destruct (Z.ltb_spec kMaxRequestBytes (size_of (req ++ c))); [by intros [= <-]|].
  destruct (find blank_line (req ++ c)) eqn:E; [|apply IH]. intros [= <-] [= <- <- <-]. by split.
Qed.

Lemma read_body_sound s need req b req' :
  read_body s need req = Some (b, req') → size_of req <= kMaxRequestBytes → b = true →
  size_of req' <= kMaxRequestBytes ∧ ∃ k, req' = req ++ k.
Proof.
  revert need req. induction s as [|c s IH]; intros need req; cbn [read_body].
  { destruct (need <=? 0); [|done]. intros [= <- <-] ? _. split; [done|exists []; by rewrite app_nil_r]. }
  destruct (need <=? 0); [intros [= <- <-] ? _; split; [done|exists []; by rewrite app_nil_r]|].
  case_bool_decide; [intros [= <- <-] ? _; split; [done|exists []; by rewrite app_nil_r]|].
  destruct (Z.ltb_spec kMaxRequestBytes (size_of (req ++ c))); [by intros [= <- <-]|].
  intros Hr _ Hb. destruct (IH _ _ Hr) as [Hs [k ->]]; [lia|done|]. split; [done|]. exists (c ++ k). by rewrite app_assoc.
Qed.

Lemma read_request_sound s req :
  read_request s = Some (true, req) → size_of req <= kMaxRequestBytes ∧ ∃ n, find blank_line req = Some n.
Proof.
  unfold read_request. destruct (read_headers s []) as [[[[req0 n] s']|]|] eqn:Eh; cbn [mbind option_bind]; try done.
  intros Hb. destruct (read_headers_sound _ _ _ _ _ _ Eh eq_refl) as [Hs Hf].
  apply read_body_sound in Hb as [Hs' [k ->]]; [|done|done]. split; [done|]. exists n. by apply find_extend.
Qed.

(** [read_request] comes back once the peer closes or sends too much. *)
Lemma read_body_returns s need req :
  [] ∈ s ∨ kMaxRequestBytes < size_of req + size_of (concat s) → size_of req <= kMaxRequestBytes →
  read_body s need req ≠ None.
Proof.
  revert need req. induction s as [|c s IH]; intros need req Hs Hr; cbn [read_body].
  { destruct (need <=? 0); [done|]. destruct Hs as [Hs|Hs]; [by apply not_elem_of_nil in Hs|].
    change (size_of (concat [])) with 0 in Hs. lia. }
  destruct (need <=? 0); [done|]. case_bool_decide as Hc; [done|].
  destruct (Z.ltb_spec kMaxRequestBytes (size_of (req ++ c))) as [|Hle]; [done|]. apply IH; [|done].
  destruct Hs as [[Hs|Hs]%elem_of_cons|Hs]; [by destruct Hc|by left|right].
  unfold size_of in *. cbn [concat] in Hs. rewrite !length_app in *. lia.
Qed.

Lemma read_headers_returns s req :
  [] ∈ s ∨ kMaxRequestBytes < size_of req + size_of (concat s) → size_of req <= kMaxRequestBytes →
  read_headers s req = Some None ∨
  ∃ req' n s', read_headers s req = Some (Some (req', n, s')) ∧ size_of req' <= kMaxRequestBytes ∧
    ([] ∈ s' ∨ kMaxRequestBytes < size_of req' + size_of (concat s')).
Proof.
  revert req. induction s as [|c s IH]; intros req Hs Hr; cbn [read_headers].
  { destruct Hs as [Hs|Hs]; [by apply not_elem_of_nil in Hs|]. change (size_of (concat [])) with 0 in Hs. lia. }
  case_bool_decide as Hc; [by left|].
  destruct (Z.ltb_spec kMaxRequestBytes (size_of (req ++ c))) as [|Hle]; [by left|].
  assert ([] ∈ s ∨ kMaxRequestBytes < size_of (req ++ c) + size_of (concat s)) as Hs'.
  { destruct Hs as [[Hs|Hs]%elem_of_cons|Hs]; [by destruct Hc|by left|right].
    unfold size_of in *. cbn [concat] in Hs. rewrite !length_app in *. lia. }
  destruct (find blank_line (req ++ c)) as [n|]; [|by apply IH]. right. by exists (req ++ c), n, s.
Qed.

Lemma read_request_returns s :
  [] ∈ s ∨ kMaxRequestBytes < size_of (concat s) → read_request s ≠ None.
Proof.
  intros Hs. unfold read_request.
  destruct (read_headers_returns s [] Hs) as [->|(req & n & s' & -> & Hr & Hs')]; [done..|].
  cbn [mbind option_bind]. by apply read_body_returns.
Qed.

Lemma exchange {S : Type} (handler : S → list byte → list byte → list byte → RpcResponse * S)
    st r st' method host path body s more ws sent cws delivered replies :
  plain_request method host path → size_of (request_text method host path body) <= kMaxRequestBytes →
  handler st method path body = (r, st') → 0 <= status r < 2 ^ 31 →
  send_all cws (request_text method host path body) [] = Some (true, delivered) →
  concat s = delivered → Forall (λ c, c ≠ []) s →
  write_all ws (response_text r) [] = Some (true, sent) →
  concat replies = sent → Forall (λ c, c ≠ []) replies →
  serve_connection handler st (s ++ more) ws = Some (st', sent) ∧
  http_request true cws (replies ++ [[]]) method host path body =
    Some (delivered, Ret (mkHttp true (status r) (resp_body r))).
Proof.
  intros Hp Hmax Hh Hst Hsend Hs Hsn Hw Hr Hrn.
  pose proof (send_all_sent _ _ _ _ Hsend) as Hd. cbn [app] in Hd. rewrite Hd in Hs. split.
  - unfold serve_connection. rewrite (read_request_text _ _ _ _ _ _ Hp Hs Hsn Hmax). cbn [mbind option_bind negb].
    rewrite (request_of_text _ _ _ _ Hp), Hh, Hw. done.
  - unfold http_request. cbn [negb]. rewrite Hsend. cbn [mbind option_bind negb].
    rewrite read_all_concat, Hr by done. cbn [mbind option_bind].
    apply write_all_sent in Hw as (n & _ & Hall). rewrite (Hall eq_refl). cbn [app]. by rewrite parse_response_text.
Qed.

(** ** The transport between the tool and the node *)

(** The handler [txnode] installs: the dispatcher under the state lock, over
    the node as it is and the mempool as it becomes. *)
Definition rpc_handler {H : Sha256.HashFn} {E : Crypto.Ed25519} (nd : Node.Node) (mp : Mempool.Mempool)
    (method target body : list byte) : RpcResponse * Mempool.Mempool :=
  handle_request method target body (node_ctx nd mp).

Section carried.
Context {H : Sha256.HashFn} {E : Crypto.Ed25519}.

(** A client's view of a node behind a network: every call it makes is one
    connection, on which the client's writes and the server's go through, and
    both sides read what was written, cut anyhow. *)
Definition carries (nd : Node.Node)
    (http : Mempool.Mempool → list byte → list byte → Z → list byte → list byte → outcome HttpResult * Mempool.Mempool) : Prop :=
  ∀ mp method host port path body res mp',
    plain_request method host path → size_of (request_text method host path body) <= kMaxRequestBytes →
    http mp method host port path body = (res, mp') →
    ∃ cws delivered s more ws sent replies,
      send_all cws (request_text method host path body) [] = Some (true, delivered) ∧
      concat s = delivered ∧ Forall (λ c, c ≠ []) s ∧
      serve_connection (rpc_handler nd) mp (s ++ more) ws = Some (mp', sent) ∧
      write_all ws (response_text (rpc_handler nd mp method path body).1) [] = Some (true, sent) ∧
      concat replies = sent ∧ Forall (λ c, c ≠ []) replies ∧
      http_request true cws (replies ++ [[]]) method host path body = Some (delivered, res).

(** The statuses the node answers with. *)
Lemma rpc_status nd mp method path body : 0 <= status (rpc_handler nd mp method path body).1 < 2 ^ 31.
Proof.
  unfold rpc_handler, handle_request, submit_tx, account_resp.
  repeat (case_match; cbn [fst status]; try (split; lia)). all: simplify_eq/=; try (split; lia).
  all: unfold admit_status; case_match; split; lia.
Qed.

(** Over such a network the call is the handler's. *)
Lemma carried_call nd http mp method host port path body :
  carries nd http → plain_request method host path → size_of (request_text method host path body) <= kMaxRequestBytes →
  http mp method host port path body =
    let '(r, mp') := rpc_handler nd mp method path body in (Ret (mkHttp true (status r) (resp_body r)), mp').
Proof.
  intros Hc Hp Hmax. destruct (http mp method host port path body) as [res mp'] eqn:Eh.
  destruct (Hc _ _ _ _ _ _ _ _ Hp Hmax Eh) as (cws & delivered & s & more & ws & sent & replies & Hsend & Hs & Hsn & Hserve & Hw & Hr & Hrn & Hreq).
  pose proof (rpc_status nd mp method path body) as Hst. destruct (rpc_handler nd mp method path body) as [r mp1] eqn:Ehd.
  destruct (exchange (rpc_handler nd) mp r mp1 method host path body s more ws sent cws delivered replies) as [H1 H2]; try done.
  rewrite H1 in Hserve. rewrite H2 in Hreq. by simplify_eq.
Qed.
End carried.

(** ** The listener *)

(** Setting up the listener never leaks its descriptor: it comes up exactly when
    every call succeeds, on the requested port reduced to 16 bits unless the
    system reports another, and then holds one descriptor more; otherwise the
    process holds what it held before.  Either way the destructor leaves the
    descriptors as they were. *)
Theorem listener_no_leak (sys : sockets) (fds : gset Z) (srv : HttpServer) :
  sk_socket sys ∉ fds → listen_fd_ srv < 0 →
  let '(ok, srv', fds') := start sys fds srv in
  (ok = true ↔ 0 <= sk_socket sys ∧ sk_bind sys (u16 (port_ srv)) = true ∧ sk_listen sys = true) ∧
  (if ok then listen_fd_ srv' = sk_socket sys ∧ fds' = {[sk_socket sys]} ∪ fds ∧ port_ srv' = default (port_ srv) (sk_name sys)
   else listen_fd_ srv' < 0 ∧ fds' = fds ∧ port_ srv' = port_ srv) ∧
  stop_ srv' = stop_ srv ∧ destroy fds' srv' = fds.
Proof.
  intros Hfd Hsrv. unfold start, destroy. destruct (Z.ltb_spec (sk_socket sys) 0) as [Hlt|Hge]; cbn [listen_fd_ port_ stop_].
  { rewrite (proj2 (Z.leb_gt _ _)) by done. split_and!; try done. split; [done|]. lia. }
  assert (({[sk_socket sys]} ∪ fds) ∖ {[sk_socket sys]} = fds) as Hback by set_solver.
  destruct (sk_bind sys _); cbn [negb]; [destruct (sk_listen sys); cbn [negb]|]; cbn [listen_fd_ port_ stop_ Z.leb Z.compare].
  - rewrite (proj2 (Z.leb_le _ _)), Hback by done. split; [done|]. split; [|done]. split_and!; [done|done|by destruct (sk_name sys)].
  - split_and!; try done. split; [done|]. by intros (_ & _ & ?).
  - split_and!; try done. split; [done|]. by intros (_ & ? & _).
Qed.

(** C36. The transport is transparent: however the network cuts the request into
    reads and the response into reads, the server's handler is called with exactly
    the method, path and body the client was asked to send, and the client returns
    exactly the status and body the handler answered (requests up to 1 MiB whose
    method, path and host have no blanks, line ends or colons). *)
Theorem http_exchange {S : Type} (handler : S → list byte → list byte → list byte → RpcResponse * S)
    st r st' method host path body s more ws sent cws delivered replies :
  plain_request method host path → size_of (request_text method host path body) <= kMaxRequestBytes →
  handler st method path body = (r, st') → 0 <= status r < 2 ^ 31 →
  send_all cws (request_text method host path body) [] = Some (true, delivered) →
  concat s = delivered → Forall (λ c, c ≠ []) s →
  write_all ws (response_text r) [] = Some (true, sent) →
  concat replies = sent → Forall (λ c, c ≠ []) replies →
  serve_connection handler st (s ++ more) ws = Some (st', sent) ∧
  http_request true cws (replies ++ [[]]) method host path body =
    Some (delivered, Ret (mkHttp true (status r) (resp_body r))).
Proof. apply exchange. Qed.

(** What the server does with arbitrary bytes: one connection changes the state
    by at most one call of the handler, on a request of at most 1 MiB whose
    headers arrived completely, and what it sends is a prefix of one response; and
    a peer that closes, or that sends more than 1 MiB, cannot keep it reading. *)
Theorem serve_connection_sound {S : Type} (handler : S → list byte → list byte → list byte → RpcResponse * S)
    st s ws :
  (([] ∈ s ∨ kMaxRequestBytes < size_of (concat s)) → read_request s ≠ None) ∧
  ∀ st' sent, serve_connection handler st s ws = Some (st', sent) →
    (st' = st ∧ (sent = [] ∨ ∃ n, sent = take n (response_text malformed_line))) ∨
    ∃ req method target body r n,
      read_request s = Some (true, req) ∧ size_of req <= kMaxRequestBytes ∧ find blank_line req ≠ None ∧
      request_of req = Some (method, target, body) ∧ handler st method target body = (r, st') ∧
      sent = take n (response_text r).
Proof.
  split; [apply read_request_returns|]. intros st' sent. unfold serve_connection.
  destruct (read_request s) as [[b req]|] eqn:Er; cbn [mbind option_bind]; [|done].
  destruct b; cbn [negb]; [|intros [= <- <-]; left; split; [done|by left]].
  destruct (read_request_sound _ _ Er) as [Hmax [m Hm]].
  destruct (request_of req) as [[[method target] body]|] eqn:Eq.
  - destruct (handler st method target body) as [r st1] eqn:Eh.
    destruct (write_all _ _ _) as [[w out]|] eqn:Ew; cbn [mbind option_bind]; [|done]. intros [= <- <-].
    apply write_all_sent in Ew as (n & -> & _). right. exists req, method, target, body, r, n. rewrite Hm. by split_and!.
  - destruct (write_all _ _ _) as [[w out]|] eqn:Ew; cbn [mbind option_bind]; [|done]. intros [= <- <-].
    apply write_all_sent in Ew as (n & -> & _). left. split; [done|]. right. by exists n.
Qed.

Module HttpDemo.
(** A handler that counts its calls and echoes the body. *)
Definition echo (n : nat) (m t b : list byte) : RpcResponse * nat := (mkResp 404 (b ++ m), Datatypes.S n).
Definition text : list byte := request_text (txt "PUT") (txt "localhost") (txt "/x?y") (txt "hello").
Definition reply : RpcResponse := mkResp 404 (txt "helloPUT").
Definition pieces : list (list byte) := [take 50 text; drop 50 text].

Lemma plain1 : plain_request (txt "PUT") (txt "localhost") (txt "/x?y").
Proof. split; by repeat constructor. Qed.
Lemma short_request : size_of text <= kMaxRequestBytes.
Proof. by vm_compute. Qed.
Lemma sent1 : send_all [Took 3; Took 5000] text [] = Some (true, text).
Proof. apply (bool_decide_unpack _). by vm_compute. Qed.
Lemma pieces1 : concat pieces = text.
Proof. apply (bool_decide_unpack _). by vm_compute. Qed.
Lemma pieces_full : Forall (λ c, c ≠ []) pieces.
Proof. by repeat constructor. Qed.
Lemma replied1 : write_all [Again; Took 5000] (response_text reply) [] = Some (true, response_text reply).
Proof. apply (bool_decide_unpack _). by vm_compute. Qed.
Lemma reply_whole : concat [response_text reply] = response_text reply.
Proof. cbn [concat]. apply app_nil_r. Qed.
Lemma reply_full : Forall (λ c, c ≠ []) [response_text reply].
Proof. by repeat constructor. Qed.
End HttpDemo.

Lemma http_exchange_witness :
  serve_connection HttpDemo.echo 6%nat (HttpDemo.pieces ++ []) [Again; Took 5000] =
    Some (7%nat, response_text HttpDemo.reply) ∧
  http_request true [Took 3; Took 5000] ([response_text HttpDemo.reply] ++ [[]])
    (txt "PUT") (txt "localhost") (txt "/x?y") (txt "hello") =
    Some (HttpDemo.text, Ret (mkHttp true 404 (txt "helloPUT"))).
Proof.
  exact (http_exchange HttpDemo.echo 6%nat HttpDemo.reply 7%nat _ _ _ _ HttpDemo.pieces [] _ _ _ _ _
    HttpDemo.plain1 HttpDemo.short_request eq_refl ltac:(split; done) HttpDemo.sent1 HttpDemo.pieces1 HttpDemo.pieces_full
    HttpDemo.replied1 HttpDemo.reply_whole HttpDemo.reply_full).
Defined.

Lemma serve_connection_sound_witness : read_request [txt "GET /tip HTTP/1.1"; []] ≠ None.
Proof.
  apply (proj1 (serve_connection_sound HttpDemo.echo 0%nat [txt "GET /tip HTTP/1.1"; []] [])). left. right. by left.
Defined.
