(* ===== verification/Cli.v ===== *)
(** The command-line tool [txchain]: [apps/txchain/main.cpp].

    [argv] is the whole argument vector, program name included.  The world the
    tool runs in - the chain files, the key files, the clock, the randomness
    and the outcomes of system calls - is a record; HTTP is a state-passing
    function, so that a node can be put behind it. *)

From Stdlib Require Import ZArith Lia Ascii String.
From stdpp Require Import base list strings gmap.
From S2P Require Import Prelude Text Sha256 Crypto Canonical Wallet Gate Chain Validate Mempool Pow Picojson Json Store.
From S2P Require Import Keyfile Node Rpc Http.

(** What a run prints and its exit status. *)
Record Out := mkOut { stdout : list byte; stderr : list byte; code : Z }.

#[export] Instance Out_eq_dec : EqDecision Out.
Proof. solve_decision. Defined.

Record World := mkWorld {
  chain_files : list byte → option (list byte);
  key_files : list byte → option keyfile;
  can_read : list byte → bool;
  now_s : Z;
  csprng : option Seed32;
  file_io : io;
  key_sys : key_io
}.

Definition upd {A} (f : list byte → A) (p : list byte) (v : A) : list byte → A :=
  λ q, if bool_decide (q = p) then v else f q.
Definition with_chain (w : World) (p : list byte) (v : option (list byte)) : World :=
  mkWorld (upd (chain_files w) p v) (key_files w) (can_read w) (now_s w) (csprng w) (file_io w) (key_sys w).
Definition with_key (w : World) (p : list byte) (v : option keyfile) : World :=
  mkWorld (chain_files w) (upd (key_files w) p v) (can_read w) (now_s w) (csprng w) (file_io w) (key_sys w).

Definition line (s : list byte) : list byte := s ++ [newline].
Definition says (s : list byte) (c : Z) : Out := mkOut (line s) [] c.
Definition complains (s : list byte) (c : Z) : Out := mkOut [] (line s) c.

(** [opt]: the value after the first occurrence of the flag. *)
Fixpoint opt_in (l : list (list byte)) (flag : list byte) : list byte :=
  match l with
  | a :: ((b :: _) as rest) => if bool_decide (a = flag) then b else opt_in rest flag
  | _ => []
  end.
Definition opt (argv : list (list byte)) (start : nat) (flag : string) : list byte :=
  opt_in (drop start argv) (txt flag).

(** The same digit loop as [rpc.cpp]. *)
Definition u128_str (v : Z) : list byte := u128_to_string v.

Definition difficulty_arg (argv : list (list byte)) : Z :=
  let dstr := opt argv 3 "--difficulty" in
  if bool_decide (dstr = []) then DIFFICULTY_BITS else to_unsigned (strtoull dstr).

Section cli.
Context {H : HashFn} {E : Ed25519}.

(** ** [monitor verify] *)

(** The last [--file] or [--datadir] with a value. *)
Fixpoint verify_target (l : list (list byte)) (path : list byte) (is_datadir : bool) : list byte * bool :=
  match l with
  | a :: ((b :: _) as rest) =>
      if bool_decide (a = txt "--file") then verify_target rest b false
      else if bool_decide (a = txt "--datadir") then verify_target rest b true
      else verify_target rest path is_datadir
  | _ => (path, is_datadir)
  end.

Definition run_monitor_verify (argv : list (list byte)) (w : World) : outcome Out :=
  let '(path, is_datadir) := verify_target (drop 3 argv) [] false in
  return_if bool_decide (path = [])
    with Ret (complains (txt "usage: txchain monitor verify (--file <chain.jsonl> | --datadir <dir>)") 2) ;;
  let file := chain_files w (if is_datadir then chain_path path else path) in
  let* loaded := load file in
  return_if negb (vr_ok (lr_status loaded))
    with Ret (says (monitor_verify_line (lr_status loaded) (length (lr_blocks loaded)))
                   (monitor_verify_exit_code (lr_status loaded))) ;;
  let difficulty := difficulty_arg argv in
  let reward := if 0 <? difficulty then COINBASE_REWARD else 0 in
  let result := replayFromGenesis (lr_blocks loaded) (now_s w) difficulty reward in
  Ret (says (monitor_verify_line result (length (lr_blocks loaded))) (monitor_verify_exit_code result)).

(** ** [wallet] *)

Definition wallet_path (argv : list (list byte)) (file_flag : string) : list byte :=
  let f := opt argv 3 file_flag in
  return_if negb (bool_decide (f = [])) with f ;;
  let dd := opt argv 3 "--datadir" in
  wallet_path_for_datadir (if bool_decide (dd = []) then txt "./txchain-data" else dd).

Definition run_wallet_keygen (argv : list (list byte)) (w : World) : outcome (Out * World) :=
  let path := wallet_path argv "--out" in
  match wallet_create (csprng w) with
  | None => Ret (complains (txt "wallet keygen: CSPRNG unavailable (getentropy failed)") 1, w)
  | Some wal =>
      match wallet_save (key_sys w) (key_files w path) wal with
      | None => NoFuel
      | Some (saved, file) =>
          let w := with_key w path file in
          return_if negb saved with Ret (complains (txt "wallet keygen: cannot write " ++ path) 1, w) ;;
          Ret (says (Hex.to_hex (arr_list (w_address wal))) 0, w)
      end
  end.

Definition run_wallet_address (argv : list (list byte)) (w : World) : outcome Out :=
  let path := wallet_path argv "--key" in
  let* r := wallet_load path (key_files w path) (can_read w path) in
  return_if negb (kl_ok r) with Ret (complains (txt "wallet address: " ++ kl_error r) 1) ;;
  let warning := if kl_world_readable r
                 then line (txt "warning: " ++ path ++ txt " is group/other-accessible (expected mode 0600)") else [] in
  Ret (mkOut (line (Hex.to_hex (arr_list (w_address (kl_wallet r))))) warning 0).

Definition run_wallet (argv : list (list byte)) (w : World) : outcome (Out * World) :=
  if bool_decide (argv !! 2%nat = Some (txt "keygen")) then run_wallet_keygen argv w
  else if bool_decide (argv !! 2%nat = Some (txt "address")) then
    let* o := run_wallet_address argv w in Ret (o, w)
  else Ret (complains (txt "usage: txchain wallet (keygen [--datadir D] [--out F] | address [--datadir D] [--key F])") 2, w).

(** ** [send] *)

(** The last colon of a text. *)
Fixpoint rfind_colon (l : list byte) : option nat :=
  match l with
  | [] => None
  | c :: l =>
      match rfind_colon l with
      | Some n => Some (S n)
      | None => if byte_to_Z c =? 58 then Some 0%nat else None
      end
  end.

Definition parse_node (s : list byte) : option (list byte * Z) :=
  match rfind_colon s with
  | None => None
  | Some colon =>
      return_if (colon =? 0)%nat || (length s <=? colon + 1)%nat with None ;;
      let host := take colon s in
      let port := atoi (drop (colon + 1) s) in
      if 0 <? port then Some (host, port) else None
  end.

(** An optional read of a JSON field: [std::nullopt] is [Ret None]. *)
Definition try {A} (o : outcome A) : outcome (option A) :=
  match o with Ret a => Ret (Some a) | Fail => Ret None | Throw => Throw | Undefined => Undefined | NoFuel => NoFuel end.

Section send.
Context {S : Type} (http : S → list byte → list byte → Z → list byte → list byte → outcome HttpResult * S).

(** The nonce of the next transaction: [inl] is the early return. *)
Definition resolve_nonce (argv : list (list byte)) (w : World) (st : S) (node : option (list byte * Z))
    (addr : Address20) : outcome (Out + Z) * S :=
  match node with
  | Some (host, port) =>
      let '(r, st) := http st (txt "GET") host port (txt "/account/" ++ Hex.to_hex (arr_list addr)) [] in
      (let* r := r in
       return_if negb (ok r) || negb (http_status r =? 200)
         with Ret (inl (complains (txt "send: cannot read /account from node") 1)) ;;
       let* pn := try (json_get_u64 (http_body r) "pendingNonce") in
       match pn with
       | None => Ret (inl (complains (txt "send: malformed /account response") 1))
       | Some n => Ret (inr n)
       end, st)
  | None =>
      let datadir := opt argv 2 "--datadir" in
      let datadir := if bool_decide (datadir = []) then txt "./txchain-data" else datadir in
      (let* lr := load (chain_files w (chain_path datadir)) in
       let blocks := lr_blocks lr in
       return_if vr_ok (lr_status lr) && negb (length blocks =? 0)%nat &&
                 negb (vr_ok (replayFromGenesis_default blocks (now_s w)))
         with Ret (inl (complains (txt "send: datadir chain fails replay") 1)) ;;
       Ret (inr (match replayState blocks !! addr with Some a => nonce a | None => 0 end)), st)
  end.

Definition usage_send : list byte :=
  txt "usage: txchain send --to <40hex> --amount <u64> [--node host:port] [--datadir D | --key F]".

Definition run_send (argv : list (list byte)) (w : World) (st : S) : outcome Out * S :=
  let to_arg := opt argv 2 "--to" in
  let amount_arg := opt argv 2 "--amount" in
  let node := opt argv 2 "--node" in
  let keyf := opt argv 2 "--key" in
  let datadir := opt argv 2 "--datadir" in
  let datadir := if bool_decide (datadir = []) then txt "./txchain-data" else datadir in
  return_if bool_decide (to_arg = []) || bool_decide (amount_arg = []) with (Ret (complains usage_send 2), st) ;;
  match Hex.from_hex 20 to_arg with
  | None => (Ret (complains (txt "send: --to must be 40 hex chars") 2), st)
  | Some to =>
      let amount := strtoull amount_arg in
      let wpath := if negb (bool_decide (keyf = [])) then keyf else wallet_path_for_datadir datadir in
      match wallet_load wpath (key_files w wpath) (can_read w wpath) with
      | Ret wl =>
          return_if negb (kl_ok wl) with (Ret (complains (txt "send: " ++ kl_error wl) 1), st) ;;
          let peer := if bool_decide (node = []) then None else parse_node node in
          return_if negb (bool_decide (node = [])) && negb (bool_decide (is_Some peer))
            with (Ret (complains (txt "send: bad --node (want host:port)") 2), st) ;;
          let '(r, st) := resolve_nonce argv w st peer (w_address (kl_wallet wl)) in
          match r with
          | Ret (inr nonce) =>
              let tx := sign_txn (w_seed (kl_wallet wl)) to amount nonce in
              let body := Hex.to_hex (serialize_txn tx) in
              let id := Hex.to_hex (arr_list (txid tx)) in
              match peer with
              | None =>
                  (Ret (says (txt "{" ++ jkey "txid" ++ quoted id ++ txt "," ++ jkey "nonce" ++ to_string nonce ++
                              txt "," ++ jkey "raw" ++ quoted body ++ txt "}") 0), st)
              | Some (host, port) =>
                  let '(pr, st) := http st (txt "POST") host port (txt "/tx") body in
                  (let* pr := pr in
                   return_if negb (ok pr)
                     with Ret (complains (txt "send: cannot reach node at " ++ host ++ txt ":" ++ signed_to_string port) 1) ;;
                   if http_status pr / 100 =? 2 then
                     let* printed := try (json_get_string (http_body pr) "txid") in
                     Ret (says (match printed with Some s => c_str s | None => id end) 0)
                   else
                     let* errtok := try (json_get_string (http_body pr) "error") in
                     Ret (complains (txt "send rejected: " ++
                            match errtok with Some s => c_str s | None => c_str (http_body pr) end) 1), st)
              end
          | Ret (inl o) => (Ret o, st)
          | Fail => (Fail, st)
          | Throw => (Throw, st)
          | Undefined => (Undefined, st)
          | NoFuel => (NoFuel, st)
          end
      | Fail => (Fail, st)
      | Throw => (Throw, st)
      | Undefined => (Undefined, st)
      | NoFuel => (NoFuel, st)
      end
  end.
End send.

(** ** [import] *)

Definition run_import (argv : list (list byte)) (w : World) : outcome (Out * World) :=
  match argv !! 2%nat with
  | None => Ret (complains (txt "usage: txchain import <file> [--datadir D] [--difficulty D]") 2, w)
  | Some file =>
      let datadir := opt argv 3 "--datadir" in
      let datadir := if bool_decide (datadir = []) then txt "./txchain-data" else datadir in
      let difficulty := difficulty_arg argv in
      let reward := if 0 <? difficulty then COINBASE_REWARD else 0 in
      let active_path := chain_path datadir in
      let* imported := load (chain_files w file) in
      return_if negb (vr_ok (lr_status imported))
        with Ret (complains (txt "import: cannot load " ++ file ++ txt " (" ++
                             reasonName (vr_reason (lr_status imported)) ++ txt ")") 1, w) ;;
      let* active := load (chain_files w active_path) in
      let result := evaluateImport (lr_blocks active) (lr_blocks imported) (now_s w) difficulty reward in
      return_if negb (ir_valid result)
        with Ret (says (monitor_verify_line (ir_status result) (length (lr_blocks imported))) 1, w) ;;
      return_if negb (ir_won result)
        with Ret (says (txt "incumbent retained (active cumWork " ++ u128_str (ir_active_work result) ++
                        txt " >= candidate " ++ u128_str (ir_candidate_work result) ++ txt ")") 0, w) ;;
      match rewrite (file_io w) (chain_files w active_path) (lr_blocks imported) with
      | None => NoFuel
      | Some (written, f) =>
          let w := with_chain w active_path f in
          return_if negb written with Ret (complains (txt "import: cannot rewrite " ++ active_path) 1, w) ;;
          let tip := Hex.to_hex (arr_list (block_hash (header (default genesisBlock (last (lr_blocks imported)))))) in
          Ret (says (txt "imported: replaced active chain (cumWork " ++ u128_str (ir_active_work result) ++ txt " -> " ++
                     u128_str (ir_candidate_work result) ++ txt "), new tip " ++ tip ++ txt " height " ++
                     to_string (Z.of_nat (length (lr_blocks imported)) - 1)) 0, w)
      end
  end.

(** ** [main] *)

Definition usage : list byte :=
  txt "txchain: TxChain v2 CLI (core module=config)." ++ [newline] ++
  txt "  monitor verify (--file <chain.jsonl> | --datadir <dir>) [--difficulty D]" ++ [newline] ++
  txt "  wallet keygen  [--datadir D] [--out F]" ++ [newline] ++
  txt "  wallet address [--datadir D] [--key F]" ++ [newline] ++
  txt "  send --to <40hex> --amount <u64> [--node host:port] [--datadir D | --key F]" ++ [newline] ++
  txt "  import <file> [--datadir D] [--difficulty D]".

Definition cli_main {S} (http : S → list byte → list byte → Z → list byte → list byte → outcome HttpResult * S)
    (argv : list (list byte)) (w : World) (st : S) : outcome (Out * World) * S :=
  let verb := default [] (argv !! 1%nat) in
  if bool_decide (verb = txt "monitor") && bool_decide (argv !! 2%nat = Some (txt "verify")) then
    (let* o := run_monitor_verify argv w in Ret (o, w), st)
  else if bool_decide (verb = txt "wallet") then (run_wallet argv w, st)
  else if bool_decide (verb = txt "send") then
    let '(o, st) := run_send http argv w st in (let* o := o in Ret (o, w), st)
  else if bool_decide (verb = txt "import") then (run_import argv w, st)
  else (Ret (says usage 0, w), st).
End cli.

(** ** Lemmas *)

(** The parameters [monitor verify] and [import] run at. *)
Definition reward_at (D : Z) : Z := if 0 <? D then COINBASE_REWARD else 0.

Section cli_lemmas.
Context {H : HashFn} {E : Ed25519}.

(** A chain file that is valid from genesis at difficulty [D]. *)
Definition valid_file (file : option (list byte)) (now D : Z) (blocks : list Block) : Prop :=
  load file = Ret (mkLoad blocks status_ok) ∧
  ∃ b0 l w, blocks = b0 :: l ∧ replays now D (reward_at D) b0 l w ∧ u64 (supply w) = expected_supply l (reward_at D).

Lemma verify_exit argv w o :
  run_monitor_verify argv w = Ret o →
  let '(path, is_datadir) := verify_target (drop 3 argv) [] false in
  let file := chain_files w (if is_datadir then chain_path path else path) in
  (code o = 0 ↔ path ≠ [] ∧ ∃ blocks, valid_file file (now_s w) (difficulty_arg argv) blocks) ∧
  (∀ blocks, path ≠ [] → valid_file file (now_s w) (difficulty_arg argv) blocks →
     o = says (txt "OK " ++ to_string (Z.of_nat (length blocks)) ++ txt " blocks") 0).
Proof.
  unfold run_monitor_verify. destruct (verify_target _ _ _) as [path is_datadir].
  set (file := chain_files w _). clearbody file.
  case_bool_decide as Hp. { intros [= <-]. split; [split; [done|by intros [? _]]|done]. }
  destruct (load file) as [r| | | |] eqn:El; cbn [obind]; try done. intros Ho.
  destruct (vr_ok (lr_status r)) eqn:Es; cbn [negb] in Ho.
  2: { injection Ho as <-. unfold monitor_verify_exit_code. rewrite Es. split; [split; [done|]|].
       - intros (_ & bs & [Hl _]). rewrite El in Hl. injection Hl as ->. done.
       - intros bs _ [Hl _]. rewrite El in Hl. injection Hl as ->. done. }
  pose proof (load_ok_shape _ _ El Es) as Hr. rewrite Hr in *. cbn [lr_blocks] in *. fold (reward_at (difficulty_arg argv)) in Ho.
  set (R := reward_at _) in *. set (D := difficulty_arg argv) in *.
  pose proof (replay_ok_iff (lr_blocks r) (now_s w) D R) as Hiff.
  injection Ho as <-. unfold monitor_verify_exit_code, monitor_verify_line.
  assert (∀ bs, valid_file file (now_s w) D bs → bs = lr_blocks r ∧ vr_ok (replayFromGenesis (lr_blocks r) (now_s w) D R) = true) as Hv.
  { intros bs [Hl Hx]. rewrite El in Hl. injection Hl as <-. split; [done|]. by apply Hiff. }
  destruct (vr_ok (replayFromGenesis _ _ _ _)) eqn:Ev.
  - split; [|by intros bs _ [-> _]%Hv]. split; [|done]. intros _. split; [done|]. exists (lr_blocks r). split; [done|].
    by apply Hiff.
  - split; [|by intros bs _ [_ ?]%Hv]. split; [done|]. by intros (_ & bs & [_ ?]%Hv).
Qed.

(** A valid file is reported as such. *)
Lemma verify_valid argv w path is_datadir blocks :
  verify_target (drop 3 argv) [] false = (path, is_datadir) → path ≠ [] →
  valid_file (chain_files w (if is_datadir then chain_path path else path)) (now_s w) (difficulty_arg argv) blocks →
  run_monitor_verify argv w = Ret (says (txt "OK " ++ to_string (Z.of_nat (length blocks)) ++ txt " blocks") 0).
Proof.
  intros Ht Hp [Hl Hv]. unfold run_monitor_verify. rewrite Ht, bool_decide_eq_false_2, Hl by done.
  cbn [obind lr_status lr_blocks vr_ok status_ok negb]. fold (reward_at (difficulty_arg argv)).
  unfold monitor_verify_line, monitor_verify_exit_code. by rewrite (proj2 (replay_ok_iff _ _ _ _) Hv).
Qed.

(** An import of a valid, heavier chain that is written completely. *)
Lemma import_taken argv file w blocks old f :
  let dd := opt argv 3 "--datadir" in
  let active := chain_path (if bool_decide (dd = []) then txt "./txchain-data" else dd) in
  let D := difficulty_arg argv in
  argv !! 2%nat = Some file → valid_file (chain_files w file) (now_s w) D blocks →
  load (chain_files w active) = Ret old → cumulativeWork (lr_blocks old) D < cumulativeWork blocks D →
  rewrite (file_io w) (chain_files w active) blocks = Some (true, f) →
  ∃ out, run_import argv w = Ret (says out 0, with_chain w active f).
Proof.
  intros dd active D Hfile [Hl Hv] Ho Hw Hf. unfold run_import. rewrite Hfile. cbn zeta. fold dd active D.
  rewrite Hl. cbn [obind lr_status lr_blocks vr_ok status_ok negb]. rewrite Ho. cbn [obind].
  fold (reward_at D). cbn [evaluateImport ir_valid ir_won]. rewrite (proj2 (replay_ok_iff _ _ _ _) Hv). cbn [negb andb].
  unfold candidateWins. rewrite (proj2 (Z.ltb_lt _ _) Hw). cbn [negb]. rewrite Hf. cbn [negb]. by eexists.
Qed.
End cli_lemmas.

(** ** The node at the other end *)

(** What the client's requests do against a node reached over a network that
    [carries] them (file Http): the handler [txnode] installs, over the node's
    mempool. *)
Definition node_http {H : HashFn} {E : Ed25519} (nd : Node) (mp : Mempool) (method host : list byte) (port : Z)
    (path body : list byte) : outcome HttpResult * Mempool :=
  let '(r, mp') := rpc_handler nd mp method path body in (Ret (mkHttp true (status r) (resp_body r)), mp').

Section send_lemmas.
Context {H : HashFn} {E : Ed25519}.

Lemma plain_c_str l : plain l → c_str l = l.
Proof.
  intros Hl. apply c_str_id. intros Hin. unfold plain in Hl. rewrite Forall_forall in Hl. by specialize (Hl _ Hin).
Qed.

Lemma try_ret {A} (a : A) : try (Ret a) = Ret (Some a).
Proof. done. Qed.

(** The transaction [send] makes. *)
Definition next_txn (mp : Mempool) (c : Chain) (wal : Wallet) (to : Address20) (amount : Z) : Txn :=
  sign_txn (w_seed wal) to amount
    (nonce (account c (w_address wal)) + (if hasPending mp (w_address wal) then 1 else 0)).

Lemma next_nonce argv w nd mp host port wal :
  let acct := account (chain_ nd) (w_address wal) in
  0 <= balance acct < 2 ^ 63 → 0 <= nonce acct < 2 ^ 63 - 1 →
  resolve_nonce (node_http nd) argv w mp (Some (host, port)) (w_address wal) =
  (Ret (inr (nonce acct + (if hasPending mp (w_address wal) then 1 else 0))), mp).
Proof.
  intros acct Hb Hn. destruct (get_account_spec (w_address wal) (node_ctx nd mp) [] Hb Hn) as (body & Hr & _ & _ & _ & Hp).
  { by left. }
  rewrite app_nil_r in Hr. unfold resolve_nonce, node_http, rpc_handler. rewrite Hr.
  cbn [obind ok http_status http_body status resp_body negb orb]. change (200 =? 200) with true. cbn [negb].
  rewrite Hp. done.
Qed.

Lemma admit_status_class ar : (admit_status ar / 100 =? 2) = bool_decide (ar = AdmitResult.OK).
Proof. by destruct ar. Qed.

(** A usable command line: a destination, an amount, a node and a key file that
    loads. *)
Record can_call (argv : list (list byte)) (w : World) (to : Address20) (wl : Wallet) : Prop := {
  cs_to : Hex.from_hex 20 (opt argv 2 "--to") = Some to;
  cs_amount : opt argv 2 "--amount" ≠ [];
  cs_node : ∃ host port, parse_node (opt argv 2 "--node") = Some (host, port) ∧ token host ∧ size_of host <= 2 ^ 16;
  cs_wallet :
    let datadir := opt argv 2 "--datadir" in
    let datadir := if bool_decide (datadir = []) then txt "./txchain-data" else datadir in
    let keyf := opt argv 2 "--key" in
    let wpath := if negb (bool_decide (keyf = [])) then keyf else wallet_path_for_datadir datadir in
    ∃ wr, wallet_load wpath (key_files w wpath) (can_read w wpath) = Ret (mkKeyLoad true wl [] wr)
}.

(** And an account whose figures the client reads exactly. *)
Record can_send (argv : list (list byte)) (w : World) (nd : Node) (to : Address20) (wl : Wallet) : Prop := {
  cs_call : can_call argv w to wl;
  cs_balance : 0 <= balance (account (chain_ nd) (w_address wl)) < 2 ^ 63;
  cs_nonce : 0 <= nonce (account (chain_ nd) (w_address wl)) < 2 ^ 63 - 1
}.

(** The whole exchange of [send --node]. *)
Lemma send_exchange argv w nd mp to wl :
  can_send argv w nd to wl →
  let t := next_txn mp (chain_ nd) wl to (strtoull (opt argv 2 "--amount")) in
  let '(ar, mp') := admit_txn (account (chain_ nd)) mp t in
  run_send (node_http nd) argv w mp =
    (Ret (if bool_decide (ar = AdmitResult.OK) then says (Hex.to_hex (arr_list (txid t))) 0
          else complains (txt "send rejected: " ++ if bool_decide (ar = AdmitResult.UNPARSEABLE)
                            then txt "PARSE_ERROR" else admit_result_name ar) 1), mp').
Proof.
  intros [[Hto Ham (host & port & Hnode & _) Hw] Hb Hn] t. cbv zeta in Hw.
  set (datadir := if bool_decide (opt argv 2 "--datadir" = []) then _ else _) in Hw.
  set (wpath := if negb _ then _ else _) in Hw. destruct Hw as [wr Hw].
  assert (u64_ok (tx_amount t) ∧ u64_ok (tx_nonce t)) as [Hu1 Hu2].
  { split; [apply strtoull_range|]. cbn. unfold u64_ok. destruct (hasPending _ _); lia. }
  pose proof (submit_hex [] [] t (node_ctx nd mp)) as Hs.
  rewrite app_nil_l, app_nil_r in Hs. cbn [mempool_account node_ctx ctx_mempool] in Hs.
  assert (opt argv 2 "--to" ≠ []) as Hto' by (intros He; by rewrite He in Hto).
  assert (opt argv 2 "--node" ≠ []) as Hnode' by (intros He; by rewrite He in Hnode).
  unfold run_send. rewrite (bool_decide_eq_false_2 _ Hto'), (bool_decide_eq_false_2 _ Ham), Hto. cbn [orb].
  fold datadir wpath. rewrite Hw, (bool_decide_eq_false_2 _ Hnode'), Hnode. cbn [kl_ok kl_wallet negb andb].
  rewrite bool_decide_eq_true_2 by done. cbn [negb]. rewrite next_nonce by done.
  change (sign_txn (w_seed wl) to _ _) with t.
  destruct (admit_txn _ _ _) as [ar mp'] eqn:Ea.
  unfold node_http, rpc_handler, handle_request. change (path_of (txt "/tx")) with (txt "/tx").
  rewrite !bool_decide_eq_true_2 by done. cbn [andb]. rewrite Hs by (done || constructor).
  destruct (bool_decide (ar = AdmitResult.OK)) eqn:Eo; cbn [obind ok http_status http_body status resp_body negb].
  - change (200 / 100 =? 2) with true. cbn iota. rewrite txid_token. cbn [try obind].
    rewrite plain_c_str by apply hex_plain. done.
  - rewrite admit_status_class, Eo. rewrite error_token. 2,3: case_bool_decide; first [by apply token_plain|apply admit_name_plain].
    cbn [try obind]. rewrite plain_c_str; [done|]. case_bool_decide; first [by apply token_plain|apply admit_name_plain].
Qed.

(** ** Over a network *)

Lemma hex_token l : token (Hex.to_hex l).
Proof.
  eapply Forall_impl; [apply Hex.to_hex_digits|]. cbn beta. intros c. unfold Hex.is_lower_hex, token_char, is_digit. lia.
Qed.

(** Requests to a short host are far below the server's limit. *)
Lemma request_size method host path body :
  size_of (request_text method host path body) <= size_of method + size_of host + size_of path + size_of body + 200.
Proof.
  unfold request_text, size_of. rewrite !length_app. pose proof (to_string_length (Z.of_nat (length body))).
  change (length (txt " ")) with 1%nat. change (length (txt " HTTP/1.1")) with 9%nat. change (length crlf) with 2%nat.
  change (length (txt "Host: ")) with 6%nat. change (length (txt "Connection: close")) with 17%nat.
  change (length (txt "Content-Type: application/json")) with 30%nat. change (length (txt "Content-Length: ")) with 16%nat.
  change (length blank_line) with 4%nat. lia.
Qed.

(** The two requests of [send] are ones the transport carries. *)
Definition account_path (a : Address20) : list byte := txt "/account/" ++ Hex.to_hex (arr_list a).

Lemma account_call host a :
  token host → size_of host <= 2 ^ 16 →
  plain_request (txt "GET") host (account_path a) ∧
  size_of (request_text (txt "GET") host (account_path a) []) <= kMaxRequestBytes.
Proof.
  intros Hh Hs. unfold account_path. split.
  - split; [by repeat constructor|done|]. apply Forall_app. split; [by repeat constructor|apply hex_token].
  - etransitivity; [apply request_size|]. unfold size_of at 3. rewrite length_app, Hex.to_hex_length, arr_length.
    change (size_of (txt "GET")) with 3. change (length (txt "/account/")) with 9%nat. change (size_of []) with 0.
    unfold kMaxRequestBytes. lia.
Qed.

Lemma submit_call host t :
  token host → size_of host <= 2 ^ 16 →
  plain_request (txt "POST") host (txt "/tx") ∧
  size_of (request_text (txt "POST") host (txt "/tx") (Hex.to_hex (serialize_txn t))) <= kMaxRequestBytes.
Proof.
  intros Hh Hs. split.
  - split; [by repeat constructor|done|by repeat constructor].
  - etransitivity; [apply request_size|]. unfold size_of at 4. rewrite Hex.to_hex_length, serialize_txn_length.
    change (size_of (txt "POST")) with 4. change (size_of (txt "/tx")) with 3. unfold kMaxRequestBytes, kTxnSize. lia.
Qed.

Lemma resolve_carried http nd argv w mp host port a :
  carries nd http → token host → size_of host <= 2 ^ 16 →
  resolve_nonce http argv w mp (Some (host, port)) a = resolve_nonce (node_http nd) argv w mp (Some (host, port)) a.
Proof.
  intros Hc Hh Hs. unfold resolve_nonce. fold (account_path a). destruct (account_call host a Hh Hs).
  by rewrite (carried_call nd http).
Qed.

Lemma send_carried http nd argv w mp to wl :
  carries nd http → can_send argv w nd to wl → run_send http argv w mp = run_send (node_http nd) argv w mp.
Proof.
  intros Hc [[_ _ (host & port & Hnode & Hh & Hs) _] _ _]. assert (opt argv 2 "--node" ≠ []) as Hn by (intros He; by rewrite He in Hnode).
  unfold run_send. destruct (_ || _); [done|]. destruct (Hex.from_hex 20 _); [|done]. destruct (wallet_load _ _ _); try done.
  destruct (negb (kl_ok _)); [done|]. rewrite (bool_decide_eq_false_2 _ Hn), Hnode. destruct (_ && _); [done|].
  rewrite (resolve_carried http nd) by done. destruct (resolve_nonce _ _ _ _ _ _) as [[[o|n]| | | |] mp1]; try done.
  destruct (submit_call host (sign_txn (w_seed (kl_wallet a0)) a (strtoull (opt argv 2 "--amount")) n) Hh Hs).
  by rewrite (carried_call nd http).
Qed.

Lemma wallet_derived argv w to wl : can_call argv w to wl → derived wl.
Proof. intros [_ _ _ [wr Hw]]. by apply wallet_load_derived in Hw. Qed.

(** What [send --node] has done when it exits 0, whatever is at the other end:
    one query, then one post of the signed transaction, answered with success. *)
Lemma send_exit {S : Type} (http : S → list byte → list byte → Z → list byte → list byte → outcome HttpResult * S)
    argv w st st' o to wl :
  can_call argv w to wl → run_send http argv w st = (Ret o, st') → code o = 0 →
  ∃ host port r1 st1 n r2,
    token host ∧ size_of host <= 2 ^ 16 ∧
    http st (txt "GET") host port (account_path (w_address wl)) [] = (Ret r1, st1) ∧ u64_ok n ∧
    http st1 (txt "POST") host port (txt "/tx")
      (Hex.to_hex (serialize_txn (sign_txn (w_seed wl) to (strtoull (opt argv 2 "--amount")) n))) = (Ret r2, st') ∧
    ok r2 = true ∧ http_status r2 / 100 = 2.
Proof.
  intros [Hto Ham (host & port & Hnode & Hh & Hs) Hw] Hrun Hok. cbv zeta in Hw.
  assert (opt argv 2 "--to" ≠ []) as Hto' by (intros He; by rewrite He in Hto).
  assert (opt argv 2 "--node" ≠ []) as Hnode' by (intros He; by rewrite He in Hnode).
  unfold run_send in Hrun. rewrite (bool_decide_eq_false_2 _ Hto'), (bool_decide_eq_false_2 _ Ham), Hto in Hrun.
  cbn [orb] in Hrun. set (wpath := if negb _ then _ else _) in Hrun, Hw. destruct Hw as [wr Hw].
  rewrite Hw, (bool_decide_eq_false_2 _ Hnode'), Hnode in Hrun. cbn [kl_ok kl_wallet negb andb] in Hrun.
  rewrite bool_decide_eq_true_2 in Hrun by done. cbn [negb] in Hrun. unfold resolve_nonce in Hrun.
  fold (account_path (w_address wl)) in Hrun.
  destruct (http st _ _ _ _ _) as [[r1| | | |] st1] eqn:H1; cbn [obind] in Hrun; try (by injection Hrun).
  destruct (negb (ok r1) || _); [injection Hrun as <- _; by cbn in Hok|].
  destruct (json_get_u64 _ _) as [n| | | |] eqn:Hn; cbn [try obind] in Hrun; try (injection Hrun; by intros; subst).
  assert (u64_ok n) as Hn64.
  { unfold json_get_u64 in Hn. destruct (parse _) as [v| | | |]; try done. cbn [obind] in Hn. destruct v; try done.
    by eapply get_u64_ok. }
  destruct (http st1 _ _ _ _ _) as [[r2| | | |] st2] eqn:H2; cbn [obind] in Hrun; try (by injection Hrun).
  destruct (ok r2) eqn:Hr; cbn [negb] in Hrun; [|injection Hrun as <- _; by cbn in Hok].
  destruct (Z.eqb_spec (http_status r2 / 100) 2) as [Hst|_].
  - exists host, port, r1, st1, n, r2. injection Hrun as _ <-. by split_and!.
  - destruct (json_get_string _ _); cbn [try obind] in Hrun; try (by injection Hrun);
      (injection Hrun as <- _; by cbn in Hok).
Qed.

Context {EL : Ed25519Laws E}.

(** The gate's verdict on what [send] signs. *)
Lemma next_verdict mp c wl to amount :
  derived wl → w_address wl ≠ kNullAddr →
  user_verdict (account c (w_address wl)) (next_txn mp c wl to amount) =
  if hasPending mp (w_address wl) then STALE_NONCE
  else if balance (account c (w_address wl)) <? amount then INSUFFICIENT_FUNDS else OK.
Proof.
  intros [Hp Ha] Hnull. unfold user_verdict, next_txn, address_matches. rewrite sign_txn_verifies. cbn.
  rewrite <- Hp, <- Ha. rewrite bool_decide_eq_false_2, bool_decide_eq_true_2 by done. cbn [negb].
  destruct (hasPending _ _).
  - by rewrite (proj2 (Z.eqb_neq _ _)) by lia.
  - by rewrite Z.add_0_r, Z.eqb_refl.
Qed.

Lemma next_admission mp c wl to amount :
  derived wl → w_address wl ≠ kNullAddr →
  let t := next_txn mp c wl to amount in
  contains mp (txid t) = false →
  (hasPending mp (w_address wl) = true → admit_txn (account c) mp t = (AdmitResult.STALE_NONCE, mp)) ∧
  (hasPending mp (w_address wl) = false → amount <= balance (account c (w_address wl)) →
   (pool_size mp < cap_ mp)%nat → admit_txn (account c) mp t = (AdmitResult.OK, admitted mp t)).
Proof.
  intros Hd Hnull t Hc. pose proof (next_verdict mp c wl to amount Hd Hnull) as Hv. fold t in Hv.
  assert (tx_from t = w_address wl) as Hf by (by destruct Hd as [Hp ->]; rewrite Hp).
  unfold admit_txn. change (negb (tx_ver t =? kTxnVersion)) with false. cbn iota.
  rewrite Hc, shadow_gate, Hf, Hv. split; intros ->; [done|]. intros Hb Hs.
  rewrite (proj2 (Z.ltb_ge _ _)) by done. rewrite !bool_decide_eq_false_2, bool_decide_eq_true_2 by done. cbn [orb andb negb].
  rewrite (proj2 (Nat.leb_gt _ _)) by done. unfold admitted. by rewrite Hf.
Qed.
End send_lemmas.

(** C26. A payment from the command line to a node: [txchain send --node] learns the
    sender's nonce, signs, submits and reports faithfully, over any network that
    delivers what is written, cut anyhow into reads.  The node's mempool
    ends as the admission gate leaves it on the signed transaction and the tool
    exits 0 exactly when it was admitted; with a free slot, room and funds it is
    admitted at the committed nonce and its id is printed; while an earlier payment
    is pending the nonce the node reports is one the gate refuses, so the tool
    fails with STALE_NONCE and the mempool is unchanged. *)
Theorem send_correct {H : HashFn} {E : Ed25519} {EL : Ed25519Laws E} http argv w nd mp to wl :
  carries nd http → can_send argv w nd to wl → w_address wl ≠ kNullAddr →
  let amount := strtoull (opt argv 2 "--amount") in
  let t := next_txn mp (chain_ nd) wl to amount in
  (∃ o, run_send http argv w mp = (Ret o, (admit_txn (account (chain_ nd)) mp t).2) ∧
        (code o = 0 ↔ (admit_txn (account (chain_ nd)) mp t).1 = AdmitResult.OK)) ∧
  (contains mp (txid t) = false →
   (hasPending mp (w_address wl) = false → amount <= balance (account (chain_ nd) (w_address wl)) →
    (pool_size mp < cap_ mp)%nat →
    tx_nonce t = nonce (account (chain_ nd) (w_address wl)) ∧
    run_send http argv w mp = (Ret (says (Hex.to_hex (arr_list (txid t))) 0), admitted mp t)) ∧
   (hasPending mp (w_address wl) = true →
    run_send http argv w mp = (Ret (complains (txt "send rejected: STALE_NONCE") 1), mp))).
Proof.
  intros Hcar Hc Hnull amount t. rewrite !(send_carried http nd argv w mp to wl Hcar Hc). pose proof (send_exchange argv w nd mp to wl Hc) as Hx. cbv zeta in Hx. fold amount t in Hx.
  pose proof (next_admission mp (chain_ nd) wl to amount (wallet_derived _ _ _ _ (cs_call _ _ _ _ _ Hc)) Hnull) as Ha. cbv zeta in Ha. fold t in Ha.
  split.
  - destruct (admit_txn _ mp t) as [ar mp']. rewrite Hx. eexists. split; [done|]. cbn. by case_bool_decide.
  - intros Hd. destruct (Ha Hd) as [Hbusy Hfree]. split.
    + intros Hp Hb Hs. split; [unfold t, next_txn; rewrite Hp; apply Z.add_0_r|]. by rewrite (Hfree Hp Hb Hs) in Hx.
    + intros Hp. by rewrite (Hbusy Hp) in Hx.
Qed.

(** [txchain monitor verify] is a correct gate: it exits 0 exactly when the named
    file loads and its blocks are, in the sense of the specification, a chain that
    replays from genesis at the requested difficulty with the supply the schedule
    gives, and it then prints the number of blocks. *)
Theorem monitor_verify_correct {H : HashFn} {E : Ed25519} argv w o :
  run_monitor_verify argv w = Ret o →
  let '(path, is_datadir) := verify_target (drop 3 argv) [] false in
  let file := chain_files w (if is_datadir then chain_path path else path) in
  (code o = 0 ↔ path ≠ [] ∧ ∃ blocks, valid_file file (now_s w) (difficulty_arg argv) blocks) ∧
  (∀ blocks, path ≠ [] → valid_file file (now_s w) (difficulty_arg argv) blocks →
     o = says (txt "OK " ++ to_string (Z.of_nat (length blocks)) ++ txt " blocks") 0).
Proof. apply verify_exit. Qed.

Lemma import_effect {H : HashFn} {E : Ed25519} argv file w o w' :
  argv !! 2%nat = Some file → run_import argv w = Ret (o, w') →
  let dd := opt argv 3 "--datadir" in
  let active := chain_path (if bool_decide (dd = []) then txt "./txchain-data" else dd) in
  let D := difficulty_arg argv in
  w' = w ∨
  ∃ blocks old, valid_file (chain_files w file) (now_s w) D blocks ∧ load (chain_files w active) = Ret old ∧
    cumulativeWork (lr_blocks old) D < cumulativeWork blocks D ∧
    (∃ f, w' = with_chain w active f) ∧
    (code o = 0 → Forall json_exact blocks → load (chain_files w' active) = Ret (mkLoad blocks status_ok)).
Proof.
  intros Hfile. unfold run_import. rewrite Hfile. cbn zeta. set (active := chain_path _). clearbody active.
  destruct (load (chain_files w file)) as [r| | | |] eqn:El; cbn [obind]; try done.
  destruct (vr_ok (lr_status r)) eqn:Es; cbn [negb]; [|intros [= <- <-]; by left].
  pose proof (load_ok_shape _ _ El Es) as Hr. destruct (load (chain_files w active)) as [old| | | |] eqn:Eo; cbn [obind]; try done.
  fold (reward_at (difficulty_arg argv)). set (D := difficulty_arg argv). cbn [evaluateImport ir_valid ir_won].
  destruct (vr_ok (replayFromGenesis _ _ _ _)) eqn:Ev; cbn [negb andb]; [|intros [= <- <-]; by left].
  destruct (candidateWins _ _) eqn:Ew; cbn [negb]; [|intros [= <- <-]; by left].
  destruct (rewrite _ _ _) as [[written f]|] eqn:Ef; [|done]. intros Hres. right. exists (lr_blocks r), old.
  split; [split; [by rewrite El, Hr at 1|by apply replay_ok_iff]|]. split; [done|].
  split; [unfold candidateWins in Ew; by apply Z.ltb_lt in Ew|].
  destruct written; cbn [negb] in Hres; injection Hres as <- <-; (split; [by exists f|]); [|done].
  intros _ Hex. cbn [with_chain chain_files]. unfold upd. rewrite bool_decide_eq_true_2 by done.
  unfold rewrite, write_file in Ef. destruct (open_ok (file_io w)); cbn [negb] in Ef; [|done].
  destruct (Store.write_all _ _ _) as [[b g]|] eqn:Eg; [|done]. cbn [mbind option_bind] in Ef. injection Ef as Hb <-.
  apply andb_true_iff in Hb as [-> _]. apply write_all_prefix in Eg as (n & _ & Hg). rewrite (Hg eq_refl). cbn [app].
  by apply load_lines.
Qed.

(** C27. [txchain import] replaces a chain only by a valid one with strictly more work
    than the loader returns of the present one: the only file it may touch is the
    datadir's chain file, and it touches it only when the imported file is valid
    from genesis at the requested difficulty and has more cumulative work than the
    blocks [load] returns of the active file - its whole chain when the file is well
    formed, and otherwise only the blocks before its first bad line, because the
    load status of the active file is not looked at.  When the tool then exits 0 the
    file loads back to the imported blocks, provided their integers are below 2^63
    (the file format keeps no larger ones). *)
Theorem import_replaces {H : HashFn} {E : Ed25519} argv file w o w' :
  argv !! 2%nat = Some file → run_import argv w = Ret (o, w') →
  let dd := opt argv 3 "--datadir" in
  let active := chain_path (if bool_decide (dd = []) then txt "./txchain-data" else dd) in
  let D := difficulty_arg argv in
  w' = w ∨
  ∃ blocks old, valid_file (chain_files w file) (now_s w) D blocks ∧ load (chain_files w active) = Ret old ∧
    cumulativeWork (lr_blocks old) D < cumulativeWork blocks D ∧
    (∃ f, w' = with_chain w active f) ∧
    (code o = 0 → Forall json_exact blocks → load (chain_files w' active) = Ret (mkLoad blocks status_ok)).
Proof. apply import_effect. Qed.

(** What an import leaves for the node: when [txchain import] exits 0 having
    replaced the chain, a node with the same difficulty and reward boots from the
    datadir into exactly the imported chain if that chain begins with the canonical
    genesis block, and refuses to start with a genesis mismatch if it begins with
    any other block, which the import accepts. *)
Theorem import_then_boot {H : HashFn} {E : Ed25519} argv file w o w' blocks sys cfg :
  now_s w + MAX_CLOCK_SKEW_S < 2 ^ 64 → 0 <= now_s w →
  argv !! 2%nat = Some file → run_import argv w = Ret (o, w') → code o = 0 → w' ≠ w →
  load (chain_files w file) = Ret (mkLoad blocks status_ok) → Forall json_exact blocks →
  difficulty cfg = difficulty_arg argv → node_reward cfg = reward_at (difficulty_arg argv) →
  let dd := opt argv 3 "--datadir" in
  let f := chain_files w' (chain_path (if bool_decide (dd = []) then txt "./txchain-data" else dd)) in
  if bool_decide (head blocks = Some genesisBlock)
  then ∃ c, boot sys cfg f (now_s w) = Ret (mkBoot true status_ok, mkNode cfg c f) ∧ blocks_ c = blocks
  else ∃ nd, boot sys cfg f (now_s w) = Ret (mkBoot false (mkVerify false 0 BAD_LINK (txt "genesis mismatch")), nd).
Proof.
  intros Hn H0 Hfile Hrun Hc Hw Hl Hex HD HR dd f.
  destruct (import_effect argv file w o w' Hfile Hrun) as [|(bs & old & [Hv (b0 & l & x & -> & Hrep)] & _ & _ & _ & Hload)]; [done|].
  rewrite Hl in Hv. injection Hv as ->. specialize (Hload Hc Hex). fold dd in Hload. fold f in Hload. clearbody f.
  destruct f as [f|]; [|done]. pose proof (boot_decides sys cfg f (now_s w) b0 l Hn H0 Hload) as Hb. cbv zeta in Hb.
  rewrite HD, HR in Hb. cbn [head]. destruct (decide (b0 = genesisBlock)) as [->|Hg].
  - rewrite !bool_decide_eq_true_2 in * by done.
    assert (vr_ok (replayFromGenesis (genesisBlock :: l) (now_s w) (difficulty_arg argv) (reward_at (difficulty_arg argv))) = true) as Hv
      by (apply replay_ok_iff; eauto).
    rewrite Hv in Hb. cbn [andb] in Hb. destruct Hb as (c & Hb & Hbl & _). eauto.
  - rewrite (bool_decide_eq_false_2 _ Hg) in Hb. cbn [andb] in Hb. rewrite bool_decide_eq_false_2 by congruence. eauto.
Qed.


(** Keys made by the tool are keys the tool reads: after [wallet keygen] exits 0,
    [wallet address] on the same file prints the same address, and no warning. *)
Theorem keygen_then_address {H : HashFn} {E : Ed25519} argv argv' w o w' :
  run_wallet_keygen argv w = Ret (o, w') → code o = 0 →
  wallet_path argv' "--key" = wallet_path argv "--out" → can_read w (wallet_path argv "--out") = true →
  run_wallet_address argv' w' = Ret (mkOut (stdout o) [] 0).
Proof.
  unfold run_wallet_keygen. set (path := wallet_path argv "--out"). intros Hk Hc Hp Hread.
  destruct (wallet_create (csprng w)) as [wal|] eqn:Ew; [|by injection Hk as <- <-].
  apply wallet_create_derived in Ew.
  destruct (wallet_save _ _ wal) as [[saved file]|] eqn:Es; [|done].
  destruct saved; cbn [negb] in Hk; [|by injection Hk as <- <-]. injection Hk as <- <-.
  unfold run_wallet_address. rewrite Hp. fold path. cbn [with_key key_files can_read]. unfold upd.
  rewrite bool_decide_eq_true_2, Hread by done.
  unfold wallet_save in Es. destruct (open_ok _); cbn [negb] in Es; [|done]. destruct (fchmod_ok _); cbn [negb] in Es; [|done].
  destruct (Store.write_all _ _ _) as [[b bytes]|] eqn:Eb; [|done]. cbn [mbind option_bind] in Es. injection Es as Hb <-.
  apply andb_true_iff in Hb as [-> _]. apply write_all_prefix in Eb as (n & _ & Hall). cbn [app] in Hall.
  rewrite (Hall eq_refl), wallet_load_saved by done. done.
Qed.

(** ** The theorems at concrete inputs *)

Module CliDemo.
#[local] Existing Instances Demo.demo_hash Demo.demo_ed.

Definition disk : io := mkIo true [Wrote 100; Interrupted; Wrote 4000] true.
Definition world : World := mkWorld
  (upd (upd (λ _, None) (txt "c") (Some (NodeDemo.lines (blocks_ NodeDemo.k2))))
       (txt "d/chain.jsonl") (Some (NodeDemo.lines (blocks_ NodeDemo.k1))))
  (λ _, None) (λ _, true) ChainDemo.now (Some KeyDemo.seed) disk KeyDemo.disk.

Definition args (s : list string) : list (list byte) := map txt s.
Definition verify_args : list (list byte) :=
  args ["txchain"; "monitor"; "verify"; "--file"; "c"; "--difficulty"; "1"].
Definition import_args : list (list byte) :=
  args ["txchain"; "import"; "c"; "--datadir"; "d"; "--difficulty"; "1"].
Definition keygen_args : list (list byte) := args ["txchain"; "wallet"; "keygen"; "--out"; "k"].
Definition address_args : list (list byte) := args ["txchain"; "wallet"; "address"; "--key"; "k"].

Definition the {A} (o : outcome A) (d : A) : A := match o with Ret a => a | _ => d end.
Definition nothing : Out := mkOut [] [] 99.
Definition made : Out * World := the (run_wallet_keygen keygen_args world) (nothing, world).

Definition chain2 : list Block := genesisBlock :: [ChainDemo.b1; ChainDemo.b2].
Definition written : list byte := NodeDemo.lines chain2.

Lemma valid_c : valid_file (chain_files world (txt "c")) (now_s world) 1 chain2.
Proof.
  split; [exact NodeDemo.load2|]. apply (replay_ok_iff chain2 ChainDemo.now 1 (reward_at 1)).
  pose proof NodeDemo.valid_k2 as Hv. by apply andb_true_iff in Hv as [_ Hv].
Qed.
Lemma verified : run_monitor_verify verify_args world = Ret (says (txt "OK 3 blocks") 0).
Proof. exact (verify_valid verify_args world (txt "c") false chain2 eq_refl ltac:(done) valid_c). Qed.

Lemma load_d : load (chain_files world (txt "d/chain.jsonl")) = Ret (mkLoad (blocks_ NodeDemo.k1) status_ok).
Proof. exact (load_lines _ NodeDemo.exact_k1). Qed.
Lemma heavier : cumulativeWork (blocks_ NodeDemo.k1) 1 < cumulativeWork chain2 1.
Proof. by vm_compute. Qed.
Lemma rewrites : rewrite disk (chain_files world (txt "d/chain.jsonl")) chain2 = Some (true, Some written).
Proof. refine (bool_decide_eq_true_1 _ _). by vm_compute. Qed.
Lemma import_runs :
  ∃ out, run_import import_args world = Ret (says out 0, with_chain world (txt "d/chain.jsonl") (Some written)).
Proof. exact (import_taken import_args (txt "c") world chain2 _ (Some written) eq_refl valid_c load_d heavier rewrites). Qed.
Lemma import_changes : Some written ≠ chain_files world (txt "d/chain.jsonl").
Proof. intros He%(f_equal (λ f, length (default [] f))). revert He. by vm_compute. Qed.
Lemma keygen_runs : run_wallet_keygen keygen_args world = Ret (made.1, made.2).
Proof. by vm_compute. Qed.
Lemma keygen_code : code made.1 = 0.
Proof. by vm_compute. Qed.
Lemma printed : stdout made.1 = line (Hex.to_hex (arr_list (w_address KeyDemo.w))).
Proof. by vm_compute. Qed.

(** A chain on a block 0 that is not the canonical one. *)
Definition foreign : Block :=
  mkBlock (mkHeader 0 GENESIS_TIMESTAMP (arr_zero 32) (txns_hash []) 7) [].
Definition after : Block :=
  mkBlock (mkHeader 1 (GENESIS_TIMESTAMP + 1) (block_hash (header foreign)) (txns_hash []) 0) [].
Definition foreign_args : list (list byte) :=
  args ["txchain"; "import"; "f"; "--datadir"; "e"; "--difficulty"; "0"].
Definition foreign_world : World := with_chain world (txt "f") (Some (NodeDemo.lines [foreign; after])).
Definition foreign_written : list byte := NodeDemo.lines [foreign; after].
Definition taken : World := with_chain foreign_world (txt "e/chain.jsonl") (Some foreign_written).
Definition cfg0 : NodeConfig :=
  mkConfig (txt "e") true 0 true 8 0 0 29000 0 false false 7200 (txt "json").

Lemma foreign_exact : Forall json_exact [foreign; after].
Proof. apply (bool_decide_unpack _). by vm_compute. Qed.
Lemma foreign_loads : load (chain_files foreign_world (txt "f")) = Ret (mkLoad [foreign; after] status_ok).
Proof. exact (load_lines _ foreign_exact). Qed.
Lemma foreign_valid : valid_file (chain_files foreign_world (txt "f")) (now_s foreign_world) 0 [foreign; after].
Proof.
  split; [exact foreign_loads|]. apply (replay_ok_iff [foreign; after] ChainDemo.now 0 (reward_at 0)). by vm_compute.
Qed.
Lemma foreign_heavier : cumulativeWork [] 0 < cumulativeWork [foreign; after] 0.
Proof. by vm_compute. Qed.
Lemma foreign_load :
  load (chain_files foreign_world (txt "e/chain.jsonl")) =
  Ret (mkLoad [] (Validate.fail 0 BAD_LINK (txt "cannot open chain.jsonl"))).
Proof. by vm_compute. Qed.
Lemma foreign_rewrites :
  rewrite disk (chain_files foreign_world (txt "e/chain.jsonl")) [foreign; after] = Some (true, Some foreign_written).
Proof. refine (bool_decide_eq_true_1 _ _). by vm_compute. Qed.
Lemma foreign_runs : ∃ out, run_import foreign_args foreign_world = Ret (says out 0, taken).
Proof.
  exact (import_taken foreign_args (txt "f") foreign_world _ _ (Some foreign_written) eq_refl foreign_valid foreign_load
    foreign_heavier foreign_rewrites).
Qed.
Lemma foreign_changes : taken ≠ foreign_world.
Proof. intros He%(f_equal (λ w, length (default [] (chain_files w (txt "e/chain.jsonl"))))). revert He. by vm_compute. Qed.
Lemma foreign_other : bool_decide (head [foreign; after] = Some genesisBlock) = false.
Proof. by vm_compute. Qed.
Lemma in_range : now_s foreign_world + MAX_CLOCK_SKEW_S < 2 ^ 64.
Proof. by vm_compute. Qed.
Lemma clock_nonneg : 0 <= now_s foreign_world.
Proof. by vm_compute. Qed.

(** A network between the tool and a node: the request arrives in two pieces,
    the response is written at once and read in two pieces. *)
Definition halves (l : list byte) : list (list byte) := [take 1 l; drop 1 l].
Definition loopback (nd : Node) (mp : Mempool) (method host : list byte) (port : Z) (path body : list byte)
  : outcome HttpResult * Mempool :=
  let request := request_text method host path body in
  let response := response_text (rpc_handler nd mp method path body).1 in
  match serve_connection (rpc_handler nd) mp (halves request ++ []) [Took (length response)] with
  | Some (mp, sent) =>
      match http_request true [Took (length request)] (halves sent ++ [[]]) method host path body with
      | Some (_, res) => (res, mp)
      | None => (NoFuel, mp)
      end
  | None => (NoFuel, mp)
  end.

Lemma halves_whole l : (1 < length l)%nat → concat (halves l) = l ∧ Forall (λ c, c ≠ []) (halves l).
Proof.
  destruct l as [|a [|b l]]; cbn; [lia..|]. intros _. rewrite app_nil_r. split; [done|]. by repeat constructor.
Qed.

Lemma send_once l : l ≠ [] → send_all [Took (length l)] l [] = Some (true, l).
Proof. destruct l as [|c l]; [done|]. intros _. cbn [length send_all app]. by rewrite drop_ge, take_ge by (cbn [length]; lia). Qed.

Lemma write_once l : l ≠ [] → Http.write_all [Took (length l)] l [] = Some (true, l).
Proof. destruct l as [|c l]; [done|]. intros _. cbn [length Http.write_all app]. by rewrite drop_ge, take_ge by (cbn [length]; lia). Qed.

Lemma request_long method host path body : (1 < length (request_text method host path body))%nat.
Proof. unfold request_text. rewrite !length_app. change (length (txt " HTTP/1.1")) with 9%nat. lia. Qed.

Lemma response_long r : (1 < length (response_text r))%nat.
Proof. unfold response_text. rewrite length_app. change (length (txt "HTTP/1.1 ")) with 9%nat. lia. Qed.

Lemma loopback_carries nd : carries nd (loopback nd).
Proof.
  intros mp method host port path body res mp' Hp Hmax Hl. unfold loopback in Hl. cbv zeta in Hl.
  set (request := request_text method host path body) in *. set (response := response_text _) in *.
  destruct (halves_whole request) as [Hq Hqn]; [apply request_long|].
  destruct (halves_whole response) as [Hr Hrn]; [apply response_long|].
  pose proof (send_once request) as Hsend. pose proof (write_once response) as Hw.
  pose proof (request_long method host path body) as Hlong. fold request in Hlong.
  pose proof (response_long (rpc_handler nd mp method path body).1) as Hlong'. fold response in Hlong'.
  specialize (Hsend ltac:(by destruct request; simpl in *; [lia|])).
  specialize (Hw ltac:(by destruct response; simpl in *; [lia|])).
  pose proof (rpc_status nd mp method path body) as Hst. destruct (rpc_handler nd mp method path body) as [r mp1] eqn:Eh.
  destruct (exchange (rpc_handler nd) mp r mp1 method host path body (halves request) [] _ response _ request (halves response)
    Hp Hmax Eh Hst Hsend Hq Hqn Hw Hr Hrn) as [H1 H2].
  rewrite H1, H2 in Hl. injection Hl as <- <-.
  exists [Took (length request)], request, (halves request), [], [Took (length response)], response, (halves response).
  by split_and!.
Qed.

(** A payment by the owner of [addrA] against the node of file Rpc. *)
Definition walA : Wallet := mkWallet GateDemo.seedA (derive_pubkey GateDemo.seedA) (address (derive_pubkey GateDemo.seedA)).
Definition send_args : list (list byte) :=
  args ["txchain"; "send"; "--to"; "0b0b0b0b0b0b0b0b0b0b0b0b0b0b0b0b0b0b0b0b"; "--amount"; "3";
        "--node"; "127.0.0.1:9334"; "--key"; "k"].
Definition key_world : World := with_key world (txt "k") (Some (mkKeyfile mode_0600 (wallet_json walA))).
Definition payee : Address20 := arr_of 20 (repeat (Z_to_byte 11) 20).
Definition pay : Txn := next_txn PoolDemo.m0 (chain_ RpcDemo.nd2) walA payee 3.
Definition m1 : Mempool := admitted PoolDemo.m0 pay.

Lemma ready : can_send send_args key_world RpcDemo.nd2 payee walA.
Proof.
  split; [split|by vm_compute..].
  - apply (bool_decide_unpack _). by vm_compute.
  - by vm_compute.
  - exists (txt "127.0.0.1"), 9334. split; [apply (bool_decide_unpack _); by vm_compute|]. split; [by repeat constructor|by vm_compute].
  - exists false. apply (bool_decide_unpack _). by vm_compute.
Qed.
Lemma not_null : w_address walA ≠ kNullAddr.
Proof. apply (bool_decide_unpack _). by vm_compute. Qed.
Lemma fresh : contains PoolDemo.m0 (txid pay) = false ∧ hasPending PoolDemo.m0 (w_address walA) = false ∧
  3 <= balance (account (chain_ RpcDemo.nd2) (w_address walA)) ∧ (pool_size PoolDemo.m0 < cap_ PoolDemo.m0)%nat.
Proof. apply (bool_decide_unpack _). by vm_compute. Qed.
Lemma busy : contains m1 (txid (next_txn m1 (chain_ RpcDemo.nd2) walA payee 3)) = false ∧
  hasPending m1 (w_address walA) = true.
Proof. apply (bool_decide_unpack _). by vm_compute. Qed.
End CliDemo.

Lemma send_correct_witness :
  run_send (H := Demo.demo_hash) (E := Demo.demo_ed) (CliDemo.loopback RpcDemo.nd2) CliDemo.send_args CliDemo.key_world PoolDemo.m0 =
    (Ret (says (Hex.to_hex (arr_list (txid (H := Demo.demo_hash) CliDemo.pay))) 0), CliDemo.m1) ∧
  run_send (H := Demo.demo_hash) (E := Demo.demo_ed) (CliDemo.loopback RpcDemo.nd2) CliDemo.send_args CliDemo.key_world CliDemo.m1 =
    (Ret (complains (txt "send rejected: STALE_NONCE") 1), CliDemo.m1).
Proof.
  destruct CliDemo.fresh as (Hf1 & Hf2 & Hf3 & Hf4). destruct CliDemo.busy as [Hb1 Hb2]. split.
  - exact (proj2 (proj1 (proj2 (send_correct (H := Demo.demo_hash) (E := Demo.demo_ed) (EL := Demo.demo_ed_laws) _ _ _ _ PoolDemo.m0 _ _
      (CliDemo.loopback_carries _) CliDemo.ready CliDemo.not_null) Hf1) Hf2 Hf3 Hf4)).
  - exact (proj2 (proj2 (send_correct (H := Demo.demo_hash) (E := Demo.demo_ed) (EL := Demo.demo_ed_laws) _ _ _ _ CliDemo.m1 _ _
      (CliDemo.loopback_carries _) CliDemo.ready CliDemo.not_null) Hb1) Hb2).
Defined.

Lemma monitor_verify_correct_witness :
  ∃ blocks, length blocks = 3%nat ∧
    valid_file (H := Demo.demo_hash) (E := Demo.demo_ed) (Some (NodeDemo.lines (blocks_ NodeDemo.k2))) ChainDemo.now 1 blocks.
Proof.
  destruct (proj1 (proj1 (monitor_verify_correct (H := Demo.demo_hash) (E := Demo.demo_ed) _ _ _ CliDemo.verified))
              eq_refl) as (_ & blocks & Hv).
  exists blocks. split; [|exact Hv]. destruct Hv as [Hl _].
  pose proof (eq_trans (eq_sym NodeDemo.load2) Hl) as Hb. injection Hb as <-. reflexivity.
Defined.

Lemma import_replaces_witness :
  ∃ blocks old,
    valid_file (H := Demo.demo_hash) (E := Demo.demo_ed) (Some (NodeDemo.lines (blocks_ NodeDemo.k2))) ChainDemo.now 1 blocks ∧
    cumulativeWork old 1 < cumulativeWork blocks 1.
Proof.
  destruct CliDemo.import_runs as [out Hrun].
  destruct (import_replaces (H := Demo.demo_hash) (E := Demo.demo_ed) CliDemo.import_args (txt "c") CliDemo.world
              _ _ eq_refl Hrun) as [Hw|(bs & old & Hv & _ & Hlt & _)].
  - destruct (CliDemo.import_changes (f_equal (λ w, chain_files w (txt "d/chain.jsonl")) Hw)).
  - exists bs, (lr_blocks old). split; [exact Hv|exact Hlt].
Defined.

Lemma keygen_then_address_witness :
  run_wallet_address (H := Demo.demo_hash) (E := Demo.demo_ed) CliDemo.address_args (snd CliDemo.made) =
  Ret (mkOut (line (Hex.to_hex (arr_list (w_address KeyDemo.w)))) [] 0).
Proof.
  rewrite <- CliDemo.printed.
  exact (keygen_then_address (H := Demo.demo_hash) (E := Demo.demo_ed) CliDemo.keygen_args CliDemo.address_args CliDemo.world
           (fst CliDemo.made) (snd CliDemo.made) CliDemo.keygen_runs CliDemo.keygen_code eq_refl eq_refl).
Defined.

Lemma import_then_boot_witness :
  ∃ nd, boot (H := Demo.demo_hash) (E := Demo.demo_ed) CliDemo.disk CliDemo.cfg0
          (chain_files CliDemo.taken (txt "e/chain.jsonl")) ChainDemo.now =
        Ret (mkBoot false (mkVerify false 0 BAD_LINK (txt "genesis mismatch")), nd).
Proof.
  destruct CliDemo.foreign_runs as [out Hrun].
  pose proof (import_then_boot (H := Demo.demo_hash) (E := Demo.demo_ed) CliDemo.foreign_args (txt "f") CliDemo.foreign_world
    _ CliDemo.taken [CliDemo.foreign; CliDemo.after] CliDemo.disk CliDemo.cfg0 CliDemo.in_range
    CliDemo.clock_nonneg eq_refl Hrun eq_refl CliDemo.foreign_changes CliDemo.foreign_loads
    CliDemo.foreign_exact eq_refl eq_refl) as Hb.
  cbv zeta in Hb. rewrite CliDemo.foreign_other in Hb. exact Hb.
Defined.
