(* ===== verification/Daemon.v ===== *)
(** The node process: [apps/txnode/main.cpp].

    Start-up is a function of the host it runs on.  The running process is a
    state machine: every critical section the process enters under
    [node_mtx] - a dispatched request, a seal, a mining snapshot, the commit of
    a mined block - is one event, and a history is any sequence of events, in
    whatever order the two threads take the lock.  The nonce search runs
    between two sections, on its own copy of the candidate, and is part of
    the commit event. *)

From Stdlib Require Import ZArith Lia Ascii String.
From stdpp Require Import base list strings gmap fin_maps sorting.
From S2P Require Import Prelude Text Sha256 Crypto Canonical Wallet Gate Chain Validate Mempool Pow Picojson Json Store.
From S2P Require Import Keyfile Node Config Rpc Http.

(** ** The process *)

Record Daemon := mkDaemon {
  d_node : Node;
  d_pool : Mempool;
  d_miner : Address20;
  d_rpc : bool;
  d_last : Z;
  d_cand : option Candidate;
  d_stop : bool
}.

Definition kMempoolCap : nat := 4096.

Definition pow_mode (cfg : NodeConfig) : bool := mine_flag cfg && (0 <? difficulty cfg).

(** ** The lines printed *)

Definition json_bool (b : bool) : list byte := if b then txt "true" else txt "false".
Definition event_line (name : string) (fields : list byte) : list byte :=
  txt "{" ++ jkey "event" ++ quoted (txt name) ++ fields ++ txt "}" ++ [newline].
Definition field (k : string) (v : list byte) : list byte := txt "," ++ jkey k ++ v.

Definition config_resolved (cfg : NodeConfig) : list byte :=
  event_line "config_resolved"
    (field "datadir" (quoted (c_str (datadir cfg))) ++ field "mine" (json_bool (mine_flag cfg)) ++
     field "seal_cadence_ms" (to_string (seal_cadence_ms cfg)) ++ field "seal_empty" (json_bool (seal_empty cfg)) ++
     field "max_txns_per_block" (to_string (max_txns_per_block cfg)) ++
     field "difficulty" (to_string (difficulty cfg)) ++ field "no_rpc" (json_bool (no_rpc cfg)) ++
     field "no_p2p" (json_bool (no_p2p cfg))).

Definition node_boot_failed (v : VerifyResult) : list byte :=
  event_line "node_boot_failed"
    (field "block" (to_string (vr_failIndex v)) ++ field "reason" (quoted (reasonName (vr_reason v))) ++
     field "detail" (quoted (c_str (vr_detail v)))).

Definition wallet_error (e : list byte) : list byte := event_line "wallet_error" (field "detail" (quoted (c_str e))).
Definition wallet_perms_warning : list byte :=
  event_line "wallet_perms_warning" (field "detail" (quoted (txt "wallet.key is group/other-accessible"))).

Section daemon.
Context {H : HashFn} {E : Ed25519}.

Definition wallet_ready (a : Address20) : list byte := event_line "wallet_ready" (field "address" (jhex a)).

(** The height and tip of a node, as three events report them. *)
Definition tip_fields (nd : Node) : list byte :=
  field "height" (to_string (height (chain_ nd))) ++ field "tip" (jhex (tipHash (chain_ nd))).
Definition block_event (name : string) (nd : Node) (n : nat) : list byte :=
  event_line name (tip_fields nd ++ field "txns" (to_string (Z.of_nat n))).

(** ** Start-up *)

(** What the process finds on its host. *)
Record Host := mkHost {
  h_config : list byte → option (list byte);
  h_chain : list byte → option (list byte);
  h_key : list byte → option keyfile;
  h_readable : list byte → bool;
  h_csprng : option Seed32;
  h_io : io;
  h_key_io : key_io;
  h_sock : sockets
}.

(** What is printed, and the process if it comes up. *)
Definition txnode_start (host : Host) (argv : list (list byte)) (now_s now_ms : Z)
  : outcome (list byte * option Daemon) :=
  let* cfg := resolve_config (h_config host) argv in
  let* (br, nd) := boot (h_io host) cfg (h_chain host (chain_path (datadir cfg))) now_s in
  let out := config_resolved cfg in
  return_if negb (br_ok br) with Ret (out ++ node_boot_failed (br_status br), None) ;;
  let kpath := wallet_path_for_datadir (datadir cfg) in
  match load_or_create_wallet (h_csprng host) (h_key_io host) (h_readable host kpath) (datadir cfg) (h_key host kpath) with
  | None => NoFuel
  | Some (wr, _) =>
      let* wr := wr in
      return_if negb (kl_ok wr) with Ret (out ++ wallet_error (kl_error wr), None) ;;
      let addr := w_address (kl_wallet wr) in
      let out := out ++ (if kl_world_readable wr then wallet_perms_warning else []) ++
                 wallet_ready addr ++ event_line "node_up" (tip_fields nd) in
      let mp := Mempool_new kMempoolCap in
      let '(up, srv, _) := start (h_sock host) ∅ (HttpServer_new (rpc_port_for cfg)) in
      let rpc := if no_rpc cfg then []
                 else if up : bool then event_line "rpc_up" (field "port" (signed_to_string (port_ srv)))
                 else event_line "rpc_error" (field "detail" (quoted (txt "cannot bind rpc port"))) in
      let serving := negb (no_rpc cfg) && up in
      Ret (out ++ rpc, Some (mkDaemon nd mp addr serving now_ms None false))
  end.

(** ** The running process *)

Definition with_pool (d : Daemon) (mp : Mempool) : Daemon :=
  mkDaemon (d_node d) mp (d_miner d) (d_rpc d) (d_last d) (d_cand d) (d_stop d).
Definition with_cand (d : Daemon) (c : option Candidate) : Daemon :=
  mkDaemon (d_node d) (d_pool d) (d_miner d) (d_rpc d) (d_last d) c (d_stop d).

Inductive event :=
  | Request (method target body : list byte)
  | Tick (sys : io) (now_ms now_s after_ms : Z)
  | Snapshot (now_s : Z)
  | Mined (sys : io) (fuel : nat) (stop : nat → bool) (now_s : Z)
  | Signal.

(** One event: what is printed, and the process after it. *)
Definition dstep (d : Daemon) (e : event) : outcome (list byte * Daemon) :=
  let nd := d_node d in
  let cfg := cfg_ nd in
  match e with
  | Request method target body =>
      return_if negb (d_rpc d) with Ret ([], d) ;;
      let '(_, mp) := rpc_handler nd (d_pool d) method target body in
      Ret ([], with_pool d mp)
  | Tick sys now_ms now_s after_ms =>
      return_if d_stop d || pow_mode cfg || negb (should_seal_now cfg (u64 (now_ms - d_last d)) 0) with Ret ([], d) ;;
      let batch := drain (d_pool d) in
      let* (r, nd, mp) := seal_tick sys nd (d_pool d) now_s in
      let out := if bool_decide (r = OK) then block_event "block_sealed" nd (length batch) else [] in
      Ret (out, mkDaemon nd mp (d_miner d) (d_rpc d) after_ms (d_cand d) (d_stop d))
  | Snapshot now_s =>
      return_if d_stop d || negb (pow_mode cfg) || bool_decide (is_Some (d_cand d)) with Ret ([], d) ;;
      Ret ([], with_cand d (Some (snapshot nd (d_pool d) (d_miner d) now_s)))
  | Mined sys fuel stop now_s =>
      match d_cand d with
      | None => Ret ([], d)
      | Some cand =>
          match mine fuel cand (difficulty cfg) stop with
          | None => NoFuel
          | Some None => Ret ([], with_cand d None)
          | Some (Some b) =>
              let* (ok, nd, mp) := commit_mined sys nd (d_pool d) b now_s in
              let out := if ok : bool then block_event "block_mined" nd (length (txns b)) else [] in
              Ret (out, mkDaemon nd mp (d_miner d) (d_rpc d) (d_last d) None (d_stop d))
          end
      end
  | Signal => Ret ([], mkDaemon nd (d_pool d) (d_miner d) (d_rpc d) (d_last d) (d_cand d) true)
  end.

(** The line printed on the way out. *)
Definition node_down (d : Daemon) : list byte :=
  event_line "node_down" (field "height" (to_string (height (chain_ (d_node d))))).

(** A history from a process: the events it has taken, oldest first, and the
    lines printed. *)
Inductive history (d0 : Daemon) : list event → list byte → Daemon → Prop :=
  | history_start : history d0 [] [] d0
  | history_step es out d e line d' :
      history d0 es out d → dstep d e = Ret (line, d') → history d0 (es ++ [e]) (out ++ line) d'.

(** A history, computed. *)
Definition run_events (d0 : Daemon) (es : list event) : outcome (list byte * Daemon) :=
  foldl (λ acc e, let* (out, d) := acc in let* (line, d') := dstep d e in Ret (out ++ line, d')) (Ret ([], d0)) es.

Lemma run_events_history d0 es out d : run_events d0 es = Ret (out, d) → history d0 es out d.
Proof.
  revert out d. induction es as [|e es IH] using rev_ind; intros out d; [intros [= <- <-]; constructor|].
  unfold run_events in *. rewrite foldl_app. cbn [foldl]. destruct (foldl _ _ es) as [[o1 d1]| | | |] eqn:E1; try done.
  cbn [obind]. destruct (dstep d1 e) as [[l d2]| | | |] eqn:E2; try done. cbn [obind]. intros [= <- <-].
  by apply (history_step d0 es o1 d1); [apply IH|].
Qed.
End daemon.

(** ** What one event does *)

(** The clock times an event reads lie between 0 and [T]. *)
Definition clocked (T : Z) (e : event) : Prop :=
  match e with
  | Tick _ _ now_s _ | Snapshot now_s | Mined _ _ _ now_s => 0 <= now_s <= T
  | _ => True
  end.

(** A request that does not submit a transfer from an account to itself. *)
Definition selfless (e : event) : Prop :=
  match e with
  | Request _ _ body => match submitted body with Some t => tx_from t ≠ tx_to t | None => True end
  | _ => True
  end.

Section steps.
Context {H : HashFn} {E : Ed25519}.

(** A block joins the chain. *)
Lemma shape_connect D R T c l b t c' :
  chain_shape D R T c l → block_ok b → 0 <= t <= T → T + MAX_CLOCK_SKEW_S < 2 ^ 64 →
  connectBlock c b t = (OK, c') → chain_shape D R T c' (l ++ [b]).
Proof.
  intros Hs Hb Ht HT (Hv & w & Hr & ->)%connectBlock_ok_iff. rewrite (sh_reward _ _ _ _ _ Hs) in Hr.
  by eapply committed_shape.
Qed.

(** Either a block was committed and nothing else changed in the chain, or the
    node and the pool are as they were. *)
Lemma append_ignoring_same sys nd b nd' :
  append_ignoring sys nd b = Ret nd' → chain_ nd' = chain_ nd ∧ cfg_ nd' = cfg_ nd.
Proof. unfold append_ignoring. destruct (appendBlock _ _ _) as [[]|]; [|done]. by intros [= <-]. Qed.

Lemma seal_next_block_effect sys nd now_s l r nd' :
  seal_next_block sys nd now_s l = Ret (r, nd') →
  cfg_ nd' = cfg_ nd ∧ connectBlock (chain_ nd) (sealed_block (chain_ nd) now_s l) now_s = (r, chain_ nd').
Proof.
  unfold seal_next_block. destruct (connectBlock _ _ _) as [r0 c] eqn:Hc. case_bool_decide as Hr; cbn [negb].
  - subst r0. destruct (append_ignoring _ _ _) as [nd1| | | |] eqn:Ha; try done. cbn [obind]. intros [= <- <-].
    apply append_ignoring_same in Ha as [Ha ?]. by rewrite Ha.
  - by intros [= <- <-].
Qed.

Lemma commitBlock_effect sys nd b now_s r nd' :
  commitBlock sys nd b now_s = Ret (r, nd') →
  cfg_ nd' = cfg_ nd ∧ connectBlock (chain_ nd) b now_s = (r, chain_ nd').
Proof.
  unfold commitBlock. destruct (connectBlock _ _ _) as [r0 c] eqn:Hc. case_bool_decide as Hr; cbn [negb].
  - subst r0. destruct (append_ignoring _ _ _) as [nd1| | | |] eqn:Ha; try done. cbn [obind]. intros [= <- <-].
    apply append_ignoring_same in Ha as [Ha ?]. by rewrite Ha.
  - by intros [= <- <-].
Qed.

Lemma evict_nil mp : evictIncluded mp [] = mp.
Proof. done. Qed.

Lemma seal_tick_effect sys nd mp now_s r nd' mp' :
  seal_tick sys nd mp now_s = Ret (r, nd', mp') →
  cfg_ nd' = cfg_ nd ∧
  connectBlock (chain_ nd) (sealed_block (chain_ nd) now_s (drain mp)) now_s = (r, chain_ nd') ∧
  mp' = if bool_decide (r = OK) then evictIncluded mp (drain mp) else mp.
Proof.
  unfold seal_tick. destruct (seal_next_block _ _ _ _) as [[r0 nd0]| | | |] eqn:Hs; try done. cbn [obind].
  apply seal_next_block_effect in Hs as [Hcfg Hc]. case_bool_decide as Hr; cbn [andb].
  - destruct (length (drain mp) =? 0)%nat eqn:Hl; cbn [negb]; intros [= <- <- <-]; (split_and!; [done..|]).
    + apply Nat.eqb_eq, length_zero_iff_nil in Hl. rewrite Hl, evict_nil. by case_match.
    + by rewrite bool_decide_eq_true_2.
  - intros [= <- <- <-]. split_and!; [done..|]. by rewrite bool_decide_eq_false_2.
Qed.

Lemma commit_mined_effect sys nd mp b now_s ok nd' mp' :
  commit_mined sys nd mp b now_s = Ret (ok, nd', mp') →
  cfg_ nd' = cfg_ nd ∧
  (ok = true → connectBlock (chain_ nd) b now_s = (OK, chain_ nd') ∧ mp' = evictIncluded mp (drop 1 (txns b))) ∧
  (ok = false → chain_ nd' = chain_ nd ∧ mp' = mp).
Proof.
  unfold commit_mined. destruct (_ && _); [|by intros [= <- <- <-]].
  destruct (commitBlock _ _ _ _) as [[r nd0]| | | |] eqn:Hc; try done. cbn [obind].
  apply commitBlock_effect in Hc as [Hcfg Hc]. case_bool_decide as Hr.
  - subst r. intros [= <- <- <-]. split_and!; [done| |done]. intros _. split; [done|].
    destruct (1 <? length (txns b))%nat eqn:Hl; [done|]. apply Nat.ltb_ge in Hl.
    rewrite drop_ge by lia. by rewrite evict_nil.
  - intros [= <- <- <-]. split_and!; [done..|]. intros _. split; [|done]. by eapply connectBlock_fail_unchanged.
Qed.
End steps.

(** ** Produced blocks and the pool *)

Section produced.
Context {H : HashFn} {E : Ed25519}.

Lemma mine_loop_header_ok fuel stop i D cand n b :
  0 <= n < 2 ^ 64 → u64_ok (h_index (hdr cand)) → u64_ok (h_timestamp (hdr cand)) →
  mine_loop fuel stop i D cand n = Some (Some b) → header_ok (header b).
Proof.
  revert i cand n. induction fuel as [|fuel IH]; intros i cand n Hn Hi Ht; cbn [mine_loop]; [done|].
  destruct (_ && _); [done|]. destruct (Target.meets_difficulty _ _); [by intros [= <-]|].
  destruct (Z.eqb_spec n (2 ^ 64 - 1)); apply IH; try done; try lia. apply u64_range.
Qed.

Lemma coinbase_txn_ok miner h : u64_ok h → txn_ok (coinbaseTxn miner h).
Proof. intros Hh. by split_and!. Qed.

Lemma coinbase_txn_coinbase miner h : coinbase_ok h (coinbaseTxn miner h).
Proof. by split. Qed.

Lemma credit_transfer_ok w a v t :
  ledger_ok w → 0 <= v → supply w + v < 2 ^ 64 → transfer_ok w t → transfer_ok (credit w a v) t.
Proof.
  intros Hw Hv Hs [? ? ? Hn Hf]. destruct (credit_supply w a v Hw Hv Hs) as (_ & _ & Ha).
  destruct (decide (tx_from t = a)) as [Heq|Hne].
  - subst a. split; rewrite ?Ha; try done. simpl. lia.
  - unfold credit. split; rewrite ?acct_at_insert_ne by done; done.
Qed.

(** Transactions the pool holds. *)
Definition pooled (mp : Mempool) (l : list Txn) : Prop := sublist l (map me_txn (sortedBySeq mp)).

Lemma pooled_elem mp l t : pooled mp l → t ∈ l → ∃ e, e ∈ sortedBySeq mp ∧ me_txn e = t.
Proof.
  intros Hp Ht. apply (sublist_submseteq _ _) in Hp. apply (elem_of_submseteq _ _ _ Ht) in Hp.
  apply list_elem_of_fmap in Hp as (e & -> & He). by exists e.
Qed.

Lemma pooled_no_clash mp l t : pool_wf mp → pooled mp l → t ∈ l → no_clash mp t.
Proof.
  intros Hm Hp Ht e He. destruct (pooled_elem _ _ _ Hp Ht) as (e' & He' & <-).
  apply sortedBySeq_elem in He'; [|done]. destruct (wf_entry _ Hm _ _ He') as (_ & Hid & _).
  rewrite Hid in He. congruence.
Qed.

Lemma drain_pooled mp : pooled mp (drain mp).
Proof. apply sublist_take. Qed.

Lemma pooled_senders mp l : pool_wf mp → pooled mp l → NoDup (map tx_from l).
Proof.
  intros Hm Hp. assert (sublist (map tx_from l) (map tx_from (map me_txn (sortedBySeq mp)))) as Hs
    by (by apply fmap_sublist).
  eapply sublist_NoDup; [|exact Hs]. rewrite map_map. apply sortedBySeq_nodup; [done|].
  intros e e' He He' Heq. by eapply wf_sender_inj.
Qed.

Lemma admitted_pooled f mp t mp' l :
  pool_wf mp → next_seq_ mp < 2 ^ 64 - 1 → admit_txn f mp t = (AdmitResult.OK, mp') → pooled mp l → pooled mp' l.
Proof.
  intros Hm Hb Ha Hp. destruct (admitted_wf _ _ _ _ Hm Hb Ha) as [_ Hs]. unfold pooled.
  rewrite Hs, map_app. by apply sublist_inserts_r.
Qed.

(** A committed batch of pooled transfers leaves a pool the new ledger accepts. *)
Lemma fresh_evict w mp batch w' :
  pool_wf mp → ledger_ok w → pool_fresh w mp → pooled mp batch → transfers w batch w' →
  pool_fresh w' (evictIncluded mp batch) ∧ ledger_ok w'.
Proof.
  intros Hm Hw Hf Hp Htr.
  destruct (independent_transfers w batch Hw) as (w2 & Htr2 & Hw2 & Hkeep); [|by apply (pooled_senders mp)|].
  { apply Forall_forall. intros t Ht. destruct (pooled_elem _ _ _ Hp Ht) as (e & He & <-). by apply Hf. }
  rewrite (transfers_det _ _ _ _ Htr2 Htr) in *. split; [|done].
  intros e He. rewrite evictIncluded_sorted in He by (done || intros; by eapply pooled_no_clash).
  apply list_elem_of_filter in He as [Hni He]. destruct (Hf e He) as (Ht & Hs & Ha). split; [|done].
  apply Hkeep; [done|]. intros Hin. apply list_elem_of_fmap in Hin as (t & Heq & Htb).
  destruct (pooled_elem _ _ _ Hp Htb) as (e' & He' & <-).
  apply sortedBySeq_elem in He, He'; [|done..]. apply Hni. rewrite (wf_sender_inj _ _ _ _ _ Hm He He' Heq).
  destruct (wf_entry _ Hm _ _ He') as (_ & <- & _). by apply list_elem_of_fmap_2.
Qed.
End produced.

(** ** The invariant *)

Section invariant.
Context {H : HashFn} {E : Ed25519}.

(** The candidate being searched extends the present tip, and its transfers
    are still in the pool. *)
Record cand_ok (c : Chain) (mp : Mempool) (miner : Address20) (cand : Candidate) : Prop := {
  co_index : h_index (hdr cand) = u64 (height c + 1);
  co_prev : h_prevHash (hdr cand) = tipHash c;
  co_time : u64_ok (h_timestamp (hdr cand));
  co_hash : h_txnsHash (hdr cand) = txns_hash (c_txns cand);
  co_size : (length (c_txns cand) ≤ MAX_TXNS_PER_BLOCK)%nat;
  co_txns : ∃ new, c_txns cand = coinbaseTxn miner (u64 (height c + 1)) :: new ∧ pooled mp new
}.

Record daemon_inv (cfg : NodeConfig) (T : Z) (n : nat) (d : Daemon) : Prop := {
  di_cfg : cfg_ (d_node d) = cfg;
  di_chain : ∃ l, chain_shape (difficulty cfg) (node_reward cfg) T (chain_ (d_node d)) l;
  di_pool : pool_reach kMempoolCap (d_pool d);
  di_seq : next_seq_ (d_pool d) <= Z.of_nat n;
  di_txns : ∀ e, e ∈ sortedBySeq (d_pool d) → txn_ok (me_txn e);
  di_cand : ∀ cand, d_cand d = Some cand →
    pow_mode cfg = true ∧ cand_ok (chain_ (d_node d)) (d_pool d) (d_miner d) cand
}.

(** In histories without self-transfers, the ledger stays free of them and the
    pool holds only what the tip accepts. *)
Record daemon_fresh (d : Daemon) : Prop := {
  df_no_self : no_self (all_txns (blocks_ (chain_ (d_node d))));
  df_pool : pool_fresh (state_ (chain_ (d_node d))) (d_pool d)
}.

Lemma select_pooled f shadow sel l :
  (length sel ≤ MAX_TXNS_PER_BLOCK)%nat →
  ∃ new, select f shadow sel l = sel ++ new ∧ sublist new (map me_txn l) ∧
         (length (sel ++ new) ≤ MAX_TXNS_PER_BLOCK)%nat.
Proof.
  revert shadow sel. induction l as [|e l IH]; intros shadow sel Hs; cbn [select map].
  { exists []. rewrite app_nil_r. split_and!; [done|constructor|done]. }
  destruct (Nat.leb_spec MAX_TXNS_PER_BLOCK (length sel)) as [Hfull|Hroom].
  { exists []. rewrite app_nil_r. split_and!; [done|apply sublist_nil_l|done]. }
  set (sh := touch f _ (touch f _ shadow)).
  assert (∀ sh, ∃ new, select f sh sel l = sel ++ new ∧ sublist new (me_txn e :: map me_txn l) ∧
         (length (sel ++ new) ≤ MAX_TXNS_PER_BLOCK)%nat) as Hskip.
  { intros sh'. destruct (IH sh' sel Hs) as (new & ? & ? & ?). exists new. split_and!; [done|by constructor|done]. }
  destruct (_ =? _); cbn [negb]; [|apply Hskip]. destruct (_ <? _); [apply Hskip|].
  destruct (IH (credit (<[tx_from (me_txn e) := mkAcct (u64 (balance (acct_at sh (tx_from (me_txn e))) - tx_amount (me_txn e)))
    (u64 (nonce (acct_at sh (tx_from (me_txn e))) + 1))]> sh) (tx_to (me_txn e)) (tx_amount (me_txn e)))
    (sel ++ [me_txn e])) as (new & Heq & Hsub & Hlen).
  { rewrite length_app. simpl. lia. }
  exists (me_txn e :: new). rewrite Heq, <- app_assoc. rewrite <- app_assoc in Hlen.
  split_and!; [done|by constructor|done].
Qed.

Lemma snapshot_ok nd mp miner now_s :
  0 <= now_s < 2 ^ 64 → cand_ok (chain_ nd) mp miner (snapshot nd mp miner now_s).
Proof.
  intros Hn. unfold snapshot, buildCandidate.
  destruct (select_pooled (account (chain_ nd)) (credit (touch (account (chain_ nd)) miner ∅) miner COINBASE_REWARD)
    [coinbaseTxn miner (u64 (height (chain_ nd) + 1))] (sortedBySeq mp)) as (new & Heq & Hsub & Hlen).
  { unfold MAX_TXNS_PER_BLOCK. simpl. lia. }
  split; cbn [hdr c_txns h_index h_prevHash h_timestamp h_txnsHash]; try done.
  - pose proof (u64_range (h_timestamp (tip_header (chain_ nd)) + 1)) as Hr. unfold u64_ok in *. lia.
  - by rewrite Heq.
  - exists new. by rewrite Heq.
Qed.

(** The two ways a node comes up: the file holds no block and genesis is
    appended to it, or it holds a chain that passes the gate. *)
Lemma boot_cases sys cfg file now br nd :
  0 <= now → now + MAX_CLOCK_SKEW_S < 2 ^ 64 → boot sys cfg file now = Ret (br, nd) → br_ok br = true →
  (load (Some (default [] file)) = Ret (mkLoad [] status_ok) ∧
   append_ignoring sys (Node_new cfg file) genesisBlock = Ret nd) ∨
  (∃ f l c, file = Some f ∧ load (Some f) = Ret (mkLoad (genesisBlock :: l) status_ok) ∧
     vr_ok (replayFromGenesis (genesisBlock :: l) now (difficulty cfg) (node_reward cfg)) = true ∧
     nd = mkNode cfg c (Some f) ∧ chain_shape (difficulty cfg) (node_reward cfg) now c l).
Proof.
  intros H0 Hn Hb Hok. destruct file as [[|x f]|].
  1,3: left; split; [done|]; unfold boot in Hb; cbn [negb] in Hb;
    destruct (append_ignoring _ _ _) as [nd'| | | |]; try done; by injection Hb as _ <-.
  unfold boot in Hb. cbn [negb] in Hb. destruct (load (Some (x :: f))) as [lr| | | |] eqn:El; try done. cbn [obind] in Hb.
  destruct (vr_ok (lr_status lr)) eqn:Es; cbn [negb] in Hb; [|injection Hb as <- <-; simpl in Hok; congruence].
  pose proof (load_ok_shape _ _ El Es) as Hlr. destruct (lr_blocks lr) as [|b0 l] eqn:Ebl.
  - left. rewrite Hlr in El. split; [done|].
    destruct (append_ignoring _ _ _) as [nd'| | | |]; try done. by injection Hb as _ <-.
  - right. rewrite Hlr in El. pose proof (boot_decides sys cfg (x :: f) now b0 l Hn H0 El) as Hd. cbv zeta in Hd.
    unfold boot in Hd. cbn [negb] in Hd. rewrite El in Hd. cbn [obind lr_status lr_blocks] in Hd. change (vr_ok status_ok) with true in Hd. cbn [negb] in Hd.
    case_bool_decide as Eg; cbn [andb negb] in *; [subst b0|by injection Hb as <- <-].
    destruct (vr_ok (replayFromGenesis _ _ _ _)) eqn:Er; cbn [negb] in *; [|injection Hb as <- <-; simpl in Hok; congruence].
    destruct Hd as (c & Hd & _ & _ & Hs). rewrite Hd in Hb. injection Hb as <- <-. by exists (x :: f), l, c.
Qed.

Lemma boot_up sys cfg file now br nd :
  0 <= now → now + MAX_CLOCK_SKEW_S < 2 ^ 64 → boot sys cfg file now = Ret (br, nd) → br_ok br = true →
  cfg_ nd = cfg ∧ ∃ l, chain_shape (difficulty cfg) (node_reward cfg) now (chain_ nd) l.
Proof.
  intros H0 Hn Hb Hok. destruct (boot_cases _ _ _ _ _ _ H0 Hn Hb Hok) as [[_ Ha]|(f & l & c & _ & _ & _ & -> & Hs)].
  - apply append_ignoring_same in Ha as [Hc Hcfg]. split; [done|]. exists []. rewrite Hc. apply genesis_shape.
  - split; [done|by exists l].
Qed.

Lemma start_inv host argv now_s now_ms out d T :
  0 <= now_s <= T → T + MAX_CLOCK_SKEW_S < 2 ^ 64 →
  txnode_start host argv now_s now_ms = Ret (out, Some d) → daemon_inv (cfg_ (d_node d)) T 0 d ∧ d_pool d = Mempool_new kMempoolCap.
Proof.
  intros Hn HT. unfold txnode_start. destruct (resolve_config _ _) as [cfg| | | |]; try done. cbn [obind].
  destruct (boot _ _ _ _) as [[br nd]| | | |] eqn:Hb; try done. cbn [obind].
  destruct (br_ok br) eqn:Hok; cbn [negb]; [|done].
  destruct (load_or_create_wallet _ _ _ _ _) as [[[wr| | | |] kf]|]; try done. cbn [obind].
  destruct (kl_ok wr); cbn [negb]; [|done]. destruct (start _ _ _) as [[up srv] fds]. intros [= _ <-]. cbn [d_node d_pool]. split; [|done].
  apply boot_up in Hb as [Hcfg [l Hl]]; [|lia|lia|done].
  split; cbn [d_node d_pool d_cand]; try done.
  - exists l. rewrite Hcfg. eapply shape_mono; [exact Hl|lia|done].
  - constructor.
  - intros e He. by apply elem_of_nil in He.
Qed.

Lemma evict_next_seq mp l : next_seq_ (evictIncluded mp l) = next_seq_ mp.
Proof.
  revert mp. induction l as [|t l IH]; intros mp; [done|]. cbn [evictIncluded foldl]. unfold evictIncluded in IH.
  rewrite IH. unfold evict1. by destruct (_ !! _).
Qed.

Lemma evict_elem mp l e :
  pool_wf mp → pooled mp l → e ∈ sortedBySeq (evictIncluded mp l) → e ∈ sortedBySeq mp.
Proof.
  intros Hm Hp He. rewrite evictIncluded_sorted in He by (done || intros; by eapply pooled_no_clash).
  by apply list_elem_of_filter in He as [_ ?].
Qed.

Lemma pooled_txns_ok mp l :
  (∀ e, e ∈ sortedBySeq mp → txn_ok (me_txn e)) → pooled mp l → Forall txn_ok l.
Proof.
  intros Hok Hp. apply Forall_forall. intros t Ht. destruct (pooled_elem _ _ _ Hp Ht) as (e & He & <-). by apply Hok.
Qed.

(** A process whose chain grew by a block and whose pool lost the block's
    transactions. *)
Lemma commit_inv cfg T n d b t l c' nd' last stop :
  T + MAX_CLOCK_SKEW_S < 2 ^ 64 → 0 <= t <= T → daemon_inv cfg T n d →
  block_ok b → pooled (d_pool d) l → connectBlock (chain_ (d_node d)) b t = (OK, c') →
  chain_ nd' = c' → cfg_ nd' = cfg →
  daemon_inv cfg T n (mkDaemon nd' (evictIncluded (d_pool d) l) (d_miner d) (d_rpc d) last None stop).
Proof.
  intros HT Ht [Hcfg [bs Hs] Hp Hq Hok _] Hb Hl Hc Hc' Hcfg'. destruct (pool_reach_wf _ _ Hp) as [Hm _].
  split; cbn [d_node d_pool d_cand]; try done.
  - exists (bs ++ [b]). rewrite Hc'. by eapply shape_connect.
  - apply pool_evict; [done|]. intros u Hu. by eapply pooled_no_clash.
  - by rewrite evict_next_seq.
  - intros e He. apply Hok. by eapply evict_elem.
Qed.

Lemma inv_weaken cfg T n d : daemon_inv cfg T n d → daemon_inv cfg T (S n) d.
Proof. intros []. split; try done. lia. Qed.

Lemma sealed_block_ok c now_s l : 0 <= now_s < 2 ^ 64 → Forall txn_ok l → block_ok (sealed_block c now_s l).
Proof.
  intros Hn Hl. split; [|done]. pose proof (u64_range (h_timestamp (tip_header c) + 1)) as Hr.
  split_and!; [apply u64_range| |done]. cbn. unfold u64_ok in *. lia.
Qed.

Lemma mined_block_ok c mp miner cand fuel stop D b :
  (∀ e, e ∈ sortedBySeq mp → txn_ok (me_txn e)) → cand_ok c mp miner cand →
  mine fuel cand D stop = Some (Some b) → block_ok b ∧ ∃ new, txns b = coinbaseTxn miner (u64 (height c + 1)) :: new ∧ pooled mp new.
Proof.
  intros Hok [Hi _ Ht _ _ (new & Hnew & Hp)] Hb. pose proof (mine_loop_sound _ _ _ _ _ _ _ Hb) as (_ & Htx & _).
  split; [|exists new; by rewrite Htx]. split.
  - eapply mine_loop_header_ok; [| | |exact Hb]; [done| |done]. rewrite Hi. apply u64_range.
  - rewrite Htx, Hnew. constructor; [apply coinbase_txn_ok, u64_range|by eapply pooled_txns_ok].
Qed.

Lemma request_inv cfg T n d method target body r mp :
  Z.of_nat n < 2 ^ 64 - 1 → daemon_inv cfg T n d →
  rpc_handler (d_node d) (d_pool d) method target body = (r, mp) → daemon_inv cfg T (S n) (with_pool d mp).
Proof.
  intros Hn Hd Hr. destruct Hd as [Hcfg Hs Hp Hq Hok Hc]. destruct (pool_reach_wf _ _ Hp) as [Hm _].
  apply request_effect in Hr as [->|(_ & _ & _ & t & _ & Ht & _ & Ha)]; cbn [node_ctx ctx_mempool mempool_account] in *.
  { split; cbn [with_pool d_node d_pool d_cand d_miner]; try done. lia. }
  destruct (admitted_wf _ _ _ _ Hm ltac:(lia) Ha) as [_ Hsort].
  split; cbn [with_pool d_node d_pool d_cand d_miner]; try done.
  - replace mp with (admit_txn (account (chain_ (d_node d))) (d_pool d) t).2 by (by rewrite Ha). apply pool_admit; [done|lia].
  - apply admit_ok_iff in Ha as (_ & _ & _ & _ & _ & _ & ->). cbn [admitted next_seq_].
    pose proof (wf_next _ Hm). rewrite u64_id by (unfold u64_ok; lia). lia.
  - intros e. rewrite Hsort, elem_of_app, list_elem_of_singleton. intros [He| ->]; [by apply Hok|done].
  - intros cand Hcand. destruct (Hc cand Hcand) as [Hpow [Hi Hprev Ht1 Hh Hsz (new & Hnew & Hpool)]].
    split; [done|]. split; try done. exists new. split; [done|]. by eapply admitted_pooled; [..|exact Ha|]; [|lia|].
Qed.

(** The same process but for fields the invariant does not constrain. *)
Lemma inv_fields cfg T n d nd last stop cand :
  daemon_inv cfg T n d → chain_ nd = chain_ (d_node d) → cfg_ nd = cfg → (cand = d_cand d ∨ cand = None) →
  daemon_inv cfg T n (mkDaemon nd (d_pool d) (d_miner d) (d_rpc d) last cand stop).
Proof.
  intros [Hcfg Hs Hp Hq Hok Hc] Hch Hcfg' Hcand. split; cbn [d_node d_pool d_cand d_miner]; rewrite ?Hch; try done.
  by destruct Hcand as [-> | ->].
Qed.

Lemma step_inv cfg T n d e out d' :
  T + MAX_CLOCK_SKEW_S < 2 ^ 64 → Z.of_nat n < 2 ^ 64 - 1 → clocked T e → daemon_inv cfg T n d →
  dstep d e = Ret (out, d') → daemon_inv cfg T (S n) d'.
Proof.
  intros HT Hn Hclk Hd Hstep. pose proof Hd as [Hcfg [bs Hs] Hp Hq Hok Hc]. unfold MAX_CLOCK_SKEW_S in HT.
  assert (0 <= T → T < 2 ^ 64) as HT64 by lia.
  destruct e as [m t b|sys ms s ms'|s|sys fuel stop s|]; cbn [dstep clocked] in *.
  - destruct (d_rpc d); cbn [negb] in Hstep; [|injection Hstep as <- <-; by apply inv_weaken].
    destruct (rpc_handler _ _ _ _ _) as [r mp] eqn:Hr. injection Hstep as <- <-. by eapply request_inv.
  - rewrite Hcfg in Hstep. destruct (d_stop d || pow_mode cfg || _) eqn:Hg; [injection Hstep as <- <-; by apply inv_weaken|].
    destruct (seal_tick _ _ _ _) as [[[r nd] mp]| | | |] eqn:Ht; try done. cbn [obind] in Hstep. injection Hstep as <- <-.
    apply seal_tick_effect in Ht as (Hcfg' & Hconn & ->). apply inv_weaken.
    assert (d_cand d = None) as Hnone.
    { destruct (d_cand d) as [cand|]; [|done]. destruct (Hc cand eq_refl) as [Hpow _]. rewrite Hpow in Hg.
      by rewrite orb_true_r in Hg. }
    case_bool_decide as Hr; [subst r|].
    + rewrite Hnone. eapply (commit_inv cfg T n d _ s); [done..| |apply drain_pooled|exact Hconn|done|congruence].
      apply sealed_block_ok; [lia|]. eapply pooled_txns_ok; [done|apply drain_pooled].
    + apply inv_fields; [done| |congruence|by left]. by eapply connectBlock_fail_unchanged.
  - rewrite Hcfg in Hstep. destruct (d_stop d || negb (pow_mode cfg) || _) eqn:Hg; injection Hstep as <- <-; [by apply inv_weaken|].
    apply orb_false_iff in Hg as [[_ Hpow%negb_false_iff]%orb_false_iff _]. apply inv_weaken.
    split; cbn [with_cand d_node d_pool d_cand d_miner]; try done; [by exists bs|]. intros cand [= <-]. split; [done|].
    apply snapshot_ok. lia.
  - destruct (d_cand d) as [cand|] eqn:Ecand; [|injection Hstep as <- <-; by apply inv_weaken].
    destruct (Hc cand eq_refl) as [_ Hco]. apply inv_weaken.
    destruct (mine _ _ _ _) as [[b|]|] eqn:Hmine; try done.
    2: { injection Hstep as <- <-. apply inv_fields; try done. by right. }
    destruct (commit_mined _ _ _ _ _) as [[[ok nd] mp]| | | |] eqn:Hcm; try done. cbn [obind] in Hstep. injection Hstep as <- <-.
    apply commit_mined_effect in Hcm as (Hcfg' & Hyes & Hno).
    destruct (mined_block_ok _ _ _ _ _ _ _ _ Hok Hco Hmine) as [Hb (new & Hnew & Hpool)].
    destruct ok.
    + destruct (Hyes eq_refl) as [Hconn ->]. rewrite Hnew. cbn [drop].
      by eapply (commit_inv cfg T n d b s); [..|exact Hconn| |congruence].
    + destruct (Hno eq_refl) as [Hch ->]. apply inv_fields; [done..|congruence|by right].
  - injection Hstep as <- <-. apply inv_weaken, inv_fields; [done..|by left].
Qed.

(** ** Histories without self-transfers *)

Lemma pooled_user mp l t : pool_wf mp → pooled mp l → t ∈ l → tx_from t ≠ kNullAddr.
Proof.
  intros Hm Hp Ht. destruct (pooled_elem _ _ _ Hp Ht) as (e & He & <-). apply sortedBySeq_elem in He; [|done].
  destruct (wf_entry _ Hm _ _ He) as (_ & _ & Hau & _). by apply au_user.
Qed.

Lemma pooled_run R idx w mp l w' :
  pool_wf mp → pooled mp l → block_run R idx w l w' → transfers w l w'.
Proof.
  intros Hm Hp Hr. destruct Hr as [w t l w' Hcb _|]; [|done].
  destruct (pooled_user _ _ t Hm Hp); [apply list_elem_of_here|apply Hcb].
Qed.

Lemma coinbase_run R idx w miner h l w' :
  block_run R idx w (coinbaseTxn miner h :: l) w' → transfers (credit w miner COINBASE_REWARD) l w'.
Proof.
  inversion 1 as [? ? ? ? _ Ht|? ? ? _ Ht]; subst; [done|].
  inversion Ht as [|? ? ? ? Hok _]; subst. by destruct (tr_user _ _ Hok).
Qed.

Lemma pool_fresh_credit w a v mp :
  ledger_ok w → 0 <= v → supply w + v < 2 ^ 64 → pool_fresh w mp → pool_fresh (credit w a v) mp.
Proof. intros Hw Hv Hs Hf e He. destruct (Hf e He) as [? ?]. split; [|done]. by apply credit_transfer_ok. Qed.

Lemma no_self_snoc l b : no_self (all_txns (l ++ [b])) ↔ no_self (all_txns l) ∧ no_self (txns b).
Proof. unfold all_txns, no_self. rewrite flat_map_app, Forall_app. cbn [flat_map]. by rewrite app_nil_r. Qed.

Lemma pooled_no_self w mp l : pool_fresh w mp → pooled mp l → no_self l.
Proof.
  intros Hf Hp. apply Forall_forall. intros t Ht. right.
  destruct (pooled_elem _ _ _ Hp Ht) as (e & He & <-). by destruct (Hf e He) as (_ & ? & _).
Qed.

(** The body is a batch of pooled transactions, behind a coinbase or not. *)
Definition body_of (l : list Txn) (batch : list Txn) : Prop := l = batch ∨ ∃ miner h, l = coinbaseTxn miner h :: batch.

Lemma commit_fresh D R T c bs mp b t batch c' :
  0 <= T → T + MAX_CLOCK_SKEW_S < 2 ^ 58 → chain_shape D R T c bs → no_self (all_txns (blocks_ c)) → pool_wf mp →
  pool_fresh (state_ c) mp → pooled mp batch → body_of (txns b) batch → connectBlock c b t = (OK, c') →
  no_self (all_txns (blocks_ c')) ∧ pool_fresh (state_ c') (evictIncluded mp batch).
Proof.
  intros H0 HT Hs Hn Hm Hf Hp Hbody (_ & w & Hr & ->)%connectBlock_ok_iff. cbn [committed blocks_ state_].
  destruct (shape_ledger _ _ _ _ _ Hs H0 HT Hn) as (Hw & Hsup & _).
  rewrite no_self_snoc. destruct Hbody as [Hb|(miner & h & Hb)]; rewrite Hb in *.
  - split; [split; [done|by apply (pooled_no_self (state_ c) mp)]|]. apply (pooled_run _ _ _ mp) in Hr; [|done..]. by eapply fresh_evict.
  - split; [split; [done|]|].
    + constructor; [by left|by apply (pooled_no_self (state_ c) mp)].
    + apply coinbase_run in Hr. destruct (credit_supply (state_ c) miner COINBASE_REWARD Hw) as (_ & Hw' & _); [done..|].
      destruct (fresh_evict (credit (state_ c) miner COINBASE_REWARD) mp batch w); try done. by apply pool_fresh_credit.
Qed.

Lemma fresh_admit w mp t mp' :
  pool_wf mp → next_seq_ mp < 2 ^ 64 - 1 → txn_ok t → tx_from t ≠ tx_to t →
  admit_txn (acct_at w) mp t = (AdmitResult.OK, mp') → pool_fresh w mp → pool_fresh w mp'.
Proof.
  intros Hm Hq (_ & [Ha _] & _) Hne Hadm Hf e. destruct (admitted_wf _ _ _ _ Hm Hq Hadm) as [_ ->].
  rewrite elem_of_app, list_elem_of_singleton. intros [He| ->]; [by apply Hf|]. cbn [me_txn].
  apply admit_ok_iff in Hadm as ([_ Hu Had Hsig] & Hno & Hfu & _). by split; [split|].
Qed.

Lemma step_fresh cfg T n d e out d' :
  0 <= T → T + MAX_CLOCK_SKEW_S < 2 ^ 58 → Z.of_nat n < 2 ^ 64 - 1 → selfless e → daemon_inv cfg T n d →
  dstep d e = Ret (out, d') → daemon_fresh d → daemon_fresh d'.
Proof.
  intros H0 HT Hn Hself Hd Hstep [Hns Hf]. pose proof Hd as [Hcfg [bs Hs] Hp Hq Hok Hc].
  destruct (pool_reach_wf _ _ Hp) as [Hm _].
  destruct e as [m t b|sys ms s ms'|s|sys fuel stop s|]; cbn [dstep selfless] in *.
  - destruct (d_rpc d); cbn [negb] in Hstep; [|by injection Hstep as <- <-].
    destruct (rpc_handler _ _ _ _ _) as [r mp] eqn:Hr. injection Hstep as <- <-. split; cbn [with_pool d_node d_pool]; [done|].
    apply request_effect in Hr as [->|(_ & _ & _ & u & Hu & Huok & _ & Ha)]; cbn [node_ctx ctx_mempool mempool_account] in *; [done|].
    rewrite Hu in Hself. eapply fresh_admit; [exact Hm|lia|exact Huok|exact Hself|exact Ha|done].
  - destruct (_ || _); [by injection Hstep as <- <-|].
    destruct (seal_tick _ _ _ _) as [[[r nd] mp]| | | |] eqn:Ht; try done. cbn [obind] in Hstep. injection Hstep as <- <-.
    apply seal_tick_effect in Ht as (_ & Hconn & ->). case_bool_decide as Hr.
    + subst r. assert (body_of (txns (sealed_block (chain_ (d_node d)) s (drain (d_pool d)))) (drain (d_pool d))) as Hbody by (by left).
      destruct (commit_fresh _ _ _ _ _ _ _ _ (drain (d_pool d)) _ H0 HT Hs Hns Hm Hf (drain_pooled _) Hbody Hconn).
      by split.
    + apply connectBlock_fail_unchanged in Hconn; [|done]. split; cbn [d_node d_pool]; by rewrite Hconn.
  - destruct (_ || _); by injection Hstep as <- <-.
  - destruct (d_cand d) as [cand|] eqn:Ecand; [|by injection Hstep as <- <-].
    destruct (Hc cand eq_refl) as [_ Hco]. destruct (mine _ _ _ _) as [[b|]|] eqn:Hmine; try done; [|by injection Hstep as <- <-].
    destruct (commit_mined _ _ _ _ _) as [[[ok nd] mp]| | | |] eqn:Hcm; try done. cbn [obind] in Hstep. injection Hstep as <- <-.
    apply commit_mined_effect in Hcm as (_ & Hyes & Hno). destruct ok.
    + destruct (Hyes eq_refl) as [Hconn ->].
      destruct (mined_block_ok _ _ _ _ _ _ _ _ Hok Hco Hmine) as [_ (new & Hnew & Hpool)].
      assert (body_of (txns b) new) as Hbody by (right; eauto).
      destruct (commit_fresh _ _ _ _ _ _ _ _ _ _ H0 HT Hs Hns Hm Hf Hpool Hbody Hconn). rewrite Hnew. by split.
    + destruct (Hno eq_refl) as [Hch ->]. split; cbn [d_node d_pool]; by rewrite Hch.
  - by injection Hstep as <- <-.
Qed.

Lemma history_inv cfg T d0 es out d :
  T + MAX_CLOCK_SKEW_S < 2 ^ 64 → daemon_inv cfg T 0 d0 → history d0 es out d →
  Z.of_nat (length es) < 2 ^ 64 - 1 → Forall (clocked T) es → daemon_inv cfg T (length es) d.
Proof.
  intros HT H0. induction 1 as [|es out d e ln d' _ IH Hstep]; intros Hlen Hclk; [done|].
  rewrite length_app in *. cbn [length] in *. apply Forall_app in Hclk as [Hclk He]. apply Forall_cons in He as [He _].
  rewrite Nat.add_1_r. eapply step_inv; [done| |exact He| |exact Hstep]; [lia|]. apply IH; [lia|done].
Qed.

Lemma history_fresh cfg T d0 es out d :
  0 <= T → T + MAX_CLOCK_SKEW_S < 2 ^ 58 → daemon_inv cfg T 0 d0 → daemon_fresh d0 → history d0 es out d →
  Z.of_nat (length es) < 2 ^ 64 - 1 → Forall (clocked T) es → Forall selfless es → daemon_fresh d.
Proof.
  intros HT0 HT Hi Hf. induction 1 as [|es out d e ln d' Hh IH Hstep]; intros Hlen Hclk Hself; [done|].
  rewrite length_app in *. cbn [length] in *. apply Forall_app in Hclk as [Hclk _].
  apply Forall_app in Hself as [Hself He]. apply Forall_cons in He as [He _].
  assert (Z.of_nat (length es) < 2 ^ 64 - 1) as Hlen' by lia.
  eapply (step_fresh cfg T (length es)); [done..| | |exact Hstep|].
  - exact He.
  - eapply history_inv; [|exact Hi|exact Hh|done|done]. lia.
  - by apply IH.
Qed.

(** The processes a start-up and a history lead to. *)
Record lived (T : Z) (d0 d : Daemon) (es : list event) : Prop := {
  lv_clock : 0 <= T ∧ T + MAX_CLOCK_SKEW_S < 2 ^ 58;
  lv_start : ∃ host argv now_s now_ms out0, 0 <= now_s <= T ∧ txnode_start host argv now_s now_ms = Ret (out0, Some d0);
  lv_history : ∃ out, history d0 es out d;
  lv_short : Z.of_nat (length es) < 2 ^ 64 - 1;
  lv_clocked : Forall (clocked T) es
}.

Lemma lived_inv T d0 d es : lived T d0 d es → daemon_inv (cfg_ (d_node d0)) T (length es) d.
Proof.
  intros [[H0 HT] (host & argv & now_s & now_ms & out0 & Hn & Hs) [out Hh] Hlen Hclk].
  apply (start_inv _ _ _ _ _ _ T) in Hs as [Hi _]; [|done|lia]. eapply history_inv; [|exact Hi|exact Hh|done|done]. lia.
Qed.

Lemma lived_fresh T d0 d es :
  lived T d0 d es → no_self (all_txns (blocks_ (chain_ (d_node d0)))) → Forall selfless es → daemon_fresh d.
Proof.
  intros [[H0 HT] (host & argv & now_s & now_ms & out0 & Hn & Hs) [out Hh] Hlen Hclk] Hns Hself.
  apply (start_inv _ _ _ _ _ _ T) in Hs as [Hi Hp]; [|done|lia].
  apply (history_fresh _ T d0 es out d H0 HT Hi); [|exact Hh|done..].
  split; [done|]. rewrite Hp. intros e He. by apply elem_of_nil in He.
Qed.

Lemma fresh_accepts w mp e bi ti :
  pool_fresh w mp → e ∈ sortedBySeq mp → applyTxn w (me_txn e) bi ti = (OK, move w (me_txn e)).
Proof. intros Hf He. destruct (Hf e He) as [Ht _]. apply applyTxn_user_ok; [apply Ht|by split]. Qed.
(** A found block is accepted at the present tip. *)
Lemma mined_connects cfg T n d cand fuel stop b now_s :
  0 <= T → T + MAX_CLOCK_SKEW_S < 2 ^ 58 → daemon_inv cfg T n d → daemon_fresh d → d_cand d = Some cand →
  mine fuel cand (difficulty cfg) stop = Some (Some b) →
  h_timestamp (tip_header (chain_ (d_node d))) < h_timestamp (header b) <= u64 (now_s + MAX_CLOCK_SKEW_S) →
  ∃ w, connectBlock (chain_ (d_node d)) b now_s = (OK, committed (chain_ (d_node d)) b w).
Proof.
  intros H0 HT [Hcfg [bs Hs] Hp Hq Hok Hc] [Hns Hf] Hcand Hmine Htime. set (c := chain_ (d_node d)) in *.
  destruct (Hc cand Hcand) as [_ [Hi Hprev _ Hh Hsz (new & Hnew & Hpool)]].
  destruct (pool_reach_wf _ _ Hp) as [Hm _]. destruct (shape_ledger _ _ _ _ _ Hs H0 HT Hns) as (Hw & Hsup & _).
  destruct (mine_loop_sound _ _ _ _ _ _ _ Hmine) as (Hpow & Htx & Hsi & Hsp & Hst).
  destruct (credit_supply (state_ c) (d_miner d) COINBASE_REWARD Hw) as (_ & Hw' & _); [done..|].
  destruct (independent_transfers (credit (state_ c) (d_miner d) COINBASE_REWARD) new Hw') as (w & Htr & _ & _).
  { apply Forall_forall. intros t Ht. destruct (pooled_elem _ _ _ Hpool Ht) as (e & He & <-).
    by apply (pool_fresh_credit (state_ c) (d_miner d) COINBASE_REWARD (d_pool d)). }
  { by apply (pooled_senders (d_pool d)). }
  exists w. apply connectBlock_ok_iff. split.
  - split; rewrite ?Hsi, ?Hsp, ?Hst; try done; try lia.
    + by rewrite (sh_difficulty _ _ _ _ _ Hs).
    + rewrite Hh. unfold computeTxnsHash. by rewrite Htx.
    + by rewrite Htx.
  - exists w. split; [|done]. rewrite Hsi, Hi, Htx, Hnew. by apply run_coinbase; [apply coinbase_txn_coinbase|].
Qed.

Lemma evicted_gone mp l t :
  pool_wf mp → pooled mp l → t ∈ l →
  contains (evictIncluded mp l) (txid t) = false ∧ hasPending (evictIncluded mp l) (tx_from t) = false.
Proof.
  intros Hm Hp Ht. destruct (pooled_elem _ _ _ Hp Ht) as (e & He & Het). apply sortedBySeq_elem in He; [|done].
  assert (∀ u, u ∈ l → no_clash mp u) as Hcl by (intros; by eapply pooled_no_clash).
  destruct (wf_entry _ Hm _ _ He) as (Hid & Htx & _). rewrite Het in Htx. split; apply bool_decide_eq_false; intros [x Hx].
  - destruct (evictIncluded_wf mp l Hm Hcl) as [_ Hd]. apply Hd in Hx as [_ Hx]. apply Hx. by apply list_elem_of_fmap_2.
  - rewrite <- Htx in He. by rewrite (evictIncluded_frees mp l t e Hm Hcl Ht He) in Hx.
Qed.
(** ** Machine ranges *)

(** Every account holds 64-bit values. *)
Definition ledger_typed (w : accounts) : Prop := ∀ a, u64_ok (balance (acct_at w a)) ∧ u64_ok (nonce (acct_at w a)).

Lemma ledger_typed_insert w a b n :
  ledger_typed w → u64_ok b → u64_ok n → ledger_typed (<[a := mkAcct b n]> w).
Proof.
  intros Hw Hb Hn x. destruct (decide (a = x)) as [<-|Hne]; [by rewrite acct_at_insert|]. by rewrite acct_at_insert_ne.
Qed.

Lemma ledger_typed_credit w a v : ledger_typed w → ledger_typed (credit w a v).
Proof. intros Hw. apply ledger_typed_insert; [done|apply u64_range|apply Hw]. Qed.

Lemma ledger_typed_move w t : ledger_typed w → ledger_typed (move w t).
Proof. intros Hw. repeat (apply ledger_typed_insert; [|apply u64_range|first [apply u64_range|apply Hw]]). done. Qed.

Lemma ledger_typed_transfers w l w' : transfers w l w' → ledger_typed w → ledger_typed w'.
Proof. induction 1 as [|w t l w' _ _ IH]; intros Hw; [done|]. by apply IH, ledger_typed_move. Qed.

Lemma ledger_typed_runs R w l w' : runs R w l w' → ledger_typed w → ledger_typed w'.
Proof.
  induction 1 as [|w b l w1 w' Hb _ IH]; intros Hw; [done|]. apply IH.
  destruct Hb as [w t k w1 _ Ht|w k w1 _ Ht]; eapply ledger_typed_transfers; try exact Ht; [by apply ledger_typed_credit|done].
Qed.

Lemma ledger_typed_genesis : ledger_typed (applyGenesis ∅).
Proof.
  intros a. unfold acct_at. destruct (applyGenesis ∅ !! a) as [s|] eqn:Es; [|done]. by rewrite (applyGenesis_lookup _ _ _ Es).
Qed.
End invariant.

(** C2. The node process is safe under every interleaving of its two threads: from any
    start-up, after any sequence of requests, seals, mining snapshots, mined blocks
    and signals, the chain is one built from genesis by valid blocks at the
    configured difficulty, the mempool keeps its invariant within its 4096 slots,
    and the candidate being mined extends the present tip (the tip never moves
    under the miner); and if no self-transfer was ever submitted or loaded, the
    consensus gate would accept every pooled transaction at that very moment. *)
Theorem daemon_invariant {H : HashFn} {E : Ed25519} T d0 d es :
  lived T d0 d es →
  let cfg := cfg_ (d_node d0) in
  let c := chain_ (d_node d) in
  (∃ l, chain_shape (difficulty cfg) (node_reward cfg) T c l) ∧
  pool_reach kMempoolCap (d_pool d) ∧
  (∀ cand, d_cand d = Some cand → h_index (hdr cand) = u64 (height c + 1) ∧ h_prevHash (hdr cand) = tipHash c) ∧
  (no_self (all_txns (blocks_ (chain_ (d_node d0)))) → Forall selfless es →
   ∀ e bi ti, e ∈ sortedBySeq (d_pool d) → (applyTxn (state_ c) (me_txn e) bi ti).1 = OK).
Proof.
  intros Hl cfg c. pose proof (lived_inv _ _ _ _ Hl) as Hi. split_and!.
  - apply Hi.
  - apply Hi.
  - intros cand Hc. destruct (di_cand _ _ _ _ Hi cand Hc) as [_ Hco]. by split; apply Hco.
  - intros Hns Hself e bi ti He. destruct (lived_fresh _ _ _ _ Hl Hns Hself) as [_ Hf].
    by rewrite (fresh_accepts _ _ _ _ _ Hf He).
Qed.

(** C29. Types of the machine: whatever is submitted, loaded or mined, in every history
    every block of the chain and every pooled transaction has all its fields in
    their machine ranges (so it serialises faithfully), the admission counter is
    a 64-bit value, and every account's balance and nonce are. *)
Theorem daemon_typed {H : HashFn} {E : Ed25519} T d0 d es :
  lived T d0 d es →
  Forall block_ok (blocks_ (chain_ (d_node d))) ∧
  (∀ e, e ∈ sortedBySeq (d_pool d) → txn_ok (me_txn e) ∧ tx_ver (me_txn e) = kTxnVersion) ∧
  u64_ok (next_seq_ (d_pool d)) ∧
  (∀ a, u64_ok (balance (account (chain_ (d_node d)) a)) ∧ u64_ok (nonce (account (chain_ (d_node d)) a))).
Proof.
  intros Hl. destruct (lived_inv _ _ _ _ Hl) as [_ [l Hs] Hp Hq Hok _]. destruct (pool_reach_wf _ _ Hp) as [Hm _].
  pose proof (lv_short _ _ _ _ Hl). pose proof (wf_next _ Hm). split_and!.
  - rewrite (sh_blocks _ _ _ _ _ Hs). constructor; [|apply Hs]. by split; [split_and!|constructor].
  - intros e He. split; [by apply Hok|]. apply sortedBySeq_elem in He; [|done].
    destruct (wf_entry _ Hm _ _ He) as (_ & _ & Hau & _). by apply au_ver.
  - unfold u64_ok. lia.
  - intros a. by apply (ledger_typed_runs _ _ _ _ (sh_runs _ _ _ _ _ Hs)), ledger_typed_genesis.
Qed.

(** C20. No found block is wasted: in any history without self-transfers, whatever
    requests were served while the nonce search ran, a block it returns whose
    timestamp is inside the window is committed - the chain grows by exactly that
    block, the event is reported, and the included senders' slots in the mempool
    are free again. *)
Theorem mined_block_commits {H : HashFn} {E : Ed25519} T d0 d es cand sys fuel stop b now_s ok file' :
  let cfg := cfg_ (d_node d0) in
  let c := chain_ (d_node d) in
  lived T d0 d es → no_self (all_txns (blocks_ (chain_ (d_node d0)))) → Forall selfless es →
  d_cand d = Some cand → mine fuel cand (difficulty cfg) stop = Some (Some b) →
  h_timestamp (tip_header c) < h_timestamp (header b) <= u64 (now_s + MAX_CLOCK_SKEW_S) →
  appendBlock sys (file_ (d_node d)) b = Some (ok, file') →
  ∃ d', dstep d (Mined sys fuel stop now_s) = Ret (block_event "block_mined" (d_node d') (length (txns b)), d') ∧
    blocks_ (chain_ (d_node d')) = blocks_ c ++ [b] ∧ file_ (d_node d') = file' ∧ d_cand d' = None ∧
    (∀ t, t ∈ drop 1 (txns b) →
       contains (d_pool d') (txid t) = false ∧ hasPending (d_pool d') (tx_from t) = false).
Proof.
  intros cfg c Hl Hns Hself Hcand Hmine Htime Happ. pose proof (lived_inv _ _ _ _ Hl) as Hi.
  pose proof (lived_fresh _ _ _ _ Hl Hns Hself) as Hf. destruct (lv_clock _ _ _ _ Hl) as [H0 HT].
  destruct (mined_connects _ _ _ _ _ _ _ _ _ H0 HT Hi Hf Hcand Hmine Htime) as [w Hconn].
  destruct Hi as [Hcfg _ Hp _ Hok Hc]. destruct (pool_reach_wf _ _ Hp) as [Hm _]. destruct (Hc cand Hcand) as [_ Hco].
  destruct (mined_block_ok _ _ _ _ _ _ _ _ Hok Hco Hmine) as [_ (new & Hnew & Hpool)].
  destruct (mine_loop_sound _ _ _ _ _ _ _ Hmine) as (_ & _ & Hsi & Hsp & _).
  cbn [dstep]. rewrite Hcand, Hcfg. fold cfg. rewrite Hmine. unfold commit_mined, commitBlock.
  rewrite Hsi, Hsp, (co_index _ _ _ _ Hco), (co_prev _ _ _ _ Hco), Z.eqb_refl, bool_decide_eq_true_2 by done. cbn [andb].
  rewrite Hconn. rewrite bool_decide_eq_true_2 by done. cbn [negb]. unfold append_ignoring. cbn [file_ cfg_ chain_].
  rewrite Happ. cbn [obind]. rewrite bool_decide_eq_true_2 by done. cbn [obind].
  match goal with |- ∃ _, Ret (_, ?x) = _ ∧ _ => exists x end. split; [reflexivity|]. cbn [d_node chain_ file_ d_cand d_pool committed blocks_]. split_and!; [done..|].
  rewrite Hnew. cbn [drop length]. intros t Ht. destruct new as [|u new]; [by apply elem_of_nil in Ht|].
  cbn [length Nat.ltb Nat.leb]. by apply evicted_gone.
Qed.

(** ** The theorems at a concrete history

    A fresh proof-of-work node at difficulty 1 mines a block, is sent a
    payment by its own wallet while it searches for the next one, and
    commits that one too; the payment enters the block after. *)

Module DaemonDemo.
#[local] Existing Instances Demo.demo_hash Demo.demo_ed.

Definition disk : io := mkIo true [Wrote 2000; Wrote 2000] true.
Definition host : Host := mkHost (λ _, None) (λ _, None) (λ _, None) (λ _, true) (Some KeyDemo.seed) disk
  (mkKeyIo disk true 18) (mkSockets 3 (λ _, true) true (Some 9334)).
Definition argv : list (list byte) := map txt ["txnode"; "--mine"; "--difficulty"; "1"; "--seal-cadence"; "0"; "--datadir"; "d"].
Definition now : Z := ChainDemo.now.

Definition the {A} (o : outcome A) (d : A) : A := match o with Ret a => a | _ => d end.
Definition idle : Daemon := mkDaemon (Node_new default_config None) (Mempool_new 0) (arr_zero 20) false 0 None false.
Definition started : list byte * option Daemon := the (txnode_start host argv now 0) ([], None).
Definition d0 : Daemon := default idle started.2.

Definition pay : Txn := sign_txn KeyDemo.seed GateDemo.addrB 7 0.
Definition es : list event :=
  [Snapshot now; Mined disk 5 (λ _, false) now; Snapshot now;
   Request (txt "POST") (txt "/tx") (Hex.to_hex (serialize_txn pay));
   Mined disk 5 (λ _, false) now; Snapshot now].
Definition ran : list byte * Daemon := the (run_events d0 es) ([], idle).
Definition d6 : Daemon := ran.2.
Definition cand : Candidate := default (mkCandidate (header genesisBlock) []) (d_cand d6).
Definition found : Block := default genesisBlock (default None (mine 5 cand 1 (λ _, false))).

Definition returns {A} (o : outcome A) : bool := match o with Ret _ => true | _ => false end.

Lemma the_returns {A} (o : outcome A) d : returns o = true → o = Ret (the o d).
Proof. by destruct o. Qed.

Lemma starts : txnode_start host argv now 0 = Ret (started.1, Some d0).
Proof.
  assert (∀ p : list byte * option Daemon, bool_decide (is_Some p.2) = true → p = (p.1, Some (default idle p.2))) as Hp.
  { by intros [o [d|]]. }
  refine (eq_trans (the_returns (txnode_start host argv now 0) ([], None) _) (f_equal Ret (Hp _ _))); by vm_compute.
Qed.

Lemma runs6 : run_events d0 es = Ret (ran.1, d6).
Proof.
  refine (eq_trans (the_returns (run_events d0 es) ([], idle) _) (f_equal Ret (surjective_pairing _))). by vm_compute.
Qed.

Lemma lived6 : lived now d0 d6 es.
Proof.
  split; [done| | |done|].
  - exists host, argv, now, 0, started.1. split; [done|apply starts].
  - exists ran.1. apply run_events_history, runs6.
  - by repeat constructor.
Qed.

Definition entry : MempoolEntry := mkEntryOf pay (txid pay) 0.
Definition appended : bool * option (list byte) := default (false, None) (appendBlock disk (file_ (d_node d6)) found).

Lemma no_self0 : no_self (all_txns (blocks_ (chain_ (d_node d0)))).
Proof. apply (bool_decide_unpack _). by vm_compute. Qed.
Lemma selfless6 : Forall selfless es.
Proof.
  assert (submitted (Hex.to_hex (serialize_txn pay)) = Some pay) as Hp by (apply (bool_decide_unpack _); by vm_compute).
  assert (selfless (Request (txt "POST") (txt "/tx") (Hex.to_hex (serialize_txn pay)))) as Hr.
  { cbn [selfless]. rewrite Hp. apply (bool_decide_unpack _). by vm_compute. }
  unfold es. rewrite !Forall_cons. exact (conj I (conj I (conj I (conj Hr (conj I (conj I (Forall_nil_2 _))))))).
Qed.
Lemma pending : entry ∈ sortedBySeq (d_pool d6).
Proof. apply (bool_decide_unpack _). by vm_compute. Qed.
Lemma searching : d_cand d6 = Some cand.
Proof.
  assert (bool_decide (is_Some (d_cand d6)) = true) as Hs by (by vm_compute). unfold cand.
  by apply bool_decide_eq_true in Hs as [x ->].
Qed.
Lemma finds : mine 5 cand (difficulty (cfg_ (d_node d0))) (λ _, false) = Some (Some found).
Proof. apply (bool_decide_unpack _). by vm_compute. Qed.
Lemma timely : h_timestamp (tip_header (chain_ (d_node d6))) < h_timestamp (header found) <= u64 (now + MAX_CLOCK_SKEW_S).
Proof. apply (bool_decide_unpack _). by vm_compute. Qed.
Lemma appends : appendBlock disk (file_ (d_node d6)) found = Some (appended.1, appended.2).
Proof. apply (bool_decide_unpack _). by vm_compute. Qed.
Lemma included : pay ∈ drop 1 (txns found).
Proof. apply (bool_decide_unpack _). by vm_compute. Qed.
End DaemonDemo.

Lemma daemon_invariant_witness :
  (applyTxn (H := Demo.demo_hash) (E := Demo.demo_ed) (state_ (chain_ (d_node DaemonDemo.d6))) DaemonDemo.pay 1 1).1 = OK.
Proof.
  destruct (daemon_invariant (H := Demo.demo_hash) (E := Demo.demo_ed) _ _ _ _ DaemonDemo.lived6) as (_ & _ & _ & Hf).
  exact (Hf DaemonDemo.no_self0 DaemonDemo.selfless6 DaemonDemo.entry 1 1%nat DaemonDemo.pending).
Defined.

Lemma mined_block_commits_witness :
  ∃ d', blocks_ (chain_ (d_node d')) = blocks_ (chain_ (d_node DaemonDemo.d6)) ++ [DaemonDemo.found] ∧
        contains (d_pool d') (txid (H := Demo.demo_hash) DaemonDemo.pay) = false.
Proof.
  destruct (mined_block_commits (H := Demo.demo_hash) (E := Demo.demo_ed) _ _ _ _ _ _ _ _ _ _ _ _
    DaemonDemo.lived6 DaemonDemo.no_self0 DaemonDemo.selfless6 DaemonDemo.searching DaemonDemo.finds DaemonDemo.timely
    DaemonDemo.appends) as (d' & _ & Hb & _ & _ & Hg).
  exists d'. exact (conj Hb (proj1 (Hg DaemonDemo.pay DaemonDemo.included))).
Defined.

Lemma daemon_typed_witness :
  Forall block_ok (blocks_ (chain_ (d_node DaemonDemo.d6))) ∧ txn_ok DaemonDemo.pay.
Proof.
  destruct (daemon_typed (H := Demo.demo_hash) (E := Demo.demo_ed) _ _ _ _ DaemonDemo.lived6) as (Hb & Hp & _).
  exact (conj Hb (proj1 (Hp DaemonDemo.entry DaemonDemo.pending))).
Defined.
