(* ===== verification/Recovery.v ===== *)
(** Restarting a node process: what a history of file Daemon leaves on disk,
    and what a new process makes of it.

    The process dies between two events, or by the [Signal] event; its chain
    file is the one its appends have produced ([src/chain/store.cpp]), and a
    restart is [Node::boot] ([src/node/node.cpp]) on that file. *)

From Stdlib Require Import ZArith Lia Ascii String.
From stdpp Require Import base list strings gmap fin_maps.
From S2P Require Import Prelude Text Sha256 Crypto Canonical Wallet Gate Chain Validate Mempool Pow Picojson Json Store.
From S2P Require Import Keyfile Node Config Rpc Http Daemon.

(** System calls that never fail (they may be short or interrupted). *)
Definition healthy (sys : io) : bool :=
  open_ok sys && fsync_ok sys && forallb (λ w, match w with Failed => false | _ => true end) (writes sys).

Definition healthy_event (e : event) : Prop :=
  match e with Tick sys _ _ _ | Mined sys _ _ _ => healthy sys = true | _ => True end.

Section recovery.
Context {H : HashFn} {E : Ed25519}.

(** The file is made of whole lines and, where the reader's integers are exact,
    holds the chain; and a node that mints nothing has a chain without
    coinbases. *)
Record recoverable (nd : Node) : Prop := {
  rc_file : ∃ f, file_ nd = Some f ∧ terminated f ∧
    (Forall json_exact (blocks_ (chain_ nd)) → load (Some f) = Ret (mkLoad (blocks_ (chain_ nd)) status_ok));
  rc_mint : node_reward (cfg_ nd) = 0 → coinbases (all_txns (blocks_ (chain_ nd))) = 0
}.

(** ** Appends *)

Lemma healthy_write ws data file ok file' :
  forallb (λ w, match w with Failed => false | _ => true end) ws = true →
  Store.write_all ws data file = Some (ok, file') → ok = true.
Proof.
  revert data file. induction ws as [|[n| |] ws IH]; intros data file Hh Hw; destruct data as [|c data]; cbn in *;
    try done; try (by injection Hw as <- _); by eapply IH.
Qed.

Lemma healthy_append sys file b ok file' :
  healthy sys = true → appendBlock sys file b = Some (ok, file') →
  file' = Some (default [] file ++ to_json_line b ++ [newline]).
Proof.
  intros [[Ho Hs]%andb_true_iff Hw]%andb_true_iff Ha. assert (ok = true) as ->.
  { revert Ha. unfold appendBlock, write_file. rewrite Ho, Hs. cbn [negb]. destruct (Store.write_all _ _ _) as [[w f]|] eqn:E1; [|done].
    apply healthy_write in E1 as ->; [|done]. by intros [= <- _]. }
  by apply (proj2 (append_then_load _ _ _ _ _ Ha)).
Qed.

Lemma healthy_append_ignoring sys nd b nd' :
  healthy sys = true → append_ignoring sys nd b = Ret nd' →
  file_ nd' = Some (default [] (file_ nd) ++ to_json_line b ++ [newline]).
Proof.
  intros Hh. unfold append_ignoring. destruct (appendBlock _ _ _) as [[ok f]|] eqn:Ha; [|done]. intros [= <-].
  by eapply healthy_append.
Qed.

Lemma commitBlock_file sys nd b now_s r nd' :
  healthy sys = true → commitBlock sys nd b now_s = Ret (r, nd') →
  file_ nd' = if bool_decide (r = OK) then Some (default [] (file_ nd) ++ to_json_line b ++ [newline]) else file_ nd.
Proof.
  intros Hh. unfold commitBlock. destruct (connectBlock _ _ _) as [r0 c]. case_bool_decide as Hr; cbn [negb].
  - destruct (append_ignoring _ _ _) as [nd1| | | |] eqn:Ha; try done. cbn [obind]. intros [= <- <-].
    by apply healthy_append_ignoring in Ha.
  - intros [= <- <-]. by rewrite bool_decide_eq_false_2.
Qed.

(** Sealing is committing the sealed block. *)
Lemma seal_commits sys nd now_s l :
  seal_next_block sys nd now_s l = commitBlock sys nd (sealed_block (chain_ nd) now_s l) now_s.
Proof. done. Qed.

(** ** One event *)

(** A block joins the chain and its line the file. *)
Lemma recoverable_commit nd nd' b now_s :
  recoverable nd → cfg_ nd' = cfg_ nd → connectBlock (chain_ nd) b now_s = (OK, chain_ nd') →
  file_ nd' = Some (default [] (file_ nd) ++ to_json_line b ++ [newline]) →
  (node_reward (cfg_ nd) = 0 → coinbases (txns b) = 0) → recoverable nd'.
Proof.
  intros [(f & Hf & Ht & Hl) Hm] Hcfg (_ & w & _ & Hc)%connectBlock_ok_iff Hfile Hmint. rewrite Hf in Hfile. cbn [default] in Hfile.
  split; rewrite Hc; cbn [committed blocks_].
  - eexists. split; [exact Hfile|]. split; [right; exists (f ++ to_json_line b); by rewrite app_assoc|].
    intros [Hbs Hb]%Forall_app. apply Forall_cons in Hb as [Hb _]. by apply load_append; [..|apply Hl].
  - rewrite Hcfg. intros HR. unfold all_txns. rewrite flat_map_app, coinbases_app. cbn [flat_map]. rewrite app_nil_r.
    fold (all_txns (blocks_ (chain_ nd))). rewrite Hm, Hmint by done. done.
Qed.

Lemma recoverable_same nd nd' :
  recoverable nd → cfg_ nd' = cfg_ nd → chain_ nd' = chain_ nd → file_ nd' = file_ nd → recoverable nd'.
Proof. intros [Hf Hm] Hcfg Hc Hfile. split; by rewrite ?Hcfg, Hc, ?Hfile. Qed.

Lemma commit_recoverable sys nd b now_s r nd' :
  healthy sys = true → recoverable nd → (node_reward (cfg_ nd) = 0 → coinbases (txns b) = 0) →
  commitBlock sys nd b now_s = Ret (r, nd') → recoverable nd'.
Proof.
  intros Hh Hr Hm Hc. pose proof (commitBlock_file _ _ _ _ _ _ Hh Hc) as Hf. apply commitBlock_effect in Hc as [Hcfg Hc].
  case_bool_decide as Hok; [subst r; by eapply recoverable_commit|].
  apply connectBlock_fail_unchanged in Hc; [|done]. by eapply recoverable_same.
Qed.

Lemma pooled_coinbases mp l : pool_wf mp → pooled mp l → coinbases l = 0.
Proof.
  intros Hm Hp. unfold coinbases. replace (filter _ l) with (@nil Txn); [done|]. symmetry. apply list_filter_none.
  intros t Ht Hn. by apply (pooled_user mp l t).
Qed.

Lemma step_recoverable cfg T n d e out d' :
  daemon_inv cfg T n d → healthy_event e → dstep d e = Ret (out, d') → recoverable (d_node d) → recoverable (d_node d').
Proof.
  intros Hd He Hstep Hr. pose proof Hd as [Hcfg [bs Hs] Hp Hq Hok Hc]. destruct (pool_reach_wf _ _ Hp) as [Hm _].
  destruct e as [m t b|sys ms s ms'|s|sys fuel stop s|]; cbn [dstep healthy_event] in *.
  - destruct (d_rpc d); cbn [negb] in Hstep; [|by injection Hstep as <- <-].
    destruct (rpc_handler _ _ _ _ _) as [r mp]. by injection Hstep as <- <-.
  - destruct (_ || _); [by injection Hstep as <- <-|]. unfold seal_tick in Hstep. rewrite seal_commits in Hstep.
    destruct (commitBlock _ _ _ _) as [[r nd]| | | |] eqn:Ht; try done. cbn [obind] in Hstep.
    apply commit_recoverable in Ht; [|done|done|intros _; by apply (pooled_coinbases (d_pool d)), drain_pooled].
    destruct (_ && _); cbn [obind] in Hstep; by injection Hstep as <- <-.
  - destruct (_ || _); by injection Hstep as <- <-.
  - destruct (d_cand d) as [cand|] eqn:Ecand; [|by injection Hstep as <- <-].
    destruct (Hc cand eq_refl) as [Hpow _]. destruct (mine _ _ _ _) as [[b|]|]; try done; [|by injection Hstep as <- <-].
    unfold commit_mined in Hstep. destruct (_ && _); [|by injection Hstep as <- <-].
    destruct (commitBlock _ _ _ _) as [[r nd]| | | |] eqn:Ht; try done. cbn [obind] in Hstep.
    apply commit_recoverable in Ht; [|done|done|].
    + case_bool_decide; cbn [obind] in Hstep; by injection Hstep as <- <-.
    + intros HR. rewrite Hcfg in HR. apply andb_true_iff in Hpow as [_ Hpow]. unfold node_reward in HR. by rewrite Hpow in HR.
  - by injection Hstep as <- <-.
Qed.

Lemma history_recoverable cfg T d0 es out d :
  T + MAX_CLOCK_SKEW_S < 2 ^ 64 → daemon_inv cfg T 0 d0 → history d0 es out d →
  Z.of_nat (length es) < 2 ^ 64 - 1 → Forall (clocked T) es → Forall healthy_event es →
  recoverable (d_node d0) → recoverable (d_node d).
Proof.
  intros HT Hi. induction 1 as [|es out d e ln d' Hh IH Hstep]; intros Hlen Hclk Hhe Hr; [done|].
  rewrite length_app in *. cbn [length] in *. apply Forall_app in Hclk as [Hclk _].
  apply Forall_app in Hhe as [Hhe He]. apply Forall_cons in He as [He _].
  assert (Z.of_nat (length es) < 2 ^ 64 - 1) as Hlen' by lia.
  eapply step_recoverable; [by eapply history_inv|exact He|exact Hstep|by apply IH].
Qed.
(** ** Start-up and restart *)

(** The rewards of a grown chain, against those the validator expects. *)
Lemma shape_minted D R T c l :
  chain_shape D R T c l → 0 <= T → T + MAX_CLOCK_SKEW_S < 2 ^ 58 → no_self (all_txns (blocks_ c)) →
  supply (state_ c) = GENESIS_SUPPLY + COINBASE_REWARD * coinbases (all_txns (blocks_ c)) ∧
  0 <= coinbases (all_txns (blocks_ c)) <= Z.of_nat (length l) ∧ Z.of_nat (length l) < 2 ^ 58 ∧
  (0 < R → coinbases (all_txns (blocks_ c)) = Z.of_nat (length l)).
Proof.
  intros Hs H0 HT Hns. pose proof (shape_length _ _ _ _ _ Hs H0) as Hlen. unfold MAX_CLOCK_SKEW_S in *.
  rewrite (sh_blocks _ _ _ _ _ Hs), all_txns_genesis in *.
  destruct (runs_supply _ _ _ _ (sh_runs _ _ _ _ _ Hs) applyGenesis_ok (sh_ok _ _ _ _ _ Hs) Hns) as (Es & _ & Hle & Hcb).
  { rewrite genesis_supply. unfold GENESIS_SUPPLY, COINBASE_REWARD. lia. }
  rewrite genesis_supply in Es. unfold coinbases in *. split_and!; (done || lia).
Qed.

Lemma node_reward_cases cfg : node_reward cfg = 0 ∨ node_reward cfg = COINBASE_REWARD.
Proof. unfold node_reward. destruct (_ <? _); auto. Qed.

Lemma expected_supply_exact l R :
  Z.of_nat (length l) < 2 ^ 58 → R = 0 ∨ R = COINBASE_REWARD → expected_supply l R = GENESIS_SUPPLY + R * Z.of_nat (length l).
Proof.
  intros Hl HR. unfold expected_supply, GENESIS_SUPPLY, COINBASE_REWARD in *.
  rewrite (u64_id (Z.of_nat _)) by (unfold u64_ok; lia).
  rewrite (u64_id (_ * R)) by (unfold u64_ok; destruct HR as [-> | ->]; lia).
  rewrite u64_id by (unfold u64_ok; destruct HR as [-> | ->]; lia). lia.
Qed.

(** The validator accepts the chain of a recoverable node, at any later time. *)
Lemma recoverable_replays T now nd l :
  let cfg := cfg_ nd in
  chain_shape (difficulty cfg) (node_reward cfg) T (chain_ nd) l → 0 <= T <= now → T + MAX_CLOCK_SKEW_S < 2 ^ 58 →
  now + MAX_CLOCK_SKEW_S < 2 ^ 64 → no_self (all_txns (blocks_ (chain_ nd))) → recoverable nd →
  vr_ok (replayFromGenesis (genesisBlock :: l) now (difficulty cfg) (node_reward cfg)) = true.
Proof.
  intros cfg Hs HT HT' Hnow Hns [_ Hm]. destruct (shape_minted _ _ _ _ _ Hs ltac:(lia) HT' Hns) as (Es & Hcb & Hlen & Hpay).
  pose proof (shape_mono _ _ _ _ _ _ Hs HT Hnow) as Hs'. pose proof (node_reward_cases cfg) as HR.
  apply replay_ok_iff. exists genesisBlock, l, (state_ (chain_ nd)). split; [done|].
  split; [split_and!; [done..| |]; apply Hs'|]. rewrite expected_supply_exact, Es by (done || lia).
  rewrite u64_id by (unfold u64_ok, GENESIS_SUPPLY, COINBASE_REWARD; lia).
  destruct HR as [HR|HR]; [rewrite Hm, HR by done; lia|]. rewrite Hpay, HR; [done|]. by rewrite HR.
Qed.

Lemma boot_recoverable sys cfg file now br nd :
  0 <= now → now + MAX_CLOCK_SKEW_S < 2 ^ 58 → boot sys cfg file now = Ret (br, nd) → br_ok br = true →
  healthy sys = true → terminated (default [] file) → no_self (all_txns (blocks_ (chain_ nd))) → recoverable nd.
Proof.
  intros H0 Hn Hb Hok Hh Ht Hns.
  destruct (boot_cases _ _ _ _ _ _ H0 ltac:(lia) Hb Hok) as [[Hl Ha]|(f & l & c & -> & Hl & Hv & -> & Hs)].
  - pose proof (healthy_append_ignoring _ _ _ _ Hh Ha) as Hf. apply append_ignoring_same in Ha as [Hc _]. cbn [Node_new file_ chain_] in *.
    split; rewrite Hc; [|done]. eexists. split; [exact Hf|].
    split; [right; exists (default [] file ++ to_json_line genesisBlock); by rewrite app_assoc|].
    intros Hb'. apply Forall_cons in Hb' as [Hb' _]. by apply (load_append _ _ []).
  - cbn [chain_ cfg_ file_] in *. split; cbn [chain_ cfg_ file_].
    + exists f. split; [done|]. split; [done|]. intros _. by rewrite (sh_blocks _ _ _ _ _ Hs).
    + intros HR. destruct (shape_minted _ _ _ _ _ Hs H0 Hn Hns) as (Es & Hcb & Hlen & _).
      apply replay_ok_iff in Hv as (b0 & l' & w & [= <- <-] & (_ & _ & _ & _ & Hr) & Hsup).
      rewrite (runs_det _ _ _ _ _ Hr (sh_runs _ _ _ _ _ Hs)), expected_supply_exact, HR, Es in Hsup; [|lia|by left].
      rewrite u64_id in Hsup by (unfold u64_ok, GENESIS_SUPPLY, COINBASE_REWARD; lia). unfold COINBASE_REWARD in *. lia.
Qed.

Lemma start_recoverable host argv now_s now_ms out d :
  0 <= now_s → now_s + MAX_CLOCK_SKEW_S < 2 ^ 58 → txnode_start host argv now_s now_ms = Ret (out, Some d) →
  healthy (h_io host) = true → terminated (default [] (h_chain host (chain_path (datadir (cfg_ (d_node d)))))) →
  no_self (all_txns (blocks_ (chain_ (d_node d)))) → recoverable (d_node d).
Proof.
  intros H0 Hn Hs Hh. unfold txnode_start in Hs. destruct (resolve_config _ _) as [cfg| | | |]; try done. cbn [obind] in Hs.
  destruct (boot _ _ _ _) as [[br nd]| | | |] eqn:Hb; try done. cbn [obind] in Hs.
  destruct (br_ok br) eqn:Hok; cbn [negb] in Hs; [|done].
  destruct (load_or_create_wallet _ _ _ _ _) as [[[wr| | | |] kf]|]; try done. cbn [obind] in Hs.
  destruct (kl_ok wr); cbn [negb] in Hs; [|done]. destruct (start _ _ _) as [[up srv] fds]. injection Hs as _ <-. cbn [d_node].
  destruct (boot_up _ _ _ _ _ _ H0 ltac:(lia) Hb Hok) as [-> _]. intros. by eapply boot_recoverable.
Qed.

(** Starts of the process on a host whose disk works and whose chain file, if
    there is one, ends with a complete line. *)
Record started_on (T : Z) (host : Host) (d0 : Daemon) : Prop := {
  so_start : ∃ argv now_s now_ms out, 0 <= now_s <= T ∧ txnode_start host argv now_s now_ms = Ret (out, Some d0);
  so_disk : healthy (h_io host) = true;
  so_file : terminated (default [] (h_chain host (chain_path (datadir (cfg_ (d_node d0))))))
}.
End recovery.

(** C3. Durability of the whole process: start it on a working disk, fresh or with any
    chain file of complete lines it accepts, run any history of requests, seals,
    searches and mined blocks, and stop it between any two events; whenever it is
    restarted, under the same configuration and at any later time, it comes up
    with exactly the blocks and the account state it had (histories without
    self-transfers, block integers below 2^63). *)
Theorem daemon_recovers {H : HashFn} {E : Ed25519} T host d0 d es out sys now :
  let cfg := cfg_ (d_node d0) in
  let nd := d_node d in
  started_on T host d0 → history d0 es out d → Forall (clocked T) es → Forall healthy_event es →
  Z.of_nat (length es) < 2 ^ 64 - 1 → 0 <= T <= now → T + MAX_CLOCK_SKEW_S < 2 ^ 58 → now + MAX_CLOCK_SKEW_S < 2 ^ 64 →
  no_self (all_txns (blocks_ (chain_ (d_node d0)))) → Forall selfless es → Forall json_exact (blocks_ (chain_ nd)) →
  ∃ c, boot sys cfg (file_ nd) now = Ret (mkBoot true status_ok, mkNode cfg c (file_ nd)) ∧
       blocks_ c = blocks_ (chain_ nd) ∧ state_ c = state_ (chain_ nd).
Proof.
  intros cfg nd [(argv & now_s & now_ms & out0 & Hn & Hs) Hdisk Hterm] Hh Hclk Hhe Hlen HT HT' Hnow Hns Hself Hex.
  assert (lived T d0 d es) as Hl.
  { split; [lia|by exists host, argv, now_s, now_ms, out0|by exists out|done|done]. }
  destruct (lived_fresh _ _ _ _ Hl Hns Hself) as [Hns' _]. destruct (lived_inv _ _ _ _ Hl) as [Hcfg [l Hsh] _ _ _ _].
  assert (recoverable (d_node d0)) as Hrec0 by (eapply start_recoverable; [| |exact Hs|done..]; lia).
  assert (daemon_inv cfg T 0 d0) as Hi by (eapply start_inv; [exact Hn|lia|exact Hs]).
  assert (recoverable nd) as Hrec by (eapply (history_recoverable cfg T); [lia|exact Hi|exact Hh|done..]).
  fold nd in Hcfg, Hsh, Hns'. fold cfg in Hcfg, Hsh. rewrite <- Hcfg in Hsh.
  pose proof (recoverable_replays T now nd l Hsh HT HT' Hnow Hns' Hrec) as Hv. cbv zeta in Hv. rewrite Hcfg in Hv.
  destruct Hrec as [(f & Hf & _ & Hload) _]. specialize (Hload Hex). rewrite (sh_blocks _ _ _ _ _ Hsh) in Hload.
  destruct (boot_starts sys cfg f now l Hnow ltac:(lia) Hload Hv) as (c & Hboot & Hbl & Hrun & _).
  exists c. rewrite Hf. split; [done|]. split; [by rewrite Hbl, (sh_blocks _ _ _ _ _ Hsh)|].
  rewrite Hcfg in Hsh. eapply runs_det; [exact Hrun|apply Hsh].
Qed.

Lemma same_height c c' : blocks_ c = blocks_ c' → height c = height c'.
Proof. unfold height, numBlocks. by intros ->. Qed.

(** ** The theorem at the history of [DaemonDemo] *)

Module RecoveryDemo.
#[local] Existing Instances Demo.demo_hash Demo.demo_ed.
Import DaemonDemo.

Lemma started : started_on now host d0.
Proof.
  split; [|done|by left]. exists argv, now, 0, DaemonDemo.started.1. split; [done|apply starts].
Qed.
Lemma took : history d0 es ran.1 d6.
Proof. apply run_events_history, runs6. Qed.
Lemma clocks : Forall (clocked now) es.
Proof. by repeat constructor. Qed.
Lemma disks : Forall healthy_event es.
Proof. by repeat constructor. Qed.
Lemma exact6 : Forall json_exact (blocks_ (chain_ (d_node d6))).
Proof. apply (bool_decide_unpack _). by vm_compute. Qed.
Lemma short6 : Z.of_nat (length es) < 2 ^ 64 - 1.
Proof. done. Qed.
Lemma clock_at : 0 <= now <= now + 3600.
Proof. split; by vm_compute. Qed.
Lemma clock_58 : now + MAX_CLOCK_SKEW_S < 2 ^ 58.
Proof. done. Qed.
Lemma clock_64 : now + 3600 + MAX_CLOCK_SKEW_S < 2 ^ 64.
Proof. done. Qed.
Lemma grew : height (chain_ (d_node d6)) = 2.
Proof. by vm_compute. Qed.
End RecoveryDemo.

Lemma daemon_recovers_witness :
  ∃ c, boot (H := Demo.demo_hash) (E := Demo.demo_ed) DaemonDemo.disk (cfg_ (d_node DaemonDemo.d0))
         (file_ (d_node DaemonDemo.d6)) (DaemonDemo.now + 3600) =
       Ret (mkBoot true status_ok, mkNode (cfg_ (d_node DaemonDemo.d0)) c (file_ (d_node DaemonDemo.d6))) ∧
       height c = 2.
Proof.
  destruct (daemon_recovers (H := Demo.demo_hash) (E := Demo.demo_ed) _ _ _ _ _ _ DaemonDemo.disk (DaemonDemo.now + 3600)
    RecoveryDemo.started RecoveryDemo.took RecoveryDemo.clocks RecoveryDemo.disks RecoveryDemo.short6
    RecoveryDemo.clock_at RecoveryDemo.clock_58 RecoveryDemo.clock_64 DaemonDemo.no_self0 DaemonDemo.selfless6
    RecoveryDemo.exact6) as (c & Hb & Hbl & _).
  exists c. split; [exact Hb|]. exact (eq_trans (same_height _ _ Hbl) RecoveryDemo.grew).
Defined.
