(* ===== verification/Threads.v ===== *)
(** The two threads of [txnode], step by step: [apps/txnode/main.cpp] with the
    accept loop of [src/rpc/http_server.cpp].

    File Daemon takes each section under [node_mtx] as one event.  Here a section
    is the sequence of its accesses: taking the mutex, reading the node, reading
    the pool, writing the one, writing the other, printing, releasing.  The two
    threads interleave at every access, and a signal may arrive at any time.  The
    theorems show that the mutex makes file Daemon's reading right, and when the
    process ends after a signal. *)

From Stdlib Require Import ZArith Lia Ascii String.
From stdpp Require Import base list strings gmap.
From S2P Require Import Prelude Text Sha256 Crypto Canonical Wallet Gate Chain Validate Mempool Pow Picojson Json Store.
From S2P Require Import Keyfile Node Config Rpc Http Daemon.

Inductive thread := Main | Server.

(** What both threads see: the node, the pool, the owner of [node_mtx], the flags
    [g_stop] and [rpc_server.stop_], and the standard output. *)
Record Shared := mkShared {
  s_node : Node;
  s_pool : Mempool;
  s_lock : option thread;
  s_gstop : bool;
  s_sstop : bool;
  s_out : list byte
}.

Definition set_lock (s : Shared) (l : option thread) : Shared :=
  mkShared (s_node s) (s_pool s) l (s_gstop s) (s_sstop s) (s_out s).
Definition set_node (s : Shared) (nd : Node) : Shared :=
  mkShared nd (s_pool s) (s_lock s) (s_gstop s) (s_sstop s) (s_out s).
Definition set_pool (s : Shared) (mp : Mempool) : Shared :=
  mkShared (s_node s) mp (s_lock s) (s_gstop s) (s_sstop s) (s_out s).
Definition raise_gstop (s : Shared) : Shared :=
  mkShared (s_node s) (s_pool s) (s_lock s) true (s_sstop s) (s_out s).
Definition raise_sstop (s : Shared) : Shared :=
  mkShared (s_node s) (s_pool s) (s_lock s) (s_gstop s) true (s_out s).
Definition put_line (s : Shared) (l : list byte) : Shared :=
  mkShared (s_node s) (s_pool s) (s_lock s) (s_gstop s) (s_sstop s) (s_out s ++ l).

(** Where the main thread is, with the locals it still needs. *)
Inductive main_pc :=
  | M_loop                                        (* [while (!g_stop.load())] *)
  | M_snap_want | M_snap                          (* proof of work: the snapshot *)
  | M_snapped (cand : Candidate)
  | M_mine (cand : Candidate)                     (* the search, lock-free *)
  | M_commit_want (b : Block) | M_commit (b : Block)
  | M_evict (b : Block) | M_print (b : Block)
  | M_release
  | M_seal_want | M_seal_drain                    (* cadence: one seal *)
  | M_seal (batch : list Txn)
  | M_seal_evict (r : Reason) (batch : list Txn)
  | M_seal_release (r : Reason) (batch : list Txn)
  | M_report (r : Reason) (batch : list Txn)
  | M_stop | M_join | M_down | M_exit.            (* after the loop *)

(** Where the RPC thread is; [s] and [ws] are what the client of the connection
    sends and takes. *)
Inductive server_pc :=
  | R_none                                        (* never started *)
  | R_poll
  | R_read (s : list (list byte)) (ws : list socket_result)
  | R_want (method target body : list byte) (ws : list socket_result)
  | R_enter (method target body : list byte) (ws : list socket_result)
  | R_handle (nd : Node) (method target body : list byte) (ws : list socket_result)
  | R_release (resp : RpcResponse) (ws : list socket_result)
  | R_write (resp : RpcResponse) (ws : list socket_result)
  | R_done
  | R_killed.                                     (* SIGPIPE: the process is gone *)

Record Proc := mkProc { p_shared : Shared; p_main : main_pc; p_last : Z; p_server : server_pc }.

Section threads.
Context {H : HashFn} {E : Ed25519}.
(** The locals [cfg] and [miner_addr] of [main], and a bound on the clock. *)
Variables (cfg : NodeConfig) (miner : Address20) (T : Z).

(** [nd.height() + 1 == mined->header.index && nd.tipHash() == mined->header.prevHash]. *)
Definition tip_unmoved (nd : Node) (b : Block) : bool :=
  (u64 (height (chain_ nd) + 1) =? h_index (header b)) && bool_decide (tipHash (chain_ nd) = h_prevHash (header b)).

Definition due (now_ms last : Z) : bool := should_seal_now cfg (u64 (now_ms - last)) 0.

(** One access of the main thread; [rpc_pc] is what [join] waits for. *)
Inductive main_step (rpc_pc : server_pc) : Shared → main_pc → Z → Shared → main_pc → Z → Prop :=
  | loop_stop s last : s_gstop s = true → main_step rpc_pc s M_loop last s M_stop last
  | loop_pow s last :
      s_gstop s = false → pow_mode cfg = true → main_step rpc_pc s M_loop last s M_snap_want last
  | loop_due s last now_ms :
      s_gstop s = false → pow_mode cfg = false → due now_ms last = true →
      main_step rpc_pc s M_loop last s M_seal_want last
  | loop_sleep s last now_ms :
      s_gstop s = false → pow_mode cfg = false → due now_ms last = false →
      main_step rpc_pc s M_loop last s M_loop last
  | snap_lock s last :
      s_lock s = None → main_step rpc_pc s M_snap_want last (set_lock s (Some Main)) M_snap last
  | snap_build s last now_s :
      0 <= now_s <= T →
      main_step rpc_pc s M_snap last s (M_snapped (snapshot (s_node s) (s_pool s) miner now_s)) last
  | snap_unlock s last cand : main_step rpc_pc s (M_snapped cand) last (set_lock s None) (M_mine cand) last
  | mine_stopped s last cand fuel stop :
      s_gstop s = true → mine fuel cand (difficulty cfg) stop = Some None →
      main_step rpc_pc s (M_mine cand) last s M_loop last
  | mine_found s last cand fuel stop b :
      mine fuel cand (difficulty cfg) stop = Some (Some b) →
      main_step rpc_pc s (M_mine cand) last s (M_commit_want b) last
  | commit_lock s last b :
      s_lock s = None → main_step rpc_pc s (M_commit_want b) last (set_lock s (Some Main)) (M_commit b) last
  | commit_moved s last b :
      tip_unmoved (s_node s) b = false → main_step rpc_pc s (M_commit b) last s M_release last
  | commit_write s last b sys now_s r nd :
      0 <= now_s <= T → tip_unmoved (s_node s) b = true → commitBlock sys (s_node s) b now_s = Ret (r, nd) →
      main_step rpc_pc s (M_commit b) last (set_node s nd) (if bool_decide (r = OK) then M_evict b else M_release) last
  | commit_evict s last b :
      main_step rpc_pc s (M_evict b) last
        (set_pool s (if (1 <? length (txns b))%nat then evictIncluded (s_pool s) (drop 1 (txns b)) else s_pool s))
        (M_print b) last
  | commit_print s last b :
      main_step rpc_pc s (M_print b) last (put_line s (block_event "block_mined" (s_node s) (length (txns b)))) M_release last
  | commit_unlock s last : main_step rpc_pc s M_release last (set_lock s None) M_loop last
  | seal_lock s last :
      s_lock s = None → main_step rpc_pc s M_seal_want last (set_lock s (Some Main)) M_seal_drain last
  | seal_drain s last : main_step rpc_pc s M_seal_drain last s (M_seal (drain (s_pool s))) last
  | seal_write s last batch sys now_s r nd :
      0 <= now_s <= T → seal_next_block sys (s_node s) now_s batch = Ret (r, nd) →
      main_step rpc_pc s (M_seal batch) last (set_node s nd) (M_seal_evict r batch) last
  | seal_evict s last r batch :
      main_step rpc_pc s (M_seal_evict r batch) last
        (set_pool s (if bool_decide (r = OK) && negb (length batch =? 0)%nat then evictIncluded (s_pool s) batch
                     else s_pool s))
        (M_seal_release r batch) last
  | seal_unlock s last r batch :
      main_step rpc_pc s (M_seal_release r batch) last (set_lock s None) (M_report r batch) last
  | seal_report s last r batch now_ms :
      main_step rpc_pc s (M_report r batch) last
        (put_line s (if bool_decide (r = OK) then block_event "block_sealed" (s_node s) (length batch) else []))
        M_loop now_ms
  | stop_server s last : main_step rpc_pc s M_stop last (raise_sstop s) M_join last
  | join_server s last : rpc_pc = R_none ∨ rpc_pc = R_done → main_step rpc_pc s M_join last s M_down last
  | print_down s last :
      main_step rpc_pc s M_down last
        (put_line s (event_line "node_down" (field "height" (to_string (height (chain_ (s_node s))))))) M_exit last.

(** One access of the RPC thread.  A connection whose client neither sends the rest
    of its request nor closes ([read_request] is [None]) has no step. *)
Inductive server_step : Shared → server_pc → Shared → server_pc → Prop :=
  | poll_stop s : s_sstop s = true → server_step s R_poll s R_done
  | poll_idle s : s_sstop s = false → server_step s R_poll s R_poll
  | poll_accept s bytes ws : s_sstop s = false → server_step s R_poll s (R_read bytes ws)
  | read_failed s bytes ws req :
      read_request bytes = Some (false, req) → server_step s (R_read bytes ws) s R_poll
  | read_malformed s bytes ws req :
      read_request bytes = Some (true, req) → request_of req = None →
      server_step s (R_read bytes ws) s (R_write malformed_line ws)
  | read_done s bytes ws req method target body :
      read_request bytes = Some (true, req) → request_of req = Some (method, target, body) →
      server_step s (R_read bytes ws) s (R_want method target body ws)
  | server_lock s method target body ws :
      s_lock s = None →
      server_step s (R_want method target body ws) (set_lock s (Some Server)) (R_enter method target body ws)
  | server_view s method target body ws :
      server_step s (R_enter method target body ws) s (R_handle (s_node s) method target body ws)
  | server_handle s nd method target body ws resp mp :
      rpc_handler nd (s_pool s) method target body = (resp, mp) →
      server_step s (R_handle nd method target body ws) (set_pool s mp) (R_release resp ws)
  | server_unlock s resp ws : server_step s (R_release resp ws) (set_lock s None) (R_write resp ws)
  | server_write s resp ws r :
      write_all ws (response_text resp) [] = Some r → server_step s (R_write resp ws) s R_poll
  | server_killed s resp ws :
      hung_up ws (response_text resp) = true → server_step s (R_write resp ws) s R_killed.

(** A step of the process: of either thread, or a signal.  A process that SIGPIPE
    has killed takes none. *)
Inductive who := By (t : thread) | Sig.

Inductive step : who → Proc → Proc → Prop :=
  | step_main s pc last rpc s' pc' last' :
      rpc ≠ R_killed → main_step rpc s pc last s' pc' last' → step (By Main) (mkProc s pc last rpc) (mkProc s' pc' last' rpc)
  | step_server s pc last rpc s' rpc' :
      server_step s rpc s' rpc' → step (By Server) (mkProc s pc last rpc) (mkProc s' pc last rpc')
  | step_signal s pc last rpc : rpc ≠ R_killed → step Sig (mkProc s pc last rpc) (mkProc (raise_gstop s) pc last rpc).

(** Executions, by the steps they take. *)
Inductive exec (p : Proc) : list who → Proc → Prop :=
  | exec_nil : exec p [] p
  | exec_step ws p1 w p2 : exec p ws p1 → step w p1 p2 → exec p (ws ++ [w]) p2.
End threads.

(** The process as [main] enters the event loop. *)
Definition launch (d0 : Daemon) (out0 : list byte) : Proc :=
  mkProc (mkShared (d_node d0) (d_pool d0) None false false out0) M_loop (d_last d0)
    (if d_rpc d0 then R_poll else R_none).

(** ** The mutex *)

Definition main_in (pc : main_pc) : bool :=
  match pc with
  | M_snap | M_snapped _ | M_commit _ | M_evict _ | M_print _ | M_release
  | M_seal_drain | M_seal _ | M_seal_evict _ _ | M_seal_release _ _ => true
  | _ => false
  end.

Definition server_in (pc : server_pc) : bool :=
  match pc with R_enter _ _ _ _ | R_handle _ _ _ _ _ | R_release _ _ => true | _ => false end.

(** The owner of the mutex is the thread inside a section, and what the RPC thread
    read of the node is still the node. *)
Record guarded (p : Proc) : Prop := {
  gd_main : s_lock (p_shared p) = Some Main ↔ main_in (p_main p) = true;
  gd_server : s_lock (p_shared p) = Some Server ↔ server_in (p_server p) = true;
  gd_view nd method target body ws : p_server p = R_handle nd method target body ws → nd = s_node (p_shared p)
}.

Section simulation.
Context {H : HashFn} {E : Ed25519}.
Variables (cfg : NodeConfig) (miner : Address20) (T : Z).

Lemma guarded_exclusive p : guarded p → main_in (p_main p) = true → server_in (p_server p) = true → False.
Proof. intros [Hm Hs _] H1%Hm H2%Hs. congruence. Qed.

Lemma guarded_launch d0 out0 : guarded (launch d0 out0).
Proof. split; cbn; [by split|by split; destruct (d_rpc d0)|]. by destruct (d_rpc d0). Qed.

Lemma guarded_step w p p' : guarded p → step cfg miner T w p p' → guarded p'.
Proof.
  intros Hg Hstep. pose proof (guarded_exclusive _ Hg) as Hex. destruct Hg as [Hm Hs Hv]. cbn in *.
  destruct Hstep as [s pc last rpc s' pc' last' Hk Hst|s pc last rpc s' rpc' Hst|s pc last rpc Hk]; cbn in *; [| |done].
  - destruct Hst; cbn in *;
      (split; cbn in *; [try (by case_match)| |]);
      try (by intuition congruence); intros; try (by eapply Hv); subst; cbn in *; exfalso; intuition congruence.
  - destruct Hst; cbn in *; (split; cbn in *; [| |intros; simplify_eq; try done]); try (by intuition congruence).
Qed.

(** ** The simulation

    The event of file Daemon happens at the last write of its section (for a
    snapshot, at the read).  Between a section's writes the daemon is behind; a
    seal's line and time are still to come when its section ends, so its event is
    one for every time. *)

Variables (d0 : Daemon) (out0 : list byte).

Definition stopping (pc : main_pc) : bool :=
  match pc with M_stop | M_join | M_down | M_exit => true | _ => false end.

Definition same (s : Shared) (d : Daemon) : Prop := s_node s = d_node d ∧ s_pool s = d_pool d.

Definition found_for (d : Daemon) (b : Block) : Prop :=
  ∃ cand fuel stop, d_cand d = Some cand ∧ mine fuel cand (difficulty cfg) stop = Some (Some b).

Definition is_due (d : Daemon) : Prop := pow_mode cfg = false ∧ ∃ now_ms, due cfg now_ms (d_last d) = true.

Definition committing (d : Daemon) (b : Block) (nd : Node) : Prop :=
  found_for d b ∧ tip_unmoved (d_node d) b = true ∧
  ∃ sys now_s, 0 <= now_s <= T ∧ commitBlock sys (d_node d) b now_s = Ret (OK, nd).

Definition evicted (mp : Mempool) (b : Block) : Mempool :=
  if (1 <? length (txns b))%nat then evictIncluded mp (drop 1 (txns b)) else mp.

Definition data (pc : main_pc) (s : Shared) (d : Daemon) : Prop :=
  match pc with
  | M_snap_want | M_snap => same s d ∧ d_cand d = None ∧ pow_mode cfg = true
  | M_snapped cand | M_mine cand => same s d ∧ d_cand d = Some cand
  | M_commit_want b | M_commit b => same s d ∧ found_for d b
  | M_evict b => committing d b (s_node s) ∧ s_pool s = d_pool d
  | M_print b => committing d b (s_node s) ∧ s_pool s = evicted (d_pool d) b
  | M_seal_want | M_seal_drain => same s d ∧ d_cand d = None ∧ is_due d
  | M_seal batch => same s d ∧ d_cand d = None ∧ is_due d ∧ batch = drain (d_pool d)
  | M_seal_evict r batch =>
      d_cand d = None ∧ is_due d ∧ batch = drain (d_pool d) ∧ s_pool s = d_pool d ∧
      ∃ sys now_s, 0 <= now_s <= T ∧ seal_next_block sys (d_node d) now_s batch = Ret (r, s_node s)
  | _ => same s d ∧ d_cand d = None
  end.

Definition sealed_line (s : Shared) (r : Reason) (batch : list Txn) : list byte :=
  if bool_decide (r = OK) then block_event "block_sealed" (s_node s) (length batch) else [].

(** What the history has printed and the process not yet, and the other way round. *)
Definition ahead (pc : main_pc) (s : Shared) : list byte :=
  match pc with M_seal_release r batch | M_report r batch => sealed_line s r batch | _ => [] end.
Definition behind (pc : main_pc) (d : Daemon) : list byte :=
  match pc with M_exit => node_down d | _ => [] end.

Definition last_of (pc : main_pc) (after last : Z) : Z :=
  match pc with M_seal_release _ _ | M_report _ _ => after | _ => last end.

Record rel (after : Z) (p : Proc) (d : Daemon) (out : list byte) : Prop := {
  rl_cfg : cfg_ (d_node d) = cfg;
  rl_miner : d_miner d = miner;
  rl_rpc : p_server p ≠ R_none → d_rpc d = true;
  rl_stop : d_stop d = stopping (p_main p);
  rl_last : d_last d = last_of (p_main p) after (p_last p);
  rl_out : out0 ++ out ++ behind (p_main p) d = s_out (p_shared p) ++ ahead (p_main p) (p_shared p);
  rl_data : data (p_main p) (p_shared p) d
}.

Definition abstracts (n : nat) (after : Z) (p : Proc) : Prop :=
  ∃ es out d, history d0 es out d ∧ Forall (clocked T) es ∧ (length es ≤ n)%nat ∧ rel after p d out.

Lemma fire n after p' es out d e line d' :
  history d0 es out d → Forall (clocked T) es → (length es ≤ n)%nat →
  dstep d e = Ret (line, d') → clocked T e → rel after p' d' (out ++ line) → abstracts (S n) after p'.
Proof.
  intros Hh Hc Hn Hd He Hr. exists (es ++ [e]), (out ++ line), d'. split_and!; [by eapply history_step| | |done].
  - apply Forall_app. by split; [|constructor].
  - rewrite length_app. cbn [length]. lia.
Qed.

Lemma stay n after p' es out d :
  history d0 es out d → Forall (clocked T) es → (length es ≤ n)%nat → rel after p' d out → abstracts (S n) after p'.
Proof. intros Hh Hc Hn Hr. exists es, out, d. split_and!; [done|done|lia|done]. Qed.

(** ** The events *)

Lemma event_snapshot d now_s :
  cfg_ (d_node d) = cfg → d_stop d = false → pow_mode cfg = true → d_cand d = None →
  dstep d (Snapshot now_s) = Ret ([], with_cand d (Some (snapshot (d_node d) (d_pool d) (d_miner d) now_s))).
Proof. intros Hcfg Hs Hp Hc. cbn [dstep]. by rewrite Hcfg, Hs, Hp, Hc. Qed.

Lemma event_stopped d cand sys fuel stop now_s :
  cfg_ (d_node d) = cfg → d_cand d = Some cand → mine fuel cand (difficulty cfg) stop = Some None →
  dstep d (Mined sys fuel stop now_s) = Ret ([], with_cand d None).
Proof. intros Hcfg Hc Hm. cbn [dstep]. by rewrite Hcfg, Hc, Hm. Qed.

Definition after_commit (d : Daemon) (nd : Node) (mp : Mempool) : Daemon :=
  mkDaemon nd mp (d_miner d) (d_rpc d) (d_last d) None (d_stop d).

(** A found block that is not committed. *)
Lemma event_not_committed d b :
  cfg_ (d_node d) = cfg → found_for d b → tip_unmoved (d_node d) b = false →
  ∃ fuel stop, ∀ sys now_s,
    dstep d (Mined sys fuel stop now_s) = Ret ([], after_commit d (d_node d) (d_pool d)).
Proof.
  intros Hcfg (cand & fuel & stop & Hc & Hm) Ht. exists fuel, stop. intros sys now_s.
  cbn [dstep]. rewrite Hcfg, Hc, Hm. unfold commit_mined. unfold tip_unmoved in Ht. by rewrite Ht.
Qed.

Lemma event_committed d b sys now_s r nd :
  cfg_ (d_node d) = cfg → found_for d b → tip_unmoved (d_node d) b = true →
  commitBlock sys (d_node d) b now_s = Ret (r, nd) →
  ∃ fuel stop,
    dstep d (Mined sys fuel stop now_s) =
    Ret (if bool_decide (r = OK) then block_event "block_mined" nd (length (txns b)) else [],
         after_commit d nd (if bool_decide (r = OK) then evicted (d_pool d) b else d_pool d)).
Proof.
  intros Hcfg (cand & fuel & stop & Hc & Hm) Ht Hcb. exists fuel, stop.
  cbn [dstep]. rewrite Hcfg, Hc, Hm. unfold commit_mined. unfold tip_unmoved in Ht. rewrite Ht, Hcb. cbn [obind].
  by destruct (bool_decide (r = OK)).
Qed.

Lemma event_sealed d sys now_s after r nd :
  cfg_ (d_node d) = cfg → d_stop d = false → is_due d →
  seal_next_block sys (d_node d) now_s (drain (d_pool d)) = Ret (r, nd) →
  ∃ now_ms,
    dstep d (Tick sys now_ms now_s after) =
    Ret (if bool_decide (r = OK) then block_event "block_sealed" nd (length (drain (d_pool d))) else [],
         mkDaemon nd (if bool_decide (r = OK) && negb (length (drain (d_pool d)) =? 0)%nat
                      then evictIncluded (d_pool d) (drain (d_pool d)) else d_pool d)
           (d_miner d) (d_rpc d) after (d_cand d) (d_stop d)).
Proof.
  intros Hcfg Hs (Hp & now_ms & Hd) Hsb. exists now_ms. cbn [dstep]. unfold due in Hd.
  rewrite Hcfg, Hs, Hp, Hd. cbn [orb negb]. unfold seal_tick. rewrite Hsb. cbn [obind].
  destruct (bool_decide (r = OK)) eqn:Hr; cbn [andb]; [destruct (length (drain (d_pool d)) =? 0)%nat|];
    cbn [negb obind]; by rewrite Hr.
Qed.

(** ** Each step of the main thread *)

Hypothesis T_nonneg : 0 <= T.

(** A disk on which nothing is written: enough for an event that writes nothing. *)
Definition no_disk : io := mkIo false [] false.

Ltac fields :=
  cbn [p_shared p_main p_last p_server s_node s_pool s_lock s_gstop s_sstop s_out set_lock set_node set_pool
       raise_gstop raise_sstop put_line data ahead behind last_of stopping same with_cand after_commit with_pool
       d_node d_pool d_miner d_rpc d_last d_cand d_stop] in *.

(** The clauses of the relation that hold by computation. *)
Ltac relate := split; fields; unfold same in *; fields; rewrite ?app_nil_r in *; try done; try tauto; try congruence.

(** A step without an event: the daemon stays as it is. *)
Ltac staying := eapply stay; [done..|relate].

Lemma sim_main n s pc last rpc s' pc' last' after :
  main_step cfg miner T rpc s pc last s' pc' last' →
  abstracts n (match pc with M_report _ _ => last' | _ => after end) (mkProc s pc last rpc) →
  abstracts (S n) after (mkProc s' pc' last' rpc).
Proof.
  intros Hst (es & out & d & Hh & Hclk & Hn & [Hcfg Hmi Hrpc Hstop Hlast Hout Hdata]).
  destruct Hst; fields; unfold same in *; fields; try (solve [staying]).
  - destruct Hdata as [Hsame Hc]. eapply (fire _ _ _ _ _ _ Signal); [done..|reflexivity|done|relate].
  - staying. split_and!; try tauto. split; [done|]. exists now_ms. by rewrite Hlast.
  - destruct Hdata as ([Hnd Hmp] & Hc & Hp). eapply (fire _ _ _ _ _ _ (Snapshot now_s)); [done..| |done|].
    { by apply event_snapshot. }
    relate. split; [done|]. congruence.
  - destruct Hdata as [[Hnd Hmp] Hc]. eapply (fire _ _ _ _ _ _ (Mined no_disk fuel stop 0)); [done..| | |].
    { by eapply event_stopped. }
    { cbn. lia. }
    relate.
  - destruct Hdata as [Hsame Hc]. staying. split; [done|]. by exists cand, fuel, stop.
  - destruct Hdata as [[Hnd Hmp] Hf]. rewrite Hnd in *.
    destruct (event_not_committed d b Hcfg Hf) as (fuel & stop & He); [done|].
    eapply (fire _ _ _ _ _ _ (Mined no_disk fuel stop 0)); [done..|apply He|cbn; lia|relate].
  - destruct Hdata as [[Hnd Hmp] Hf]. rewrite Hnd in *.
    destruct (event_committed d b _ _ _ _ Hcfg Hf ltac:(done) ltac:(done)) as (fuel & stop & He).
    case_bool_decide as Hr.
    + subst r. staying. split; [|done]. split_and!; [done..|]. by exists sys, now_s.
    + destruct (commitBlock_effect _ _ _ _ _ _ ltac:(eassumption)) as [Hcfg' _].
      eapply (fire _ _ _ _ _ _ (Mined sys fuel stop now_s)); [done..|exact He|done|relate].
  - staying. destruct Hdata as [Hc Hmp]. split; [done|]. unfold evicted. by rewrite Hmp.
  - destruct Hdata as [(Hf & Ht & sys & now_s & Hnow & Hcb) Hmp].
    destruct (event_committed d b _ _ _ _ Hcfg Hf Ht Hcb) as (fuel & stop & He).
    destruct (commitBlock_effect _ _ _ _ _ _ Hcb) as [Hcfg' _].
    eapply (fire _ _ _ _ _ _ (Mined sys fuel stop now_s)); [done..|exact He|done|relate].
    by rewrite <- Hout, <- app_assoc.
  - staying. destruct Hdata as ([Hnd Hmp] & Hc & Hd). split_and!; try done. by rewrite Hmp.
  - destruct Hdata as ([Hnd Hmp] & Hc & Hd & Hb). rewrite Hnd in *. staying.
    split_and!; try done. by exists sys, now_s.
  - destruct Hdata as (Hc & Hd & -> & Hmp & sys & now_s & Hnow & Hsb).
    destruct (event_sealed d sys now_s after r _ Hcfg ltac:(congruence) Hd Hsb) as (now_ms & He).
    destruct (seal_next_block_effect _ _ _ _ _ _ Hsb) as [Hcfg' _].
    eapply (fire _ _ _ _ _ _ (Tick sys now_ms now_s after)); [done..|exact He|done|relate].
    + by rewrite <- Hout, <- app_assoc.
    + split; [|done]. split; [done|]. by rewrite Hmp.
  - staying. unfold node_down. destruct Hdata as [[-> _] _]. by rewrite <- Hout, app_assoc.
Qed.

(** ** Each step of the RPC thread, and a signal *)

(** Outside the main thread's sections the daemon is level with the process, and
    stays so under a change of the pool. *)
Lemma data_pool pc s d mp :
  main_in pc = false → data pc s d → same s d ∧ data pc (set_pool s mp) (with_pool d mp).
Proof. destruct pc; try done; cbn; unfold same; cbn; intros _ Hd; intuition. Qed.

Lemma rel_shared after s s' pc last rpc rpc' d out :
  s_node s' = s_node s → s_pool s' = s_pool s → s_out s' = s_out s → (rpc' ≠ R_none → rpc ≠ R_none) →
  rel after (mkProc s pc last rpc) d out → rel after (mkProc s' pc last rpc') d out.
Proof.
  intros Hn Hp Ho Hr [Hcfg Hmi Hrpc Hstop Hlast Hout Hdata]. split; fields; auto.
  - rewrite Hout, Ho. f_equal. destruct pc; try done; cbn; unfold sealed_line; by rewrite Hn.
  - destruct pc; cbn in *; unfold same in *; by rewrite Hn, Hp.
Qed.

Lemma sim_quiet n after s s' pc last rpc rpc' :
  s_node s' = s_node s → s_pool s' = s_pool s → s_out s' = s_out s → (rpc' ≠ R_none → rpc ≠ R_none) →
  abstracts n after (mkProc s pc last rpc) → abstracts (S n) after (mkProc s' pc last rpc').
Proof.
  intros Hn Hp Ho Hr (es & out & d & Hh & Hclk & Hlen & Hrel). eapply stay; [done..|]. by apply (rel_shared after s s' pc last rpc).
Qed.

Lemma sim_server n s pc last rpc s' rpc' after :
  guarded (mkProc s pc last rpc) → server_step s rpc s' rpc' →
  abstracts n after (mkProc s pc last rpc) → abstracts (S n) after (mkProc s' pc last rpc').
Proof.
  intros Hg Hst. destruct Hst; try (by apply sim_quiet).
  intros (es & out & d & Hh & Hclk & Hn & [Hcfg Hmi Hrpc Hstop Hlast Hout Hdata]). fields.
  assert (main_in pc = false) as Hm.
  { destruct (main_in pc) eqn:Hm; [|done]. by destruct (guarded_exclusive _ Hg). }
  pose proof (gd_view _ Hg _ _ _ _ _ eq_refl) as Hv. fields. subst nd.
  destruct (data_pool pc s d mp Hm Hdata) as [[Hnd Hmp] Hdata'].
  eapply (fire _ _ _ _ _ _ (Request method target body)); [done..| |done|].
  { cbn [dstep]. rewrite (Hrpc ltac:(done)), <- Hnd, <- Hmp. cbn [negb].
    match goal with Hx : rpc_handler _ _ _ _ _ = _ |- _ => by rewrite Hx end. }
  split; fields; try done; [by intros _; apply Hrpc|]. rewrite app_nil_r. by destruct pc.
Qed.

Lemma sim_step w n p p' :
  guarded p → step cfg miner T w p p' →
  (∀ after, abstracts n after p) → ∀ after, abstracts (S n) after p'.
Proof.
  intros Hg Hstep Hsim after. destruct Hstep.
  - eapply sim_main; [done|apply Hsim].
  - by eapply sim_server.
  - match goal with Hg : guarded (mkProc ?s ?pc ?l ?rpc) |- _ => by apply (sim_quiet n after s _ pc l rpc) end.
Qed.

Lemma sim_exec ws p :
  cfg_ (d_node d0) = cfg → d_miner d0 = miner → d_cand d0 = None → d_stop d0 = false →
  exec cfg miner T (launch d0 out0) ws p → guarded p ∧ ∀ after, abstracts (length ws) after p.
Proof.
  intros Hcfg Hmi Hc Hs. induction 1 as [|ws p w p' _ [Hg Hsim] Hstep].
  - split; [apply guarded_launch|]. intros after. exists [], [], d0. split_and!; [constructor|done|done|].
    unfold launch. relate. by destruct (d_rpc d0).
  - split; [by eapply guarded_step|]. rewrite length_app, Nat.add_comm. intros after. by eapply sim_step.
Qed.
End simulation.

(** ** Ending the process *)

(** Blocked on a socket: the client of the connection neither completes its request
    nor closes, or does not take the reply. *)
Definition blocked (pc : server_pc) : Prop :=
  match pc with
  | R_read bytes _ => read_request bytes = None
  | R_write resp ws => write_all ws (response_text resp) [] = None ∧ hung_up ws (response_text resp) = false
  | _ => False
  end.

(** How many steps a thread has left once its flag is raised. *)
Definition main_rank (pc : main_pc) : nat :=
  match pc with
  | M_exit => 0 | M_down => 1 | M_join => 2 | M_stop => 3 | M_loop => 4
  | M_release => 5 | M_print _ => 6 | M_evict _ => 7 | M_commit _ => 8 | M_commit_want _ => 9 | M_mine _ => 10
  | M_snapped _ => 11 | M_snap => 12 | M_snap_want => 13
  | M_report _ _ => 5 | M_seal_release _ _ => 6 | M_seal_evict _ _ => 7 | M_seal _ => 8 | M_seal_drain => 9
  | M_seal_want => 10
  end.

Definition server_rank (pc : server_pc) : nat :=
  match pc with
  | R_none | R_done | R_killed => 0 | R_poll => 1 | R_write _ _ => 2 | R_release _ _ => 3 | R_handle _ _ _ _ _ => 4
  | R_enter _ _ _ _ => 5 | R_want _ _ _ _ => 6 | R_read _ _ => 7
  end.

Definition by_thread (t : thread) (w : who) : bool :=
  match w, t with By Main, Main | By Server, Server => true | _, _ => false end.
Definition steps_of (t : thread) (ws : list who) : nat := length (List.filter (by_thread t) ws).

Lemma steps_of_snoc t ws w : steps_of t (ws ++ [w]) = (steps_of t ws + if by_thread t w then 1 else 0)%nat.
Proof.
  unfold steps_of. rewrite List.filter_app, length_app. cbn [List.filter]. by destruct (by_thread t w).
Qed.

(** The main thread has told the server to stop; it has seen it stopped. *)
Definition told (pc : main_pc) : bool := match pc with M_join | M_down | M_exit => true | _ => false end.
Definition joined (pc : main_pc) : bool := match pc with M_down | M_exit => true | _ => false end.

Section shutdown.
Context {H : HashFn} {E : Ed25519}.
Variables (cfg : NodeConfig) (miner : Address20) (T : Z).

Lemma gstop_raised w p p' :
  step cfg miner T w p p' → s_gstop (p_shared p) = true → s_gstop (p_shared p') = true.
Proof. destruct 1 as [s pc l rpc s' pc' l' Hk Hst|s pc l rpc s' rpc' Hst|]; [destruct Hst|destruct Hst|]; done. Qed.

(** Once signalled, every step of the main thread is one of the last ones. *)
Lemma main_rank_step rpc s pc l s' pc' l' :
  main_step cfg miner T rpc s pc l s' pc' l' → s_gstop s = true → (main_rank pc' < main_rank pc)%nat.
Proof. destruct 1; cbn; intros Hg; try congruence; try lia. case_match; cbn; lia. Qed.

Lemma server_rank_step s rpc s' rpc' :
  server_step s rpc s' rpc' → s_sstop s = true → (server_rank rpc' < server_rank rpc)%nat.
Proof. destruct 1; cbn; intros Hg; try congruence; lia. Qed.

(** The server's flag and the main thread's position agree. *)
Definition ordered (p : Proc) : Prop :=
  s_sstop (p_shared p) = told (p_main p) ∧
  (joined (p_main p) = true → p_server p = R_none ∨ p_server p = R_done).

Lemma ordered_step w p p' : step cfg miner T w p p' → ordered p → ordered p'.
Proof.
  destruct 1 as [s pc l rpc s' pc' l' Hk Hst|s pc l rpc s' rpc' Hst|]; unfold ordered; cbn; [| |done].
  - destruct Hst; cbn; try tauto; try (by intros [-> _]). by case_bool_decide; cbn; intros [-> _].
  - intros [Hs Hj]. assert (s_sstop s' = s_sstop s) as -> by (by destruct Hst). split; [done|].
    intros [Hr | Hr]%Hj; subst rpc; inversion Hst.
Qed.

(** A step of one of the threads. *)
Definition can_step (p : Proc) : Prop := ∃ t p', step cfg miner T (By t) p p'.

Lemma main_can s pc l rpc s' pc' l' :
  rpc ≠ R_killed → main_step cfg miner T rpc s pc l s' pc' l' → can_step (mkProc s pc l rpc).
Proof. intros Hk Hst. exists Main. eexists. by apply step_main. Qed.

Lemma server_can s pc l rpc s' rpc' : server_step s rpc s' rpc' → can_step (mkProc s pc l rpc).
Proof. intros Hst. exists Server. eexists. by apply step_server. Qed.

Lemma append_fails nd b : append_ignoring no_disk nd b = Ret nd.
Proof. by destruct nd. Qed.

(** The thread that holds the mutex is never blocked. *)
Lemma server_section s pc l rpc : server_in rpc = true → can_step (mkProc s pc l rpc).
Proof.
  destruct rpc; try done; intros _; eapply server_can.
  - by constructor.
  - eapply server_handle. apply surjective_pairing.
  - by constructor.
Qed.

Lemma commitBlock_returns nd b now_s : ∃ r nd', commitBlock no_disk nd b now_s = Ret (r, nd').
Proof.
  unfold commitBlock. destruct (connectBlock _ _ _) as [r c]. case_match; [by eauto|].
  rewrite append_fails. by eauto.
Qed.

Lemma seal_next_block_returns nd now_s l : ∃ r nd', seal_next_block no_disk nd now_s l = Ret (r, nd').
Proof.
  unfold seal_next_block. destruct (connectBlock _ _ _) as [r c]. case_match; [by eauto|].
  rewrite append_fails. by eauto.
Qed.

(** The main thread waits for the mutex, for the RPC thread, or not at all. *)
Definition main_waits (pc : main_pc) : bool :=
  match pc with M_snap_want | M_commit_want _ | M_seal_want | M_join | M_exit => true | _ => false end.

Lemma main_goes s pc l rpc :
  rpc ≠ R_killed → 0 <= T → s_gstop s = true → main_waits pc = false → can_step (mkProc s pc l rpc).
Proof.
  intros Hk HT Hg Hw.
  destruct pc; try done; try (by eapply main_can, (seal_report _ _ _ _ _ _ _ _ 0));
    try (eapply main_can; [done|]; by constructor).
  - eapply main_can; [done|]. by apply (mine_stopped _ _ _ _ _ _ _ 1 (λ _, true)).
  - destruct (tip_unmoved (s_node s) b) eqn:Ht; [|by eapply main_can, commit_moved].
    destruct (commitBlock_returns (s_node s) b 0) as (r & nd & Hc).
    by eapply main_can, (commit_write _ _ _ _ _ _ _ no_disk 0).
  - destruct (seal_next_block_returns (s_node s) 0 batch) as (r & nd & Hc).
    by eapply main_can, (seal_write _ _ _ _ _ _ _ no_disk 0).
Qed.

Lemma mutex_free p :
  guarded p → main_in (p_main p) = false → server_in (p_server p) = false → s_lock (p_shared p) = None.
Proof.
  intros [Hm Hs _] H1 H2. destruct (s_lock (p_shared p)) as [[]|] eqn:Hl; [| |done].
  - rewrite (proj1 Hm eq_refl) in H1. done.
  - rewrite (proj1 Hs eq_refl) in H2. done.
Qed.

(** A waiting main thread gets the mutex once the RPC thread is outside. *)
Lemma main_waits_goes s pc l rpc :
  rpc ≠ R_killed → guarded (mkProc s pc l rpc) → main_waits pc = true → pc ≠ M_join → pc ≠ M_exit →
  can_step (mkProc s pc l rpc).
Proof.
  intros Hk Hg Hw Hj He. destruct (server_in rpc) eqn:Hr; [by apply server_section|].
  assert (main_in pc = false) as Hm by (by destruct pc).
  pose proof (mutex_free _ Hg Hm Hr) as Hl. cbn in Hl.
  destruct pc; try done; (eapply main_can; [done|]; by constructor).
Qed.

(** At the join, the RPC thread ends unless its client blocks it. *)
Lemma join_goes s l rpc :
  rpc ≠ R_killed → guarded (mkProc s M_join l rpc) → s_sstop s = true →
  blocked rpc ∨ can_step (mkProc s M_join l rpc).
Proof.
  intros Hk Hg Hs. destruct (server_in rpc) eqn:Hr; [right; by apply server_section|].
  pose proof (mutex_free _ Hg eq_refl Hr) as Hl. cbn in Hl.
  destruct rpc; try done.
  - right. eapply main_can, join_server; [done|]. by left.
  - right. by eapply server_can, poll_stop.
  - cbn [blocked]. destruct (read_request s0) as [[[] req]|] eqn:Hread; [right|right|by left].
    + destruct (request_of req) as [[[m t] b]|] eqn:Hreq; eapply server_can; [by eapply read_done|by eapply read_malformed].
    + by eapply server_can, read_failed.
  - right. by eapply server_can, server_lock.
  - cbn [blocked]. destruct (hung_up ws (response_text resp)) eqn:Hh; [right; by eapply server_can, server_killed|].
    destruct (write_all ws (response_text resp) []) as [r|] eqn:Hwr; [right|by left].
    by eapply server_can, server_write.
  - right. eapply main_can, join_server; [done|]. by right.
Qed.

Lemma progress p :
  0 <= T → guarded p → ordered p → s_gstop (p_shared p) = true →
  p_server p = R_killed ∨ p_main p = M_exit ∨ (p_main p = M_join ∧ blocked (p_server p)) ∨ can_step p.
Proof.
  intros HT Hg [Hs Hj] Hst. destruct p as [s pc l rpc]. cbn in *.
  assert (rpc = R_killed ∨ rpc ≠ R_killed) as [Hk|Hk] by (destruct rpc; auto); [by left|right].
  destruct (main_waits pc) eqn:Hw; [|by right; right; apply main_goes].
  destruct pc; try done; try (right; right; by apply main_waits_goes); [|by left].
  destruct (join_goes s l rpc Hk Hg Hs); auto.
Qed.

(** *** SIGPIPE *)

Lemma killed_stuck w p p' : step cfg miner T w p p' → p_server p ≠ R_killed.
Proof. destruct 1 as [| s pc l rpc s' rpc' Hst|]; cbn [p_server]; [done| |done]. by destruct Hst. Qed.

Lemma killed_still p ws p' : exec cfg miner T p ws p' → p_server p = R_killed → p' = p.
Proof.
  intros Hex Hk. induction Hex as [|ws p1 w p2 _ IH Hst]; [done|]. subst p1. by destruct (killed_stuck _ _ _ Hst).
Qed.

(** A reply to a client that is gone has one continuation. *)
Lemma reply_kills p resp ws :
  p_server p = R_write resp ws → hung_up ws (response_text resp) = true →
  can_step p ∧ ∀ p', step cfg miner T (By Server) p p' → p_server p' = R_killed.
Proof.
  intros Hp Hh. destruct p as [s pc l rpc]. cbn [p_server] in Hp. subst rpc. split; [by eapply server_can, server_killed|].
  intros p' Hst. inversion Hst as [|? ? ? ? ? ? Hs|]; subst. inversion Hs as [| | | | | | | | | |? ? ? ? Hw|]; subst; [|done].
  by rewrite hung_up_killed in Hw.
Qed.

(** *** Bounds on executions *)

Lemma exec_flags p ws p' :
  exec cfg miner T p ws p' → guarded p → ordered p → guarded p' ∧ ordered p'.
Proof.
  induction 1 as [|ws p1 w p2 _ IH Hst]; [done|]. intros Hg Ho. destruct (IH Hg Ho).
  split; [by eapply guarded_step|by eapply ordered_step].
Qed.

Lemma exec_gstop p ws p' :
  exec cfg miner T p ws p' → s_gstop (p_shared p) = true → s_gstop (p_shared p') = true.
Proof. induction 1; [done|]. intros. eapply gstop_raised; eauto. Qed.

Lemma main_steps_bound p ws p' :
  exec cfg miner T p ws p' → s_gstop (p_shared p) = true →
  (steps_of Main ws + main_rank (p_main p') <= main_rank (p_main p))%nat.
Proof.
  intros Hex Hg. induction Hex as [|ws p1 w p2 Hex IH Hst]; [cbn; lia|].
  pose proof (exec_gstop _ _ _ Hex Hg) as Hg1. rewrite steps_of_snoc.
  destruct Hst as [s pc l rpc s' pc' l' Hk Hst|s pc l rpc s' rpc' Hst|]; cbn in *; try lia.
  pose proof (main_rank_step _ _ _ _ _ _ _ Hst Hg1). lia.
Qed.

Lemma told_kept w p p' : step cfg miner T w p p' → told (p_main p) = true → told (p_main p') = true.
Proof. destruct 1 as [s pc l rpc s' pc' l' Hk Hst| |]; try done. by destruct Hst. Qed.

Lemma server_steps_bound p ws p' :
  exec cfg miner T p ws p' → guarded p → ordered p → told (p_main p) = true →
  (steps_of Server ws + server_rank (p_server p') <= server_rank (p_server p))%nat ∧ told (p_main p') = true.
Proof.
  intros Hex Hg Ho Ht. induction Hex as [|ws p1 w p2 Hex IH Hst]; [cbn; split; [lia|done]|].
  destruct IH as [Hn Ht1]. split; [|by eapply told_kept].
  destruct (exec_flags _ _ _ Hex Hg Ho) as [_ [Hs _]]. rewrite steps_of_snoc.
  destruct Hst as [s pc l rpc s' pc' l' Hk Hst|s pc l rpc s' rpc' Hst|]; cbn in *; try lia.
  rewrite Ht1 in Hs. pose proof (server_rank_step _ _ _ _ Hst Hs). lia.
Qed.

(** *** A blocked connection *)

Lemma blocked_stays w p p' :
  step cfg miner T w p p' → blocked (p_server p) → joined (p_main p) = false →
  p_server p' = p_server p ∧ joined (p_main p') = false.
Proof.
  destruct 1 as [s pc l rpc s' pc' l' Hk Hst|s pc l rpc s' rpc' Hst|]; cbn [p_server p_main]; intros Hb Hj; [| |done].
  - split; [done|]. destruct Hst; try done; [by case_match|]. by destruct Hb as [] || intuition (subst; done).
  - destruct Hst; cbn [blocked] in Hb; try done; intuition congruence.
Qed.

Lemma blocked_forever p ws p' :
  exec cfg miner T p ws p' → blocked (p_server p) → joined (p_main p) = false →
  p_server p' = p_server p ∧ joined (p_main p') = false.
Proof.
  intros Hex Hb Hj. induction Hex as [|ws p1 w p2 Hex IH Hst]; [done|]. destruct IH as [Hs Hj1].
  rewrite <- Hs in Hb. destruct (blocked_stays _ _ _ Hst Hb Hj1) as [Hs2 Hj2]. split; [congruence|done].
Qed.
End shutdown.

Lemma main_rank_max pc : (main_rank pc <= 13)%nat.
Proof. destruct pc; cbn; lia. Qed.
Lemma server_rank_max pc : (server_rank pc <= 7)%nat.
Proof. destruct pc; cbn; lia. Qed.

Lemma ordered_launch d0 out0 : ordered (launch d0 out0).
Proof. by split. Qed.

Lemma start_idle {H : HashFn} {E : Ed25519} host argv now_s now_ms out d :
  txnode_start host argv now_s now_ms = Ret (out, Some d) → d_cand d = None ∧ d_stop d = false.
Proof.
  unfold txnode_start. destruct (resolve_config _ _) as [cfg| | | |]; try done. cbn [obind].
  destruct (boot _ _ _ _) as [[br nd]| | | |]; try done. cbn [obind].
  destruct (br_ok br); cbn [negb]; [|done].
  destruct (load_or_create_wallet _ _ _ _ _) as [[[wr| | | |] kf]|]; try done. cbn [obind].
  destruct (kl_ok wr); cbn [negb]; [|done]. destruct (start _ _ _) as [[up srv] fds]. by intros [= _ <-].
Qed.

(** C4. The mutex works: in every interleaving of the accesses of the two threads from
    a start-up, with a signal at any time, the threads are never both inside a
    section; whenever the mutex is free the node and the mempool are those of a
    history of file Daemon, that is of whole sections one after another; and when the
    process exits, what it has printed is what that history printed and the final
    line.  What the theorems of file Daemon show of the node and the pool at the end
    of every history therefore holds of the shared node and pool whenever the mutex
    is free. *)
Theorem threads_refine {H : HashFn} {E : Ed25519} T host argv now_s now_ms out0 d0 ws p :
  0 <= now_s <= T → T + MAX_CLOCK_SKEW_S < 2 ^ 58 → Z.of_nat (length ws) < 2 ^ 64 - 1 →
  txnode_start host argv now_s now_ms = Ret (out0, Some d0) →
  exec (cfg_ (d_node d0)) (d_miner d0) T (launch d0 out0) ws p →
  main_in (p_main p) && server_in (p_server p) = false ∧
  (s_lock (p_shared p) = None →
   ∃ es d, lived T d0 d es ∧ d_node d = s_node (p_shared p) ∧ d_pool d = s_pool (p_shared p)) ∧
  (p_main p = M_exit →
   ∃ es out d, lived T d0 d es ∧ history d0 es out d ∧ d_stop d = true ∧ s_out (p_shared p) = out0 ++ out ++ node_down d).
Proof.
  intros Hnow HT Hlen Hstart Hex. destruct (start_idle _ _ _ _ _ _ Hstart) as [Hc Hs].
  destruct (sim_exec _ _ T d0 out0 ltac:(lia) ws p eq_refl eq_refl Hc Hs Hex) as [Hg Hsim].
  destruct (Hsim 0) as (es & out & d & Hh & Hclk & Hn & [_ _ _ Hstop _ Hout Hdata]).
  assert (lived T d0 d es) as Hl.
  { split; [lia| |by exists out|lia|done]. exists host, argv, now_s, now_ms, out0. by split. }
  split_and!.
  - destruct (main_in (p_main p)) eqn:Hm, (server_in (p_server p)) eqn:Hr; try done.
    by destruct (guarded_exclusive _ Hg).
  - intros Hfree. exists es, d. assert (main_in (p_main p) = false) as Hm.
    { destruct (main_in (p_main p)) eqn:Hm; [|done]. apply (gd_main _ Hg) in Hm. congruence. }
    destruct (data_pool _ _ _ _ _ (d_pool d) Hm Hdata) as [[Hnd Hmp] _]. by split_and!.
  - intros Hexit. exists es, out, d. rewrite Hexit in *. cbn [behind ahead stopping] in *.
    rewrite app_nil_r in Hout. by split_and!.
Qed.

(** C19. How the process ends.  From the moment a signal arrives the main thread takes at
    most 13 more steps, and from the moment it waits for the RPC thread that one
    takes at most 7; there is always a next step until the process has exited,
    waits for an RPC thread blocked on its client, or has been killed by SIGPIPE.
    Both exceptions are real: while a client holds a connection open without
    completing its request, or does not take the reply, the process never exits,
    whatever signals it gets; and a client that is gone when its reply is written
    kills the process at that write, in whatever section the main thread is. *)
Theorem shutdown {H : HashFn} {E : Ed25519} cfg miner T d0 out0 ws0 p ws p' :
  0 <= T → exec cfg miner T (launch d0 out0) ws0 p → exec cfg miner T p ws p' →
  (s_gstop (p_shared p) = true →
   (steps_of Main ws <= 13)%nat ∧
   (told (p_main p) = true → (steps_of Server ws <= 7)%nat) ∧
   (p_server p' = R_killed ∨ p_main p' = M_exit ∨ (p_main p' = M_join ∧ blocked (p_server p')) ∨
    can_step cfg miner T p')) ∧
  (blocked (p_server p) → p_main p ≠ M_exit → p_main p' ≠ M_exit) ∧
  (∀ resp ws1, p_server p = R_write resp ws1 → hung_up ws1 (response_text resp) = true →
   can_step cfg miner T p ∧ ∀ p1, step cfg miner T (By Server) p p1 → p_server p1 = R_killed) ∧
  (p_server p = R_killed → p' = p).
Proof.
  intros HT Hex0 Hex.
  destruct (exec_flags _ _ _ _ _ _ Hex0 (guarded_launch _ _) (ordered_launch _ _)) as [Hg Ho].
  destruct (exec_flags _ _ _ _ _ _ Hex Hg Ho) as [Hg' Ho']. split_and!.
  - intros Hst. split_and!.
    + pose proof (main_steps_bound _ _ _ _ _ _ Hex Hst). pose proof (main_rank_max (p_main p)). lia.
    + intros Ht. destruct (server_steps_bound _ _ _ _ _ _ Hex Hg Ho Ht) as [Hn _].
      pose proof (server_rank_max (p_server p)). lia.
    + apply progress; [done..|]. by eapply exec_gstop.
  - intros Hb Hne Heq. assert (joined (p_main p) = false) as Hj.
    { destruct (joined (p_main p)) eqn:Hj; [|done]. by destruct (proj2 Ho Hj) as [Hr|Hr]; rewrite Hr in Hb. }
    destruct (blocked_forever _ _ _ _ _ _ Hex Hb Hj) as [_ Hj']. by rewrite Heq in Hj'.
  - intros resp ws1. apply reply_kills.
  - by apply (killed_still cfg miner T p ws).
Qed.

(** Executions extended by one step of either thread. *)
Lemma exec_main {H : HashFn} {E : Ed25519} cfg miner T p ws s pc l rpc s' pc' l' :
  exec cfg miner T p ws (mkProc s pc l rpc) → rpc ≠ R_killed → main_step cfg miner T rpc s pc l s' pc' l' →
  exec cfg miner T p (ws ++ [By Main]) (mkProc s' pc' l' rpc).
Proof. intros Hex Hk Hst. eapply exec_step; [exact Hex|]. by apply step_main. Qed.

Lemma exec_server {H : HashFn} {E : Ed25519} cfg miner T p ws s pc l rpc s' rpc' :
  exec cfg miner T p ws (mkProc s pc l rpc) → server_step s rpc s' rpc' →
  exec cfg miner T p (ws ++ [By Server]) (mkProc s' pc l rpc').
Proof. intros Hex Hst. eapply exec_step; [exact Hex|]. by apply step_server. Qed.

(** The RPC thread, left alone, goes from a complete request to its reply. *)
Lemma reply_ready {H : HashFn} {E : Ed25519} cfg miner T p0 ws0 s pc l bytes ws req m t b resp mp :
  exec cfg miner T p0 ws0 (mkProc s pc l (R_read bytes ws)) → s_lock s = None →
  read_request bytes = Some (true, req) → request_of req = Some (m, t, b) →
  rpc_handler (s_node s) (s_pool s) m t b = (resp, mp) →
  exec cfg miner T p0 (ws0 ++ replicate 5 (By Server)) (mkProc (set_pool s mp) pc l (R_write resp ws)).
Proof.
  intros Hex Hl Hr Hq Hh.
  pose proof (exec_server _ _ _ _ _ _ _ _ _ _ _ Hex (read_done _ _ ws _ _ _ _ Hr Hq)) as H1.
  pose proof (exec_server _ _ _ _ _ _ _ _ _ _ _ H1 (server_lock _ m t b ws Hl)) as H2.
  pose proof (exec_server _ _ _ _ _ _ _ _ _ _ _ H2 (server_view _ m t b ws)) as H3.
  pose proof (exec_server _ _ _ _ _ _ _ _ _ _ _ H3 (server_handle (set_lock s (Some Server)) _ m t b ws resp mp Hh)) as H4.
  pose proof (exec_server _ _ _ _ _ _ _ _ _ _ _ H4 (server_unlock _ resp ws)) as H5.
  rewrite <- !app_assoc in H5. destruct s as [nd mp0 lock g st out]. cbn in Hl. by subst lock.
Qed.

(** The RPC thread, left alone, does to the pool what [serve_connection] does. *)
Theorem connection_served {H : HashFn} {E : Ed25519} cfg miner T p0 ws0 s pc l bytes ws mp sent :
  exec cfg miner T p0 ws0 (mkProc s pc l (R_read bytes ws)) →
  s_lock s = None → serve_connection (rpc_handler (s_node s)) (s_pool s) bytes ws = Some (mp, sent) →
  ∃ n, (n <= 6)%nat ∧ exec cfg miner T p0 (ws0 ++ replicate n (By Server)) (mkProc (set_pool s mp) pc l R_poll).
Proof.
  intros Hex Hl. unfold serve_connection.
  destruct (read_request bytes) as [[[] req]|] eqn:Hr; try done; cbn [mbind option_bind negb].
  - destruct (request_of req) as [[[m t] b]|] eqn:Hq.
    + destruct (rpc_handler (s_node s) (s_pool s) m t b) as [resp mp1] eqn:Hh.
      destruct (Http.write_all ws (response_text resp) []) as [[k sn]|] eqn:Hw; [|done]. intros [= <- <-].
      exists 6%nat. split; [lia|].
      pose proof (reply_ready _ _ _ _ _ _ _ _ _ _ _ _ _ _ _ _ Hex Hl Hr Hq Hh) as H5.
      pose proof (exec_server _ _ _ _ _ _ _ _ _ _ _ H5 (server_write _ resp ws _ Hw)) as H6.
      by rewrite <- !app_assoc in H6.
    + destruct (Http.write_all ws (response_text malformed_line) []) as [[k sn]|] eqn:Hw; [|done]. intros [= <- <-].
      exists 2%nat. split; [lia|].
      pose proof (exec_server _ _ _ _ _ _ _ _ _ _ _ Hex (read_malformed _ _ ws _ Hr Hq)) as H1.
      pose proof (exec_server _ _ _ _ _ _ _ _ _ _ _ H1 (server_write _ malformed_line ws _ Hw)) as H2.
      rewrite <- !app_assoc in H2. by destruct s.
  - intros [= <- <-]. exists 1%nat. split; [lia|]. destruct s.
    eapply exec_server; [exact Hex|by eapply read_failed].
Qed.

(** ** The theorems at a concrete execution

    The demonstration node of file Daemon serves one request, is signalled and
    exits; or is signalled while a client holds a connection open. *)

Module ThreadsDemo.
#[local] Existing Instances Demo.demo_hash Demo.demo_ed.
Import DaemonDemo.

Definition cfg : NodeConfig := cfg_ (d_node d0).
Definition p0 : Proc := launch d0 started.1.
Definition s0 : Shared := p_shared p0.
Abbreviation exec0 := (exec cfg (d_miner d0) now p0).

Definition get_tip : list (list byte) := [txt "GET /tip HTTP/1.1" ++ blank_line].
Definition takes : list socket_result := [Took 5000].
Definition served : Mempool * list byte :=
  default (d_pool d0, []) (serve_connection (rpc_handler (s_node s0)) (s_pool s0) get_tip takes).

Lemma clock0 : 0 <= now <= now.
Proof. by vm_compute. Qed.
Lemma clock_room : now + MAX_CLOCK_SKEW_S < 2 ^ 58.
Proof. by vm_compute. Qed.

Lemma serves : serve_connection (rpc_handler (s_node s0)) (s_pool s0) get_tip takes = Some (served.1, served.2).
Proof.
  assert (bool_decide (is_Some (serve_connection (rpc_handler (s_node s0)) (s_pool s0) get_tip takes)) = true) as Hs
    by (by vm_compute).
  unfold served. apply bool_decide_eq_true in Hs as [[mp out] ->]. done.
Qed.

Lemma polling : p0 = mkProc s0 M_loop (d_last d0) R_poll.
Proof.
  assert (d_rpc d0 = true) as Hr by (by vm_compute). unfold s0, p0, launch. by rewrite Hr.
Qed.

(** A connection is accepted. *)
Lemma accepts bytes ws : exec0 [By Server] (mkProc s0 M_loop (d_last d0) (R_read bytes ws)).
Proof.
  apply (exec_server _ _ _ _ [] s0 _ _ R_poll); [rewrite <- polling; apply exec_nil|by apply poll_accept].
Qed.

Lemma exits : ∃ ws p, exec0 ws p ∧ p_main p = M_exit ∧ Z.of_nat (length ws) < 2 ^ 64 - 1.
Proof.
  destruct (connection_served _ _ _ _ _ _ _ _ _ _ _ _ (accepts get_tip takes) eq_refl serves) as (n & Hn & Hex).
  set (s1 := set_pool s0 served.1) in Hex. eexists _, _. split_and!.
  - eapply (exec_main _ _ _ _ _ _ _ _ R_done); [|done|apply print_down].
    eapply (exec_main _ _ _ _ _ _ _ _ R_done); [|done|apply join_server; by right].
    eapply exec_server; [|apply (poll_stop (raise_sstop (raise_gstop s1))); reflexivity].
    eapply (exec_main _ _ _ _ _ _ _ _ R_poll); [|done|apply stop_server].
    eapply (exec_main _ _ _ _ _ _ _ _ R_poll); [|done|apply (loop_stop _ _ _ _ (raise_gstop s1)); reflexivity].
    eapply exec_step; [exact Hex|by apply step_signal].
  - reflexivity.
  - rewrite !length_app, length_replicate. cbn [length]. lia.
Qed.

(** A client that sends nothing. *)
Definition silent : Proc := mkProc s0 M_loop (d_last d0) (R_read [] takes).
Definition signalled : Proc := mkProc (raise_sstop (raise_gstop s0)) M_join (d_last d0) (R_read [] takes).

Definition alarmed : Proc := mkProc (raise_gstop s0) M_loop (d_last d0) (R_read [] takes).

Lemma alarms : exec0 [By Server; Sig] alarmed.
Proof. apply (exec_step _ _ _ _ [By Server] silent); [apply accepts|by apply step_signal]. Qed.

Lemma hangs : exec cfg (d_miner d0) now alarmed [By Main; By Main] signalled.
Proof.
  apply (exec_main _ _ _ _ [By Main] (raise_gstop s0) M_stop (d_last d0)); [|done|apply stop_server].
  apply (exec_main _ _ _ _ [] (raise_gstop s0) M_loop (d_last d0)); [apply exec_nil|done|by apply loop_stop].
Qed.

(** A client that is gone by the time of its reply. *)
Definition gone : list socket_result := [Hung_up].
Definition answer : RpcResponse * Mempool := rpc_handler (s_node s0) (s_pool s0) (txt "GET") (txt "/tip") [].
Definition replying : Proc := mkProc (set_pool s0 answer.2) M_loop (d_last d0) (R_write answer.1 gone).

Lemma replies : exec0 ([By Server] ++ replicate 5 (By Server)) replying.
Proof.
  apply (reply_ready _ _ _ _ _ _ _ _ get_tip gone (concat get_tip) (txt "GET") (txt "/tip") [] answer.1 answer.2).
  - apply accepts.
  - done.
  - apply (bool_decide_unpack _). by vm_compute.
  - apply (bool_decide_unpack _). by vm_compute.
  - apply surjective_pairing.
Qed.
Lemma pipe_breaks : hung_up gone (response_text answer.1) = true.
Proof. by vm_compute. Qed.

Lemma silent_blocked : blocked (p_server silent).
Proof. reflexivity. Qed.
Lemma silent_runs : p_main silent ≠ M_exit.
Proof. done. Qed.
Lemma alarmed_flag : s_gstop (p_shared alarmed) = true.
Proof. reflexivity. Qed.
End ThreadsDemo.

#[local] Existing Instances Demo.demo_hash Demo.demo_ed.

Lemma threads_refine_witness :
  ∃ ws p es d, ThreadsDemo.exec0 ws p ∧ p_main p = M_exit ∧
    lived (H := Demo.demo_hash) (E := Demo.demo_ed) DaemonDemo.now DaemonDemo.d0 d es ∧ d_stop d = true.
Proof.
  destruct ThreadsDemo.exits as (ws & p & Hex & Hexit & Hlen).
  destruct (proj2 (proj2 (threads_refine (H := Demo.demo_hash) (E := Demo.demo_ed) _ _ _ _ _ _ _ _ _
    ThreadsDemo.clock0 ThreadsDemo.clock_room Hlen DaemonDemo.starts Hex)) Hexit) as (es & out & d & Hl & _ & Hs & _).
  exists ws, p, es, d. by split_and!.
Defined.

Lemma shutdown_witness :
  (∀ ws p', exec (H := Demo.demo_hash) (E := Demo.demo_ed) ThreadsDemo.cfg (d_miner DaemonDemo.d0) DaemonDemo.now
     ThreadsDemo.silent ws p' → p_main p' ≠ M_exit) ∧
  (p_main ThreadsDemo.signalled = M_exit ∨
   (p_main ThreadsDemo.signalled = M_join ∧ blocked (p_server ThreadsDemo.signalled)) ∨
   can_step (H := Demo.demo_hash) (E := Demo.demo_ed) ThreadsDemo.cfg (d_miner DaemonDemo.d0) DaemonDemo.now ThreadsDemo.signalled) ∧
  (∀ p1, step (H := Demo.demo_hash) (E := Demo.demo_ed) ThreadsDemo.cfg (d_miner DaemonDemo.d0) DaemonDemo.now
     (By Server) ThreadsDemo.replying p1 → p_server p1 = R_killed).
Proof.
  split; [|split].
  - intros ws p' Hex.
    exact (proj1 (proj2 (shutdown (H := Demo.demo_hash) (E := Demo.demo_ed) _ _ _ _ _ _ _ _ _ (proj1 ThreadsDemo.clock0)
      (ThreadsDemo.accepts [] ThreadsDemo.takes) Hex)) ThreadsDemo.silent_blocked ThreadsDemo.silent_runs).
  - destruct (proj2 (proj2 (proj1 (shutdown (H := Demo.demo_hash) (E := Demo.demo_ed) _ _ _ _ _ _ _ _ _ (proj1 ThreadsDemo.clock0)
      ThreadsDemo.alarms ThreadsDemo.hangs) ThreadsDemo.alarmed_flag))) as [Hk|Hp]; [discriminate Hk|exact Hp].
  - exact (proj2 (proj1 (proj2 (proj2 (shutdown (H := Demo.demo_hash) (E := Demo.demo_ed) _ _ _ _ _ _ _ _ _
      (proj1 ThreadsDemo.clock0) ThreadsDemo.replies (exec_nil _ _ _ _)))) _ _ eq_refl ThreadsDemo.pipe_breaks)).
Defined.
