(* ===== verification/Lives.v ===== *)
(** A node over several lives: it is started, runs a history, dies between two
    events, and is started again on the chain file it left, any number of times,
    on a working disk and without self-transfers
    ([apps/txnode/main.cpp] over [src/node/node.cpp] and [src/chain/store.cpp]). *)

From Stdlib Require Import ZArith Lia Ascii String.
From stdpp Require Import base list strings gmap fin_maps.
From S2P Require Import Prelude Text Sha256 Crypto Canonical Wallet Gate Chain Validate Mempool Pow Picojson Json Store.
From S2P Require Import Keyfile Node Config Rpc Http Daemon Recovery.

Section lives.
Context {H : HashFn} {E : Ed25519}.

(** One life under configuration [cfg] from the chain file [file], and what it
    takes for the next one to find the chain again.  The disk works
    ([started_on], [healthy_event]): [Node::appendBlock]'s result is ignored
    (node.cpp:213), so a block whose append fails is on the chain and not in the
    file.  No submitted transfer goes to its own sender ([selfless]): on a chain
    with one, of a positive amount, the replay at the next start finds more money
    than was minted.  And
    the integers of the blocks are below 2^63 ([json_exact]), beyond which the
    file format does not keep them. *)
Record life (T : Z) (cfg : NodeConfig) (file : option (list byte)) (d0 d : Daemon) : Prop := {
  lf_start : ∃ host, started_on T host d0 ∧ h_chain host (chain_path (datadir cfg)) = file;
  lf_cfg : cfg_ (d_node d0) = cfg;
  lf_history : ∃ es out, history d0 es out d ∧ Forall (clocked T) es ∧ Forall healthy_event es ∧
                         Forall selfless es ∧ Z.of_nat (length es) < 2 ^ 64 - 1;
  lf_exact : Forall json_exact (blocks_ (chain_ (d_node d)))
}.

(** The nodes at the ends of the lives, the last one first. *)
Inductive lives (T : Z) (cfg : NodeConfig) : list Node → Prop :=
  | lives_first file d0 d :
      life T cfg file d0 d → no_self (all_txns (blocks_ (chain_ (d_node d0)))) → lives T cfg [d_node d]
  | lives_again nd ns d0 d :
      lives T cfg (nd :: ns) → life T cfg (file_ nd) d0 d → lives T cfg (d_node d :: nd :: ns).

(** ** A history only extends the chain *)

Lemma connect_extends c b now r c' : connectBlock c b now = (r, c') → prefix (blocks_ c) (blocks_ c').
Proof.
  intros Hc. destruct (decide (r = OK)) as [->|Hr].
  - apply connectBlock_ok_iff in Hc as (_ & w & _ & ->). by exists [b].
  - by apply connectBlock_fail_unchanged in Hc as ->.
Qed.

Lemma dstep_extends d e out d' :
  dstep d e = Ret (out, d') → prefix (blocks_ (chain_ (d_node d))) (blocks_ (chain_ (d_node d'))).
Proof.
  destruct e as [m t b|sys ms s ms'|s|sys fuel stop s|]; cbn [dstep].
  - destruct (d_rpc d); cbn [negb]; [|by intros [= _ <-]]. destruct (rpc_handler _ _ _ _ _) as [r mp]. by intros [= _ <-].
  - destruct (_ || _); [by intros [= _ <-]|].
    destruct (seal_tick _ _ _ _) as [[[r nd] mp]| | | |] eqn:Hs; try done. cbn [obind]. intros [= _ <-].
    apply seal_tick_effect in Hs as (_ & Hc & _). by eapply connect_extends.
  - destruct (_ || _); by intros [= _ <-].
  - destruct (d_cand d) as [cand|]; [|by intros [= _ <-]].
    destruct (mine _ _ _ _) as [[b|]|]; [|by intros [= _ <-]|done].
    destruct (commit_mined _ _ _ _ _) as [[[ok nd] mp]| | | |] eqn:Hs; try done. cbn [obind]. intros [= _ <-].
    apply commit_mined_effect in Hs as (_ & Ht & Hf). cbn [d_node]. destruct ok.
    + destruct (Ht eq_refl) as [Hc _]. by eapply connect_extends.
    + by destruct (Hf eq_refl) as [-> _].
  - by intros [= _ <-].
Qed.

Lemma history_extends d0 es out d :
  history d0 es out d → prefix (blocks_ (chain_ (d_node d0))) (blocks_ (chain_ (d_node d))).
Proof. induction 1; [done|]. etransitivity; [done|]. by eapply dstep_extends. Qed.

(** ** The end of a life *)

(** What holds at the end of a life that started without self-transfers. *)
Record settled (T : Z) (cfg : NodeConfig) (nd : Node) : Prop := {
  st_cfg : cfg_ nd = cfg;
  st_shape : ∃ l, chain_shape (difficulty cfg) (node_reward cfg) T (chain_ nd) l;
  st_no_self : no_self (all_txns (blocks_ (chain_ nd)));
  st_file : recoverable nd;
  st_exact : Forall json_exact (blocks_ (chain_ nd))
}.

Lemma life_settled T cfg file d0 d :
  0 <= T → T + MAX_CLOCK_SKEW_S < 2 ^ 58 → life T cfg file d0 d →
  no_self (all_txns (blocks_ (chain_ (d_node d0)))) → settled T cfg (d_node d).
Proof.
  intros H0 HT [(host & [(argv & now_s & now_ms & out0 & Hn & Hs) Hdisk Hterm] & Hfile) <- (es & out & Hh & Hclk & Hhe & Hself & Hlen) Hex] Hns.
  assert (lived T d0 d es) as Hl by (split; [lia|by exists host, argv, now_s, now_ms, out0|by exists out|done|done]).
  destruct (lived_fresh _ _ _ _ Hl Hns Hself) as [Hns' _]. destruct (lived_inv _ _ _ _ Hl) as [Hcfg Hsh _ _ _ _].
  split; [done..| |done]. eapply (history_recoverable (cfg_ (d_node d0)) T); [lia| |exact Hh|done..|].
  - eapply start_inv; [exact Hn|lia|exact Hs].
  - eapply start_recoverable; [| |exact Hs|done..]; lia.
Qed.

(** A start on the file a settled node left comes up with that node's chain. *)
Lemma restart_same T cfg nd d0 d :
  0 <= T → T + MAX_CLOCK_SKEW_S < 2 ^ 58 → settled T cfg nd → life T cfg (file_ nd) d0 d →
  blocks_ (chain_ (d_node d0)) = blocks_ (chain_ nd) ∧ state_ (chain_ (d_node d0)) = state_ (chain_ nd).
Proof.
  intros H0 HT [Hc [l Hsh] Hns [(f & Hf & _ & Hload) _] Hex]
    [(host & [(argv & now_s & now_ms & out0 & Hn & Hs) _ _] & Hfile) Hcfg _ _].
  specialize (Hload Hex). unfold txnode_start in Hs. destruct (resolve_config _ _) as [cfg'| | | |]; try done. cbn [obind] in Hs.
  destruct (boot _ _ _ _) as [[br nd0]| | | |] eqn:Hb; try done. cbn [obind] in Hs.
  destruct (br_ok br) eqn:Hok; cbn [negb] in Hs; [|done].
  destruct (load_or_create_wallet _ _ _ _ _) as [[[wr| | | |] kf]|]; try done. cbn [obind] in Hs.
  destruct (kl_ok wr); cbn [negb] in Hs; [|done]. destruct (start _ _ _) as [[up srv] fds]. injection Hs as _ <-.
  assert (0 <= now_s) as Hn0 by lia. assert (now_s + MAX_CLOCK_SKEW_S < 2 ^ 64) as Hn1 by lia.
  cbn [d_node] in *. destruct (boot_up _ _ _ _ _ _ Hn0 Hn1 Hb Hok) as [Hcfg' _].
  assert (cfg' = cfg) as -> by congruence. rewrite Hfile, Hf in Hb.
  destruct (boot_cases _ _ _ _ _ _ Hn0 Hn1 Hb Hok) as [[Hl _]|(f' & l' & c & [= Hff] & Hl & _ & -> & Hsh')].
  { change (load (Some f) = Ret (mkLoad [] status_ok)) in Hl. rewrite Hload in Hl. by rewrite (sh_blocks _ _ _ _ _ Hsh) in Hl. }
  rewrite <- Hff, Hload in Hl.
  injection Hl as Hl. cbn [chain_]. rewrite (sh_blocks _ _ _ _ _ Hsh').
  split; [done|]. rewrite (sh_blocks _ _ _ _ _ Hsh) in Hl. injection Hl as ->.
  eapply runs_det; [apply Hsh'|apply Hsh].
Qed.

Lemma life_extends T cfg file d0 d :
  life T cfg file d0 d → prefix (blocks_ (chain_ (d_node d0))) (blocks_ (chain_ (d_node d))).
Proof. intros [_ _ (es & out & Hh & _) _]. by eapply history_extends. Qed.

Lemma lives_settled T cfg nd ns :
  0 <= T → T + MAX_CLOCK_SKEW_S < 2 ^ 58 → lives T cfg (nd :: ns) →
  settled T cfg nd ∧ Forall (λ old, prefix (blocks_ (chain_ old)) (blocks_ (chain_ nd))) ns.
Proof.
  intros H0 HT Hl. remember (nd :: ns) as all eqn:Hall. revert nd ns Hall.
  induction Hl as [file d0 d Hl Hns|nd1 ns1 d0 d _ IH Hl]; intros nd ns [= <- <-].
  - split; [by eapply life_settled|done].
  - destruct (IH _ _ eq_refl) as [Hs Hp]. destruct (restart_same _ _ _ _ _ H0 HT Hs Hl) as [Hb _].
    pose proof (life_extends _ _ _ _ _ Hl) as Hx. rewrite Hb in Hx. split.
    + eapply life_settled; [done..|]. rewrite Hb. by apply Hs.
    + constructor; [done|]. eapply Forall_impl; [exact Hp|]. intros old Ho. cbn in *. by etransitivity.
Qed.
End lives.

(** C15. A chain survives any number of lives of its node, on a working disk: stop the
    process between any two events and start it again on the file it left, as often
    as you like; the chain at the end of every earlier life is an initial part of
    the present one, the present one passes the from-genesis validator at any later
    time, and the next start that comes up holds exactly its blocks and account
    state.  Three conditions hold in every life: no append to the chain file fails
    (the node ignores a failed append and goes on with a block the file does not
    have), no account pays itself, in what is submitted or on the first chain (a
    chain with such a transfer of a positive amount fails the replay of the next
    start), and the integers of the blocks stay below 2^63 (the file format keeps
    no larger ones). *)
Theorem lives_grow {H : HashFn} {E : Ed25519} T now cfg nd ns d0 d :
  0 <= T <= now → T + MAX_CLOCK_SKEW_S < 2 ^ 58 → now + MAX_CLOCK_SKEW_S < 2 ^ 64 → lives T cfg (nd :: ns) →
  Forall (λ old, prefix (blocks_ (chain_ old)) (blocks_ (chain_ nd))) ns ∧
  vr_ok (replayFromGenesis (blocks_ (chain_ nd)) now (difficulty cfg) (node_reward cfg)) = true ∧
  (life T cfg (file_ nd) d0 d →
   blocks_ (chain_ (d_node d0)) = blocks_ (chain_ nd) ∧ state_ (chain_ (d_node d0)) = state_ (chain_ nd)).
Proof.
  intros HT HT' Hnow Hl. destruct (lives_settled T cfg nd ns ltac:(lia) HT' Hl) as [Hs Hp]. split; [done|]. split.
  - destruct Hs as [Hcfg [l Hsh] Hns Hrec _]. rewrite (sh_blocks _ _ _ _ _ Hsh). rewrite <- Hcfg in *.
    by eapply (recoverable_replays T now nd l).
  - intros Hlife. eapply (restart_same T); [lia|done|done|exact Hlife].
Qed.

(** ** The theorem at two lives of the demonstration node *)

Module LivesDemo.
#[local] Existing Instances Demo.demo_hash Demo.demo_ed.
Import DaemonDemo.

Definition cfg : NodeConfig := cfg_ (d_node d0).

(** The same host with the chain file the first life left. *)
Definition host2 : Host := mkHost (h_config host) (λ _, file_ (d_node d6)) (h_key host) (h_readable host) (h_csprng host)
  (h_io host) (h_key_io host) (h_sock host).
Definition started2 : list byte * option Daemon := the (txnode_start host2 argv now 0) ([], None).
Definition d0' : Daemon := default idle started2.2.

Lemma life1 : life now cfg (h_chain host (chain_path (datadir cfg))) d0 d6.
Proof.
  split; [exists host; by split; [apply RecoveryDemo.started|]|done| |apply RecoveryDemo.exact6].
  exists es, ran.1. split; [apply RecoveryDemo.took|]. split; [apply RecoveryDemo.clocks|].
  split; [apply RecoveryDemo.disks|]. split; [apply selfless6|apply RecoveryDemo.short6].
Qed.

Lemma starts2 : txnode_start host2 argv now 0 = Ret (started2.1, Some d0').
Proof.
  assert (∀ p : list byte * option Daemon, bool_decide (is_Some p.2) = true → p = (p.1, Some (default idle p.2))) as Hp.
  { by intros [o [d|]]. }
  refine (eq_trans (the_returns (txnode_start host2 argv now 0) ([], None) _) (f_equal Ret (Hp _ _))); by vm_compute.
Qed.

Lemma whole_file : terminated (default [] (file_ (d_node d6))).
Proof.
  right. exists (removelast (default [] (file_ (d_node d6)))). apply (bool_decide_unpack _). by vm_compute.
Qed.

Lemma same_cfg : cfg_ (d_node d0') = cfg.
Proof. by vm_compute. Qed.
Lemma exact2 : Forall json_exact (blocks_ (chain_ (d_node d0'))).
Proof. apply (bool_decide_unpack _). by vm_compute. Qed.

(** The second life ends where it starts. *)
Lemma life2 : life now cfg (file_ (d_node d6)) d0' d0'.
Proof.
  split; [|apply same_cfg| |apply exact2].
  - exists host2. split; [|done]. split; [|done|apply whole_file].
    exists argv, now, 0, started2.1. split; [done|apply starts2].
  - exists [], []. split; [constructor|]. by split_and!.
Qed.

Lemma two_lives : lives now cfg [d_node d0'; d_node d6].
Proof. eapply lives_again; [|apply life2]. eapply lives_first; [apply life1|apply no_self0]. Qed.
End LivesDemo.

Lemma lives_grow_witness :
  Forall (λ old, prefix (blocks_ (chain_ old)) (blocks_ (chain_ (d_node LivesDemo.d0')))) [d_node DaemonDemo.d6] ∧
  height (chain_ (d_node DaemonDemo.d6)) = 2.
Proof.
  exact (conj (proj1 (lives_grow (H := Demo.demo_hash) (E := Demo.demo_ed) _ _ _ _ _ DaemonDemo.d0 DaemonDemo.d0
    RecoveryDemo.clock_at RecoveryDemo.clock_58 RecoveryDemo.clock_64 LivesDemo.two_lives)) RecoveryDemo.grew).
Defined.
