(* ===== verification/Payments.v ===== *)
(** What becomes of an accepted payment: the node as a queue.

    Whatever is submitted, an accepted payment is never lost and never repeated:
    it waits in the mempool or is on the chain.  The specification of the order is
    a first-in-first-out queue of payments that is served in batches.  A node that
    seals on a cadence implements it; a mining node implements it as long as no
    account pays itself (the gate mints on such a transfer, so balances are then
    not bounded and may wrap around, and the selection loop may pass over a payment
    whose funds have wrapped away).  Then no payment is overtaken, and each is on
    the chain after a bounded number of blocks ([src/mempool/mempool.cpp], the selection loop
    of [src/pow/candidate.cpp], the event loop of [apps/txnode/main.cpp]). *)

From Stdlib Require Import ZArith Lia Ascii String.
From stdpp Require Import base list strings gmap fin_maps.
From S2P Require Import Prelude Text Sha256 Crypto Canonical Wallet Gate Chain Validate Mempool Pow Picojson Json Store.
From S2P Require Import Keyfile Node Config Rpc Http Cli Daemon Recovery Lives.

(** ** The specification: a queue served in batches

    The batches served so far, the payments waiting, and, while a batch is being
    prepared, how many of those waiting have been looked at. *)

Record queue := mkQueue { q_served : list (list Txn); q_waiting : list Txn; q_seen : option nat }.

(** One step of a queue that serves at most [n] payments at a time. *)
Inductive qstep (n : nat) : queue → queue → Prop :=
  | q_idle q : qstep n q q
  | q_join t s w v : qstep n (mkQueue s w v) (mkQueue s (w ++ [t]) v)
  | q_look s w : qstep n (mkQueue s w None) (mkQueue s w (Some (length w)))
  | q_give_up s w v : qstep n (mkQueue s w (Some v)) (mkQueue s w None)
  | q_serve s w v :
      (v ≤ length w)%nat →
      qstep n (mkQueue s w (Some v)) (mkQueue (s ++ [take n (take v w)]) (drop (n `min` v) w) None)
  | q_serve_now s w : qstep n (mkQueue s w None) (mkQueue (s ++ [take n w]) (drop n w) None).

(** Everything that ever joined, in order. *)
Definition q_log (q : queue) : list Txn := concat (q_served q) ++ q_waiting q.

(** Within how many batches the payment at position [p] is served: those before
    it, and one more if a batch is being prepared that did not see it. *)
Definition q_due (n : nat) (q : queue) (p : nat) : nat :=
  p / n + 1 + match q_seen q with Some v => if (p <? v)%nat then 0 else 1 | None => 0 end.

(** Serving moves a boundary in the log; joining is the only way it changes. *)
Lemma log_serve s w k v : q_log (mkQueue (s ++ [take k w]) (drop k w) None) = q_log (mkQueue s w v).
Proof.
  unfold q_log. cbn [q_served q_waiting]. rewrite concat_app. cbn [concat].
  by rewrite app_nil_r, <- app_assoc, take_drop.
Qed.

Lemma qstep_log n q q' : qstep n q q' → q_log q' = q_log q ∨ ∃ t, q_log q' = q_log q ++ [t].
Proof.
  destruct 1 as [q|t s w v|s w|s w v|s w v Hv|s w]; auto.
  - right. exists t. unfold q_log. cbn [q_served q_waiting]. by rewrite app_assoc.
  - left. rewrite take_take. apply log_serve.
  - left. apply log_serve.
Qed.

(** A waiting payment gets closer with every batch, and is served when due. *)
Lemma qstep_progress n q q' p t :
  (0 < n)%nat → qstep n q q' → q_waiting q !! p = Some t →
  (∃ p', q_waiting q' !! p' = Some t ∧ q_due n q' p' + length (q_served q') ≤ q_due n q p + length (q_served q))%nat ∨
  (∃ b, q_served q' = q_served q ++ [b] ∧ t ∈ b).
Proof.
  intros Hn Hstep Hp. unfold q_due.
  destruct Hstep as [q|u s w v|s w|s w v|s w v Hv|s w]; cbn [q_served q_waiting q_seen] in *.
  - left. eauto.
  - left. exists p. split; [by apply lookup_app_l_Some|done].
  - left. exists p. split; [done|]. apply lookup_lt_Some in Hp. rewrite (proj2 (Nat.ltb_lt _ _)) by done. lia.
  - left. exists p. split; [done|]. lia.
  - destruct (decide (p < n `min` v)%nat) as [Hlt|Hge].
    + right. eexists. split; [done|]. rewrite take_take. apply elem_of_take. eauto.
    + left. exists (p - n `min` v)%nat. rewrite lookup_drop, length_app. cbn [length].
      replace (n `min` v + (p - n `min` v))%nat with p by lia. split; [done|].
      destruct (Nat.ltb_spec p v) as [Hv'|Hv'].
      * assert (n `min` v = n)%nat as -> by lia. replace p with ((p - n) + 1 * n)%nat at 2 by lia.
        rewrite Nat.div_add by lia. lia.
      * pose proof (Nat.Div0.div_le_mono (p - n `min` v) p n ltac:(lia)). lia.
  - destruct (decide (p < n)%nat) as [Hlt|Hge].
    + right. eexists. split; [done|]. apply elem_of_take. eauto.
    + left. exists (p - n)%nat. rewrite lookup_drop, length_app. cbn [length].
      replace (n + (p - n))%nat with p by lia. split; [done|].
      replace p with ((p - n) + 1 * n)%nat at 2 by lia. rewrite Nat.div_add by lia. lia.
Qed.

(** Along any run: still waiting and closer by a batch for each one served, or in
    one of the batches served since. *)
Definition served_since (q q' : queue) (t : Txn) : Prop :=
  ∃ bs, q_served q' = q_served q ++ bs ∧ t ∈ concat bs.

Lemma qsteps_served n q q' : rtc (qstep n) q q' → prefix (q_served q) (q_served q').
Proof.
  induction 1 as [q|q1 q2 q3 Hs _ IH]; [done|]. etransitivity; [|exact IH].
  destruct Hs; cbn [q_served]; try done; eexists; done.
Qed.

Lemma qsteps_progress n q q' p t :
  (0 < n)%nat → rtc (qstep n) q q' → q_waiting q !! p = Some t →
  (∃ p', q_waiting q' !! p' = Some t ∧ q_due n q' p' + length (q_served q') ≤ q_due n q p + length (q_served q))%nat ∨
  served_since q q' t.
Proof.
  intros Hn Hr. revert p. induction Hr as [q|q1 q2 q3 Hs Hr IH]; intros p Hp; [left; eauto|].
  destruct (qstep_progress n _ _ _ _ Hn Hs Hp) as [(p' & Hp' & Hd)|(b & Hb & Ht)].
  - destruct (IH p' Hp') as [(p2 & Hp2 & Hd2)|(bs & Hbs & Ht)].
    + left. exists p2. split; [done|]. lia.
    + right. destruct (qsteps_served n q1 q2) as [k Hk]; [by apply rtc_once|].
      exists (k ++ bs). rewrite Hbs, Hk, <- app_assoc, concat_app. split; [done|]. apply elem_of_app. by right.
  - right. destruct (qsteps_served _ _ _ Hr) as [k Hk]. exists (b :: k). rewrite Hk, Hb, <- app_assoc.
    split; [done|]. cbn [concat]. apply elem_of_app. by left.
Qed.

Lemma qsteps_log n q q' : rtc (qstep n) q q' → prefix (q_log q) (q_log q').
Proof.
  induction 1 as [q|q1 q2 q3 Hs _ IH]; [done|]. etransitivity; [|exact IH].
  destruct (qstep_log _ _ _ Hs) as [-> | (t & ->)]; [done|by eexists].
Qed.

(** ** Candidate selection takes the first in line

    When the tip accepts every pooled transaction, the greedy selection of
    [buildCandidate] skips none. *)

Section selection.
Context {H : HashFn} {E : Ed25519}.

Definition fresh_entry (w : accounts) (e : MempoolEntry) : Prop :=
  transfer_ok w (me_txn e) ∧ tx_from (me_txn e) ≠ tx_to (me_txn e) ∧ 0 <= tx_amount (me_txn e).

Lemma fresh_entries_move w e l :
  ledger_ok w → fresh_entry w e → Forall (fresh_entry w) l →
  tx_from (me_txn e) ∉ map (λ e, tx_from (me_txn e)) l → Forall (fresh_entry (move w (me_txn e))) l.
Proof.
  intros Hw (Ht & Hne & Ha) Hl Hni. apply Forall_forall. intros u Hu.
  eapply Forall_forall in Hl as (Hu1 & Hu2 & Hu3); [|exact Hu]. split_and!; [|done..].
  apply transfer_ok_move; try done. intros Heq. apply Hni. rewrite <- Heq.
  by apply (list_elem_of_fmap_2 (λ e, tx_from (me_txn e))).
Qed.

Lemma select_takes accountAt shadow w sel l :
  agrees accountAt shadow w → ledger_ok w → Forall (fresh_entry w) l →
  NoDup (map (λ e, tx_from (me_txn e)) l) → (length sel ≤ MAX_TXNS_PER_BLOCK)%nat →
  select accountAt shadow sel l = sel ++ take (MAX_TXNS_PER_BLOCK - length sel) (map me_txn l).
Proof.
  revert shadow w sel. induction l as [|e l IH]; intros shadow w sel Hs Hw Hl Hnd Hlen; cbn [select map].
  { by rewrite take_nil, app_nil_r. }
  destruct (Nat.leb_spec MAX_TXNS_PER_BLOCK (length sel)) as [Hfull|Hroom].
  { replace (MAX_TXNS_PER_BLOCK - length sel)%nat with 0%nat by lia. by rewrite app_nil_r. }
  apply Forall_cons in Hl as [He Hl]. pose proof He as (Ht & Hne & Ha). cbn [map] in Hnd.
  apply NoDup_cons in Hnd as [Hni Hnd]. destruct (agrees_taken _ _ _ _ Hs Hne) as (_ & Hfrom & Hm).
  destruct (move_effect w (me_txn e) Hw Ht Hne Ha) as (_ & _ & Hw').
  set (from := acct_at _ (tx_from (me_txn e))) in *. rewrite Hfrom in *. pose proof (tr_funds _ _ Ht) as Hfu.
  rewrite (tr_nonce _ _ Ht), Z.eqb_refl, (proj2 (Z.ltb_ge _ _) Hfu). cbn [negb].
  rewrite (IH _ (move w (me_txn e))); [|exact Hm|done|by apply fresh_entries_move|done|].
  - rewrite length_app, <- app_assoc. cbn [length].
    replace (MAX_TXNS_PER_BLOCK - length sel)%nat with (S (MAX_TXNS_PER_BLOCK - (length sel + 1))) by lia. done.
  - rewrite length_app. cbn [length]. lia.
Qed.
End selection.

(** ** The node implements the queue *)

Section refinement.
Context {H : HashFn} {E : Ed25519}.

(** The payments of a block: all but the coinbase. *)
Definition payments (b : Block) : list Txn := filter (λ t, tx_from t ≠ kNullAddr) (txns b).

Definition waiting (d : Daemon) : list Txn := map me_txn (sortedBySeq (d_pool d)).

(** A mined block spends one place on its coinbase. *)
Definition per_block (cfg : NodeConfig) : nat :=
  if pow_mode cfg then (MAX_TXNS_PER_BLOCK - 1)%nat else MAX_TXNS_PER_BLOCK.

(** The node as a queue: the blocks are the batches served, the mempool is the
    line, and a candidate has seen what was in line at its snapshot. *)
Record represents (d : Daemon) (q : queue) : Prop := {
  rp_served : q_served q = map payments (blocks_ (chain_ (d_node d)));
  rp_waiting : q_waiting q = waiting d;
  rp_seen : match d_cand d, q_seen q with
            | None, None => True
            | Some cand, Some v =>
                (v ≤ length (waiting d))%nat ∧
                ∃ m h, c_txns cand = coinbaseTxn m h :: take (MAX_TXNS_PER_BLOCK - 1) (take v (waiting d))
            | _, _ => False
            end
}.

(** Every payment accepted in the life of the process, in the order of the chain
    and the line. *)
Definition ledger_log (d : Daemon) : list Txn :=
  concat (map payments (blocks_ (chain_ (d_node d)))) ++ waiting d.

Lemma represents_log d q : represents d q → q_log q = ledger_log d.
Proof. intros [Hs Hw _]. unfold q_log, ledger_log. by rewrite Hs, Hw. Qed.

(** The transaction an event submits. *)
Definition submits (e : event) : option Txn :=
  match e with Request _ _ body => submitted body | _ => None end.

Lemma payments_of_pooled mp l :
  pool_wf mp → pooled mp l → filter (λ t, tx_from t ≠ kNullAddr) l = l.
Proof. intros Hm Hp. apply list_filter_all. intros t Ht. by eapply pooled_user. Qed.

Lemma taken_pooled mp k v : pooled mp (take k (take v (map me_txn (sortedBySeq mp)))).
Proof. unfold pooled. etransitivity; apply sublist_take. Qed.

Lemma snapshot_takes D R T nd mp miner now_s l :
  0 <= T → T + MAX_CLOCK_SKEW_S < 2 ^ 58 → chain_shape D R T (chain_ nd) l →
  no_self (all_txns (blocks_ (chain_ nd))) → pool_wf mp → pool_fresh (state_ (chain_ nd)) mp →
  ∃ h, c_txns (snapshot nd mp miner now_s) =
       coinbaseTxn miner h :: take (MAX_TXNS_PER_BLOCK - 1) (map me_txn (sortedBySeq mp)).
Proof.
  intros H0 HT Hs Hns Hm Hf. destruct (shape_ledger _ _ _ _ _ Hs H0 HT Hns) as (Hw & Hsup & _).
  destruct (credit_supply (state_ (chain_ nd)) miner COINBASE_REWARD Hw) as (_ & Hw' & _); [done..|].
  exists (u64 (height (chain_ nd) + 1)). unfold snapshot, buildCandidate. cbn [c_txns].
  rewrite (select_takes _ _ (credit (state_ (chain_ nd)) miner COINBASE_REWARD)); [done| |done| | |cbn; unfold MAX_TXNS_PER_BLOCK; lia].
  - apply agrees_credit; [|apply touch_present]. apply agrees_touch. intros a. by rewrite lookup_empty.
  - apply Forall_forall. by apply pool_fresh_credit.
  - apply sortedBySeq_nodup; [done|]. intros e e' He He' Heq. by eapply wf_sender_inj.
Qed.

(** The daemon after a commit, as a queue. *)
Lemma represents_commit nd mp d k served b c w last stop :
  pool_wf (d_pool d) → mp = evictIncluded (d_pool d) (take k (waiting d)) →
  chain_ nd = committed c b w → map payments (blocks_ c) = served → payments b = take k (waiting d) →
  represents (mkDaemon nd mp (d_miner d) (d_rpc d) last None stop)
             (mkQueue (served ++ [take k (waiting d)]) (drop k (waiting d)) None).
Proof.
  intros Hm -> Hc Hs Hb. split; cbn [d_node d_pool d_cand q_served q_waiting q_seen]; [|..|done].
  - rewrite Hc. cbn [committed blocks_]. by rewrite map_app, Hs, <- Hb.
  - unfold waiting. cbn [d_pool]. by rewrite evict_taken, <- fmap_drop.
Qed.

(** A step of the queue [q] leads to the daemon [d'], and [o] is what may join. *)
Definition follows (n : nat) (q : queue) (o : option Txn) (d' : Daemon) : Prop :=
  ∃ q', qstep n q q' ∧ represents d' q' ∧ (q_log q' = q_log q ∨ ∃ t, o = Some t ∧ q_log q' = q_log q ++ [t]).

Lemma follows_idle n q o d : represents d q → follows n q o d.
Proof. intros Hq. exists q. split_and!; [constructor|done|by left]. Qed.

Lemma request_follows n d q method target body r mp o :
  pool_wf (d_pool d) → next_seq_ (d_pool d) < 2 ^ 64 - 1 → represents d q → o = submitted body →
  rpc_handler (d_node d) (d_pool d) method target body = (r, mp) → follows n q o (with_pool d mp).
Proof.
  intros Hm Hq Hrep -> Hr. pose proof Hrep as [Hsv Hw Hseen].
  apply request_effect in Hr as [->|(_ & _ & _ & u & Hu & _ & _ & Ha)]; cbn [node_ctx ctx_mempool mempool_account] in *.
  { apply follows_idle. by destruct d. }
  assert (waiting (with_pool d mp) = waiting d ++ [u]) as Hwait.
  { unfold waiting. cbn [with_pool d_pool]. destruct (admitted_wf _ _ _ _ Hm Hq Ha) as [_ ->]. by rewrite map_app. }
  destruct q as [s w v]. cbn [q_served q_waiting q_seen] in *. subst s w. eexists. split_and!; [apply (q_join _ u)| |].
  - split; cbn [with_pool d_node d_cand q_served q_waiting q_seen]; [done|done|]. rewrite Hwait.
    destruct (d_cand d) as [cand|], v as [v|]; try done. destruct Hseen as [Hv (mi & h & Hcand)].
    rewrite length_app, take_app_le by done. split; [lia|by exists mi, h].
  - right. exists u. unfold q_log. cbn [q_served q_waiting]. split; [done|by rewrite app_assoc].
Qed.

(** A daemon of the same chain and pool that has given up its candidate, or kept it. *)
Lemma same_follows n d q o nd last stop cand :
  represents d q → chain_ nd = chain_ (d_node d) → (cand = d_cand d ∨ cand = None) →
  follows n q o (mkDaemon nd (d_pool d) (d_miner d) (d_rpc d) last cand stop).
Proof.
  intros [Hs Hw Hseen] Hch Hcand. destruct q as [s w v]. cbn [q_served q_waiting q_seen] in *.
  destruct Hcand as [-> | ->].
  - apply follows_idle. split; cbn [d_node d_cand q_served q_waiting q_seen]; by rewrite ?Hch.
  - exists (mkQueue s w None). split_and!; [|split; cbn [d_node d_cand q_served q_waiting q_seen]; by rewrite ?Hch|by left].
    destruct v; constructor.
Qed.

Lemma snapshot_follows cfg d q now_s o l T :
  0 <= T → T + MAX_CLOCK_SKEW_S < 2 ^ 58 → chain_shape (difficulty cfg) (node_reward cfg) T (chain_ (d_node d)) l →
  pool_wf (d_pool d) → daemon_fresh d → represents d q → d_cand d = None →
  follows (per_block cfg) q o (with_cand d (Some (snapshot (d_node d) (d_pool d) (d_miner d) now_s))).
Proof.
  intros H0 HT Hs Hm [Hns Hf] [Hsv Hw Hseen] Hnone. rewrite Hnone in Hseen. destruct q as [s w [v|]]; [done|].
  cbn [q_served q_waiting q_seen] in *. subst s w. eexists. split_and!; [apply q_look| |by left].
  split; cbn [with_cand d_node d_cand q_served q_waiting q_seen]; [done..|].
  change (waiting (with_cand d _)) with (waiting d). split; [done|]. rewrite firstn_all.
  destruct (snapshot_takes _ _ _ _ _ (d_miner d) now_s _ H0 HT Hs Hns Hm Hf) as [h Hh]. by exists (d_miner d), h.
Qed.

Lemma seal_follows cfg d q sys now_s r nd mp last o :
  pow_mode cfg = false → d_cand d = None → pool_wf (d_pool d) → represents d q →
  seal_tick sys (d_node d) (d_pool d) now_s = Ret (r, nd, mp) →
  follows (per_block cfg) q o (mkDaemon nd mp (d_miner d) (d_rpc d) last (d_cand d) (d_stop d)).
Proof.
  intros Hpow Hnone Hm Hrep Hst. apply seal_tick_effect in Hst as (_ & Hconn & ->). case_bool_decide as Hr.
  2: { apply same_follows; [done| |by left]. by eapply connectBlock_fail_unchanged. }
  subst r. apply connectBlock_ok_iff in Hconn as (_ & w & _ & Hc). rewrite Hnone. destruct Hrep as [Hsv Hw Hseen].
  rewrite Hnone in Hseen. destruct q as [s wt [v|]]; [done|]. cbn [q_served q_waiting q_seen] in *. subst wt.
  eexists. split_and!; [apply q_serve_now| |left; apply log_serve]. unfold per_block. rewrite Hpow.
  eapply represents_commit; [done|done|exact Hc|done|]. by apply (payments_of_pooled (d_pool d)), drain_pooled.
Qed.

Lemma mined_follows cfg d q cand fuel stop b sys now_s ok nd mp last st o :
  pow_mode cfg = true → d_cand d = Some cand → pool_wf (d_pool d) → represents d q →
  mine fuel cand (difficulty cfg) stop = Some (Some b) →
  commit_mined sys (d_node d) (d_pool d) b now_s = Ret (ok, nd, mp) →
  follows (per_block cfg) q o (mkDaemon nd mp (d_miner d) (d_rpc d) last None st).
Proof.
  intros Hpow Hcand Hm Hrep Hmine Hcm. apply commit_mined_effect in Hcm as (_ & Hyes & Hno). destruct ok.
  2: { destruct (Hno eq_refl) as [Hch ->]. apply same_follows; [done..|by right]. }
  destruct (Hyes eq_refl) as [(_ & w & _ & Hc)%connectBlock_ok_iff ->]. clear Hyes Hno. destruct Hrep as [Hsv Hw Hseen].
  rewrite Hcand in Hseen. destruct q as [s wt [v|]]; [|done]. cbn [q_served q_waiting q_seen] in *. subst wt.
  destruct Hseen as [Hv (mi & h & Htx)]. destruct (mine_loop_sound _ _ _ _ _ _ _ Hmine) as (_ & Hb & _).
  rewrite Htx in Hb. assert (per_block cfg = MAX_TXNS_PER_BLOCK - 1)%nat as Hn by (unfold per_block; by rewrite Hpow).
  rewrite Hn. eexists. split_and!; [by apply q_serve| |rewrite take_take; left; apply log_serve].
  rewrite Hb. cbn [drop]. rewrite take_take in Hb |- *.
  eapply represents_commit; [done|done|exact Hc|done|]. unfold payments. rewrite Hb, filter_cons_False by (intros Hx; by apply Hx).
  eapply payments_of_pooled; [exact Hm|]. rewrite <- take_take. apply taken_pooled.
Qed.

(** Each event is one step of the queue; only a submitted transaction joins. *)
Lemma step_refines cfg T n d e out d' q :
  0 <= T → T + MAX_CLOCK_SKEW_S < 2 ^ 58 → Z.of_nat n < 2 ^ 64 - 1 → daemon_inv cfg T n d →
  (pow_mode cfg = true → daemon_fresh d) →
  dstep d e = Ret (out, d') → represents d q → follows (per_block cfg) q (submits e) d'.
Proof.
  intros H0 HT Hn [Hcfg [bs Hs] Hp Hq _ Hc] Hf Hstep Hrep. destruct (pool_reach_wf _ _ Hp) as [Hm _].
  destruct e as [m t b|sys ms s ms'|s|sys fuel stop s|]; cbn [dstep submits] in *; rewrite ?Hcfg in Hstep.
  - destruct (d_rpc d); cbn [negb] in Hstep; [|injection Hstep as _ <-; by apply follows_idle].
    destruct (rpc_handler _ _ _ _ _) as [r mp] eqn:Hr. injection Hstep as _ <-. eapply request_follows; [done|lia|done|done|exact Hr].
  - destruct (d_stop d || pow_mode cfg || _) eqn:Hg; [injection Hstep as _ <-; by apply follows_idle|].
    apply orb_false_iff in Hg as [[_ Hpow]%orb_false_iff _].
    assert (d_cand d = None) as Hnone.
    { destruct (d_cand d) as [cand|]; [|done]. destruct (Hc cand eq_refl). congruence. }
    destruct (seal_tick _ _ _ _) as [[[r nd] mp]| | | |] eqn:Ht; try done. cbn [obind] in Hstep. injection Hstep as _ <-.
    by eapply seal_follows.
  - destruct (d_stop d || negb (pow_mode cfg) || _) eqn:Hg; injection Hstep as _ <-; [by apply follows_idle|].
    apply orb_false_iff in Hg as [[_ Hpow%negb_false_iff]%orb_false_iff Hnone%bool_decide_eq_false].
    eapply snapshot_follows; try done; [by apply Hf|]. by apply eq_None_not_Some.
  - destruct (d_cand d) as [cand|] eqn:Ecand; [|injection Hstep as _ <-; by apply follows_idle].
    destruct (Hc cand eq_refl) as [Hpow _]. destruct (mine _ _ _ _) as [[b|]|] eqn:Hmine; try done.
    2: { injection Hstep as _ <-. apply same_follows; [done..|by right]. }
    destruct (commit_mined _ _ _ _ _) as [[[ok nd] mp]| | | |] eqn:Hcm; try done. cbn [obind] in Hstep. injection Hstep as _ <-.
    by eapply mined_follows.
  - injection Hstep as _ <-. apply same_follows; [done..|by left].
Qed.

(** *** Nothing is lost, whatever is submitted *)

(** A block of pooled transactions and the pool it leaves share out the old pool. *)
Lemma evict_shares mp l :
  pool_wf mp → pooled mp l →
  l ++ map me_txn (sortedBySeq (evictIncluded mp l)) ≡ₚ map me_txn (sortedBySeq mp).
Proof.
  intros Hm Hp. rewrite evictIncluded_sorted by (done || intros; by eapply pooled_no_clash).
  assert (NoDup (map me_txn (sortedBySeq mp))) as Hnd.
  { apply sortedBySeq_nodup; [done|]. intros e e' He He' Heq. eapply wf_sender_inj; [done..|by rewrite Heq]. }
  assert (∀ e, e ∈ sortedBySeq mp → txid (me_txn e) = me_txid e) as Hid.
  { intros e He. apply sortedBySeq_elem in He; [|done]. by destruct (wf_entry _ Hm _ _ He) as (_ & -> & _). }
  apply NoDup_Permutation; [|done|].
  - apply NoDup_app. split_and!.
    + by eapply sublist_NoDup.
    + intros t Ht (e & -> & [Hni He]%list_elem_of_filter)%list_elem_of_fmap. apply Hni. rewrite <- Hid by done.
      by apply list_elem_of_fmap_2.
    + eapply sublist_NoDup; [exact Hnd|]. apply (fmap_sublist me_txn), sublist_filter.
  - intros t. rewrite elem_of_app. split.
    + intros [Ht|(e & -> & [_ He]%list_elem_of_filter)%list_elem_of_fmap].
      * destruct (pooled_elem _ _ _ Hp Ht) as (e & He & <-). by apply (list_elem_of_fmap_2 me_txn).
      * by apply (list_elem_of_fmap_2 me_txn).
    + intros (e & -> & He)%list_elem_of_fmap. destruct (decide (me_txid e ∈ map txid l)) as [Hin|Hni].
      * left. apply list_elem_of_fmap in Hin as (u & Hu & Hul). destruct (pooled_elem _ _ _ Hp Hul) as (e' & He' & <-).
        rewrite Hid in Hu by done. apply sortedBySeq_elem in He, He'; [|done..]. rewrite Hu in He. by simplify_eq.
      * right. apply (list_elem_of_fmap_2 me_txn). by apply list_elem_of_filter.
Qed.

(** From [d] to [d'] the chain has grown by blocks whose payments, with those
    waiting now, are the ones that were waiting and [ts]. *)
Definition conserves (ts : list Txn) (d d' : Daemon) : Prop :=
  ∃ bs, blocks_ (chain_ (d_node d')) = blocks_ (chain_ (d_node d)) ++ bs ∧
        concat (map payments bs) ++ waiting d' ≡ₚ waiting d ++ ts.

Lemma conserves_same d d' :
  blocks_ (chain_ (d_node d')) = blocks_ (chain_ (d_node d)) → d_pool d' = d_pool d → conserves [] d d'.
Proof. intros Hb Hp. exists []. unfold waiting. by rewrite !app_nil_r, Hb, Hp. Qed.

Lemma conserves_commit d c b w l d' :
  pool_wf (d_pool d) → pooled (d_pool d) l → c = chain_ (d_node d) → chain_ (d_node d') = committed c b w →
  payments b = l → d_pool d' = evictIncluded (d_pool d) l → conserves [] d d'.
Proof.
  intros Hm Hp -> Hc Hb Hd. exists [b]. rewrite Hc. split; [done|]. cbn [map concat]. rewrite !app_nil_r, Hb.
  unfold waiting. rewrite Hd. by apply evict_shares.
Qed.

Lemma conserves_trans ts us d1 d2 d3 : conserves ts d1 d2 → conserves us d2 d3 → conserves (ts ++ us) d1 d3.
Proof.
  intros (bs & Hb & Hp) (bs' & Hb' & Hp'). exists (bs ++ bs'). rewrite Hb', Hb, <- app_assoc. split; [done|].
  rewrite map_app, concat_app, <- app_assoc, Hp', app_assoc, Hp. by rewrite app_assoc.
Qed.

(** Each event conserves the payments, and lets in at most the one it submits. *)
Lemma step_conserves cfg T n d e out d' :
  Z.of_nat n < 2 ^ 64 - 1 → daemon_inv cfg T n d → dstep d e = Ret (out, d') →
  ∃ ts, conserves ts d d' ∧ sublist ts (option_list (submits e)).
Proof.
  intros Hn [Hcfg _ Hp Hq _ Hc] Hstep. destruct (pool_reach_wf _ _ Hp) as [Hm _].
  destruct e as [m t b|sys ms s ms'|s|sys fuel stop s|]; cbn [dstep submits] in *; rewrite ?Hcfg in Hstep.
  - destruct (d_rpc d); cbn [negb] in Hstep; [|injection Hstep as _ <-; exists []; split; [by apply conserves_same|apply sublist_nil_l]].
    destruct (rpc_handler _ _ _ _ _) as [r mp] eqn:Hr. injection Hstep as _ <-.
    apply request_effect in Hr as [->|(_ & _ & _ & u & Hu & _ & _ & Ha)]; cbn [node_ctx ctx_mempool mempool_account] in *.
    { exists []. split; [by apply conserves_same|apply sublist_nil_l]. }
    exists [u]. rewrite Hu. split; [|done]. exists []. split; [by rewrite app_nil_r|]. unfold waiting. cbn [with_pool d_pool].
    destruct (admitted_wf _ _ _ _ Hm ltac:(lia) Ha) as [_ ->]. by rewrite map_app.
  - exists []. split; [|done]. destruct (d_stop d || pow_mode cfg || _); [injection Hstep as _ <-; by apply conserves_same|].
    destruct (seal_tick _ _ _ _) as [[[r nd] mp]| | | |] eqn:Ht; try done. cbn [obind] in Hstep. injection Hstep as _ <-.
    apply seal_tick_effect in Ht as (_ & Hconn & ->). case_bool_decide as Hr; [subst r|].
    + apply connectBlock_ok_iff in Hconn as (_ & w & _ & Hcm).
      eapply conserves_commit; [done|apply drain_pooled|done|exact Hcm| |done].
      apply (payments_of_pooled (d_pool d)); [done|apply drain_pooled].
    + apply conserves_same; [|done]. cbn [d_node]. by rewrite (connectBlock_fail_unchanged _ _ _ _ _ Hconn).
  - exists []. split; [|done]. destruct (d_stop d || _ || _); injection Hstep as _ <-; by apply conserves_same.
  - exists []. split; [|done]. destruct (d_cand d) as [cand|] eqn:Ecand; [|injection Hstep as _ <-; by apply conserves_same].
    destruct (Hc cand eq_refl) as [_ [_ _ _ _ _ (new & Hnew & Hpool)]].
    destruct (mine _ _ _ _) as [[b|]|] eqn:Hmine; try done; [|injection Hstep as _ <-; by apply conserves_same].
    destruct (commit_mined _ _ _ _ _) as [[[ok nd] mp]| | | |] eqn:Hcm; try done. cbn [obind] in Hstep. injection Hstep as _ <-.
    apply commit_mined_effect in Hcm as (_ & Hyes & Hno).
    destruct ok; [|destruct (Hno eq_refl) as [Hch ->]; apply conserves_same; cbn [d_node]; by rewrite ?Hch].
    destruct (Hyes eq_refl) as [(_ & w & _ & Hcb)%connectBlock_ok_iff ->].
    destruct (mine_loop_sound _ _ _ _ _ _ _ Hmine) as (_ & Hb & _). rewrite Hnew in Hb.
    eapply (conserves_commit _ _ _ _ new); [done|done|done|exact Hcb| |by rewrite Hb].
    unfold payments. rewrite Hb, filter_cons_False by (intros Hx; by apply Hx). by apply (payments_of_pooled (d_pool d)).
  - exists []. split; [|done]. injection Hstep as _ <-. by apply conserves_same.
Qed.
End refinement.

(** ** Histories as runs of the queue *)

Section histories.
Context {H : HashFn} {E : Ed25519}.

Lemma history_cons d e es out d' :
  history d (e :: es) out d' → ∃ o1 d1 o2, dstep d e = Ret (o1, d1) ∧ history d1 es o2 d'.
Proof.
  intros Hh. remember (e :: es) as all eqn:Hall. revert e es Hall.
  induction Hh as [|es0 out0 d2 e0 ln d3 Hh IH Hs]; intros e es Hall; [done|].
  destruct es0 as [|e1 es0]; cbn [app] in Hall; injection Hall as -> Hes.
  - inversion Hh as [|? ? ? ? ? ? _ _ Hnil]; subst; [|by destruct es0]. exists ln, d3, []. split; [done|]. constructor.
  - destruct (IH _ _ eq_refl) as (o1 & d1 & o2 & Ho & Ht). subst es. exists o1, d1, (o2 ++ ln). split; [done|].
    by econstructor.
Qed.

Lemma history_app d es1 o1 d1 es2 o2 d2 :
  history d es1 o1 d1 → history d1 es2 o2 d2 → history d (es1 ++ es2) (o1 ++ o2) d2.
Proof.
  intros H1. induction 1 as [|es out d3 e ln d4 _ IH Hs]; [by rewrite !app_nil_r|].
  rewrite !app_assoc. by econstructor.
Qed.

(** A life so far, and what it goes on with. *)
Record goes_on (T : Z) (d0 d1 d2 : Daemon) (es1 es2 : list event) : Prop := {
  go_first : lived T d0 d1 es1;
  go_then : ∃ out, history d1 es2 out d2;
  go_clocked : Forall (clocked T) es2;
  go_short : Z.of_nat (length (es1 ++ es2)) < 2 ^ 64 - 1
}.

(** No account pays itself: neither on the chain the process came up with, nor in
    what the events submit.  [orderly] asks it of a mining node only. *)
Definition self_free (d0 : Daemon) (es : list event) : Prop :=
  no_self (all_txns (blocks_ (chain_ (d_node d0)))) ∧ Forall selfless es.
Definition orderly (d0 : Daemon) (es : list event) : Prop :=
  pow_mode (cfg_ (d_node d0)) = true → self_free d0 es.

Lemma self_free_orderly d0 es : self_free d0 es → orderly d0 es.
Proof. by intros Hs _. Qed.

Lemma orderly_app d0 es1 es2 : orderly d0 (es1 ++ es2) → orderly d0 es1.
Proof. intros Ho [Hns [Hs _]%Forall_app]%Ho. by split. Qed.

Lemma goes_on_lived T d0 d1 d2 es1 es2 : goes_on T d0 d1 d2 es1 es2 → lived T d0 d2 (es1 ++ es2).
Proof.
  intros [[Hc Hs [o1 H1] _ Hk] [o2 H2] Hk2 Hsh]. split; [done..| |done|by apply Forall_app].
  exists (o1 ++ o2). by eapply history_app.
Qed.

Lemma goes_on_snoc T d0 d1 d2 es1 es2 e d3 :
  goes_on T d0 d1 d3 es1 (es2 ++ [e]) → (∃ out, history d1 es2 out d2) → goes_on T d0 d1 d2 es1 es2.
Proof.
  intros [Hl _ Hk Hsh] Hh. rewrite app_assoc in Hsh. split; try done.
  - by apply Forall_app in Hk as [? _].
  - rewrite length_app in Hsh. cbn [length] in Hsh. lia.
Qed.

(** Every history conserves the payments. *)
Lemma goes_on_conserves T d0 d1 d2 es1 es2 :
  goes_on T d0 d1 d2 es1 es2 → ∃ ts, conserves ts d1 d2 ∧ sublist ts (omap submits es2).
Proof.
  intros Hg. destruct (go_then _ _ _ _ _ _ Hg) as [out Hh]. induction Hh as [|es out d e ln d' Hh IH Hs].
  { exists []. split; [by apply conserves_same|done]. }
  assert (goes_on T d0 d1 d es1 es) as Hg' by (eapply goes_on_snoc; [done|by exists out]).
  destruct (IH Hg') as (ts & Hts & Hsub). pose proof (goes_on_lived _ _ _ _ _ _ Hg') as Hl.
  destruct (step_conserves _ _ _ _ _ _ _ (lv_short _ _ _ _ Hl) (lived_inv _ _ _ _ Hl) Hs) as (us & Hus & Hsub').
  exists (ts ++ us). split; [by eapply conserves_trans|]. rewrite omap_app. apply sublist_app; [done|].
  cbn [omap list_omap]. by destruct (submits e).
Qed.

Lemma goes_on_refines T d0 d1 d2 es1 es2 q1 :
  goes_on T d0 d1 d2 es1 es2 → orderly d0 (es1 ++ es2) → represents d1 q1 →
  ∃ q2, rtc (qstep (per_block (cfg_ (d_node d0)))) q1 q2 ∧ represents d2 q2 ∧
        ∃ ts, q_log q2 = q_log q1 ++ ts ∧ sublist ts (omap submits es2).
Proof.
  intros Hg Hord Hq. destruct (go_then _ _ _ _ _ _ Hg) as [out Hh].
  induction Hh as [|es out d e ln d' Hh IH Hs].
  { exists q1. split_and!; [done..|]. exists []. by rewrite app_nil_r. }
  assert (goes_on T d0 d1 d es1 es) as Hg' by (eapply goes_on_snoc; [done|by exists out]).
  rewrite app_assoc in Hord. apply orderly_app in Hord.
  destruct (IH Hg' Hord) as (q & Hr & Hrep & ts & Hts & Hsub). pose proof (goes_on_lived _ _ _ _ _ _ Hg') as Hl.
  destruct (lv_clock _ _ _ _ Hl) as [H0 HT].
  destruct (step_refines (cfg_ (d_node d0)) T (length (es1 ++ es)) d e ln d' q H0 HT) as (q' & Hstep & Hrep' & Hlog); try done.
  - apply Hl.
  - by eapply lived_inv.
  - intros [Hns Hself]%Hord. by eapply lived_fresh.
  - exists q'. split_and!; [by eapply rtc_r|done|]. rewrite omap_app. cbn [omap list_omap].
    destruct Hlog as [-> | (t & Ht & ->)]; rewrite Hts.
    + exists ts. split; [done|]. by apply sublist_inserts_r.
    + exists (ts ++ [t]). rewrite Ht, app_assoc. split; [done|]. by apply sublist_app.
Qed.

Lemma start_no_cand host argv now_s now_ms out d :
  txnode_start host argv now_s now_ms = Ret (out, Some d) → d_cand d = None.
Proof.
  unfold txnode_start. destruct (resolve_config _ _) as [cfg| | | |]; try done. cbn [obind].
  destruct (boot _ _ _ _) as [[br nd]| | | |]; try done. cbn [obind]. destruct (br_ok br); cbn [negb]; [|done].
  destruct (load_or_create_wallet _ _ _ _ _) as [[[wr| | | |] kf]|]; try done. cbn [obind].
  destruct (kl_ok wr); cbn [negb]; [|done]. destruct (start _ _ _) as [[up srv] fds]. by intros [= _ <-].
Qed.

Lemma goes_on_step T d0 d1 d2 es1 e es2 :
  goes_on T d0 d1 d2 es1 (e :: es2) → ∃ o d, dstep d1 e = Ret (o, d) ∧ goes_on T d0 d d2 (es1 ++ [e]) es2.
Proof.
  intros [[Hc Hs [o1 H1] _ Hk] [out (o & d & o2 & Hd & Hh)%history_cons] [He Hk2]%Forall_cons Hsh].
  exists o, d. split; [done|]. assert (es1 ++ e :: es2 = (es1 ++ [e]) ++ es2) as Happ by (by rewrite <- app_assoc).
  rewrite Happ in *. split; try done; [|by exists o2]. split; [done..| | |].
  - exists (o1 ++ o). by econstructor.
  - rewrite length_app in Hsh. lia.
  - apply Forall_app. split; [done|by constructor].
Qed.

(** The queue a process represents once it is up, and from then on. *)
Lemma lived_represents T d0 d1 es1 : lived T d0 d1 es1 → orderly d0 es1 → ∃ q, represents d1 q.
Proof.
  intros [Hc (host & argv & s & ms & o & Hn & Hs) Hh Hsh Hk] Hord.
  assert (represents d0 (mkQueue (map payments (blocks_ (chain_ (d_node d0)))) (waiting d0) None)) as Hq.
  { split; [done..|]. cbn [q_seen]. by rewrite (start_no_cand _ _ _ _ _ _ Hs). }
  edestruct (goes_on_refines T d0 d0 d1 [] es1) as (q & _ & Hr & _); [|done|exact Hq|by exists q].
  split; try done. split; [done|by exists host, argv, s, ms, o|by eexists; constructor|done|done].
Qed.

(** A payment on the chain has used up its nonce. *)
Lemma included_nonce D R T c l t :
  chain_shape D R T c l → 0 <= T → T + MAX_CLOCK_SKEW_S < 2 ^ 58 → no_self (all_txns (blocks_ c)) →
  t ∈ all_txns (blocks_ c) → tx_from t ≠ kNullAddr → tx_nonce t < nonce (account c (tx_from t)).
Proof.
  intros Hs H0 HT Hns Ht Hu. pose proof (shape_length _ _ _ _ _ Hs H0 ltac:(lia)) as Hl.
  pose proof (chained_txns _ _ _ _ _ (sh_chained _ _ _ _ _ Hs)) as Hm. unfold MAX_TXNS_PER_BLOCK in Hm.
  rewrite (sh_blocks _ _ _ _ _ Hs), all_txns_genesis in Hns, Ht.
  assert (length (sent (tx_from t) (all_txns l)) ≤ length (all_txns l))%nat as Hse by apply length_filter.
  destruct (counts_runs (tx_from t) R (applyGenesis ∅) l (state_ c) Hu) as [E1 E2]; [|apply Hs|done| |].
  - intros b. by rewrite applyGenesis_nonce.
  - rewrite applyGenesis_nonce. lia.
  - rewrite applyGenesis_nonce in E1, E2. unfold account. rewrite E2.
    assert (tx_nonce t ∈ map tx_nonce (sent (tx_from t) (all_txns l))) as Hin.
    { apply list_elem_of_fmap_2. by apply list_elem_of_filter. }
    rewrite E1, elem_of_seqZ in Hin. lia.
Qed.

Lemma waiting_size d : pool_wf (d_pool d) → (length (waiting d) ≤ pool_size (d_pool d))%nat.
Proof.
  intros Hm. unfold waiting, pool_size. rewrite length_map, <- (length_map me_txid).
  rewrite <- size_dom, <- (size_list_to_set (C := gset Digest32)) by (by apply (sortedBySeq_nodup me_txid)).
  apply subseteq_size. intros id (e & -> & He)%elem_of_list_to_set%list_elem_of_fmap.
  apply sortedBySeq_elem in He; [|done]. by apply elem_of_dom.
Qed.

(** What a [POST] answered 200 has done. *)
Lemma posted_admitted target body ctx r mp :
  handle_request (txt "POST") target body ctx = (r, mp) → status r = 200 →
  ∃ t, submitted body = Some t ∧ admit_txn (mempool_account ctx) (ctx_mempool ctx) t = (AdmitResult.OK, mp).
Proof.
  unfold handle_request. intros Hr Hs. change (bool_decide (txt "POST" = txt "POST")) with true in Hr.
  change (bool_decide (txt "POST" = txt "GET")) with false in Hr. cbn [andb] in Hr.
  destruct (bool_decide (path_of target = txt "/tx")); [|by injection Hr as <- _].
  unfold submit_tx in Hr. unfold submitted. destruct (Hex.from_hex kTxnSize (trim body)) as [bytes|]; [|by injection Hr as <- _].
  cbn [mbind option_bind]. unfold admit_bytes in Hr. destruct (deserialize_txn (arr_list bytes)) as [t|]; [|by injection Hr as <- _].
  destruct (admit_txn _ _ t) as [ar mp'] eqn:Ha. exists t. split; [done|].
  case_bool_decide as Hok; [subst ar; by injection Hr as _ <-|]. injection Hr as <- _. by destruct ar.
Qed.

(** The blocks since, and the payments in them. *)
Definition new_blocks (d1 d2 : Daemon) : list Block :=
  drop (length (blocks_ (chain_ (d_node d1)))) (blocks_ (chain_ (d_node d2))).
Definition new_payments (d1 d2 : Daemon) : list Txn := concat (map payments (new_blocks d1 d2)).

Lemma served_since_new d1 d2 q1 q2 t :
  represents d1 q1 → represents d2 q2 → served_since q1 q2 t → t ∈ new_payments d1 d2.
Proof.
  intros [H1 _ _] [H2 _ _] (bs & Hbs & Ht). unfold new_payments, new_blocks.
  assert (map payments (drop (length (blocks_ (chain_ (d_node d1)))) (blocks_ (chain_ (d_node d2)))) = bs) as ->; [|done].
  rewrite <- skipn_map, <- H2, Hbs, H1.
  apply drop_app_length'. by rewrite length_map.
Qed.

Lemma served_count d1 d2 q1 q2 :
  represents d1 q1 → represents d2 q2 → prefix (q_served q1) (q_served q2) →
  (length (q_served q1) + length (new_blocks d1 d2) = length (q_served q2))%nat.
Proof.
  intros [-> _ _] [-> _ _] Hp%prefix_length. rewrite !length_map in *. unfold new_blocks. rewrite length_drop. lia.
Qed.

(** The payment a daemon has just accepted is last in line. *)
Lemma accepted_last d mp t :
  pool_wf (d_pool d) → next_seq_ (d_pool d) < 2 ^ 64 - 1 →
  admit_txn (account (chain_ (d_node d))) (d_pool d) t = (AdmitResult.OK, mp) →
  waiting (with_pool d mp) !! length (waiting d) = Some t ∧ (pool_size (d_pool d) < cap_ (d_pool d))%nat.
Proof.
  intros Hm Hq Ha. split; [|by apply admit_ok_iff in Ha as (_ & _ & _ & _ & _ & ? & _)].
  unfold waiting. cbn [with_pool d_pool]. destruct (admitted_wf _ _ _ _ Hm Hq Ha) as [_ ->].
  rewrite map_app. by apply list_lookup_middle.
Qed.

Lemma due_bound cfg d q p k :
  represents d q → (p ≤ k)%nat →
  (q_due (per_block cfg) q p ≤ k / per_block cfg + if d_cand d then 2 else 1)%nat.
Proof.
  intros [_ _ Hs] Hp. unfold q_due. pose proof (Nat.Div0.div_le_mono p k (per_block cfg) Hp).
  destruct (d_cand d), (q_seen q) as [v|]; try done; [|lia]. destruct (p <? v)%nat; lia.
Qed.

Lemma per_block_bounds cfg : (7 ≤ per_block cfg ≤ 8)%nat.
Proof. unfold per_block, MAX_TXNS_PER_BLOCK. destruct (pow_mode cfg); lia. Qed.

Lemma new_payment_in d1 d2 t : t ∈ new_payments d1 d2 → t ∈ all_txns (new_blocks d1 d2).
Proof.
  unfold new_payments, all_txns. intros (l & Ht & Hl)%list_elem_of_In%in_concat.
  apply list_elem_of_In, list_elem_of_fmap in Ht as (b & -> & Hb). apply list_elem_of_In, list_elem_of_filter in Hl as [_ Hl].
  apply list_elem_of_In, in_flat_map. exists b. by split; apply list_elem_of_In.
Qed.

Lemma new_payment_user d1 d2 t :
  t ∈ new_payments d1 d2 → t ∈ all_txns (blocks_ (chain_ (d_node d2))) ∧ tx_from t ≠ kNullAddr.
Proof.
  unfold new_payments, new_blocks. intros (l & Ht & Hl)%list_elem_of_In%in_concat.
  apply list_elem_of_In, list_elem_of_fmap in Ht as (b & -> & Hb). apply list_elem_of_In in Hl.
  apply list_elem_of_filter in Hl as [Hu Hl]. split; [|done].
  apply list_elem_of_In, in_flat_map. exists b. split; apply list_elem_of_In; [|done].
  rewrite <- (take_drop (length (blocks_ (chain_ (d_node d1)))) (blocks_ (chain_ (d_node d2)))). apply elem_of_app. by right.
Qed.

(** The blocks after which an accepted payment is on the chain at the latest. *)
Definition blocks_due (cfg : NodeConfig) (d : Daemon) : nat :=
  (pool_size (d_pool d) / per_block cfg + if d_cand d then 2 else 1)%nat.

Lemma due_at_most cfg d : (pool_size (d_pool d) ≤ kMempoolCap)%nat → (blocks_due cfg d ≤ 587)%nat.
Proof.
  intros Hp. pose proof (per_block_bounds cfg). assert (pool_size (d_pool d) / per_block cfg ≤ 585)%nat.
  - apply Nat.lt_succ_r, Nat.Div0.div_lt_upper_bound. unfold kMempoolCap in Hp. nia.
  - unfold blocks_due. destruct (d_cand d); lia.
Qed.

(** Where a payment that is waiting is from then on, whatever happens. *)
Lemma waiting_kept T d0 d1 d2 es1 es2 t :
  goes_on T d0 d1 d2 es1 es2 → t ∈ waiting d1 → t ∈ waiting d2 ∨ t ∈ new_payments d1 d2.
Proof.
  intros (ts & (bs & Hb & Hp) & _)%goes_on_conserves Ht.
  assert (new_payments d1 d2 = concat (map payments bs)) as ->.
  { unfold new_payments, new_blocks. by rewrite Hb, drop_app_length. }
  assert (t ∈ waiting d1 ++ ts) as Hin by (apply elem_of_app; by left).
  rewrite <- Hp in Hin. apply elem_of_app in Hin. tauto.
Qed.

(** In an orderly history it is on the chain when it is due. *)
Lemma waiting_served T d0 d1 d2 es1 es2 t p k :
  let cfg := cfg_ (d_node d0) in
  goes_on T d0 d1 d2 es1 es2 → orderly d0 (es1 ++ es2) → waiting d1 !! p = Some t → (p ≤ k)%nat →
  (k / per_block cfg + (if d_cand d1 then 2 else 1) ≤ length (new_blocks d1 d2))%nat → t ∈ new_payments d1 d2.
Proof.
  intros cfg Hg Hord Hp Hk Hdue. pose proof (per_block_bounds cfg) as Hn.
  destruct (lived_represents _ _ _ _ (go_first _ _ _ _ _ _ Hg) (orderly_app _ _ _ Hord)) as [q1 Hq1].
  destruct (goes_on_refines _ _ _ _ _ _ _ Hg Hord Hq1) as (q2 & Hrun & Hq2 & _). fold cfg in Hrun.
  rewrite <- (rp_waiting _ _ Hq1) in Hp.
  pose proof (served_count _ _ _ _ Hq1 Hq2 (qsteps_served _ _ _ Hrun)) as Hcount.
  pose proof (due_bound cfg _ _ _ _ Hq1 Hk) as Hb.
  destruct (qsteps_progress (per_block cfg) _ _ _ _ ltac:(lia) Hrun Hp) as [(p' & Hp' & Hd)|Hserved].
  - unfold q_due at 1 in Hd. lia.
  - by apply (served_since_new _ _ _ _ _ Hq1 Hq2) in Hserved.
Qed.

(** Where a payment the node has admitted is from then on. *)
Lemma admitted_kept T d0 d1 d2 es1 es2 target body r mp t :
  goes_on T d0 d1 d2 es1 (Request (txt "POST") target body :: es2) → d_rpc d1 = true →
  rpc_handler (d_node d1) (d_pool d1) (txt "POST") target body = (r, mp) →
  admit_txn (account (chain_ (d_node d1))) (d_pool d1) t = (AdmitResult.OK, mp) →
  goes_on T d0 (with_pool d1 mp) d2 (es1 ++ [Request (txt "POST") target body]) es2 ∧
  waiting (with_pool d1 mp) !! length (waiting d1) = Some t ∧
  (length (waiting d1) ≤ pool_size (d_pool d1) < kMempoolCap)%nat ∧ (length (waiting d1) ≤ pool_size mp ≤ kMempoolCap)%nat.
Proof.
  intros Hg Hrpc Hr Ha. pose proof (go_first _ _ _ _ _ _ Hg) as Hl.
  destruct (lived_inv _ _ _ _ Hl) as [_ _ Hp Hq _ _]. pose proof (lv_short _ _ _ _ Hl).
  destruct (pool_reach_wf _ _ Hp) as [Hm Hcap].
  destruct (accepted_last _ _ _ Hm ltac:(lia) Ha) as [Hlast Hroom]. rewrite Hcap in Hroom.
  destruct (goes_on_step _ _ _ _ _ _ _ Hg) as (o & d & Hd & Hg'). cbn [dstep] in Hd. rewrite Hrpc, Hr in Hd.
  injection Hd as _ <-. pose proof (lookup_lt_Some _ _ _ Hlast) as Hlt.
  destruct (lived_inv _ _ _ _ (go_first _ _ _ _ _ _ Hg')) as [_ _ Hp' _ _ _].
  destruct (pool_reach_wf _ _ Hp') as [Hm' Hcap']. pose proof (waiting_size (with_pool d1 mp) Hm') as Hsz.
  pose proof (wf_cap _ Hm') as Hle. cbn [with_pool d_pool] in *. rewrite Hcap' in Hle.
  split_and!; [done|done|by apply waiting_size|done|lia|done].
Qed.

(** Without self-transfers, a payment on the chain has used up its nonce. *)
Lemma confirmed_nonce T d0 d1 d2 es1 es2 t :
  goes_on T d0 d1 d2 es1 es2 → self_free d0 (es1 ++ es2) → t ∈ new_payments d1 d2 →
  tx_nonce t < nonce (account (chain_ (d_node d2)) (tx_from t)).
Proof.
  intros Hg [Hns Hself] [Hin Hu]%new_payment_user. pose proof (goes_on_lived _ _ _ _ _ _ Hg) as Hl.
  destruct (lv_clock _ _ _ _ Hl) as [H0 HT]. destruct (lived_inv _ _ _ _ Hl) as [_ [l Hs] _ _ _ _].
  destruct (lived_fresh _ _ _ _ Hl Hns Hself) as [Hns' _]. by eapply included_nonce.
Qed.

(** ** The tool and the process

    [send --node] makes two requests.  Between them, and before the first, the
    process may do anything else: serve other clients, seal, mine.  The state the
    requests act on is the process with the events it has been through. *)

Definition process : Type := list event * Daemon.

(** A tool's view of the process behind a network: each call finds the process
    some events later, is carried (file Http) to the node as it is then, and is
    one more event. *)
Definition delivers
    (http : process → list byte → list byte → Z → list byte → list byte → outcome HttpResult * process) : Prop :=
  ∀ es d method host port path body res p,
    plain_request method host path → size_of (request_text method host path body) <= kMaxRequestBytes →
    http (es, d) method host port path body = (res, p) →
    ∃ gap out d1 call mp,
      history d gap out d1 ∧ carries (d_node d1) call ∧
      call (d_pool d1) method host port path body = (res, mp) ∧
      p = (es ++ gap ++ [Request method path body], with_pool d1 mp).

Lemma history_rpc d es out d' : history d es out d' → d_rpc d' = d_rpc d.
Proof.
  induction 1 as [|es out d1 e ln d2 _ <- Hs]; [done|].
  destruct e as [m t b|sys ms s ms'|s|sys fuel stop s|]; cbn [dstep] in Hs.
  - destruct (negb _); [by injection Hs as _ <-|]. destruct (rpc_handler _ _ _ _ _). by injection Hs as _ <-.
  - destruct (_ || _ || _); [by injection Hs as _ <-|]. destruct (seal_tick _ _ _ _) as [[[r nd] mp]| | | |]; try done.
    by injection Hs as _ <-.
  - destruct (_ || _ || _); by injection Hs as _ <-.
  - destruct (d_cand d1); [|by injection Hs as _ <-]. destruct (mine _ _ _ _) as [[b|]|]; try done; [|by injection Hs as _ <-].
    destruct (commit_mined _ _ _ _ _) as [[[r nd] mp]| | | |]; try done. by injection Hs as _ <-.
  - by injection Hs as _ <-.
Qed.

(** One call, from the process's side. *)
Lemma delivered http es d method host port path body res p :
  delivers http → plain_request method host path → size_of (request_text method host path body) <= kMaxRequestBytes →
  http (es, d) method host port path body = (res, p) → d_rpc d = true →
  ∃ gap out d1 r mp,
    history d gap out d1 ∧ d_rpc d1 = true ∧ rpc_handler (d_node d1) (d_pool d1) method path body = (r, mp) ∧
    res = Ret (mkHttp true (status r) (resp_body r)) ∧
    p = (es ++ gap ++ [Request method path body], with_pool d1 mp) ∧
    ∃ out', history d (gap ++ [Request method path body]) out' (with_pool d1 mp).
Proof.
  intros Hd Hp Hs Hc Hrpc. destruct (Hd _ _ _ _ _ _ _ _ _ Hp Hs Hc) as (gap & out & d1 & call & mp & Hh & Hcar & Hcall & ->).
  rewrite (carried_call (d_node d1) call) in Hcall by done.
  destruct (rpc_handler (d_node d1) (d_pool d1) method path body) as [r mp1] eqn:Hr. injection Hcall as <- <-.
  assert (d_rpc d1 = true) as Hrpc1 by (by rewrite (history_rpc _ _ _ _ Hh)).
  exists gap, out, d1, r, mp1. split_and!; [done..|]. exists (out ++ []). eapply history_step; [exact Hh|].
  cbn [dstep]. by rewrite Hrpc1, Hr.
Qed.

(** Every success status of the node is 200. *)
Lemma rpc_success nd mp method path body :
  status (rpc_handler nd mp method path body).1 / 100 = 2 → status (rpc_handler nd mp method path body).1 = 200.
Proof.
  unfold rpc_handler, handle_request, submit_tx, account_resp.
  repeat (case_match; cbn [fst status]; try done). all: simplify_eq/=; try done.
  all: unfold admit_status; by case_match.
Qed.

Lemma lived_more T d0 d1 d2 es1 es2 out es3 :
  lived T d0 d1 es1 → history d1 es2 out d2 → Forall (clocked T) (es1 ++ es2 ++ es3) →
  Z.of_nat (length (es1 ++ es2 ++ es3)) < 2 ^ 64 - 1 → lived T d0 d2 (es1 ++ es2).
Proof.
  intros [Hc Hs [o1 H1] _ _] H2 Hk Hsh. rewrite app_assoc in Hk, Hsh. apply Forall_app in Hk as [Hk _].
  rewrite length_app in Hsh. split; [done..| |lia|done]. exists (o1 ++ out). by eapply history_app.
Qed.

Lemma submitted_hex t :
  txn_ok t → tx_ver t = kTxnVersion → submitted (Hex.to_hex (serialize_txn t)) = Some t.
Proof.
  intros Ht Hv. unfold submitted. pose proof (trim_around [] [] (Hex.to_hex (serialize_txn t))) as Htrim.
  rewrite app_nil_r in Htrim. cbn [app] in Htrim. rewrite Htrim by (constructor || done || apply hex_not_blank ||
    (intros Hn%(f_equal length); rewrite Hex.to_hex_length, serialize_txn_length in Hn; done)).
  assert (serialize_txn t = arr_list (arr_of kTxnSize (serialize_txn t))) as Es
    by (by rewrite arr_of_list by apply serialize_txn_length).
  rewrite Es at 1. rewrite Hex.from_to_hex. cbn [mbind option_bind]. rewrite <- Es. by apply deserialize_of_serialize.
Qed.

(** The process after [send --node] has been through the events its state lists. *)
Lemma sent_history d0 d1 dr es1 esr out http argv w to wl o :
  delivers http → can_call argv w to wl → d_rpc d1 = true → history d0 es1 out d1 →
  run_send http argv w (es1, d1) = (Ret o, (esr, dr)) → code o = 0 → ∃ out', history d0 esr out' dr.
Proof.
  intros Hd Hc Hrpc Hh0 Hrun Hok.
  destruct (send_exit http argv w _ _ o to wl Hc Hrun Hok) as
    (host & port & r1 & [es1' d1'] & n & r2 & Hh & Hsz & Hget & _ & Hpost & _).
  destruct (account_call host (w_address wl) Hh Hsz) as [Hp1 Hs1].
  destruct (submit_call host (sign_txn (w_seed wl) to (strtoull (opt argv 2 "--amount")) n) Hh Hsz) as [Hp2 Hs2].
  destruct (delivered http _ _ _ _ _ _ _ _ _ Hd Hp1 Hs1 Hget Hrpc) as (g1 & o1 & da & ra & mpa & _ & _ & _ & _ & [= -> ->] & oa & Ha).
  assert (d_rpc (with_pool da mpa) = true) as Hrpc' by (by rewrite (history_rpc _ _ _ _ Ha)).
  destruct (delivered http _ _ _ _ _ _ _ _ _ Hd Hp2 Hs2 Hpost Hrpc') as (g2 & o2 & dp & r & mp & _ & _ & _ & _ & [= -> ->] & ob & Hb).
  exists ((out ++ oa) ++ ob). eapply history_app; [by eapply history_app|done].
Qed.

(** When [send --node] exits 0 the node has admitted its transaction. *)
Lemma sent_admitted T d0 d1 dr es1 esr http argv w to wl o :
  delivers http → can_call argv w to wl → d_rpc d1 = true → lived T d0 d1 es1 → lived T d0 dr esr →
  run_send http argv w (es1, d1) = (Ret o, (esr, dr)) → code o = 0 →
  ∃ n es dp r mp,
    let t := sign_txn (w_seed wl) to (strtoull (opt argv 2 "--amount")) n in
    let body := Hex.to_hex (serialize_txn t) in
    esr = es ++ [Request (txt "POST") (txt "/tx") body] ∧ dr = with_pool dp mp ∧ lived T d0 dp es ∧ d_rpc dp = true ∧
    rpc_handler (d_node dp) (d_pool dp) (txt "POST") (txt "/tx") body = (r, mp) ∧
    admit_txn (account (chain_ (d_node dp))) (d_pool dp) t = (AdmitResult.OK, mp).
Proof.
  intros Hd Hc Hrpc Hl Hlr Hrun Hok.
  destruct (send_exit http argv w _ _ o to wl Hc Hrun Hok) as
    (host & port & r1 & [es1' d1'] & n & r2 & Hh & Hsz & Hget & Hn & Hpost & Hyes & Hst).
  set (t := sign_txn _ _ _ n) in *. destruct (account_call host (w_address wl) Hh Hsz) as [Hp1 Hs1].
  destruct (submit_call host t Hh Hsz) as [Hp2 Hs2].
  destruct (delivered http _ _ _ _ _ _ _ _ _ Hd Hp1 Hs1 Hget Hrpc) as (g1 & o1 & da & ra & mpa & _ & _ & _ & _ & [= -> ->] & oa & Ha).
  assert (d_rpc (with_pool da mpa) = true) as Hrpc' by (by rewrite (history_rpc _ _ _ _ Ha)).
  destruct (delivered http _ _ _ _ _ _ _ _ _ Hd Hp2 Hs2 Hpost Hrpc') as (g2 & o2 & dp & r & mp & Hh2 & Hrpc2 & Hr & [= ->] & [= -> ->] & _).
  cbn [http_status] in Hst. pose proof (lv_clocked _ _ _ _ Hlr) as Hk. pose proof (lv_short _ _ _ _ Hlr) as Hsh.
  set (post := Request (txt "POST") (txt "/tx") (Hex.to_hex (serialize_txn t))) in *.
  set (query := Request (txt "GET") (account_path (w_address wl)) []) in *.
  repeat rewrite <- app_assoc in Hk, Hsh. exists n, ((es1 ++ g1 ++ [query]) ++ g2), dp, r, mp. cbv zeta. fold t post.
  split_and!; [by rewrite <- !app_assoc|done| |done|done|].
  - eapply (lived_more T d0 (with_pool da mpa) dp (es1 ++ g1 ++ [query]) g2 o2 [post]); [|done|by rewrite <- ?app_assoc..].
    eapply (lived_more T d0 d1 _ es1 (g1 ++ [query]) oa (g2 ++ [post])); [done|done|by rewrite <- ?app_assoc..].
  - pose proof (rpc_success (d_node dp) (d_pool dp) (txt "POST") (txt "/tx") (Hex.to_hex (serialize_txn t))) as H200.
    rewrite Hr in H200. specialize (H200 Hst).
    destruct (posted_admitted _ _ _ _ _ Hr H200) as (u & Hu & Had). cbn [mempool_account node_ctx ctx_mempool] in Had.
    assert (submitted (Hex.to_hex (serialize_txn t)) = Some t) as Ht; [|by simplify_eq].
    apply submitted_hex; [|done]. split; [done|]. split; [apply strtoull_range|exact Hn].
Qed.
End histories.

(** C6. No event loses or repeats an accepted payment: from any moment of a process
    on, through any requests, seals, snapshots, mined or abandoned blocks and
    signals, the payments on the chain and those in the mempool are together what
    they were and those accepted since, all of them submitted.  And the order is
    that of a first-come-first-served queue that serves its waiting payments in
    batches of at most eight (seven behind a coinbase): always on a node that seals
    on a cadence, and on a mining node provided no account pays itself, on the
    chain it came up with or in what is submitted; every event is then at most one
    step of that queue, and the log of payments, chain first and mempool after,
    only grows at its end. *)
Theorem node_is_queue {H : HashFn} {E : Ed25519} T d0 d1 d2 es1 es2 :
  goes_on T d0 d1 d2 es1 es2 →
  (∃ accepted, ledger_log d2 ≡ₚ ledger_log d1 ++ accepted ∧ sublist accepted (omap submits es2)) ∧
  (orderly d0 (es1 ++ es2) →
   (∃ q1 q2, represents d1 q1 ∧ represents d2 q2 ∧ rtc (qstep (per_block (cfg_ (d_node d0)))) q1 q2) ∧
   ∃ accepted, ledger_log d2 = ledger_log d1 ++ accepted ∧ sublist accepted (omap submits es2)).
Proof.
  intros Hg. split.
  - destruct (goes_on_conserves _ _ _ _ _ _ Hg) as (ts & (bs & Hb & Hp) & Hsub). exists ts. split; [|done].
    unfold ledger_log. rewrite Hb, map_app, concat_app, <- !app_assoc. by rewrite Hp.
  - intros Hord. destruct (lived_represents _ _ _ _ (go_first _ _ _ _ _ _ Hg) (orderly_app _ _ _ Hord)) as [q1 H1].
    destruct (goes_on_refines _ _ _ _ _ _ _ Hg Hord H1) as (q2 & Hr & H2 & ts & Hts & Hsub).
    split; [by exists q1, q2|]. exists ts. by rewrite <- (represents_log _ _ H1), <- (represents_log _ _ H2).
Qed.

(** C5. An accepted payment is confirmed within a bounded number of blocks.  Once the
    node has answered 200 to a posted transaction, then whatever happens next the
    payment is in the mempool or on the chain.  On a node that seals on a cadence,
    and on a mining node as long as no account pays itself, it is on the chain when
    as many blocks have been committed as the line before it takes: one for every
    seven (eight without mining) waiting payments, one for itself, and one if a
    search that has not seen it is under way, 587 at the very most.  And where no
    account pays itself its nonce is then used up (the gate leaves the nonce of a
    self-transfer where it is). *)
Theorem payment_confirmed {H : HashFn} {E : Ed25519} T d0 d1 d2 es1 es2 target body :
  let cfg := cfg_ (d_node d0) in
  let all := es1 ++ Request (txt "POST") target body :: es2 in
  goes_on T d0 d1 d2 es1 (Request (txt "POST") target body :: es2) →
  d_rpc d1 = true → status (rpc_handler (d_node d1) (d_pool d1) (txt "POST") target body).1 = 200 →
  (blocks_due cfg d1 ≤ 587)%nat ∧
  ∃ t, submitted body = Some t ∧ (t ∈ waiting d2 ∨ t ∈ new_payments d1 d2) ∧
    (orderly d0 all → (blocks_due cfg d1 ≤ length (new_blocks d1 d2))%nat → t ∈ new_payments d1 d2) ∧
    (self_free d0 all → t ∈ new_payments d1 d2 → tx_nonce t < nonce (account (chain_ (d_node d2)) (tx_from t))).
Proof.
  intros cfg all Hg Hrpc Hst. destruct (rpc_handler _ _ _ _ _) as [r mp] eqn:Hr.
  destruct (posted_admitted _ _ _ _ _ Hr Hst) as (t & Hsub & Ha).
  destruct (admitted_kept _ _ _ _ _ _ _ _ _ _ _ Hg Hrpc Hr Ha) as (Hg' & Hlast & [Hw Hcap] & _).
  split; [by apply due_at_most; lia|]. exists t.
  change (new_payments d1 d2) with (new_payments (with_pool d1 mp) d2).
  change (new_blocks d1 d2) with (new_blocks (with_pool d1 mp) d2).
  assert (all = (es1 ++ [Request (txt "POST") target body]) ++ es2) as Hall by (unfold all; by rewrite <- app_assoc).
  rewrite Hall. split_and!; [done|..].
  - eapply waiting_kept; [exact Hg'|]. by eapply list_elem_of_lookup_2.
  - intros Hord Hdue. by eapply (waiting_served T d0 (with_pool d1 mp)).
  - intros Hfree. by eapply confirmed_nonce.
Qed.

(** C25. From the command line to the chain: when [txchain send --node] exits 0, over
    any network that delivers what is written and to a process that may do anything
    else before and between the tool's two requests, the node has a transaction of
    that wallet for that payee and amount, with the nonce the account has, in its
    mempool or in its blocks from then on; on a node that seals on a cadence, and on
    a mining node as long as no account pays itself, it is in the blocks once as
    many have been committed as the line takes (at most 587); and where no account
    pays itself the account's nonce has then moved past it. *)
Theorem sent_is_confirmed {H : HashFn} {E : Ed25519} T d0 d1 dr d2 es1 esr es2 http argv w to wl o :
  let cfg := cfg_ (d_node d0) in
  delivers http → can_call argv w to wl → d_rpc d1 = true → lived T d0 d1 es1 →
  run_send http argv w (es1, d1) = (Ret o, (esr, dr)) → code o = 0 → goes_on T d0 dr d2 esr es2 →
  (blocks_due cfg dr ≤ 587)%nat ∧
  ∃ t, tx_from t = w_address wl ∧ tx_to t = to ∧ tx_amount t = strtoull (opt argv 2 "--amount") ∧
       tx_nonce t = nonce (account (chain_ (d_node dr)) (w_address wl)) ∧
       (t ∈ waiting d2 ∨ t ∈ new_payments dr d2) ∧
       (orderly d0 (esr ++ es2) → (blocks_due cfg dr ≤ length (new_blocks dr d2))%nat →
        t ∈ all_txns (new_blocks dr d2)) ∧
       (self_free d0 (esr ++ es2) → t ∈ new_payments dr d2 →
        tx_nonce t < nonce (account (chain_ (d_node d2)) (w_address wl))).
Proof.
  intros cfg Hd Hc Hrpc Hl Hrun Hok Hg.
  destruct (sent_admitted T d0 d1 dr es1 esr http argv w to wl o Hd Hc Hrpc Hl (go_first _ _ _ _ _ _ Hg) Hrun Hok) as
    (n & es & dp & r & mp & -> & -> & Hlp & Hrpc' & Hr & Ha).
  set (t := sign_txn _ _ _ n) in *. set (body := Hex.to_hex _) in *.
  assert (goes_on T d0 dp d2 es (Request (txt "POST") (txt "/tx") body :: es2)) as Hgp.
  { destruct Hg as [Hlr [out Ho] Hk Hsh]. rewrite <- app_assoc in Hsh. split; [done| |by constructor|done].
    exists ([] ++ out). apply (history_app _ [_] [] (with_pool dp mp)); [|done].
    apply (history_step dp [] [] dp); [constructor|]. cbn [dstep]. by rewrite Hrpc', Hr. }
  destruct (admitted_kept _ _ _ _ _ _ _ _ _ _ _ Hgp Hrpc' Hr Ha) as (_ & Hlast & _ & [Hw Hfull]).
  split; [by apply due_at_most|]. exists t.
  assert (tx_from t = w_address wl) as Hfrom.
  { destruct (wallet_derived _ _ _ _ Hc) as [Hp Hw']. by rewrite Hw', Hp. }
  split_and!; [done|done|done| |..].
  - apply admit_ok_iff in Ha as (_ & Hn & _). by rewrite <- Hfrom.
  - eapply waiting_kept; [exact Hg|]. by eapply list_elem_of_lookup_2.
  - intros Hord Hdue. apply new_payment_in. by eapply (waiting_served T d0 (with_pool dp mp)).
  - intros Hfree Ht. rewrite <- Hfrom. eapply confirmed_nonce; [exact Hg|done..].
Qed.

(** ** The theorems at a concrete history

    The node of file Daemon's example: while it searches its second block a
    payment is posted; the second block does not contain it, the third does. *)

Module PaymentsDemo.
#[local] Existing Instances Demo.demo_hash Demo.demo_ed.

Definition before : list event := take 3 DaemonDemo.es.
Definition body : list byte := Hex.to_hex (serialize_txn DaemonDemo.pay).
Definition after : list event :=
  [Mined DaemonDemo.disk 5 (λ _, false) DaemonDemo.now; Snapshot DaemonDemo.now;
   Mined DaemonDemo.disk 5 (λ _, false) DaemonDemo.now].
Definition post : event := Request (txt "POST") (txt "/tx") body.

Definition d1 : Daemon := (DaemonDemo.the (run_events DaemonDemo.d0 before) ([], DaemonDemo.idle)).2.
Definition d2 : Daemon := (DaemonDemo.the (run_events d1 (post :: after)) ([], DaemonDemo.idle)).2.

Lemma ran_history d es :
  DaemonDemo.returns (run_events d es) = true →
  ∃ out, history d es out (DaemonDemo.the (run_events d es) ([], DaemonDemo.idle)).2.
Proof.
  intros Hr. exists (DaemonDemo.the (run_events d es) ([], DaemonDemo.idle)).1. apply run_events_history.
  rewrite <- surjective_pairing. by apply DaemonDemo.the_returns.
Qed.

Lemma continues : goes_on DaemonDemo.now DaemonDemo.d0 d1 d2 before (post :: after).
Proof.
  destruct DaemonDemo.lived6 as [Hc Hs _ _ _]. split; [split; [done..| |done|]|..].
  - apply ran_history. by vm_compute.
  - by repeat constructor.
  - apply ran_history. by vm_compute.
  - by repeat constructor.
  - done.
Qed.
Lemma free : self_free DaemonDemo.d0 (before ++ post :: after).
Proof.
  split; [apply DaemonDemo.no_self0|].
  assert (selfless post) as Hp by exact (proj1 (Forall_forall _ _) DaemonDemo.selfless6 post ltac:(set_solver)).
  assert (Forall selfless after) as Ha by (by repeat constructor).
  assert (Forall selfless before) as Hb by (by repeat constructor).
  by apply Forall_app_2, Forall_cons_2.
Qed.

Lemma serving : d_rpc d1 = true.
Proof. by vm_compute. Qed.
Lemma answered : status (rpc_handler (d_node d1) (d_pool d1) (txt "POST") (txt "/tx") body).1 = 200.
Proof. by vm_compute. Qed.
Lemma two_blocks :
  (blocks_due (cfg_ (d_node DaemonDemo.d0)) d1 ≤ length (new_blocks d1 d2))%nat.
Proof. apply (bool_decide_unpack _). by vm_compute. Qed.
End PaymentsDemo.

Lemma node_is_queue_witness :
  (∃ accepted, ledger_log PaymentsDemo.d2 ≡ₚ ledger_log PaymentsDemo.d1 ++ accepted) ∧
  ∃ accepted, ledger_log PaymentsDemo.d2 = ledger_log PaymentsDemo.d1 ++ accepted.
Proof.
  destruct (node_is_queue (H := Demo.demo_hash) (E := Demo.demo_ed) _ _ _ _ _ _ PaymentsDemo.continues) as ((ts & Hts & _) & Hord).
  split; [by exists ts|]. destruct (Hord (self_free_orderly _ _ PaymentsDemo.free)) as (_ & us & Hus & _). by exists us.
Defined.

Lemma payment_confirmed_witness :
  ∃ t, submitted PaymentsDemo.body = Some t ∧ t ∈ new_payments PaymentsDemo.d1 PaymentsDemo.d2 ∧
       tx_nonce t < nonce (account (chain_ (d_node PaymentsDemo.d2)) (tx_from t)).
Proof.
  destruct (payment_confirmed (H := Demo.demo_hash) (E := Demo.demo_ed) _ _ _ _ _ _ _ _ PaymentsDemo.continues
    PaymentsDemo.serving PaymentsDemo.answered) as (_ & t & Hs & _ & Hc & Hn).
  pose proof (Hc (self_free_orderly _ _ PaymentsDemo.free) PaymentsDemo.two_blocks) as Ht.
  exists t. exact (conj Hs (conj Ht (Hn PaymentsDemo.free Ht))).
Defined.

Module SentDemo.
#[local] Existing Instances Demo.demo_hash Demo.demo_ed.

(** The miner of the example pays from the command line, while another client
    asks for the tip before each of the tool's requests. *)
Definition argv : list (list byte) :=
  map txt ["txchain"; "send"; "--to"] ++ [Hex.to_hex (arr_list GateDemo.addrB)] ++
  map txt ["--amount"; "7"; "--node"; "127.0.0.1:9334"; "--key"; "k"].
Definition world : World :=
  with_key CliDemo.world (txt "k") (Some (mkKeyfile mode_0600 (wallet_json KeyDemo.w))).

Definition ask : event := Request (txt "GET") (txt "/tip") [].
Definition relay (p : process) (method host : list byte) (port : Z) (path body : list byte) : outcome HttpResult * process :=
  let d := (DaemonDemo.the (dstep p.2 ask) ([], DaemonDemo.idle)).2 in
  let '(res, mp) := CliDemo.loopback (d_node d) (d_pool d) method host port path body in
  (res, (p.1 ++ [ask] ++ [Request method path body], with_pool d mp)).

Lemma asked d : ∃ out d', dstep d ask = Ret (out, d').
Proof.
  cbn [dstep ask]. destruct (negb _); [by eauto|]. destruct (rpc_handler _ _ _ _ _). by eauto.
Qed.

Lemma relay_delivers : delivers relay.
Proof.
  intros es d method host port path body res p Hp Hs. unfold relay. cbn [fst snd].
  destruct (asked d) as (out & d1 & Hd). rewrite Hd. cbn [DaemonDemo.the snd].
  destruct (CliDemo.loopback (d_node d1) (d_pool d1) method host port path body) as [r mp] eqn:Hl. intros [= <- <-].
  exists [ask], ([] ++ out), d1, (CliDemo.loopback (d_node d1)), mp. split_and!; [|apply CliDemo.loopback_carries|done..].
  apply (history_step d [] [] d); [constructor|done].
Qed.

Lemma callable : can_call argv world GateDemo.addrB KeyDemo.w.
Proof.
  split.
  - apply (bool_decide_unpack _). by vm_compute.
  - by vm_compute.
  - exists (txt "127.0.0.1"), 9334. split; [apply (bool_decide_unpack _); by vm_compute|]. split; [by repeat constructor|by vm_compute].
  - exists false. apply (bool_decide_unpack _). by vm_compute.
Qed.

Definition ran : outcome Out * process := run_send relay argv world (PaymentsDemo.before, PaymentsDemo.d1).
Definition esr : list event := ran.2.1.
Definition dr : Daemon := ran.2.2.
Definition d2 : Daemon := (DaemonDemo.the (run_events dr PaymentsDemo.after) ([], DaemonDemo.idle)).2.

Lemma exits_0 (p : outcome Out * process) :
  match p.1 with Ret o => code o =? 0 | _ => false end = true → ∃ o, p = (Ret o, (p.2.1, p.2.2)) ∧ code o = 0.
Proof. destruct p as [[o| | | |] [es d]]; try done. intros Ho%Z.eqb_eq. by exists o. Qed.
Lemma ran_exits : ∃ o, ran = (Ret o, (esr, dr)) ∧ code o = 0.
Proof. unfold esr, dr. apply (exits_0 ran). by vm_compute. Qed.
Lemma ran_eq : ran = run_send relay argv world (PaymentsDemo.before, PaymentsDemo.d1).
Proof. unfold ran. reflexivity. Qed.
Lemma sends :
  ∃ o, run_send relay argv world (PaymentsDemo.before, PaymentsDemo.d1) = (Ret o, (esr, dr)) ∧ code o = 0.
Proof. rewrite <- ran_eq. exact ran_exits. Qed.

Definition plain_event (e : event) : bool :=
  match e with
  | Tick _ _ s _ | Snapshot s | Mined _ _ _ s => (0 <=? s) && (s <=? DaemonDemo.now)
  | Request _ _ body => match submitted body with Some t => negb (bool_decide (tx_from t = tx_to t)) | None => true end
  | Signal => true
  end.
Lemma plain_events es : forallb plain_event es = true → Forall (clocked DaemonDemo.now) es ∧ Forall selfless es.
Proof.
  intros Hes. split; apply Forall_forall; intros e He%list_elem_of_In; eapply forallb_forall in Hes; try exact He;
    destruct e; cbn in *; reflect_bools; try done; try lia.
  destruct (submitted _); [|done]. by reflect_bools.
Qed.
Lemma plain_all : forallb plain_event (esr ++ PaymentsDemo.after) = true.
Proof. by vm_compute. Qed.

Lemma lived_before : lived DaemonDemo.now DaemonDemo.d0 PaymentsDemo.d1 PaymentsDemo.before.
Proof. apply PaymentsDemo.continues. Qed.

Lemma sent_continues : goes_on DaemonDemo.now DaemonDemo.d0 dr d2 esr PaymentsDemo.after.
Proof.
  destruct lived_before as [Hc Hs [out Hh] _ _]. destruct sends as (o & Hrun & Hok).
  destruct (plain_events _ plain_all) as [[Hk Hk']%Forall_app _].
  split; [split; [done|done| | |done]| |done|].
  - exact (sent_history _ _ _ _ _ _ _ _ _ _ _ _ relay_delivers callable PaymentsDemo.serving Hh Hrun Hok).
  - apply (bool_decide_unpack _). by vm_compute.
  - apply PaymentsDemo.ran_history. by vm_compute.
  - apply (bool_decide_unpack _). by vm_compute.
Qed.
Lemma sent_free : self_free DaemonDemo.d0 (esr ++ PaymentsDemo.after).
Proof. split; [apply DaemonDemo.no_self0|apply plain_events, plain_all]. Qed.
Lemma enough : (blocks_due (cfg_ (d_node DaemonDemo.d0)) dr ≤ length (new_blocks dr d2))%nat.
Proof. apply (bool_decide_unpack _). by vm_compute. Qed.

End SentDemo.

Lemma sent_is_confirmed_witness :
  ∃ u, u ∈ all_txns (new_blocks SentDemo.dr SentDemo.d2) ∧ tx_to u = GateDemo.addrB ∧ tx_amount u = strtoull (opt SentDemo.argv 2 "--amount").
Proof.
  destruct SentDemo.sends as (o & Hrun & Hok).
  destruct (sent_is_confirmed (H := Demo.demo_hash) (E := Demo.demo_ed) DaemonDemo.now DaemonDemo.d0 PaymentsDemo.d1 SentDemo.dr
    SentDemo.d2 PaymentsDemo.before SentDemo.esr PaymentsDemo.after SentDemo.relay SentDemo.argv SentDemo.world
    GateDemo.addrB KeyDemo.w o SentDemo.relay_delivers SentDemo.callable PaymentsDemo.serving SentDemo.lived_before Hrun Hok
    SentDemo.sent_continues) as (_ & u & _ & Hto & Ham & _ & _ & Hserved & _).
  exists u. exact (conj (Hserved (self_free_orderly _ _ SentDemo.sent_free) SentDemo.enough) (conj Hto Ham)).
Defined.
