(* ===== verification/Frame.v ===== *)
(** The peer-to-peer frame codec: [include/txchain/net/frame.hpp],
    [src/p2p/frame.cpp].

    A socket answers [recv] from a script of events; a [recv] of [w] bytes
    takes at most [w] from the next chunk and leaves the rest of it for the
    next call.  An empty chunk is [recv] returning 0.  A script that ends
    leaves the call blocked ([None]).  [send] likewise answers from a script. *)

From Stdlib Require Import ZArith Lia Ascii String.
From stdpp Require Import base list strings.
From S2P Require Import Prelude.

Definition FRAME_MAGIC : list byte := Z_to_byte <$> [0x54; 0x58; 0x43; 0x31].
Definition MAX_FRAME_LEN : Z := 2 * 1024 * 1024.
Definition FRAME_HEADER_LEN : nat := 9.

(** [enum class MsgType : std::uint8_t]: any byte is a value; the catalog names ten. *)
Definition MsgType : Type := byte.
Definition VERSION : MsgType := Z_to_byte 1.
Definition VERACK : MsgType := Z_to_byte 2.
Definition INV : MsgType := Z_to_byte 3.
Definition GETDATA : MsgType := Z_to_byte 4.
Definition TX : MsgType := Z_to_byte 5.
Definition BLOCK : MsgType := Z_to_byte 6.
Definition GETHEADERS : MsgType := Z_to_byte 7.
Definition HEADERS : MsgType := Z_to_byte 8.
Definition GETADDR : MsgType := Z_to_byte 9.
Definition ADDR : MsgType := Z_to_byte 10.

Inductive FrameError := BAD_MAGIC | OVERSIZE | SHORT_READ | IO_ERROR.

Record Frame := mkFrame { f_type : MsgType; f_payload : list byte }.

(** [Result<T>]: a value or an error. *)
Definition Result (T : Type) : Type := T + FrameError.

Inductive recv_event := Chunk (bs : list byte) | RecvEintr | RecvError.
Inductive send_event := Sent (n : nat) | SendEintr | SendError.

(** The bytes a script still delivers. *)
Fixpoint delivered (s : list recv_event) : list byte :=
  match s with
  | [] => []
  | Chunk bs :: s => bs ++ delivered s
  | _ :: s => delivered s
  end.

(** A script of an open, healthy connection: no end of stream, no error. *)
Definition healthy (s : list recv_event) : Prop :=
  Forall (λ e, match e with Chunk bs => bs ≠ [] | RecvEintr => True | RecvError => False end) s.

(** [read_exact]: [want] bytes are still missing, [buf] are those received. *)
Fixpoint read_exact (s : list recv_event) (want : nat) (buf : list byte)
  : option (Result (list byte) * list recv_event) :=
  match want with
  | O => Some (inl buf, s)
  | S _ =>
      match s with
      | [] => None
      | Chunk [] :: s => Some (inr SHORT_READ, s)
      | RecvError :: s => Some (inr IO_ERROR, s)
      | RecvEintr :: s => read_exact s want buf
      | Chunk bs :: s =>
          if (length bs <=? want)%nat then read_exact s (want - length bs) (buf ++ bs)
          else Some (inl (buf ++ take want bs), Chunk (drop want bs) :: s)
      end
  end.

Definition read_frame (s : list recv_event) : option (Result Frame * list recv_event) :=
  '(r, s) ← read_exact s FRAME_HEADER_LEN [];
  match r with
  | inr err => Some (inr err, s)
  | inl hdr =>
      if negb (bool_decide (take 4 hdr = FRAME_MAGIC)) then Some (inr BAD_MAGIC, s)
      else
        let type := nth 4 hdr zero in
        let b i := byte_to_Z (nth i hdr zero) in
        let length := Z.lor (Z.lor (Z.lor (Z.shiftl (b 5%nat) 24) (Z.shiftl (b 6%nat) 16))
                                   (Z.shiftl (b 7%nat) 8)) (b 8%nat) in
        if MAX_FRAME_LEN <? length then Some (inr OVERSIZE, s)
        else if 0 <? length then
          '(r, s) ← read_exact s (Z.to_nat length) [];
          match r with
          | inr err => Some (inr err, s)
          | inl payload => Some (inl (mkFrame type payload), s)
          end
        else Some (inl (mkFrame type []), s)
  end.

(** [write_all]: what is left to send, and what the peer was sent so far. *)
Fixpoint write_all (s : list send_event) (data sent : list byte)
  : option (Result unit * list send_event * list byte) :=
  match data with
  | [] => Some (inl tt, s, sent)
  | _ =>
      match s with
      | [] => None
      | SendEintr :: s => write_all s data sent
      | SendError :: s => Some (inr IO_ERROR, s, sent)
      | Sent n :: s => write_all s (drop n data) (sent ++ take n data)
      end
  end.

Definition frame_header (type : MsgType) (length : Z) : list byte :=
  FRAME_MAGIC ++
  [type; Z_to_byte (Z.land (Z.shiftr length 24) 0xFF); Z_to_byte (Z.land (Z.shiftr length 16) 0xFF);
   Z_to_byte (Z.land (Z.shiftr length 8) 0xFF); Z_to_byte (Z.land length 0xFF)].

Definition write_frame (s : list send_event) (type : MsgType) (payload : list byte)
  : option (Result unit * list send_event * list byte) :=
  if MAX_FRAME_LEN <? Z.of_nat (length payload) then Some (inr OVERSIZE, s, [])
  else
    let hdr := frame_header type (Z.of_nat (length payload)) in
    '(r, s, sent) ← write_all s hdr [];
    match r with
    | inr err => Some (inr err, s, sent)
    | inl _ => write_all s payload sent
    end.

(** ** Lemmas *)

(** The wire form of a frame. *)
Definition frame_bytes (f : Frame) : list byte :=
  frame_header (f_type f) (Z.of_nat (length (f_payload f))) ++ f_payload f.

Lemma read_exact_spec s want buf :
  healthy s → (want ≤ length (delivered s))%nat →
  ∃ s', read_exact s want buf = Some (inl (buf ++ take want (delivered s)), s') ∧
        delivered s' = drop want (delivered s) ∧ healthy s'.
Proof.
  revert want buf. induction s as [|e s IH]; intros want buf Hs Hw.
  { destruct want; [|simpl in Hw; lia]. exists []. by rewrite app_nil_r. }
  destruct want as [|want]; [exists (e :: s); by rewrite take_0, app_nil_r|].
  apply Forall_cons in Hs as [He Hs]. cbn [read_exact]. destruct e as [bs| |]; [|by apply IH|done].
  cbn [delivered] in *. destruct bs as [|c bs]; [done|]. set (b := c :: bs) in *.
  destruct (Nat.leb_spec (length b) (S want)) as [Hl|Hl].
  - rewrite length_app in Hw. destruct (IH (S want - length b)%nat (buf ++ b) Hs) as (s' & Hr & Hd & Hh); [lia|].
    exists s'. rewrite Hr. rewrite take_app_ge, drop_app_ge by lia. by rewrite <- app_assoc.
  - exists (Chunk (drop (S want) b) :: s). rewrite take_app_le, drop_app_le by lia.
    split; [done|]. split; [done|]. constructor; [|done].
    intros Hn. apply (f_equal length) in Hn. rewrite length_drop in Hn. cbn [length] in Hn. lia.
Qed.

Lemma read_exact_sound s want buf r s' :
  read_exact s want buf = Some (inl r, s') →
  ∃ got, r = buf ++ got ∧ length got = want ∧ delivered s = got ++ delivered s'.
Proof.
  revert want buf. induction s as [|e s IH]; intros want buf Hr.
  { destruct want; [|done]. injection Hr as <- <-. exists []. by rewrite app_nil_r. }
  destruct want as [|want]; [injection Hr as <- <-; exists []; by rewrite app_nil_r|].
  cbn [read_exact] in Hr. destruct e as [bs| |]; [|by apply IH|done].
  destruct bs as [|c bs]; [done|]. set (b := c :: bs) in *.
  destruct (Nat.leb_spec (length b) (S want)) as [Hl|Hl].
  - apply IH in Hr as (got & -> & Hlen & Hd). exists (b ++ got). cbn [delivered].
    rewrite Hd, <- !app_assoc, length_app. split_and!; [done|lia|done].
  - injection Hr as <- <-. exists (take (S want) b). cbn [delivered].
    rewrite length_take. split_and!; [done|lia|].
    rewrite <- (take_drop (S want) b) at 1. by rewrite <- app_assoc.
Qed.

Lemma write_all_sound s data sent r s' out :
  write_all s data sent = Some (r, s', out) →
  ∃ n, out = sent ++ take n data ∧ (r = inl tt → out = sent ++ data).
Proof.
  revert data sent. induction s as [|e s IH]; intros data sent Hw.
  - destruct data; [|done]. injection Hw as <- <- <-. exists 0%nat. by rewrite take_0, app_nil_r.
  - destruct data as [|c data]; [injection Hw as <- <- <-; exists 0%nat; by rewrite take_0, app_nil_r|].
    cbn [write_all] in Hw. destruct e as [n| |].
    + apply IH in Hw as (k & -> & Hok). exists (n + k)%nat. split.
      * by rewrite <- app_assoc, take_take_drop.
      * intros Ht. rewrite (Hok Ht). by rewrite <- app_assoc, take_drop.
    + by apply IH in Hw.
    + injection Hw as <- <- <-. exists 0%nat. split; [by rewrite take_0, app_nil_r|done].
Qed.

Lemma frame_header_length t n : length (frame_header t n) = FRAME_HEADER_LEN.
Proof. done. Qed.

(** The four length bytes carry any 32-bit length. *)
Lemma header_length_value n :
  0 <= n < 2 ^ 32 →
  let b sh := byte_to_Z (Z_to_byte (Z.land (Z.shiftr n sh) 0xFF)) in
  Z.lor (Z.lor (Z.lor (Z.shiftl (b 24) 24) (Z.shiftl (b 16) 16)) (Z.shiftl (b 8) 8))
        (byte_to_Z (Z_to_byte (Z.land n 0xFF))) = n.
Proof.
  intros Hn b. unfold b. rewrite !byte_to_Z_to_byte. change 0xFF with (Z.ones 8).
  change 256 with (2 ^ 8). rewrite !Z.land_ones, !Z.mod_mod by lia.
  apply Z.bits_inj_iff'. intros i Hi. rewrite !Z.lor_spec.
  rewrite !Z.shiftl_spec by done.
  assert (∀ z j, j < 0 ∨ 8 <= j → Z.testbit (z mod 2 ^ 8) j = false) as Hout.
  { intros z j [Hj|Hj]; [by apply Z.testbit_neg_r|by apply Z.mod_pow2_bits_high; lia]. }
  assert (∀ z j, 0 <= j < 8 → Z.testbit (z mod 2 ^ 8) j = Z.testbit z j) as Hin.
  { intros z j Hj. apply Z.mod_pow2_bits_low. lia. }
  destruct (Z.lt_ge_cases i 8).
  { rewrite (Hout _ (i - 24)), (Hout _ (i - 16)), (Hout _ (i - 8)), Hin by lia. done. }
  destruct (Z.lt_ge_cases i 16).
  { rewrite (Hout _ (i - 24)), (Hout _ (i - 16)), (Hout _ i), Hin, orb_false_r by lia.
    cbn [orb]. rewrite Z.shiftr_spec by lia. f_equal. lia. }
  destruct (Z.lt_ge_cases i 24).
  { rewrite (Hout _ (i - 24)), (Hout _ (i - 8)), (Hout _ i), Hin, !orb_false_r by lia.
    cbn [orb]. rewrite Z.shiftr_spec by lia. f_equal. lia. }
  destruct (Z.lt_ge_cases i 32).
  { rewrite (Hout _ (i - 16)), (Hout _ (i - 8)), (Hout _ i), Hin, !orb_false_r by lia.
    rewrite Z.shiftr_spec by lia. f_equal. lia. }
  rewrite !Hout by lia. cbn [orb]. symmetry. apply (testbit_above _ 32); lia.
Qed.

(** The big-endian number of four bytes, as the reader assembles it. *)
Definition be32 (a b c d : byte) : Z :=
  Z.lor (Z.lor (Z.lor (Z.shiftl (byte_to_Z a) 24) (Z.shiftl (byte_to_Z b) 16))
               (Z.shiftl (byte_to_Z c) 8)) (byte_to_Z d).

Lemma be32_decode a b c d : be32 a b c d = be_decode [a; b; c; d].
Proof.
  unfold be32, be_decode. cbn [foldl].
  pose proof (byte_to_Z_range a). pose proof (byte_to_Z_range b). pose proof (byte_to_Z_range c).
  pose proof (byte_to_Z_range d).
  assert (∀ x y k, 0 <= x → 0 <= k → 0 <= y < 2 ^ k → Z.lor (Z.shiftl x k) y = x * 2 ^ k + y) as Hlor.
  { intros x y k Hx Hk Hy. by apply lor_shiftl_add. }
  rewrite <- !Z.lor_assoc. rewrite (Hlor (byte_to_Z c)) by lia.
  rewrite (Hlor (byte_to_Z b)) by lia. rewrite (Hlor (byte_to_Z a)) by lia. lia.
Qed.

(** Nine bytes with the magic are the header of their own type and length. *)
Lemma header_of_bytes t a b c d :
  FRAME_MAGIC ++ [t; a; b; c; d] = frame_header t (be32 a b c d) ∧ 0 <= be32 a b c d < 2 ^ 32.
Proof.
  rewrite be32_decode. pose proof (be_decode_range [a; b; c; d]) as Hr. change (256 ^ _) with (2 ^ 32) in Hr.
  split; [|done]. unfold frame_header. f_equal. f_equal.
  assert ([Z_to_byte (Z.land (Z.shiftr (be_decode [a; b; c; d]) 24) 0xFF);
           Z_to_byte (Z.land (Z.shiftr (be_decode [a; b; c; d]) 16) 0xFF);
           Z_to_byte (Z.land (Z.shiftr (be_decode [a; b; c; d]) 8) 0xFF);
           Z_to_byte (Z.land (be_decode [a; b; c; d]) 0xFF)] = [a; b; c; d]) as ->; [|done].
  apply be_decode_inj; [done|]. rewrite <- be32_decode. unfold be32 at 1.
  by apply header_length_value.
Qed.

Lemma nine_bytes (hdr : list byte) :
  length hdr = FRAME_HEADER_LEN →
  ∃ t a b c d, hdr = take 4 hdr ++ [t; a; b; c; d].
Proof.
  intros Hl. do 9 (destruct hdr as [|? hdr]; [done|]). destruct hdr; [|done]. by eexists _, _, _, _, _.
Qed.

(** [read_frame] once its nine header bytes are known. *)
Lemma read_frame_header s s1 m t a b c d :
  length m = 4%nat → read_exact s FRAME_HEADER_LEN [] = Some (inl (m ++ [t; a; b; c; d]), s1) →
  read_frame s =
    if negb (bool_decide (m = FRAME_MAGIC)) then Some (inr BAD_MAGIC, s1)
    else if MAX_FRAME_LEN <? be32 a b c d then Some (inr OVERSIZE, s1)
    else if 0 <? be32 a b c d then
      '(r, s2) ← read_exact s1 (Z.to_nat (be32 a b c d)) [];
      match r with inr err => Some (inr err, s2) | inl p => Some (inl (mkFrame t p), s2) end
    else Some (inl (mkFrame t []), s1).
Proof.
  intros Hm Hr. unfold read_frame. rewrite Hr. cbn [mbind option_bind].
  do 4 (destruct m as [|? m]; [done|]). destruct m; [|done]. done.
Qed.

(** C38. The frame codec under every chunking: a frame that was written completely is
    read back exactly from any healthy connection that delivers its bytes - split
    at any points, interleaved with interrupted calls - and the bytes after it
    stay for the next read; and whatever happens while writing, the peer only
    ever receives a prefix of the frame. *)
Theorem frame_roundtrip (ws : list send_event) type payload r ws' out :
  write_frame ws type payload = Some (r, ws', out) →
  (∃ n, out = take n (frame_bytes (mkFrame type payload))) ∧
  (r = inl tt →
   ∀ s rest, healthy s → delivered s = out ++ rest →
   ∃ s', read_frame s = Some (inl (mkFrame type payload), s') ∧ delivered s' = rest ∧ healthy s').
Proof.
  unfold write_frame. destruct (Z.ltb_spec MAX_FRAME_LEN (Z.of_nat (length payload))) as [Hbig|Hlen].
  { intros [= <- <- <-]. split; [by exists 0%nat|done]. }
  set (hdr := frame_header type (Z.of_nat (length payload))).
  destruct (write_all ws hdr []) as [[[r1 ws1] out1]|] eqn:H1; [|done]. cbn [mbind option_bind].
  apply write_all_sound in H1 as (k1 & Ho1 & Hok1). cbn [app] in *.
  destruct r1 as [[]|err].
  2: { intros [= <- <- <-]. split; [|done]. exists (min k1 (length hdr)). rewrite Ho1.
       unfold frame_bytes; cbn [f_type f_payload]; fold hdr.
       rewrite take_app_le by lia. destruct (Nat.le_gt_cases k1 (length hdr)).
       - by rewrite Nat.min_l.
       - rewrite Nat.min_r, !take_ge by lia. done. }
  rewrite (Hok1 eq_refl). intros (k2 & Ho2 & Hok2)%write_all_sound. split.
  { exists (length hdr + k2)%nat. rewrite Ho2. unfold frame_bytes; cbn [f_type f_payload]; fold hdr.
    rewrite take_app_ge by lia. do 2 f_equal. lia. }
  intros Hr s rest Hs Hd. rewrite (Hok2 Hr) in Hd.
  destruct (read_exact_spec s FRAME_HEADER_LEN [] Hs) as (s1 & Hr1 & Hd1 & Hs1).
  { rewrite Hd, !length_app. unfold hdr. rewrite frame_header_length. lia. }
  assert (take FRAME_HEADER_LEN (delivered s) = hdr) as Eh.
  { rewrite Hd, <- app_assoc. by apply take_app_exact. }
  assert (delivered s1 = payload ++ rest) as Ep.
  { rewrite Hd1, Hd, <- app_assoc. by apply drop_app_exact. }
  rewrite Eh in Hr1. cbn [app] in Hr1. unfold hdr in Hr1.
  rewrite (read_frame_header _ _ FRAME_MAGIC _ _ _ _ _ eq_refl Hr1).
  rewrite bool_decide_eq_true_2 by done. cbn [negb]. unfold be32.
  rewrite header_length_value by (unfold MAX_FRAME_LEN in Hlen; lia).
  rewrite (proj2 (Z.ltb_ge _ _)) by done.
  destruct (Z.ltb_spec 0 (Z.of_nat (length payload))) as [Hp|Hp].
  - destruct (read_exact_spec s1 (Z.to_nat (Z.of_nat (length payload))) [] Hs1) as (s2 & Hr2 & Hd2 & Hs2).
    { rewrite Ep, length_app. lia. }
    rewrite Hr2. cbn [mbind option_bind app]. exists s2. rewrite Nat2Z.id, Ep in *.
    rewrite take_app_length. split; [done|]. split; [|done]. rewrite Hd2. apply drop_app_length.
  - assert (payload = []) as -> by (apply length_zero_iff_nil; lia). by exists s1.
Qed.

(** What [read_frame] answers, on every connection: a frame it returns is within
    the cap and its wire form is exactly what was consumed; and on a connection
    delivering nine header bytes, a wrong magic is BAD_MAGIC and a declared
    length over the cap is OVERSIZE, in both cases with nothing read past the
    header (so no body is allocated). *)
Theorem read_frame_sound (s : list recv_event) :
  (∀ f s', read_frame s = Some (inl f, s') →
     delivered s = frame_bytes f ++ delivered s' ∧ Z.of_nat (length (f_payload f)) <= MAX_FRAME_LEN) ∧
  (∀ m t a b c d rest, healthy s → length m = 4%nat →
     delivered s = m ++ [t; a; b; c; d] ++ rest → m ≠ FRAME_MAGIC ∨ MAX_FRAME_LEN < be32 a b c d →
     ∃ s', read_frame s = Some (inr (if bool_decide (m = FRAME_MAGIC) then OVERSIZE else BAD_MAGIC), s') ∧
           delivered s' = rest).
Proof.
  split.
  - intros f s' Hf. destruct (read_exact s FRAME_HEADER_LEN []) as [[[hdr|err] s1]|] eqn:Hr.
    2-3: by unfold read_frame in Hf; rewrite Hr in Hf.
    destruct (read_exact_sound _ _ _ _ _ Hr) as (got & Eg & Hl & Hd). cbn [app] in Eg. subst got.
    destruct (nine_bytes hdr Hl) as (t & a & b & c & d & Eh).
    assert (length (take 4 hdr) = 4%nat) as H4 by (rewrite length_take, Hl; done).
    rewrite Eh in Hr. rewrite (read_frame_header _ _ _ _ _ _ _ _ H4 Hr) in Hf. clear Hr.
    case_bool_decide as Hm; cbn [negb] in Hf; [|done]. rewrite Hm in Eh.
    destruct (header_of_bytes t a b c d) as [Ehdr Hrange]. rewrite Ehdr in Eh.
    destruct (Z.ltb_spec MAX_FRAME_LEN (be32 a b c d)); [done|].
    destruct (Z.ltb_spec 0 (be32 a b c d)).
    + destruct (read_exact s1 _ []) as [[[p|err] s2]|] eqn:Hr2; cbn [mbind option_bind] in Hf; try done.
      injection Hf as <- <-. destruct (read_exact_sound _ _ _ _ _ Hr2) as (got & Ep & Hlp & Hdp).
      cbn [app] in Ep. subst got. unfold frame_bytes. cbn [f_type f_payload].
      rewrite Hlp, Z2Nat.id by lia. split; [|done]. by rewrite Hd, Eh, Hdp, <- app_assoc.
    + injection Hf as <- <-. unfold frame_bytes. cbn [f_type f_payload length].
      assert (be32 a b c d = 0) as E0 by lia. rewrite E0 in Eh. split; [|done].
      by rewrite Hd, Eh, app_nil_r.
  - intros m t a b c d rest Hs Hm Hd Hbad.
    destruct (read_exact_spec s FRAME_HEADER_LEN [] Hs) as (s1 & Hr1 & Hd1 & _).
    { rewrite Hd, !length_app, Hm. cbn. unfold FRAME_HEADER_LEN. lia. }
    assert (length (m ++ [t; a; b; c; d]) = FRAME_HEADER_LEN) as Hl by (by rewrite length_app, Hm).
    rewrite app_assoc in Hd. rewrite Hd, <- Hl in Hd1, Hr1.
    rewrite take_app_length in Hr1. rewrite drop_app_length in Hd1. rewrite Hl in Hr1.
    rewrite (read_frame_header _ _ _ _ _ _ _ _ Hm Hr1). exists s1. split; [|done].
    case_bool_decide as Hmm; cbn [negb]; [|done]. destruct Hbad as [?|Hbig]; [done|].
    by rewrite (proj2 (Z.ltb_lt _ _) Hbig).
Qed.

Definition frame_demo : option (Result unit * list send_event * list byte) :=
  write_frame [Sent 3; SendEintr; Sent 100; Sent 1; Sent 100] TX (txt "hello").

Lemma frame_demo_eq :
  frame_demo = Some (inl tt, [], frame_bytes (mkFrame TX (txt "hello"))).
Proof. by vm_compute. Qed.

Lemma frame_roundtrip_witness :
  ∃ s', read_frame [Chunk (take 2 (frame_bytes (mkFrame TX (txt "hello")))); RecvEintr;
                    Chunk (drop 2 (frame_bytes (mkFrame TX (txt "hello"))))] =
        Some (inl (mkFrame TX (txt "hello")), s').
Proof.
  destruct (frame_roundtrip _ _ _ _ _ _ frame_demo_eq) as [_ Hr].
  destruct (Hr eq_refl [Chunk (take 2 (frame_bytes (mkFrame TX (txt "hello")))); RecvEintr;
                        Chunk (drop 2 (frame_bytes (mkFrame TX (txt "hello"))))] []) as (s' & Hs & _).
  - repeat constructor; by vm_compute.
  - by vm_compute.
  - exists s'. exact Hs.
Defined.
