(* ===== verification/Backend.v ===== *)
(** The backend servers of the first-generation network: [serverA.cpp],
    [serverB.cpp] and [serverC.cpp], which differ only in their name, port and
    block file.

    A backend process is the rows it holds in memory and the bytes of its
    block file; one datagram in gives one datagram out.  It never decrypts:
    rows are opaque text but for their serial number. *)

From Stdlib Require Import ZArith Lia Ascii String.
From stdpp Require Import base list strings.
From S2P Require Import Prelude Text.

(** The constants of one server program. *)
Record Program := mkProgram { SRV : list byte; UDP_PORT : Z; BLOCK_FILE : list byte }.

Definition serverA : Program := mkProgram (txt "A") 21875 (txt "block1.txt").
Definition serverB : Program := mkProgram (txt "B") 22875 (txt "block2.txt").
Definition serverC : Program := mkProgram (txt "C") 23875 (txt "block3.txt").

Record Backend := mkBackend { g_txns : list (list byte); block : list byte }.

#[export] Instance Backend_eq_dec : EqDecision Backend.
Proof. solve_decision. Defined.

(** The block file's lines, blank ones skipped. *)
Definition load_block (file : list byte) : list (list byte) := filter (λ line, line ≠ []) (getlines [] file).

Definition boot_backend (file : list byte) : Backend := mkBackend (load_block file) file.

Record Row := mkRow { row_serial : Z; row_sender : list byte; row_receiver : list byte; row_amount : list byte }.

(** [iss >> serial >> s >> r >> amt]. *)
Definition parse_row (line : list byte) : option Row :=
  '(serial, l) ← read_long line;
  '(s, l) ← read_word l;
  '(r, l) ← read_word l;
  '(amt, _) ← read_word l;
  Some (mkRow serial s r amt).

(** The loop over [g_txns]: the running maximum serial and the rows text. *)
Definition scan_step (keep : Row → bool) (acc : Z * list byte) (line : list byte) : Z * list byte :=
  let '(max_serial, rows) := acc in
  match parse_row line with
  | None => (max_serial, rows)
  | Some row =>
      (if max_serial <? row_serial row then row_serial row else max_serial,
       if keep row then rows ++ [newline] ++ line else rows)
  end.

Definition scan (keep : Row → bool) (g : list (list byte)) : list byte :=
  let '(max_serial, rows) := foldl (scan_step keep) (0, []) g in
  signed_to_string max_serial ++ rows.

Definition query_match (name1 name2 : list byte) (row : Row) : bool :=
  let use2 := negb (bool_decide (name2 = txt "*")) in
  (bool_decide (row_sender row = name1) || bool_decide (row_receiver row = name1)) ||
  (use2 && (bool_decide (row_sender row = name2) || bool_decide (row_receiver row = name2))).

Definition handle_query (b : Backend) (name1 name2 : list byte) : list byte :=
  scan (query_match name1 name2) (g_txns b).

Definition handle_all (b : Backend) : list byte := scan (λ _, true) (g_txns b).

Definition row_line (row : Row) : list byte :=
  signed_to_string (row_serial row) ++ [space] ++ row_sender row ++ [space] ++ row_receiver row ++ [space] ++
  row_amount row.

(** [writable]: whether the block file opens for appending; the server does
    not look. *)
Definition handle_new (writable : bool) (b : Backend) (rest : list byte) : list byte * Backend :=
  match parse_row rest with
  | None => (txt "ERR", b)
  | Some row =>
      let line := row_line row in
      (txt "OK", mkBackend (g_txns b ++ [line]) (if writable then block b ++ line ++ [newline] else block b))
  end.

(** [iss >> w] into a string that stays empty when there is no word. *)
Definition word_or_empty (l : list byte) : list byte * list byte :=
  match read_word l with Some (w, l) => (w, l) | None => ([], []) end.

(** [std::getline], then one leading blank erased. *)
Definition rest_of_line (l : list byte) : list byte :=
  let rest := (span (λ c, negb (bool_decide (c = newline))) l).1 in
  match rest with c :: rest' => if bool_decide (c = space) then rest' else rest | [] => [] end.

(** One iteration of the server loop. *)
Definition dispatch (writable : bool) (b : Backend) (datagram : list byte) : list byte * Backend :=
  let msg := c_str datagram in
  let '(op, iss) := word_or_empty msg in
  if bool_decide (op = txt "QUERY") then
    let '(n1, iss) := word_or_empty iss in
    let '(n2, _) := word_or_empty iss in
    (handle_query b n1 n2, b)
  else if bool_decide (op = txt "ALL") then (handle_all b, b)
  else if bool_decide (op = txt "NEW") then handle_new writable b (rest_of_line iss)
  else (txt "ERR", b).

(** The server loop over a sequence of datagrams. *)
Fixpoint serve (b : Backend) (datagrams : list (bool * list byte)) : list (list byte) * Backend :=
  match datagrams with
  | [] => ([], b)
  | (writable, d) :: ds =>
      let '(reply, b) := dispatch writable b d in
      let '(replies, b) := serve b ds in
      (reply :: replies, b)
  end.

(** A server program: its boot from the block file, then its loop. *)
Definition server_main (p : Program) (files : list byte → list byte) (datagrams : list (bool * list byte))
  : list (list byte) * Backend :=
  serve (boot_backend (files (BLOCK_FILE p))) datagrams.

Definition serverA_main := server_main serverA.
Definition serverB_main := server_main serverB.
Definition serverC_main := server_main serverC.

(** ** Lemmas *)

(** A word: what [>>] into a string extracts. *)
Definition is_word (w : list byte) : Prop := w ≠ [] ∧ Forall (λ c, is_space c = false) w.

Lemma read_word_word w rest :
  is_word w → match rest with c :: _ => is_space c = true | [] => True end → read_word (w ++ rest) = Some (w, rest).
Proof.
  intros [Hne Hw] Hr. unfold read_word. destruct w as [|c w]; [done|]. pose proof Hw as Hw'.
  apply Forall_cons in Hw' as [Hc _]. cbn [app skip_space]. rewrite Hc.
  change (c :: w ++ rest) with ((c :: w) ++ rest). rewrite span_all; [done| |].
  - eapply Forall_impl; [exact Hw|]. cbn beta. by intros d ->.
  - destruct rest as [|d rest]; [done|]. by rewrite Hr.
Qed.

Lemma read_word_space w rest :
  is_word w → match rest with c :: _ => is_space c = true | [] => True end →
  read_word (space :: w ++ rest) = Some (w, rest).
Proof. intros Hw Hr. by rewrite <- (read_word_word w rest Hw Hr). Qed.

Lemma span_sound f l a b : span f l = (a, b) → l = a ++ b ∧ Forall (λ c, f c = true) a.
Proof.
  revert a b. induction l as [|c l IH]; intros a b; cbn [span]; [by intros [= <- <-]|].
  destruct (f c) eqn:E; [|by intros [= <- <-]]. destruct (span f l) as [a' b'].
  intros [= <- <-]. destruct (IH a' b' eq_refl) as [-> Ha]. split; [done|by constructor].
Qed.

Lemma read_word_is_word l w rest : read_word l = Some (w, rest) → is_word w.
Proof.
  unfold read_word. destruct (span _ (skip_space l)) as [a b] eqn:E. apply span_sound in E as [_ Ha].
  destruct a as [|c a]; [done|]. intros [= <- <-]. split; [done|]. eapply Forall_impl; [exact Ha|].
  cbn beta. intros d. apply negb_true_iff.
Qed.

Definition long_ok (z : Z) : Prop := LONG_MIN <= z <= LONG_MAX.

Lemma read_long_ok l v rest : read_long l = Some (v, rest) → long_ok v.
Proof.
  unfold read_long. destruct (sign_of _) as [neg k]. destruct (span is_digit k) as [[|d ds] r]; [done|].
  destruct (_ && _) eqn:E; [|done]. intros [= <- <-]. reflect_bools. by split.
Qed.

Lemma parse_row_words line row :
  parse_row line = Some row →
  long_ok (row_serial row) ∧ is_word (row_sender row) ∧ is_word (row_receiver row) ∧ is_word (row_amount row).
Proof.
  unfold parse_row. destruct (read_long line) as [[v l]|] eqn:E0; cbn [mbind option_bind]; [|done].
  destruct (read_word l) as [[s l1]|] eqn:E1; cbn [mbind option_bind]; [|done].
  destruct (read_word l1) as [[r l2]|] eqn:E2; cbn [mbind option_bind]; [|done].
  destruct (read_word l2) as [[a l3]|] eqn:E3; cbn [mbind option_bind]; [|done]. intros [= <-].
  apply read_long_ok in E0. apply read_word_is_word in E1, E2, E3. by split_and!.
Qed.

(** A signed number reads back from its rendering. *)
Lemma digit_not_sign c : is_digit c = true → byte_to_Z c ≠ 45 ∧ byte_to_Z c ≠ 43 ∧ is_space c = false.
Proof. unfold is_digit, is_space. lia. Qed.

Lemma digits_head_sign l k : l ≠ [] → Forall (λ c, is_digit c = true) l → sign_of (skip_space (l ++ k)) = (false, l ++ k).
Proof.
  destruct l as [|c l]; [done|]. intros _ [Hc _]%Forall_cons. apply digit_not_sign in Hc as (H1 & H2 & H3).
  cbn [app skip_space]. rewrite H3. unfold sign_of. by rewrite (proj2 (Z.eqb_neq _ _) H1), (proj2 (Z.eqb_neq _ _) H2).
Qed.

Lemma read_long_rendered v rest :
  long_ok v → match rest with c :: _ => is_digit c = false | [] => True end →
  read_long (signed_to_string v ++ rest) = Some (v, rest).
Proof.
  unfold long_ok, LONG_MIN, LONG_MAX. intros Hv Hr. unfold read_long, signed_to_string.
  destruct (Z.ltb_spec v 0) as [Hn|Hn].
  - cbn [app]. change (skip_space (Z_to_byte 45 :: ?l)) with (Z_to_byte 45 :: l).
    change (sign_of (Z_to_byte 45 :: ?l)) with (true, l). cbv beta iota.
    rewrite span_all by (done || apply to_string_digits; lia).
    pose proof (to_string_nonempty (- v)). destruct (to_string (- v)) as [|c l] eqn:E; [done|]. rewrite <- E.
    rewrite to_string_value by lia. unfold LONG_MIN, LONG_MAX.
    rewrite (proj2 (Z.leb_le _ _)), (proj2 (Z.leb_le _ _)) by lia. cbn [andb]. do 2 f_equal. lia.
  - rewrite digits_head_sign by (apply to_string_nonempty || apply to_string_digits; lia).
    rewrite span_all by (done || apply to_string_digits; lia).
    pose proof (to_string_nonempty v). destruct (to_string v) as [|c l] eqn:E; [done|]. rewrite <- E.
    rewrite to_string_value by lia. unfold LONG_MIN, LONG_MAX.
    by rewrite (proj2 (Z.leb_le _ _)), (proj2 (Z.leb_le _ _)) by lia.
Qed.

(** A stored row reads back as its fields. *)
Lemma parse_row_line row :
  long_ok (row_serial row) → is_word (row_sender row) → is_word (row_receiver row) → is_word (row_amount row) →
  parse_row (row_line row) = Some row.
Proof.
  intros Hs H1 H2 H3. unfold parse_row, row_line. rewrite read_long_rendered by done. cbn [mbind option_bind app].
  rewrite read_word_space by done. cbn [mbind option_bind].
  rewrite read_word_space by done. cbn [mbind option_bind].
  pose proof (read_word_space (row_amount row) [] H3 I) as Hl. rewrite app_nil_r in Hl. rewrite Hl.
  by destruct row.
Qed.

Lemma word_lacks w c : is_word w → is_space c = true → c ∉ w.
Proof. intros [_ Hw] Hc Hin. rewrite Forall_forall in Hw. specialize (Hw _ Hin). cbn beta in Hw. congruence. Qed.

Lemma signed_digits z c : c ∈ signed_to_string z → is_digit c = true ∨ c = Z_to_byte 45.
Proof.
  unfold signed_to_string. destruct (Z.ltb_spec z 0).
  - intros [->|Hc]%elem_of_cons; [by right|]. left.
    pose proof (to_string_digits (- z) ltac:(lia)) as Hd. by eapply Forall_forall in Hd.
  - intros Hc. left. pose proof (to_string_digits z ltac:(lia)) as Hd. by eapply Forall_forall in Hd.
Qed.

Lemma row_line_plain row c :
  parse_row (row_line row) = Some row → is_space c = true → c ≠ space → c ∉ row_line row.
Proof.
  intros Hp Hc Hs. apply parse_row_words in Hp as (_ & H1 & H2 & H3). unfold row_line.
  rewrite !elem_of_app, !list_elem_of_singleton.
  intros [[Hd| ->]%signed_digits|Hin]; [apply digit_not_sign in Hd as (_ & _ & ?); congruence|done|].
  destruct Hin as [?|[Hin|[?|[Hin|[?|Hin]]]]]; try done; revert Hin; by apply word_lacks.
Qed.

Lemma load_block_snoc file line :
  (file = [] ∨ ∃ f, file = f ++ [newline]) → newline ∉ line → line ≠ [] →
  load_block (file ++ line ++ [newline]) = load_block file ++ [line].
Proof.
  intros Hf Hn Hne. unfold load_block.
  assert (∀ cur, getlines cur (file ++ line ++ [newline]) = getlines cur file ++ [line] ∨ file = [] ∧ cur ≠ []) as Hg.
  { destruct Hf as [->|[f ->]].
    - intros [|c cur]; [left|by right]. cbn [app]. by rewrite getlines_app.
    - intros cur. left. revert cur. induction f as [|c f IH]; intros cur; cbn [app getlines].
      + rewrite bool_decide_eq_true_2 by done. by rewrite getlines_app.
      + case_bool_decide; by rewrite IH. }
  destruct (Hg []) as [->|[_ ?]]; [|done]. rewrite filter_app. f_equal. rewrite filter_cons_True by done. done.
Qed.

(** Memory and block file agree, and the file is made of whole lines. *)
Record backend_synced (b : Backend) : Prop := {
  bs_rows : g_txns b = load_block (block b);
  bs_lines : block b = [] ∨ ∃ f, block b = f ++ [newline]
}.

Lemma dispatch_synced b d reply b' :
  backend_synced b → dispatch true b d = (reply, b') → backend_synced b'.
Proof.
  intros Hb. unfold dispatch. destruct (word_or_empty (c_str d)) as [op iss].
  case_bool_decide; [destruct (word_or_empty iss) as [n1 k]; destruct (word_or_empty k) as [n2 k']; by intros [= <- <-]|].
  case_bool_decide; [by intros [= <- <-]|]. case_bool_decide; [|by intros [= <- <-]].
  unfold handle_new. destruct (parse_row _) as [row|] eqn:Ep; [|by intros [= <- <-]]. intros [= <- <-].
  apply parse_row_words in Ep as (Hw0 & Hw1 & Hw2 & Hw3). pose proof (parse_row_line row Hw0 Hw1 Hw2 Hw3) as Hp.
  destruct Hb as [Hr Hl]. split; cbn [g_txns block].
  - rewrite load_block_snoc, Hr; [done|done|by eapply row_line_plain|].
    unfold row_line, signed_to_string. destruct (_ <? 0); [done|]. by intros [?%to_string_nonempty _]%app_eq_nil.
  - right. exists (block b ++ row_line row). by rewrite <- app_assoc.
Qed.

(** A backend loses nothing across restarts: after any sequence of datagrams
    (the block file being writable), a server that boots again from the block
    file holds exactly the rows the running one holds, in the same order, the
    newly recorded ones included. *)
Theorem backend_restart (file : list byte) datagrams :
  (file = [] ∨ ∃ f, file = f ++ [newline]) →
  let b := (serve (boot_backend file) (map (pair true) datagrams)).2 in
  boot_backend (block b) = b.
Proof.
  intros Hf b. assert (backend_synced b) as [Hr _].
  { unfold b. assert (backend_synced (boot_backend file)) as Hs by done.
    revert Hs. generalize (boot_backend file). induction datagrams as [|d ds IH]; intros b0 Hs; [done|].
    cbn [map serve]. destruct (dispatch true b0 d) as [reply b1] eqn:Ed.
    specialize (IH b1 (dispatch_synced _ _ _ _ Hs Ed)). by destruct (serve b1 _). }
  unfold boot_backend. rewrite <- Hr. by destruct b.
Qed.

Lemma backend_restart_witness :
  let b := (serve (boot_backend (txt "5 Fklqpdb Rolyhu 452" ++ [newline]))
              (map (pair true) [txt "QUERY Fklqpdb *"; txt "NEW 6 Rolyhu Dol 43"])).2 in
  boot_backend (block b) = b ∧ length (g_txns b) = 2%nat.
Proof.
  split; [|by vm_compute].
  apply (backend_restart (txt "5 Fklqpdb Rolyhu 452" ++ [newline]) [txt "QUERY Fklqpdb *"; txt "NEW 6 Rolyhu Dol 43"]).
  right. by exists (txt "5 Fklqpdb Rolyhu 452").
Defined.
