(* ===== verification/ServerM.v ===== *)
(** The main server of the first-generation network, [serverM.cpp], and its
    two clients, [client.cpp] and [monitor.cpp].

    The server keeps no state of its own between requests: its state is that
    of the three backends behind it, reached by one datagram out and one back.
    A datagram longer than UDP carries is not sent, and the server then waits
    for an answer for ever ([Hangs]); arithmetic on [long] that leaves the type
    is [Overflows].  [rand() % 3] is an argument. *)

From Stdlib Require Import ZArith Lia Ascii String.
From stdpp Require Import base list strings sorting.
From S2P Require Import Prelude Text Backend.

Inductive result (A : Type) :=
  | Done (a : A)
  | Hangs
  | Overflows.
Arguments Done {A} a.
Arguments Hangs {A}.
Arguments Overflows {A}.

#[export] Instance result_eq_dec `{EqDecision A} : EqDecision (result A).
Proof. solve_decision. Defined.

Definition rbind {A B} (r : result A) (f : A → result B) : result B :=
  match r with Done a => f a | Hangs => Hangs | Overflows => Overflows end.

Notation "'let!' p ':=' r 'in' k" := (rbind r (λ p, k))
  (at level 10, p pattern, r at level 100, k at level 200) : txchain_scope.

(** Signed [long] arithmetic. *)
Definition long (z : Z) : result Z := if (LONG_MIN <=? z) && (z <=? LONG_MAX) then Done z else Overflows.

Definition UDP_PORT_M : Z := 24875.
Definition TCP_PORT_CLIENT : Z := 25875.
Definition TCP_PORT_MONITOR : Z := 26875.
Definition INITIAL_BALANCE : Z := 1000.

(** ** Encryption *)

Definition in_range (lo hi z : Z) : bool := (lo <=? z) && (z <=? hi).

Definition enc_char (c : byte) : byte :=
  let z := byte_to_Z c in
  if in_range 97 122 z then Z_to_byte (97 + (z - 97 + 3) mod 26)
  else if in_range 65 90 z then Z_to_byte (65 + (z - 65 + 3) mod 26)
  else if in_range 48 57 z then Z_to_byte (48 + (z - 48 + 3) mod 10)
  else c.

Definition dec_char (c : byte) : byte :=
  let z := byte_to_Z c in
  if in_range 97 122 z then Z_to_byte (97 + (z - 97 + 23) mod 26)
  else if in_range 65 90 z then Z_to_byte (65 + (z - 65 + 23) mod 26)
  else if in_range 48 57 z then Z_to_byte (48 + (z - 48 + 7) mod 10)
  else c.

Definition enc_str (s : list byte) : list byte := map enc_char s.
Definition dec_str (s : list byte) : list byte := map dec_char s.

Record Txn := mkTxn { serial : Z; sender : list byte; receiver : list byte; amount : Z }.

#[export] Instance Txn_eq_dec : EqDecision Txn.
Proof. solve_decision. Defined.

(** ** The backends as the main server reaches them *)

Record Net := mkNet { backendA : Backend; backendB : Backend; backendC : Backend }.

#[export] Instance Net_eq_dec : EqDecision Net.
Proof. solve_decision. Defined.

(** [g_backend[i]], [i] below 3. *)
Definition backend (net : Net) (i : nat) : Backend :=
  match i with 0%nat => backendA net | 1%nat => backendB net | _ => backendC net end.
Definition set_backend (net : Net) (i : nat) (b : Backend) : Net :=
  match i with
  | 0%nat => mkNet b (backendB net) (backendC net)
  | 1%nat => mkNet (backendA net) b (backendC net)
  | _ => mkNet (backendA net) (backendB net) b
  end.

(** The largest UDP payload over IPv4. *)
Definition UDP_MAX : Z := 65507.
Definition size_of (l : list byte) : Z := Z.of_nat (length l).

Definition udp_request (writable : bool) (net : Net) (i : nat) (req : list byte) : result (list byte * Net) :=
  if UDP_MAX <? size_of req then Hangs
  else
    let '(reply, b) := dispatch writable (backend net i) req in
    if UDP_MAX <? size_of reply then Hangs else Done (c_str reply, set_backend net i b).

(** One row line of a reply. *)
Definition parse_reply_row (line : list byte) : option Txn :=
  if bool_decide (line = []) then None
  else
    row ← parse_row line;
    Some (mkTxn (row_serial row) (dec_str (row_sender row)) (dec_str (row_receiver row))
                (strtol (dec_str (row_amount row)))).

Definition parse_query_reply (reply : list byte) (out : list Txn) (max_serial : Z) : list Txn * Z :=
  match getlines [] reply with
  | [] => (out, max_serial)
  | line :: lines =>
      let ms := strtol line in
      let max_serial := if max_serial <? ms then ms else max_serial in
      (foldl (λ out line, match parse_reply_row line with Some t => out ++ [t] | None => out end) out lines, max_serial)
  end.

(** Ask the three backends in turn. *)
Fixpoint ask_all (net : Net) (req : list byte) (order : list nat) (txns : list Txn) (max_serial : Z) : result (list Txn * Z) :=
  match order with
  | [] => Done (txns, max_serial)
  | i :: order =>
      let! (reply, net) := udp_request true net i req in
      let '(txns, max_serial) := parse_query_reply reply txns max_serial in
      ask_all net req order txns max_serial
  end.

Definition query_all (net : Net) (enc1 enc2 : list byte) : result (list Txn * Z) :=
  ask_all net (txt "QUERY " ++ enc1 ++ txt " " ++ enc2) [0; 1; 2]%nat [] 0.

(** ** Request handlers *)

(** The loop [balance += ...; balance -= ...]. *)
Fixpoint balance_loop (user : list byte) (txns : list Txn) (balance : Z) : result Z :=
  match txns with
  | [] => Done balance
  | t :: txns =>
      let! balance := (if bool_decide (receiver t = user) then long (balance + amount t) else Done balance) in
      let! balance := (if bool_decide (sender t = user) then long (balance - amount t) else Done balance) in
      balance_loop user txns balance
  end.

Definition do_check_wallet (net : Net) (user : list byte) : result (list byte) :=
  let enc_user := enc_str user in
  let! (txns, _) := query_all net enc_user (txt "*") in
  if bool_decide (txns = []) then Done (txt "NOTFOUND")
  else
    let! balance := balance_loop user txns INITIAL_BALANCE in
    Done (txt "FOUND " ++ signed_to_string balance).

(** [sender_found] and [receiver_found]. *)
Definition appears (user : list byte) (txns : list Txn) : bool :=
  existsb (λ t, bool_decide (sender t = user) || bool_decide (receiver t = user)) txns.

(** [pick] is [rand() % 3]. *)
Definition do_txcoins (writable : bool) (pick : nat) (net : Net) (sender receiver : list byte) (amount : Z)
  : result (list byte * Net) :=
  let enc_s := enc_str sender in
  let enc_r := enc_str receiver in
  let! (txns, max_serial) := query_all net enc_s enc_r in
  let sender_found := appears sender txns in
  let receiver_found := appears receiver txns in
  let! sender_balance := balance_loop sender txns INITIAL_BALANCE in
  if negb sender_found && negb receiver_found then Done (txt "MISSINGBOTH", net)
  else if negb sender_found then Done (txt "MISSINGSENDER", net)
  else if negb receiver_found then Done (txt "MISSINGRECEIVER", net)
  else if sender_balance <? amount then Done (txt "INSUFFICIENT " ++ signed_to_string sender_balance, net)
  else
    let! serial := long (max_serial + 1) in
    let entry := txt "NEW " ++ signed_to_string serial ++ txt " " ++ enc_s ++ txt " " ++ enc_r ++ txt " " ++
                 enc_str (signed_to_string amount) in
    let! (_, net) := udp_request writable net pick entry in
    let! new_balance := long (sender_balance - amount) in
    Done (txt "SUCCESS " ++ signed_to_string new_balance, net).

(** What one client connection gets back, [None] for an unknown operation. *)
Definition handle_client (writable : bool) (pick : nat) (net : Net) (buf : list byte)
  : result (option (list byte) * Net) :=
  let request := c_str buf in
  let '(op, iss) := word_or_empty request in
  if bool_decide (op = txt "CHECK_WALLET") then
    let '(user, _) := word_or_empty iss in
    let! reply := do_check_wallet net user in
    Done (Some reply, net)
  else if bool_decide (op = txt "TXCOINS") then
    let '(s, iss) := word_or_empty iss in
    let '(r, iss) := word_or_empty iss in
    let '(amt, _) := word_or_empty iss in
    let! (reply, net) := do_txcoins writable pick net s r (strtol amt) in
    Done (Some reply, net)
  else Done (None, net).

Definition by_serial (a b : Txn) : Prop := serial a <= serial b.
#[export] Instance by_serial_dec a b : Decision (by_serial a b).
Proof. unfold by_serial. apply _. Defined.

Definition txn_line (t : Txn) : list byte :=
  signed_to_string (serial t) ++ txt " " ++ sender t ++ txt " " ++ receiver t ++ txt " " ++
  signed_to_string (amount t) ++ [newline].

(** The text of [txchain.txt].  [std::sort] leaves the order of equal serials
    open; this is one of the orders it may choose. *)
Definition do_txlist (net : Net) : result (list byte) :=
  let! (all, _) := ask_all net (txt "ALL") [0; 1; 2]%nat [] 0 in
  Done (flat_map txn_line (merge_sort by_serial all)).

(** The file written and the confirmation, [None] for another request. *)
Definition handle_monitor (net : Net) (buf : list byte) : result (option (list byte * list byte)) :=
  if is_prefix (txt "TXLIST") buf then
    let! file := do_txlist net in Done (Some (file, txt "OK"))
  else Done None.

(** The select loop: one connection after another, on either port. *)
Inductive connection := FromClient (writable : bool) (pick : nat) (buf : list byte) | FromMonitor (buf : list byte).

Definition handle (net : Net) (c : connection) : result (option (list byte) * Net) :=
  match c with
  | FromClient writable pick buf => handle_client writable pick net buf
  | FromMonitor buf => let! r := handle_monitor net buf in Done (snd <$> r, net)
  end.

Fixpoint main_loop (net : Net) (cs : list connection) : result (list (option (list byte)) * Net) :=
  match cs with
  | [] => Done ([], net)
  | c :: cs =>
      let! (reply, net) := handle net c in
      let! (replies, net) := main_loop net cs in
      Done (reply :: replies, net)
  end.

(** ** The clients *)

Definition BUF_SIZE : nat := 4096.

(** [snprintf] into a buffer. *)
Definition in_buffer (l : list byte) : list byte := take (BUF_SIZE - 1) l.

(** [client.cpp]: the request for the arguments after the program name, none
    when their number is wrong. *)
Definition client_request (argv : list (list byte)) : option (list byte) :=
  match argv with
  | [user] => Some (in_buffer (txt "CHECK_WALLET " ++ user))
  | [s; r; amt] => Some (in_buffer (txt "TXCOINS " ++ s ++ txt " " ++ r ++ txt " " ++ amt))
  | _ => None
  end.

Definition dquote (s : list byte) : list byte := [quote] ++ s ++ [quote].

(** What the client prints on a reply (after its own announcement). *)
Definition client_result (argv : list (list byte)) (buf : list byte) : list byte :=
  let reply := c_str (take (BUF_SIZE - 1) buf) in
  match argv with
  | [user] =>
      if is_prefix (txt "FOUND") reply then
        txt "The current balance of " ++ dquote user ++ txt " is : " ++ signed_to_string (strtol (drop 5 reply)) ++
        txt " txcoins." ++ [newline]
      else dquote user ++ txt " is not a part of the network." ++ [newline]
  | [s; r; amt] =>
      if is_prefix (txt "SUCCESS") reply then
        dquote s ++ txt " successfully transferred " ++ amt ++ txt " txcoins to " ++ dquote r ++
        txt ". The current balance of " ++ dquote s ++ txt " is : " ++ signed_to_string (strtol (drop 7 reply)) ++
        txt " txcoins." ++ [newline]
      else if is_prefix (txt "INSUFFICIENT") reply then
        dquote s ++ txt " was unable to transfer " ++ amt ++ txt " txcoins to " ++ dquote r ++
        txt " because of insufficient balance. The current balance of " ++ dquote s ++ txt " is : " ++
        signed_to_string (strtol (drop 12 reply)) ++ txt " txcoins." ++ [newline]
      else if bool_decide (reply = txt "MISSINGSENDER") then
        txt "Unable to proceed with the transaction as " ++ dquote s ++ txt " is not part of the network." ++ [newline]
      else if bool_decide (reply = txt "MISSINGRECEIVER") then
        txt "Unable to proceed with the transaction as " ++ dquote r ++ txt " is not part of the network." ++ [newline]
      else if bool_decide (reply = txt "MISSINGBOTH") then
        txt "Unable to proceed with the transaction as " ++ dquote s ++ txt " and " ++ dquote r ++
        txt " are not part of the network." ++ [newline]
      else []
  | _ => []
  end.

(** A whole client run against the server: its result line. *)
Definition client_main (writable : bool) (pick : nat) (net : Net) (argv : list (list byte))
  : result (option (list byte) * Net) :=
  match client_request argv with
  | None => Done (None, net)
  | Some msg =>
      let! (reply, net) := handle_client writable pick net msg in
      match reply with
      | Some reply => Done (Some (client_result argv reply), net)
      | None => Done (None, net)
      end
  end.

(** [monitor.cpp]: the only invocation is [TXLIST]; the file written. *)
Definition monitor_main (net : Net) (argv : list (list byte)) : result (option (list byte)) :=
  match argv with
  | [a] =>
      if bool_decide (a = txt "TXLIST") then
        let! r := handle_monitor net (txt "TXLIST") in Done (fst <$> r)
      else Done None
  | _ => Done None
  end.

(** ** Encryption is inverted by decryption *)

Lemma dec_enc_char c : dec_char (enc_char c) = c.
Proof. by destruct c as [[] [] [] [] [] [] [] []]. Qed.
Lemma enc_dec_char c : enc_char (dec_char c) = c.
Proof. by destruct c as [[] [] [] [] [] [] [] []]. Qed.
Lemma enc_char_space c : is_space (enc_char c) = is_space c.
Proof. by destruct c as [[] [] [] [] [] [] [] []]. Qed.
Lemma enc_char_zero c : enc_char c = Z_to_byte 0 → c = Z_to_byte 0.
Proof. destruct c as [[] [] [] [] [] [] [] []]; vm_compute; congruence. Qed.

Lemma dec_enc_str s : dec_str (enc_str s) = s.
Proof. unfold dec_str, enc_str. rewrite map_map. erewrite map_ext; [apply map_id|apply dec_enc_char]. Qed.
Lemma enc_dec_str s : enc_str (dec_str s) = s.
Proof. unfold dec_str, enc_str. rewrite map_map. erewrite map_ext; [apply map_id|apply enc_dec_char]. Qed.

Lemma dec_char_space c : is_space (dec_char c) = is_space c.
Proof. by rewrite <- enc_char_space, enc_dec_char. Qed.

Lemma map_word (f : byte → byte) w : (∀ c, is_space (f c) = is_space c) → is_word w → is_word (map f w).
Proof.
  intros Hf [Hne Hw]. split; [by destruct w|]. apply Forall_map. eapply Forall_impl; [exact Hw|].
  cbn beta. intros c Hc. cbn. by rewrite Hf.
Qed.
Lemma enc_word w : is_word w → is_word (enc_str w).
Proof. apply map_word, enc_char_space. Qed.
Lemma dec_word w : is_word w → is_word (dec_str w).
Proof. apply map_word, dec_char_space. Qed.

(** ** Specification: one ledger

    Seen from outside the network is one list of plaintext transactions, the
    rows of the three backends put together. *)

Definition decode (row : Row) : Txn :=
  mkTxn (row_serial row) (dec_str (row_sender row)) (dec_str (row_receiver row)) (strtol (dec_str (row_amount row))).

Definition entries (b : Backend) : list Txn := map decode (omap parse_row (g_txns b)).
Definition ledger (net : Net) : list Txn := entries (backendA net) ++ entries (backendB net) ++ entries (backendC net).

Definition involves (user : list byte) (t : Txn) : Prop := sender t = user ∨ receiver t = user.
#[export] Instance involves_dec user t : Decision (involves user t).
Proof. unfold involves. apply _. Defined.

(** The coins of [user]: the initial balance, what it received, less what it sent. *)
Definition balance_of (user : list byte) (l : list Txn) : Z :=
  INITIAL_BALANCE +
  foldr (λ t s, (if bool_decide (receiver t = user) then amount t else 0) -
                (if bool_decide (sender t = user) then amount t else 0) + s) 0 l.

Definition member (user : list byte) (l : list Txn) : bool := bool_decide (Exists (involves user) l).

Definition last_serial (l : list Txn) : Z := foldr (λ t m, Z.max (serial t) m) 0 l.

(** The rows are lines of text, the replies fit a datagram, and the numbers
    are far from the bounds of [long]. *)
Record sane (net : Net) : Prop := {
  sn_lines : ∀ i, Forall (λ l, newline ∉ l ∧ Z_to_byte 0 ∉ l) (g_txns (backend net i));
  sn_fits : ∀ i, size_of (handle_all (backend net i)) <= UDP_MAX;
  sn_short : Z.of_nat (length (ledger net)) <= 2 ^ 20;
  sn_small : Forall (λ t, - 2 ^ 40 <= amount t <= 2 ^ 40) (ledger net);
  sn_serials : last_serial (ledger net) < LONG_MAX
}.

(** ** Lemmas: what a reply says *)

Lemma getlines_one cur s : newline ∉ s → cur ++ s ≠ [] → getlines cur s = [cur ++ s].
Proof.
  revert cur. induction s as [|c s IH]; intros cur Hs Hne; cbn [getlines].
  - rewrite app_nil_r in *. by destruct cur.
  - apply not_elem_of_cons in Hs as [Hc Hs]. rewrite bool_decide_eq_false_2 by done.
    rewrite IH; [by rewrite <- app_assoc|done|by rewrite <- app_assoc].
Qed.

Lemma getlines_rows h ls :
  h ≠ [] → newline ∉ h → Forall (λ l, l ≠ [] ∧ newline ∉ l) ls →
  getlines [] (h ++ flat_map (cons newline) ls) = h :: ls.
Proof.
  intros Hh Hn Hls. revert h Hh Hn. induction Hls as [|l ls [Hl Hln] _ IH]; intros h Hh Hn; cbn [flat_map].
  - rewrite app_nil_r. by apply getlines_one.
  - cbn [app]. rewrite getlines_app by done. cbn [app]. f_equal. by apply IH.
Qed.

Definition max_row (m : Z) (row : Row) : Z := if m <? row_serial row then row_serial row else m.

(** The lines a scan keeps. *)
Definition keep_line (keep : Row → bool) (line : list byte) : bool :=
  match parse_row line with Some row => keep row | None => false end.

Lemma omap_cons {A B} (f : A → option B) x l :
  omap f (x :: l) = match f x with Some y => y :: omap f l | None => omap f l end.
Proof. done. Qed.

Lemma scan_fold keep g m rows :
  foldl (scan_step keep) (m, rows) g =
  (foldl max_row m (omap parse_row g), rows ++ flat_map (cons newline) (List.filter (keep_line keep) g)).
Proof.
  revert m rows. induction g as [|line g IH]; intros m rows; cbn [foldl List.filter flat_map]; [by rewrite app_nil_r|].
  unfold scan_step at 2, keep_line at 1. rewrite omap_cons.
  destruct (parse_row line) as [row|] eqn:E; cbn [foldl]; [|by rewrite IH].
  rewrite IH. destruct (keep row); [|done]. cbn [flat_map app]. by rewrite <- !app_assoc.
Qed.

Lemma scan_eq keep g :
  scan keep g = signed_to_string (foldl max_row 0 (omap parse_row g)) ++
                flat_map (cons newline) (List.filter (keep_line keep) g).
Proof. unfold scan. by rewrite scan_fold. Qed.

Lemma max_row_bounds rows m :
  0 <= m <= LONG_MAX → Forall (λ r, long_ok (row_serial r)) rows → 0 <= foldl max_row m rows <= LONG_MAX.
Proof.
  intros Hm Hr. revert m Hm. induction Hr as [|r rows Hr _ IH]; intros m Hm; [done|]. cbn [foldl]. apply IH.
  unfold max_row, long_ok in *. destruct (Z.ltb_spec m (row_serial r)); lia.
Qed.

Lemma max_row_fold rows m : 0 <= m → foldl max_row m rows = Z.max m (last_serial (map decode rows)).
Proof.
  unfold last_serial. revert m. induction rows as [|r rows IH]; intros m Hm; cbn [foldl map foldr]; [lia|].
  change (serial (decode r)) with (row_serial r).
  unfold max_row at 2. destruct (Z.ltb_spec m (row_serial r)); rewrite IH by lia; lia.
Qed.

Lemma parsed_ok g : Forall (λ r, long_ok (row_serial r)) (omap parse_row g).
Proof.
  apply Forall_forall. intros r (line & _ & Hl)%list_elem_of_omap. by apply parse_row_words in Hl as [? _].
Qed.

Lemma strtol_rendered v : 0 <= v <= LONG_MAX → strtol (signed_to_string v) = v.
Proof.
  intros Hv. unfold strtol, signed_to_string. rewrite (proj2 (Z.ltb_ge _ _)) by lia.
  rewrite <- (app_nil_r (to_string v)), digits_head_sign by (apply to_string_nonempty || apply to_string_digits; lia).
  rewrite span_all by (done || apply to_string_digits; lia). cbn [fst]. unfold LONG_MAX in *.
  rewrite to_string_value by lia. lia.
Qed.

Lemma signed_no c v : is_digit c = false → c ≠ Z_to_byte 45 → c ∉ signed_to_string v.
Proof. intros Hc Hm [Hd|?]%signed_digits; congruence. Qed.

Lemma parse_row_nonempty line row : parse_row line = Some row → line ≠ [].
Proof. by intros Hp ->. Qed.

Lemma parse_reply_row_eq line : parse_reply_row line = decode <$> parse_row line.
Proof. unfold parse_reply_row, decode. case_bool_decide as E; [by subst|]. by destruct (parse_row line). Qed.

Lemma fold_rows lines out :
  foldl (λ out line, match parse_reply_row line with Some t => out ++ [t] | None => out end) out lines =
  out ++ map decode (omap parse_row lines).
Proof.
  revert out. induction lines as [|l lines IH]; intros out; cbn [foldl]; [by rewrite app_nil_r|].
  rewrite parse_reply_row_eq, omap_cons. destruct (parse_row l) as [row|]; cbn [fmap option_fmap option_map]; rewrite IH; [|done].
  cbn [map]. by rewrite <- app_assoc.
Qed.

Lemma omap_kept keep g : omap parse_row (List.filter (keep_line keep) g) = List.filter keep (omap parse_row g).
Proof.
  induction g as [|line g IH]; [done|]. cbn [List.filter]. unfold keep_line at 1. rewrite omap_cons.
  destruct (parse_row line) as [row|] eqn:E; [|done]. cbn [List.filter]. destruct (keep row); [|done].
  by rewrite omap_cons, E, IH.
Qed.

(** The main server reads a backend's reply as the decoded rows it kept. *)
Lemma parse_scan keep g out ms :
  Forall (λ l, newline ∉ l ∧ Z_to_byte 0 ∉ l) g → 0 <= ms →
  parse_query_reply (c_str (scan keep g)) out ms =
  (out ++ map decode (List.filter keep (omap parse_row g)), Z.max ms (last_serial (map decode (omap parse_row g)))).
Proof.
  intros Hg Hms. rewrite scan_eq. set (m := foldl max_row 0 (omap parse_row g)).
  assert (0 <= m <= LONG_MAX) as Hm by (apply max_row_bounds; [done|apply parsed_ok]).
  assert (Forall (λ l, l ≠ [] ∧ newline ∉ l ∧ Z_to_byte 0 ∉ l) (List.filter (keep_line keep) g)) as Hk.
  { apply Forall_forall. intros l [Hin Hl]%list_elem_of_In%filter_In. unfold keep_line in Hl.
    destruct (parse_row l) eqn:E; [|done]. rewrite Forall_forall in Hg. split; [by eapply parse_row_nonempty|].
    by apply Hg, list_elem_of_In. }
  rewrite c_str_id.
  2: { intros [Hin|Hin]%elem_of_app; [revert Hin; by apply signed_no|].
       apply list_elem_of_In, in_flat_map in Hin as (l & Hl%list_elem_of_In & Hin).
       rewrite Forall_forall in Hk. destruct Hin as [|Hin%list_elem_of_In]; [done|]. by apply (Hk l Hl). }
  unfold parse_query_reply. rewrite getlines_rows.
  - rewrite strtol_rendered by done. rewrite fold_rows, omap_kept. f_equal.
    unfold m. rewrite max_row_fold by done. destruct (_ <? _) eqn:E; reflect_bools; lia.
  - unfold signed_to_string. rewrite (proj2 (Z.ltb_ge _ _)) by lia. apply to_string_nonempty.
  - by apply signed_no.
  - eapply Forall_impl; [exact Hk|]. by intros l (? & ? & _).
Qed.

(** ** Lemmas: what the main server asks and learns *)

(** A user name as a client can send it. *)
Definition is_name (u : list byte) : Prop := is_word u ∧ Z_to_byte 0 ∉ u.

Lemma enc_name u : is_name u → is_name (enc_str u).
Proof.
  intros [Hw H0]. split; [by apply enc_word|]. unfold enc_str. intros Hin.
  apply list_elem_of_In, in_map_iff in Hin as (c & Hc & Hin%list_elem_of_In). apply enc_char_zero in Hc. by subst.
Qed.

Lemma word_of_name u k :
  is_name u → match k with c :: _ => is_space c = true | [] => True end → word_or_empty (space :: u ++ k) = (u, k).
Proof. intros [Hu _] Hk. unfold word_or_empty. by rewrite read_word_space. Qed.

Lemma star_name : is_name (txt "*").
Proof. split; [split; [done|by repeat constructor]|]. apply (bool_decide_unpack _). by vm_compute. Qed.

(** The operation is the first word of a datagram. *)
Lemma dispatch_op (op : string) rest :
  is_name (txt op) → Z_to_byte 0 ∉ rest → match rest with c :: _ => is_space c = true | [] => True end →
  word_or_empty (c_str (txt op ++ rest)) = (txt op, rest).
Proof.
  intros [Ho H0] Hr Hs. rewrite c_str_id; [|by intros [?|?]%elem_of_app].
  unfold word_or_empty. by rewrite read_word_word.
Qed.

Lemma name_app_no_zero l k : Z_to_byte 0 ∉ l → Z_to_byte 0 ∉ k → Z_to_byte 0 ∉ l ++ k.
Proof. intros ? ? [?|?]%elem_of_app; done. Qed.

Ltac op_name := split; [split; [done|by repeat constructor]|apply (bool_decide_unpack _); by vm_compute].

Lemma dispatch_query w b e1 e2 :
  is_name e1 → is_name e2 →
  dispatch w b (txt "QUERY " ++ e1 ++ txt " " ++ e2) = (handle_query b e1 e2, b).
Proof.
  intros H1 H2. unfold dispatch.
  change (txt "QUERY " ++ e1 ++ txt " " ++ e2) with (txt "QUERY" ++ space :: e1 ++ space :: e2).
  rewrite (dispatch_op "QUERY"); [|by op_name| |done].
  - rewrite bool_decide_eq_true_2 by done. rewrite word_of_name by done.
    pose proof (word_of_name e2 [] H2 I) as E2. rewrite app_nil_r in E2. by rewrite E2.
  - destruct H1 as [_ H1], H2 as [_ H2]. rewrite !not_elem_of_cons, not_elem_of_app, not_elem_of_cons. by split_and!.
Qed.

Lemma dispatch_all w b : dispatch w b (txt "ALL") = (handle_all b, b).
Proof. done. Qed.

Lemma scan_size keep g : size_of (scan keep g) <= size_of (scan (λ _, true) g).
Proof.
  rewrite !scan_eq. unfold size_of. rewrite !length_app.
  enough (length (flat_map (cons newline) (List.filter (keep_line keep) g)) ≤
          length (flat_map (cons newline) (List.filter (keep_line (λ _, true)) g)))%nat by lia.
  unfold keep_line. induction g as [|l g IH]; [done|]. cbn [List.filter].
  destruct (parse_row l) as [row|]; [|done]. destruct (keep row); cbn [flat_map app length];
    rewrite ?length_app; lia.
Qed.

Lemma set_backend_same net i : set_backend net i (backend net i) = net.
Proof. destruct net. by destruct i as [|[|i]]. Qed.

Lemma last_serial_nonneg l : 0 <= last_serial l.
Proof. unfold last_serial. induction l as [|t l IH]; cbn [foldr]; [done|lia]. Qed.

Lemma last_serial_app l k : last_serial (l ++ k) = Z.max (last_serial l) (last_serial k).
Proof.
  induction l as [|t l IH]; cbn [app]; [pose proof (last_serial_nonneg k); unfold last_serial at 2; cbn [foldr]; lia|].
  change (last_serial (t :: ?m)) with (Z.max (serial t) (last_serial m)). rewrite IH. lia.
Qed.

(** Asking the three backends a question that does not change them. *)
Lemma ask_all_scan net req keep :
  sane net → size_of req <= UDP_MAX →
  (∀ i, dispatch true (backend net i) req = (scan keep (g_txns (backend net i)), backend net i)) →
  ask_all net req [0; 1; 2]%nat [] 0 =
  Done (map decode (List.filter keep (omap parse_row (g_txns (backendA net)) ++ omap parse_row (g_txns (backendB net)) ++
                                       omap parse_row (g_txns (backendC net)))),
        last_serial (ledger net)).
Proof.
  intros Hs Hreq Hd.
  assert (∀ i, udp_request true net i req = Done (c_str (scan keep (g_txns (backend net i))), net)) as Hu.
  { intros i. unfold udp_request. rewrite (proj2 (Z.ltb_ge _ _)) by done. rewrite Hd.
    rewrite (proj2 (Z.ltb_ge _ _)); [by rewrite set_backend_same|].
    etransitivity; [apply scan_size|]. apply (sn_fits _ Hs i). }
  cbn [ask_all]. rewrite Hu. cbn [rbind]. rewrite parse_scan by (by apply (sn_lines _ Hs) || done).
  rewrite Hu. cbn [rbind]. rewrite parse_scan by (by apply (sn_lines _ Hs) || lia).
  rewrite Hu. cbn [rbind]. rewrite parse_scan by (by apply (sn_lines _ Hs) || lia).
  cbn [app backend]. rewrite !List.filter_app, !map_app, <- app_assoc. do 2 f_equal.
  unfold ledger, entries. rewrite !last_serial_app. pose proof (last_serial_nonneg (map decode (omap parse_row (g_txns (backendA net))))).
  lia.
Qed.

Definition touches (u v : list byte) (t : Txn) : bool := bool_decide (involves u t ∨ involves v t).

Lemma enc_eq a u : a = enc_str u ↔ dec_str a = u.
Proof. split; [intros ->; apply dec_enc_str|intros <-; by rewrite enc_dec_str]. Qed.

Lemma query_match_touches u v row :
  v ≠ txt "*" → query_match (enc_str u) (enc_str v) row = touches u v (decode row).
Proof.
  intros Hv. unfold query_match, touches, involves, decode. cbn [sender receiver].
  rewrite (bool_decide_eq_false_2 (enc_str v = _)).
  2: { intros He. apply Hv. rewrite <- (dec_enc_str v), He. done. }
  cbn [negb andb]. apply eq_bool_prop_intro. rewrite !orb_True, !bool_decide_spec, !enc_eq. tauto.
Qed.

Lemma query_match_star u row : query_match (enc_str u) (txt "*") row = touches u u (decode row).
Proof.
  unfold query_match, touches, involves, decode. cbn [sender receiver].
  change (negb (bool_decide (txt "*" = txt "*"))) with false. cbn [andb]. rewrite orb_false_r.
  apply eq_bool_prop_intro. rewrite !orb_True, !bool_decide_spec, !enc_eq. tauto.
Qed.

Lemma filter_decode (f : Row → bool) (g : Txn → bool) rows :
  (∀ r, f r = g (decode r)) → map decode (List.filter f rows) = List.filter g (map decode rows).
Proof.
  intros Hf. induction rows as [|r rows IH]; [done|]. cbn [List.filter map]. rewrite <- Hf.
  destruct (f r); cbn [map]; by rewrite IH.
Qed.

Lemma ledger_rows net :
  ledger net = map decode (omap parse_row (g_txns (backendA net)) ++ omap parse_row (g_txns (backendB net)) ++
                           omap parse_row (g_txns (backendC net))).
Proof. unfold ledger, entries. by rewrite !map_app. Qed.

Lemma query_all_two net u v :
  sane net → is_name u → is_name v → v ≠ txt "*" → size_of u + size_of v <= 60000 →
  query_all net (enc_str u) (enc_str v) = Done (List.filter (touches u v) (ledger net), last_serial (ledger net)).
Proof.
  intros Hs Hu Hv Hst Hsz. unfold query_all. rewrite (ask_all_scan _ _ (query_match (enc_str u) (enc_str v)) Hs).
  - rewrite (filter_decode _ (touches u v)) by (intros r; by apply query_match_touches). by rewrite <- ledger_rows.
  - unfold size_of, enc_str, UDP_MAX in *. rewrite !length_app, !length_map. cbn [length txt list_ascii_of_string]. lia.
  - intros i. rewrite dispatch_query by by apply enc_name. done.
Qed.

Lemma query_all_one net u :
  sane net → is_name u → size_of u <= 60000 →
  query_all net (enc_str u) (txt "*") = Done (List.filter (touches u u) (ledger net), last_serial (ledger net)).
Proof.
  intros Hs Hu Hsz. unfold query_all. rewrite (ask_all_scan _ _ (query_match (enc_str u) (txt "*")) Hs).
  - rewrite (filter_decode _ (touches u u)) by (intros r; by apply query_match_star). by rewrite <- ledger_rows.
  - unfold size_of, enc_str, UDP_MAX in *. rewrite !length_app, !length_map. cbn [length txt list_ascii_of_string]. lia.
  - intros i. rewrite dispatch_query by (by apply enc_name || apply star_name). done.
Qed.

(** ** Lemmas: balances *)

(** What one transaction changes in a user's balance. *)
Definition effect (user : list byte) (t : Txn) : Z :=
  (if bool_decide (receiver t = user) then amount t else 0) - (if bool_decide (sender t = user) then amount t else 0).

Definition delta (user : list byte) (l : list Txn) : Z := foldr (λ t s, effect user t + s) 0 l.

Lemma balance_of_delta user l : balance_of user l = INITIAL_BALANCE + delta user l.
Proof. done. Qed.

Definition small (t : Txn) : Prop := - 2 ^ 40 <= amount t <= 2 ^ 40.

Lemma long_done z : LONG_MIN <= z <= LONG_MAX → long z = Done z.
Proof. intros Hz. unfold long. by rewrite (proj2 (Z.leb_le _ _)), (proj2 (Z.leb_le _ _)) by lia. Qed.

(** Far from the bounds of [long] the loop computes the sum. *)
Lemma balance_loop_sum user l b :
  Forall small l → Z.abs b + 2 ^ 41 * Z.of_nat (length l) <= 2 ^ 62 → balance_loop user l b = Done (b + delta user l).
Proof.
  intros Hl. revert b. induction Hl as [|t l Ht _ IH]; intros b Hb; cbn [balance_loop delta foldr length] in *.
  { do 2 f_equal. lia. }
  unfold small in Ht. rewrite Nat2Z.inj_succ in Hb. fold (delta user l).
  assert (∀ z, Z.abs z <= 2 ^ 62 → long z = Done z) as Hlong by (intros; apply long_done; unfold LONG_MIN, LONG_MAX; lia).
  unfold effect. case_bool_decide; [rewrite Hlong by lia|]; cbn [rbind]; (case_bool_decide; [rewrite Hlong by lia|]);
    cbn [rbind]; rewrite IH by lia; f_equal; lia.
Qed.

Lemma delta_touches user u v l :
  user = u ∨ user = v → delta user (List.filter (touches u v) l) = delta user l.
Proof.
  intros Hu. induction l as [|t l IH]; [done|]. cbn [List.filter]. destruct (touches u v t) eqn:E.
  - change (effect user t + delta user (List.filter (touches u v) l) = effect user t + delta user l). by rewrite IH.
  - unfold touches, involves in E. apply bool_decide_eq_false in E. rewrite IH.
    change (delta user l = effect user t + delta user l). unfold effect.
    rewrite !bool_decide_eq_false_2 by (destruct Hu; subst; tauto). lia.
Qed.

Lemma appears_touches user u v l :
  user = u ∨ user = v → appears user (List.filter (touches u v) l) = member user l.
Proof.
  intros Hu. unfold appears, member. apply eq_bool_prop_intro. rewrite bool_decide_spec, Is_true_true, existsb_exists, Exists_exists.
  setoid_rewrite orb_true_iff. setoid_rewrite bool_decide_eq_true. unfold involves. split.
  - intros (t & [Hin _]%filter_In & Ht). exists t. by rewrite list_elem_of_In.
  - intros (t & Hin%list_elem_of_In & Ht). exists t. split; [|done]. apply filter_In. split; [done|].
    unfold touches, involves. apply bool_decide_eq_true. destruct Hu; subst; tauto.
Qed.

Lemma filter_small (f : Txn → bool) l : Forall small l → Forall small (List.filter f l).
Proof.
  rewrite !Forall_forall. intros Hl t Ht%list_elem_of_In. apply filter_In in Ht as [Ht _]. by apply Hl, list_elem_of_In.
Qed.

Lemma queried_balance net u v user :
  sane net → user = u ∨ user = v →
  balance_loop user (List.filter (touches u v) (ledger net)) INITIAL_BALANCE = Done (balance_of user (ledger net)).
Proof.
  intros Hs Hu. rewrite balance_loop_sum.
  - by rewrite delta_touches, balance_of_delta.
  - apply filter_small. apply (sn_small _ Hs).
  - pose proof (sn_short _ Hs). pose proof (filter_length_le (touches u v) (ledger net)). unfold INITIAL_BALANCE. lia.
Qed.

Lemma delta_bound user l : Forall small l → Z.abs (delta user l) <= 2 ^ 41 * Z.of_nat (length l).
Proof.
  induction 1 as [|t l Ht _ IH]; cbn [delta foldr length]; [done|]. fold (delta user l).
  unfold small, effect in *. case_bool_decide; case_bool_decide; lia.
Qed.

Lemma balance_bound user net : sane net → Z.abs (balance_of user (ledger net)) <= 2 ^ 62.
Proof.
  intros Hs. rewrite balance_of_delta. pose proof (delta_bound user _ (sn_small _ Hs)). pose proof (sn_short _ Hs).
  unfold INITIAL_BALANCE. lia.
Qed.

Lemma filter_nil_member u l : List.filter (touches u u) l = [] ↔ member u l = false.
Proof.
  rewrite <- (appears_touches u u u l) by (by left). unfold appears. split; [by intros ->|].
  destruct (List.filter (touches u u) l) as [|t k] eqn:E; [done|]. cbn [existsb]. intros Hf.
  assert (t ∈ List.filter (touches u u) l) as Hin by (rewrite E; left).
  apply list_elem_of_In, filter_In in Hin as [_ Ht]. unfold touches, involves in Ht. apply bool_decide_eq_true in Ht.
  apply orb_false_iff in Hf as [Hf _]. reflect_bools. tauto.
Qed.

(** ** Lemmas: recording a transfer *)

Lemma enc_signed_word z : is_word (enc_str (signed_to_string z)).
Proof.
  apply enc_word. split.
  - unfold signed_to_string. destruct (_ <? _); [done|]. apply to_string_nonempty.
  - apply Forall_forall. intros c [Hd| ->]%signed_digits; [|done]. by apply digit_not_sign in Hd as (_ & _ & ?).
Qed.

Lemma strtol_signed v : LONG_MIN <= v <= LONG_MAX → strtol (signed_to_string v) = v.
Proof.
  intros Hv. destruct (Z.ltb_spec v 0) as [Hn|Hn]; [|apply strtol_rendered; lia].
  unfold strtol, signed_to_string. rewrite (proj2 (Z.ltb_lt _ _)) by done.
  change (skip_space (Z_to_byte 45 :: ?l)) with (Z_to_byte 45 :: l).
  change (sign_of (Z_to_byte 45 :: ?l)) with (true, l). cbv beta iota.
  rewrite <- (app_nil_r (to_string (- v))), span_all by (done || apply to_string_digits; lia). cbn [fst].
  unfold LONG_MIN, LONG_MAX in *. rewrite to_string_value by lia. lia.
Qed.

(** The datagram that records a transfer, and what the backend does with it. *)
Definition new_row (n : Z) (s r : list byte) (a : Z) : Row :=
  mkRow n (enc_str s) (enc_str r) (enc_str (signed_to_string a)).

Lemma new_row_parses n s r a :
  long_ok n → is_name s → is_name r → parse_row (row_line (new_row n s r a)) = Some (new_row n s r a).
Proof. intros Hn [Hs _] [Hr _]. apply parse_row_line; [done|by apply enc_word|by apply enc_word|apply enc_signed_word]. Qed.

Lemma signed_no_zero z : Z_to_byte 0 ∉ signed_to_string z.
Proof. by apply signed_no. Qed.

Lemma enc_no_zero l : Z_to_byte 0 ∉ l → Z_to_byte 0 ∉ enc_str l.
Proof.
  intros H0 Hin. unfold enc_str in Hin. apply list_elem_of_In, in_map_iff in Hin as (c & Hc & Hin%list_elem_of_In).
  apply enc_char_zero in Hc. by subst.
Qed.

Lemma row_no_zero n s r a : is_name s → is_name r → Z_to_byte 0 ∉ row_line (new_row n s r a).
Proof.
  intros [_ Hs] [_ Hr]. unfold row_line. cbn [new_row row_serial row_sender row_receiver row_amount].
  repeat apply name_app_no_zero; try (by apply enc_no_zero); try apply signed_no_zero; try (apply enc_no_zero, signed_no_zero);
    by intros ?%list_elem_of_singleton.
Qed.

Lemma dispatch_new w b n s r a :
  long_ok n → is_name s → is_name r →
  dispatch w b (txt "NEW " ++ row_line (new_row n s r a)) =
  (txt "OK", mkBackend (g_txns b ++ [row_line (new_row n s r a)])
               (if w then block b ++ row_line (new_row n s r a) ++ [newline] else block b)).
Proof.
  intros Hn Hs Hr. unfold dispatch. pose proof (new_row_parses n s r a Hn Hs Hr) as Hp.
  change (txt "NEW " ++ ?l) with (txt "NEW" ++ space :: l).
  rewrite (dispatch_op "NEW"); [|by op_name| |done].
  2: { apply not_elem_of_cons. split; [done|]. by apply row_no_zero. }
  do 2 (rewrite bool_decide_eq_false_2 by done). rewrite bool_decide_eq_true_2 by done.
  assert (rest_of_line (space :: row_line (new_row n s r a)) = row_line (new_row n s r a)) as ->.
  { unfold rest_of_line. change (space :: ?l) with ([space] ++ l).
    rewrite <- (app_nil_r ([space] ++ _)), span_all; [done| |done]. apply Forall_app. split; [by repeat constructor|].
    apply Forall_forall. intros c Hc. apply negb_true_iff, bool_decide_eq_false. intros ->. revert Hc.
    by apply row_line_plain. }
  unfold handle_new. by rewrite Hp.
Qed.

Lemma entries_snoc b line row file :
  parse_row line = Some row → entries (mkBackend (g_txns b ++ [line]) file) = entries b ++ [decode row].
Proof. intros Hp. unfold entries. cbn [g_txns]. rewrite omap_app, map_app. cbn [omap list_omap]. by rewrite Hp. Qed.

Lemma signed_length z : size_of (signed_to_string z) <= 41.
Proof.
  unfold signed_to_string, size_of. pose proof (to_string_length z). pose proof (to_string_length (- z)).
  destruct (_ <? _); cbn [length]; lia.
Qed.

Lemma row_size n s r a : size_of (row_line (new_row n s r a)) <= size_of s + size_of r + 100.
Proof.
  unfold row_line. cbn [new_row row_serial row_sender row_receiver row_amount]. unfold enc_str.
  pose proof (signed_length n). pose proof (signed_length a). unfold size_of in *. rewrite !length_app, !length_map.
  cbn [length]. lia.
Qed.

Lemma ledger_set net i b t :
  entries b = entries (backend net i) ++ [t] → ledger (set_backend net i b) ≡ₚ t :: ledger net.
Proof.
  intros He. unfold ledger. destruct net as [A B C]. destruct i as [|[|i]]; cbn [set_backend backend backendA backendB backendC] in *;
    rewrite He; solve_Permutation.
Qed.

(** ** Specification of a transfer *)

(** What the server answers to a transfer request on ledger [l]. *)
Definition txcoins_reply (s r : list byte) (a : Z) (l : list Txn) : list byte :=
  if negb (member s l) && negb (member r l) then txt "MISSINGBOTH"
  else if negb (member s l) then txt "MISSINGSENDER"
  else if negb (member r l) then txt "MISSINGRECEIVER"
  else if balance_of s l <? a then txt "INSUFFICIENT " ++ signed_to_string (balance_of s l)
  else txt "SUCCESS " ++ signed_to_string (balance_of s l - a).

(** The transaction it records, if any. *)
Definition recorded (s r : list byte) (a : Z) (l : list Txn) : list Txn :=
  if member s l && member r l && (a <=? balance_of s l) then [mkTxn (last_serial l + 1) s r a] else [].

Lemma do_txcoins_eq w pick net s r a :
  sane net → is_name s → is_name r → r ≠ txt "*" → size_of s + size_of r <= 60000 → - 2 ^ 40 <= a <= 2 ^ 40 →
  ∃ net', do_txcoins w pick net s r a = Done (txcoins_reply s r a (ledger net), net') ∧
          ledger net' ≡ₚ recorded s r a (ledger net) ++ ledger net.
Proof.
  intros Hs Hn Hr Hst Hsz Ha. unfold do_txcoins, txcoins_reply, recorded. rewrite query_all_two by done. cbn [rbind].
  rewrite (appears_touches s s r), (appears_touches r s r) by (first [by left|by right]). rewrite queried_balance by (done || by left). cbn [rbind].
  destruct (member s (ledger net)); cbn [negb andb].
  2: { destruct (member r (ledger net)); exists net; by split. }
  destruct (member r (ledger net)); cbn [negb]; [|exists net; by split].
  destruct (Z.ltb_spec (balance_of s (ledger net)) a) as [Hb|Hb].
  { exists net. rewrite (proj2 (Z.leb_gt _ _)) by done. by split. }
  rewrite (proj2 (Z.leb_le _ _)) by done.
  pose proof (balance_bound s net Hs) as Hbb. pose proof (last_serial_nonneg (ledger net)) as Hl0. pose proof (sn_serials _ Hs) as Hls.
  rewrite long_done by (unfold LONG_MIN, LONG_MAX in *; lia). cbn [rbind].
  set (n := last_serial (ledger net) + 1) in *.
  assert (long_ok n) as Hok by (unfold long_ok, n, LONG_MIN, LONG_MAX in *; lia).
  change (txt "NEW " ++ signed_to_string n ++ txt " " ++ enc_str s ++ txt " " ++ enc_str r ++ txt " " ++ enc_str (signed_to_string a))
    with (txt "NEW " ++ row_line (new_row n s r a)).
  unfold udp_request. rewrite dispatch_new by done.
  pose proof (row_size n s r a) as Hrow. rewrite (proj2 (Z.ltb_ge _ _)).
  2: { unfold UDP_MAX, size_of in *. rewrite length_app. cbn [length txt list_ascii_of_string]. lia. }
  change (UDP_MAX <? size_of (txt "OK")) with false. cbn [rbind].
  rewrite long_done by (unfold LONG_MIN, LONG_MAX in *; lia). cbn [rbind]. eexists. split; [done|].
  cbn [app]. apply ledger_set. rewrite (entries_snoc _ _ (new_row n s r a)) by by apply new_row_parses.
  unfold decode. cbn [new_row row_serial row_sender row_receiver row_amount].
  rewrite !dec_enc_str, strtol_signed by (unfold LONG_MIN, LONG_MAX; lia). done.
Qed.

Lemma balance_perm u l k : l ≡ₚ k → balance_of u l = balance_of u k.
Proof.
  intros Hp. rewrite !balance_of_delta. f_equal. unfold delta.
  induction Hp as [|t l k _ IH|t t' l|l k m _ IH1 _ IH2]; cbn [foldr]; lia.
Qed.

Lemma is_prefix_success k : is_prefix (txt "SUCCESS") (txt "SUCCESS " ++ k) = true.
Proof. done. Qed.

Lemma effect_transfer u n s r a :
  effect u (mkTxn n s r a) = (if bool_decide (r = u) then a else 0) - (if bool_decide (s = u) then a else 0).
Proof. done. Qed.

Lemma last_serial_fresh l t : t ∈ l → serial t <= last_serial l.
Proof.
  intros Hin. induction l as [|t' l IH]; [by apply not_elem_of_nil in Hin|].
  change (last_serial (t' :: l)) with (Z.max (serial t') (last_serial l)).
  apply elem_of_cons in Hin as [->|Hin]; [lia|]. specialize (IH Hin). lia.
Qed.

(** C34. A transfer through the main server and its encrypted, UDP-connected backends
    is the transfer of the specification on the one plaintext ledger they hold
    together: the reply is the specified one on every branch (both parties
    missing, one missing, insufficient, success with the new balance), and the
    ledger grows by exactly the recorded transaction, wherever it is stored, with
    the next serial number.  The backends are sane, the names fit a datagram, the
    receiver is not the reserved name [*], and amounts are within 2^40 (the sums
    then do not overflow). *)
Theorem txcoins_refines w pick net s r a :
  sane net → is_name s → is_name r → r ≠ txt "*" → size_of s + size_of r <= 60000 → - 2 ^ 40 <= a <= 2 ^ 40 →
  ∃ net', do_txcoins w pick net s r a = Done (txcoins_reply s r a (ledger net), net') ∧
          ledger net' ≡ₚ recorded s r a (ledger net) ++ ledger net.
Proof. apply do_txcoins_eq. Qed.

(** What a transfer does to the coins: after any request the ledger's serial
    numbers are still distinct; on success the sender has the amount less, the
    receiver the amount more, nobody else is affected, and if the amount is not
    negative no balance that was not negative becomes negative; every other
    answer leaves all balances alone. *)
Theorem txcoins_moves w pick net s r a reply net' :
  sane net → is_name s → is_name r → r ≠ txt "*" → size_of s + size_of r <= 60000 → - 2 ^ 40 <= a <= 2 ^ 40 →
  do_txcoins w pick net s r a = Done (reply, net') → s ≠ r →
  let l := ledger net in let l' := ledger net' in
  (NoDup (map serial l) → NoDup (map serial l')) ∧
  (is_prefix (txt "SUCCESS") reply = true →
     balance_of s l' = balance_of s l - a ∧ balance_of r l' = balance_of r l + a ∧
     (∀ u, u ≠ s → u ≠ r → balance_of u l' = balance_of u l) ∧ reply = txt "SUCCESS " ++ signed_to_string (balance_of s l')) ∧
  (is_prefix (txt "SUCCESS") reply = false → l' ≡ₚ l) ∧
  (0 <= a → ∀ u, 0 <= balance_of u l → 0 <= balance_of u l').
Proof.
  intros Hs Hn Hr Hst Hsz Ha Hd Hne l l'. destruct (do_txcoins_eq w pick net s r a) as (net1 & Hd1 & Hl); [done..|].
  rewrite Hd in Hd1. injection Hd1 as Hreply <-. fold l l' in Hl, Hreply.
  assert (∀ u, balance_of u l' = balance_of u (recorded s r a l ++ l)) as Hbal by (intros u; by apply balance_perm).
  assert (∀ u n, balance_of u (mkTxn n s r a :: l) =
    balance_of u l + (if bool_decide (r = u) then a else 0) - (if bool_decide (s = u) then a else 0)) as Hcons.
  { intros u n. rewrite !balance_of_delta. change (delta u (mkTxn n s r a :: l)) with (effect u (mkTxn n s r a) + delta u l).
    rewrite effect_transfer. lia. }
  assert (recorded s r a l = [] ∧ is_prefix (txt "SUCCESS") (txcoins_reply s r a l) = false ∨
          recorded s r a l = [mkTxn (last_serial l + 1) s r a] ∧ a <= balance_of s l ∧
          txcoins_reply s r a l = txt "SUCCESS " ++ signed_to_string (balance_of s l - a)) as Hcase.
  { unfold recorded, txcoins_reply. destruct (member s l); cbn [negb andb]; [|destruct (member r l); by left].
    destruct (member r l); cbn [negb]; [|by left]. destruct (Z.ltb_spec (balance_of s l) a) as [Hb|Hb].
    - left. by rewrite (proj2 (Z.leb_gt _ _)).
    - right. by rewrite (proj2 (Z.leb_le _ _)). }
  rewrite Hreply. destruct Hcase as [[Hrec Hf]|(Hrec & Hfund & Hrep)]; rewrite Hrec in *; cbn [app] in *.
  - rewrite Hf. split_and!; [by rewrite Hl|done|done|intros _ u; by rewrite Hbal].
  - rewrite Hrep, is_prefix_success. split_and!; [|intros _|done|].
    + rewrite Hl. cbn [map]. intros Hnd. constructor; [|done]. cbn [serial].
      intros (t & Ht & Hin)%list_elem_of_In%in_map_iff. apply list_elem_of_In, last_serial_fresh in Hin. lia.
    + rewrite !Hbal, !Hcons. split_and!.
      * rewrite bool_decide_eq_false_2, bool_decide_eq_true_2 by done. lia.
      * rewrite bool_decide_eq_true_2, bool_decide_eq_false_2 by done. lia.
      * intros u H1 H2. rewrite Hbal, Hcons, !bool_decide_eq_false_2 by done. lia.
      * do 2 f_equal. rewrite bool_decide_eq_false_2, bool_decide_eq_true_2 by done. lia.
    + intros Ha0 u Hu. rewrite Hbal, Hcons. case_bool_decide; case_bool_decide; subst; try done; lia.
Qed.

(** ** Lemmas: the balance enquiry and the statement *)

Lemma check_wallet_eq net user :
  sane net → is_name user → size_of user <= 60000 →
  do_check_wallet net user =
  Done (if member user (ledger net) then txt "FOUND " ++ signed_to_string (balance_of user (ledger net)) else txt "NOTFOUND").
Proof.
  intros Hs Hu Hsz. unfold do_check_wallet. rewrite query_all_one by done. cbn [rbind].
  rewrite queried_balance by (first [done|by left]). cbn [rbind].
  destruct (member user (ledger net)) eqn:Em.
  - rewrite bool_decide_eq_false_2; [done|]. rewrite filter_nil_member. congruence.
  - apply filter_nil_member in Em. by rewrite bool_decide_eq_true_2.
Qed.

Lemma filter_true {A} (l : list A) : List.filter (λ _, true) l = l.
Proof. induction l as [|x l IH]; [done|]. cbn [List.filter]. by rewrite IH. Qed.

Lemma ask_all_ledger net :
  sane net → ask_all net (txt "ALL") [0; 1; 2]%nat [] 0 = Done (ledger net, last_serial (ledger net)).
Proof.
  intros Hs. rewrite (ask_all_scan net (txt "ALL") (λ _, true) Hs); [|done|intros i; by rewrite dispatch_all].
  by rewrite filter_true, <- ledger_rows.
Qed.

#[export] Instance by_serial_total : Total by_serial.
Proof. intros a b. unfold by_serial. lia. Qed.
#[export] Instance by_serial_trans : Transitive by_serial.
Proof. intros a b c. unfold by_serial. lia. Qed.

Lemma serial_inj l t t' : NoDup (map serial l) → t ∈ l → t' ∈ l → serial t = serial t' → t = t'.
Proof.
  induction l as [|x l IH]; [by intros _ ?%not_elem_of_nil|]. cbn [map]. rewrite NoDup_cons, !elem_of_cons.
  assert (∀ y, y ∈ l → serial y ∈ map serial l) as Hin by (intros y Hy; apply list_elem_of_In, in_map; by apply list_elem_of_In).
  intros [Hx Hl] [->|H1] [->|H2] He; [done| | |by apply IH].
  - destruct Hx. rewrite He. by apply Hin.
  - destruct Hx. rewrite <- He. by apply Hin.
Qed.

(** The statement of the monitor is the whole ledger: [TXLIST] writes every
    transaction of the three backends exactly once, decrypted, one per line, in
    ascending order of serial number; when the serial numbers are distinct every
    sorting of the ledger gives that same file. *)
Theorem txlist_sorted net :
  sane net →
  ∃ l, monitor_main net [txt "TXLIST"] = Done (Some (flat_map txn_line l)) ∧
       l ≡ₚ ledger net ∧ Sorted by_serial l ∧
       (NoDup (map serial (ledger net)) → ∀ l', l' ≡ₚ ledger net → Sorted by_serial l' → l' = l).
Proof.
  intros Hs. exists (merge_sort by_serial (ledger net)).
  pose proof (merge_sort_Permutation by_serial (ledger net)) as Hp. pose proof (Sorted_merge_sort by_serial (ledger net)) as Hsort.
  split.
  { unfold monitor_main, handle_monitor, do_txlist. rewrite bool_decide_eq_true_2 by done.
    change (is_prefix (txt "TXLIST") (txt "TXLIST")) with true. cbn iota. by rewrite ask_all_ledger. }
  split_and!; [done|done|]. intros Hnd l' Hp' Hs'. apply (Sorted_unique_strong by_serial); [|done|done|by rewrite Hp', Hp].
  intros x y Hx Hy H1 H2. unfold by_serial in *. apply (serial_inj (ledger net)); [done|by rewrite <- Hp'|by rewrite <- Hp|lia].
Qed.

Lemma reply_shown v :
  LONG_MIN <= v <= LONG_MAX → strtol (space :: signed_to_string v) = v.
Proof.
  intros Hv. rewrite <- (strtol_signed v) at 2 by done. unfold strtol. done.
Qed.

(** The balance enquiry, from the client's command line to its output: the
    client prints exactly the initial 1000 coins plus what the user received less
    what it sent over all recorded transactions, or that the user is not part of
    the network when no transaction mentions it; nothing is changed. *)
Theorem check_wallet_client w pick net user :
  sane net → is_name user → size_of user <= 4000 →
  client_main w pick net [user] =
  Done (Some (if member user (ledger net) then
                txt "The current balance of " ++ dquote user ++ txt " is : " ++
                signed_to_string (balance_of user (ledger net)) ++ txt " txcoins." ++ [newline]
              else dquote user ++ txt " is not a part of the network." ++ [newline]), net).
Proof.
  intros Hs Hu Hsz. unfold client_main, client_request, in_buffer.
  assert (∀ l, size_of l <= 4095 → take (BUF_SIZE - 1) l = l) as Htake.
  { intros l Hl. apply take_ge. unfold size_of, BUF_SIZE in *. lia. }
  rewrite Htake by (unfold size_of in *; rewrite length_app; cbn [length txt list_ascii_of_string]; lia).
  unfold handle_client. change (txt "CHECK_WALLET " ++ user) with (txt "CHECK_WALLET" ++ space :: user).
  rewrite (dispatch_op "CHECK_WALLET"); [|by op_name| |done].
  2: { destruct Hu as [_ Hu]. by apply not_elem_of_cons. }
  rewrite bool_decide_eq_true_2 by done. pose proof (word_of_name user [] Hu I) as Hw. rewrite app_nil_r in Hw. rewrite Hw.
  rewrite check_wallet_eq by (done || lia). cbn [rbind]. unfold client_result.
  destruct (member user (ledger net)); [|done].
  pose proof (signed_length (balance_of user (ledger net))) as Hlen.
  rewrite Htake by (unfold size_of in *; rewrite length_app; cbn [length txt list_ascii_of_string]; lia).
  rewrite c_str_id by (apply name_app_no_zero; [apply (bool_decide_unpack _); by vm_compute|apply signed_no_zero]).
  change (is_prefix (txt "FOUND") (txt "FOUND " ++ ?k)) with true. cbn iota.
  change (drop 5 (txt "FOUND " ++ ?k)) with (space :: k).
  rewrite reply_shown; [done|]. pose proof (balance_bound user net Hs). unfold LONG_MIN, LONG_MAX. lia.
Qed.

(** ** Worked example: the block files of the repository *)

Module LegacyDemo.
Definition block1 : list byte := txt "5 Fklqpdb Rolyhu 452" ++ [newline] ++ txt "1 Udfkhdo Mrkq 78" ++ [newline] ++ txt "9 Dol Oxnh 488" ++ [newline].
Definition block2 : list byte := txt "2 Ulvklo Dolfh 63" ++ [newline] ++ txt "8 Ulvklo Fklqpdb 43" ++ [newline] ++ txt "3 Rolyhu Udfklw 27" ++ [newline].
Definition block3 : list byte := txt "6 Udfkhdo Dolfh 72" ++ [newline] ++ txt "4 Ehq Ylfwru 18" ++ [newline] ++ txt "7 Pduwlq Oxnh 58" ++ [newline].
Definition net0 : Net := mkNet (boot_backend block1) (boot_backend block2) (boot_backend block3).

Definition sane_check (net : Net) : bool :=
  forallb (λ b, bool_decide (Forall (λ l, newline ∉ l ∧ Z_to_byte 0 ∉ l) (g_txns b)) && (size_of (handle_all b) <=? UDP_MAX))
    [backendA net; backendB net; backendC net] &&
  (Z.of_nat (length (ledger net)) <=? 2 ^ 20) &&
  bool_decide (Forall (λ t, - 2 ^ 40 <= amount t <= 2 ^ 40) (ledger net)) &&
  (last_serial (ledger net) <? LONG_MAX).

Lemma sane_compute net : sane_check net = true → sane net.
Proof.
  intros Hs. unfold sane_check in Hs. cbn [forallb] in Hs.
  rewrite !andb_true_iff, !bool_decide_eq_true, !Z.leb_le, Z.ltb_lt in Hs.
  destruct Hs as [[[((H1 & H2) & (H3 & H4) & (H5 & H6) & _) H7] H8] H9].
  split; try done; intros i; destruct i as [|[|i]]; done.
Qed.

Lemma sane0 : sane net0.
Proof. apply sane_compute. by vm_compute. Qed.

Definition chinmay : list byte := txt "Chinmay".
Definition oliver : list byte := txt "Oliver".
Lemma chinmay_name : is_name chinmay.
Proof. by op_name. Qed.
Lemma oliver_name : is_name oliver.
Proof. by op_name. Qed.
Lemma oliver_star : oliver ≠ txt "*".
Proof. done. Qed.
Lemma differ : chinmay ≠ oliver.
Proof. done. Qed.
Lemma sizes : size_of chinmay + size_of oliver <= 60000.
Proof. by vm_compute. Qed.

Definition row10 : list byte := txt "10 Fklqpdb Rolyhu 53".
Definition net1 : Net :=
  mkNet (backendA net0) (mkBackend (g_txns (backendB net0) ++ [row10]) (block2 ++ row10 ++ [newline])) (backendC net0).
Lemma sends20 : do_txcoins true 1 net0 chinmay oliver 20 = Done (txt "SUCCESS 861", net1).
Proof. apply (bool_decide_unpack _). by vm_compute. Qed.
End LegacyDemo.

(** A defect of the transfer check: the amount is not required to be positive.
    On the repository's own block files, where Chinmay has 881 coins and Oliver
    1035, a request to transfer -500 coins from Chinmay to Oliver succeeds and
    takes 500 coins from Oliver; and a receiver called "*" that the ledger does
    know is reported as not part of the network. *)
Theorem transfer_defects :
  let net := LegacyDemo.net0 in
  balance_of (txt "Chinmay") (ledger net) = 881 ∧ balance_of (txt "Oliver") (ledger net) = 1035 ∧
  (∃ net', do_txcoins true 1 net (txt "Chinmay") (txt "Oliver") (-500) = Done (txt "SUCCESS 1381", net') ∧
           balance_of (txt "Oliver") (ledger net') = 535) ∧
  (let star := mkNet (mkBackend (g_txns (backendA net) ++ [txt "10 * Dol 3"]) []) (backendB net) (backendC net) in
   member (txt "*") (ledger star) = true ∧
   do_txcoins true 1 star (txt "Chinmay") (txt "*") 1 = Done (txt "MISSINGRECEIVER", star)).
Proof.
  cbn zeta. split; [by vm_compute|]. split; [by vm_compute|]. split.
  - eexists. split; [vm_compute; reflexivity|]. by vm_compute.
  - split; [by vm_compute|]. apply (bool_decide_unpack _). by vm_compute.
Qed.

Lemma txcoins_refines_witness :
  ∃ net', do_txcoins true 1 LegacyDemo.net0 LegacyDemo.chinmay LegacyDemo.oliver 20 =
            Done (txcoins_reply LegacyDemo.chinmay LegacyDemo.oliver 20 (ledger LegacyDemo.net0), net') ∧
          ledger net' ≡ₚ recorded LegacyDemo.chinmay LegacyDemo.oliver 20 (ledger LegacyDemo.net0) ++ ledger LegacyDemo.net0.
Proof.
  apply (txcoins_refines true 1 LegacyDemo.net0 LegacyDemo.chinmay LegacyDemo.oliver 20 LegacyDemo.sane0
    LegacyDemo.chinmay_name LegacyDemo.oliver_name LegacyDemo.oliver_star LegacyDemo.sizes). lia.
Defined.

Lemma txcoins_moves_witness :
  balance_of LegacyDemo.oliver (ledger LegacyDemo.net1) = balance_of LegacyDemo.oliver (ledger LegacyDemo.net0) + 20.
Proof.
  destruct (txcoins_moves true 1 LegacyDemo.net0 LegacyDemo.chinmay LegacyDemo.oliver 20 _ _ LegacyDemo.sane0
    LegacyDemo.chinmay_name LegacyDemo.oliver_name LegacyDemo.oliver_star LegacyDemo.sizes ltac:(lia)
    LegacyDemo.sends20 LegacyDemo.differ) as (_ & Hok & _).
  exact (proj1 (proj2 (Hok eq_refl))).
Defined.

Lemma txlist_sorted_witness :
  ∃ l, monitor_main LegacyDemo.net0 [txt "TXLIST"] = Done (Some (flat_map txn_line l)) ∧ Sorted by_serial l.
Proof.
  destruct (txlist_sorted LegacyDemo.net0 LegacyDemo.sane0) as (l & Hl & _ & Hs & _). exists l. split; [exact Hl|exact Hs].
Defined.

Lemma check_wallet_client_witness :
  client_main true 0 LegacyDemo.net0 [LegacyDemo.chinmay] =
  Done (Some (if member LegacyDemo.chinmay (ledger LegacyDemo.net0) then
                txt "The current balance of " ++ dquote LegacyDemo.chinmay ++ txt " is : " ++
                signed_to_string (balance_of LegacyDemo.chinmay (ledger LegacyDemo.net0)) ++ txt " txcoins." ++ [newline]
              else dquote LegacyDemo.chinmay ++ txt " is not a part of the network." ++ [newline]), LegacyDemo.net0).
Proof.
  apply (check_wallet_client true 0 LegacyDemo.net0 LegacyDemo.chinmay LegacyDemo.sane0 LegacyDemo.chinmay_name).
  vm_compute. discriminate.
Defined.
