(* ===== verification/Legacy.v ===== *)
(** The processes of the first-generation network: what [main] of [serverA.cpp],
    [serverB.cpp], [serverC.cpp] and [serverM.cpp] do around the operations of
    files Backend and ServerM - setting up their sockets, accepting and receiving
    when that may fail, and the lines they print.

    The system answers from scripts.  [perror] is its label; the exit code after
    it is always 1. *)

From Stdlib Require Import ZArith Lia Ascii String.
From stdpp Require Import base list strings.
From S2P Require Import Prelude Text Backend ServerM.

(** A process that gave up with a label on its standard error, or runs. *)
Inductive launched (A : Type) :=
  | Exits (label : list byte)
  | Up (a : A).
Arguments Exits {A} label.
Arguments Up {A} a.

Definition lbind {A B} (r : launched A) (f : A → launched B) : launched B :=
  match r with Exits l => Exits l | Up a => f a end.

Notation "'let^' p ':=' r 'in' k" := (lbind r (λ p, k))
  (at level 10, p pattern, r at level 100, k at level 200) : txchain_scope.

(** What [socket], [bind] to a port and [listen] answer. *)
Record calls := mkCalls { c_socket : Z; c_bind : Z → bool; c_listen : bool }.

(** [printf] of a text with its numbers filled in. *)
Definition line (parts : list (list byte)) : list byte := concat parts ++ [newline].

(** ** A backend server *)

Section backend_process.
Variable (p : Program).

Definition open_socket (sys : calls) : launched Z :=
  let sockfd := c_socket sys in
  return_if sockfd <? 0 with Exits (txt "server" ++ SRV p ++ txt ": socket") ;;
  return_if negb (c_bind sys (UDP_PORT p)) with Exits (txt "server" ++ SRV p ++ txt ": bind") ;;
  Up sockfd.

Definition up_line : list byte :=
  line [txt "The Server"; SRV p; txt " is up and running using UDP on port "; to_string (UDP_PORT p); txt "."].
Definition request_line : list byte :=
  line [txt "The Server"; SRV p; txt " received a request from the Main Server."].
Definition response_line : list byte :=
  line [txt "The Server"; SRV p; txt " finished sending the response to the Main Server."].

(** One [recvfrom]: a failure, or a datagram (with whether the block file opens
    for appending should it be asked for). *)
Inductive incoming := RecvFails | Datagram (writable : bool) (bytes : list byte).

(** [sizeof(buf) - 1]. *)
Definition RECV_MAX : Z := 65535.
Definition received (bytes : list byte) : list byte := take (Z.to_nat RECV_MAX) bytes.

(** The loop: what is printed, the replies, and the store. *)
Fixpoint backend_loop (b : Backend) (ins : list incoming) : list byte * list (list byte) * Backend :=
  match ins with
  | [] => ([], [], b)
  | RecvFails :: ins => backend_loop b ins
  | Datagram writable bytes :: ins =>
      let '(reply, b) := dispatch writable b (received bytes) in
      let '(out, replies, b) := backend_loop b ins in
      (request_line ++ response_line ++ out, reply :: replies, b)
  end.

Definition backend_main (sys : calls) (files : list byte → list byte) (ins : list incoming)
  : launched (list byte * list (list byte) * Backend) :=
  let b := boot_backend (files (BLOCK_FILE p)) in
  let^ _ := open_socket sys in
  let '(out, replies, b) := backend_loop b ins in
  Up (up_line ++ out, replies, b).
End backend_process.

(** ** The main server *)

Definition make_tcp_listener (sys : calls) (port : Z) (label : list byte) : launched Z :=
  let fd := c_socket sys in
  return_if fd <? 0 with Exits label ;;
  return_if negb (c_bind sys port) with Exits label ;;
  return_if negb (c_listen sys) with Exits label ;;
  Up fd.

Definition init_udp (sys : calls) : launched Z :=
  let g_udp_fd := c_socket sys in
  return_if g_udp_fd <? 0 with Exits (txt "serverM: udp socket") ;;
  return_if negb (c_bind sys UDP_PORT_M) with Exits (txt "serverM: udp bind") ;;
  Up g_udp_fd.

(** The lines [query_all] prints about the three backends. *)
Definition query_lines (txcoins : bool) : list byte :=
  flat_map (λ p, line [txt "The main server sent a request to server "; SRV p; txt "."] ++
    line [if txcoins then txt "The main server received the feedback from server "
          else txt "The main server received transactions from Server ";
          SRV p; txt " using UDP over port "; to_string (UDP_PORT p); txt "."])
    [serverA; serverB; serverC].

(** The lines of [handle_client], the operation's included. *)
Definition client_lines (buf : list byte) : list byte :=
  let '(op, iss) := word_or_empty (c_str buf) in
  if bool_decide (op = txt "CHECK_WALLET") then
    let '(user, _) := word_or_empty iss in
    line [txt "The main server received input="; dquote user; txt " from the client using TCP over port ";
          to_string TCP_PORT_CLIENT; txt "."] ++
    query_lines false ++ line [txt "The main server sent the current balance to the client."]
  else if bool_decide (op = txt "TXCOINS") then
    let '(s, iss) := word_or_empty iss in
    let '(r, iss) := word_or_empty iss in
    let '(amt, _) := word_or_empty iss in
    line [txt "The main server received from "; dquote s; txt " to transfer "; amt; txt " coins to "; dquote r;
          txt " using TCP over port "; to_string TCP_PORT_CLIENT; txt "."] ++
    query_lines true ++ line [txt "The main server sent the result of the transaction to the client."]
  else [].

Definition monitor_lines (buf : list byte) : list byte :=
  if is_prefix (txt "TXLIST") buf then
    line [txt "The main server received a sorted list request from the monitor using TCP over port ";
          to_string TCP_PORT_MONITOR; txt "."]
  else [].

(** One connection: [accept] fails, [recv] delivers nothing, the client stays
    silent, or [recv] delivers bytes. *)
Inductive arrival (A : Type) := AcceptFails | Closed | Silent | Received (a : A).
Arguments AcceptFails {A}.
Arguments Closed {A}.
Arguments Silent {A}.
Arguments Received {A} a.

(** One turn of the loop: what [select] answers, and what the ready listeners
    bring. *)
Inductive turn :=
  | Interrupted
  | SelectFails
  | Ready (client : option (arrival (bool * nat * list byte))) (monitor : option (arrival (list byte))).

(** What is printed, the reply sent if any, and the network after it. *)
Definition on_client (net : Net) (a : arrival (bool * nat * list byte))
  : result (list byte * option (list byte) * Net) :=
  match a with
  | AcceptFails | Closed => Done ([], None, net)
  | Silent => Hangs
  | Received (writable, pick, bytes) =>
      let buf := received bytes in
      let! (reply, net) := handle_client writable pick net buf in
      Done (client_lines buf, reply, net)
  end.

Definition on_monitor (net : Net) (a : arrival (list byte)) : result (list byte * option (list byte) * Net) :=
  match a with
  | AcceptFails | Closed => Done ([], None, net)
  | Silent => Hangs
  | Received bytes =>
      let buf := received bytes in
      let! r := handle_monitor net buf in
      Done (monitor_lines buf, snd <$> r, net)
  end.

(** A listener that is not ready brings nothing. *)
Definition when_ready {A} (f : Net → A → result (list byte * option (list byte) * Net)) (net : Net) (a : option A)
  : result (list byte * list (list byte) * Net) :=
  match a with
  | None => Done ([], [], net)
  | Some a => let! (out, reply, net) := f net a in Done (out, option_list reply, net)
  end.

(** How the loop is left: still turning at the end of the script, or by [exit]. *)
Inductive ending := Turning | Left (label : list byte).

Fixpoint select_loop (net : Net) (turns : list turn) : result (list byte * list (list byte) * Net * ending) :=
  match turns with
  | [] => Done ([], [], net, Turning)
  | Interrupted :: turns => select_loop net turns
  | SelectFails :: _ => Done ([], [], net, Left (txt "serverM: select"))
  | Ready client monitor :: turns =>
      let! (out1, replies1, net) := when_ready on_client net client in
      let! (out2, replies2, net) := when_ready on_monitor net monitor in
      let! (out, replies, net, e) := select_loop net turns in
      Done (out1 ++ out2 ++ out, replies1 ++ replies2 ++ replies, net, e)
  end.

(** The calls for the UDP socket and the two listeners. *)
Definition serverM_main (udp client monitor : calls) (net : Net) (turns : list turn)
  : launched (result (list byte * list (list byte) * Net * ending)) :=
  let^ _ := init_udp udp in
  let^ _ := make_tcp_listener client TCP_PORT_CLIENT (txt "serverM: client listener") in
  let^ _ := make_tcp_listener monitor TCP_PORT_MONITOR (txt "serverM: monitor listener") in
  Up (let! (out, replies, net, e) := select_loop net turns in
      Done (line [txt "The main server is up and running."] ++ out, replies, net, e)).

(** ** The clients *)

(** What a client process met: [connect], [send], and the bytes of the one [recv]
    ([None] for an end of stream or an error), given what it sent. *)
Record session := mkSession { s_socket : Z; s_connect : bool; s_send : bool; s_recv : list byte → option (list byte) }.

(** The exit code, the standard output, and the label or text on standard error. *)
Record exit := mkExit { x_code : Z; x_out : list byte; x_err : list byte }.

Definition client_usage (name : list byte) : list byte :=
  line [txt "Usage: "; name; txt " <username>  |  "; name; txt " <sender> <receiver> <amount>"].

(** The line printed once the request is sent. *)
Definition client_announces (args : list (list byte)) : list byte :=
  match args with
  | [user] => line [dquote user; txt " sent a balance enquiry request to the main server."]
  | [s; r; amt] => line [dquote s; txt " has requested to transfer "; amt; txt " txcoins to "; dquote r]
  | _ => []
  end.

Definition client_process (name : list byte) (args : list (list byte)) (net : session) : exit :=
  match client_request args with
  | None => mkExit 1 [] (client_usage name)
  | Some msg =>
      let out := line [txt "The client is up and running."] in
      return_if s_socket net <? 0 with mkExit 1 out (txt "client: socket") ;;
      return_if negb (s_connect net) with mkExit 1 out (txt "client: connect") ;;
      return_if negb (s_send net) with mkExit 1 out (txt "client: send") ;;
      let out := out ++ client_announces args in
      match s_recv net msg with
      | None => mkExit 1 out []
      | Some reply => mkExit 0 (out ++ client_result args reply) []
      end
  end.

Definition monitor_process (name : list byte) (args : list (list byte)) (net : session) : exit :=
  return_if negb (bool_decide (args = [txt "TXLIST"])) with mkExit 1 [] (line [txt "Usage: "; name; txt " TXLIST"]) ;;
  let out := line [txt "The monitor is up and running."] in
  return_if s_socket net <? 0 with mkExit 1 out (txt "monitor: socket") ;;
  return_if negb (s_connect net) with mkExit 1 out (txt "monitor: connect") ;;
  return_if negb (s_send net) with mkExit 1 out (txt "monitor: send") ;;
  let out := out ++ line [txt "Monitor sent a sorted list request to the main server."] in
  match s_recv net (txt "TXLIST") with
  | None => mkExit 0 out []
  | Some _ =>
      mkExit 0 (out ++ line [txt "Successfully received a sorted list of transactions from the main server."]) []
  end.

(** A session with a main server over the network [net]. *)
Definition with_server (writable : bool) (pick : nat) (net : Net) : session :=
  mkSession 3 true true (λ msg,
    match handle_client writable pick net msg with Done (reply, _) => reply | _ => None end).

(** Over a server, the client prints its result line and exits 0, whatever the
    verdict: a refused payment exits like an accepted one.  It exits 1 only when it
    got no reply. *)
Theorem client_over_server name args writable pick net res net' :
  client_main writable pick net args = Done (res, net') → client_request args ≠ None →
  client_process name args (with_server writable pick net) =
  match res with
  | Some text => mkExit 0 (line [txt "The client is up and running."] ++ client_announces args ++ text) []
  | None => mkExit 1 (line [txt "The client is up and running."] ++ client_announces args) []
  end.
Proof.
  unfold client_main, client_process. destruct (client_request args) as [msg|]; [|done]. intros Hm _.
  cbn [s_socket s_connect s_send s_recv with_server]. change (3 <? 0) with false. cbn [negb].
  destruct (handle_client writable pick net msg) as [[[reply|] n]| |]; cbn [rbind] in Hm; try done; injection Hm as <- <-.
  - by rewrite app_assoc.
  - done.
Qed.

(** ** Backends: the process is the store *)

(** The datagrams that arrived, as [serve] takes them. *)
Definition datagrams (ins : list incoming) : list (bool * list byte) :=
  omap (λ i, match i with RecvFails => None | Datagram writable bytes => Some (writable, received bytes) end) ins.

Lemma backend_loop_serve p b ins :
  (backend_loop p b ins).1.2 = (serve b (datagrams ins)).1 ∧ (backend_loop p b ins).2 = (serve b (datagrams ins)).2 ∧
  (backend_loop p b ins).1.1 = concat (replicate (length (datagrams ins)) (request_line p ++ response_line p)).
Proof.
  revert b. induction ins as [|[|w d] ins IH]; intros b; [done|apply IH|].
  change (datagrams (Datagram w d :: ins)) with ((w, received d) :: datagrams ins).
  cbn [backend_loop serve]. destruct (dispatch w b (received d)) as [reply b1].
  destruct (IH b1) as (H1 & H2 & H3). destruct (backend_loop p b1 ins) as [[out replies] b2].
  destruct (serve b1 (datagrams ins)) as [rs b3].
  cbn [fst snd] in *. subst. split_and!; [done..|]. cbn [length replicate concat]. by rewrite <- app_assoc.
Qed.

Lemma serve_app b l k :
  serve b (l ++ k) = ((serve b l).1 ++ (serve (serve b l).2 k).1, (serve (serve b l).2 k).2).
Proof.
  revert b. induction l as [|[w d] l IH]; intros b; cbn [app serve].
  - cbn [fst snd app]. apply surjective_pairing.
  - destruct (dispatch w b d) as [reply b1]. rewrite IH. destruct (serve b1 l) as [rs b2]. cbn [fst snd]. done.
Qed.

Lemma serve_synced b l : backend_synced b → Forall (λ d, d.1 = true) l → backend_synced (serve b l).2.
Proof.
  intros Hs Hl. revert b Hs. induction Hl as [|[w d] l Hw _ IH]; intros b Hs; [done|]. cbn in Hw. subst w.
  cbn [serve]. destruct (dispatch true b d) as [reply b1] eqn:Hd.
  specialize (IH b1 (dispatch_synced _ _ _ _ Hs Hd)). by destruct (serve b1 l).
Qed.

(** The sockets of a backend can be set up. *)
Definition can_open (p : Program) (sys : calls) : bool := (0 <=? c_socket sys) && c_bind sys (UDP_PORT p).

Lemma backend_main_up p sys files ins :
  can_open p sys = true →
  backend_main p sys files ins =
  Up (up_line p ++ (backend_loop p (boot_backend (files (BLOCK_FILE p))) ins).1.1,
      (serve (boot_backend (files (BLOCK_FILE p))) (datagrams ins)).1,
      (serve (boot_backend (files (BLOCK_FILE p))) (datagrams ins)).2).
Proof.
  intros [Hs Hb]%andb_true_iff. unfold backend_main, open_socket. rewrite Hb, Z.ltb_antisym, Hs. cbn [negb lbind].
  destruct (backend_loop_serve p (boot_backend (files (BLOCK_FILE p))) ins) as (<- & <- & _).
  by destruct (backend_loop _ _ _) as [[out replies] b].
Qed.

Definition writable_in (i : incoming) : Prop := match i with Datagram w _ => w = true | RecvFails => True end.

(** A block file made of whole lines. *)
Definition whole_lines (file : list byte) : Prop := file = [] ∨ ∃ f, file = f ++ [newline].

(** C35. Restarting a backend is invisible.  A server process that comes up, serves some
    datagrams on a writable block file and stops, followed by a second process on
    the block file it left, answers exactly as one process that served all the
    datagrams: the same replies in the same order, and the same rows and file at
    the end.  A process that does not come up says which call failed. *)
Theorem backend_lives p sys1 sys2 files1 ins1 ins2 out1 replies1 b1 :
  whole_lines (files1 (BLOCK_FILE p)) → Forall writable_in ins1 →
  backend_main p sys1 files1 ins1 = Up (out1, replies1, b1) →
  let files2 := λ f, if bool_decide (f = BLOCK_FILE p) then block b1 else files1 f in
  (can_open p sys2 = true →
   ∃ out2 replies2 b2 out,
     backend_main p sys2 files2 ins2 = Up (out2, replies2, b2) ∧
     backend_main p sys1 files1 (ins1 ++ ins2) = Up (out, replies1 ++ replies2, b2)) ∧
  (can_open p sys2 = false →
   backend_main p sys2 files2 ins2 =
   Exits (txt "server" ++ SRV p ++ (if c_socket sys2 <? 0 then txt ": socket" else txt ": bind"))).
Proof.
  intros Hf Hw Hup files2. set (b0 := boot_backend (files1 (BLOCK_FILE p))).
  assert (can_open p sys1 = true) as Ho1.
  { unfold backend_main, open_socket in Hup. unfold can_open. rewrite Z.leb_antisym.
    destruct (c_socket sys1 <? 0); [done|]. by destruct (c_bind sys1 (UDP_PORT p)). }
  rewrite backend_main_up in Hup by done. injection Hup as _ <- <-. fold b0. split.
  - intros Ho2. rewrite !backend_main_up by done. do 4 eexists. split; [reflexivity|]. fold b0.
    assert (boot_backend (files2 (BLOCK_FILE p)) = (serve b0 (datagrams ins1)).2) as ->.
    { unfold files2. rewrite bool_decide_eq_true_2 by done. fold b0.
      destruct (serve_synced b0 (datagrams ins1)) as [Hr _]; [by split| |].
      - apply Forall_forall. intros d (i & Hi & Hd)%list_elem_of_omap. rewrite Forall_forall in Hw. specialize (Hw i Hi).
        destruct i as [|w bytes]; [done|]. by injection Hd as <-.
      - unfold boot_backend. rewrite <- Hr. by destruct (serve b0 (datagrams ins1)).2. }
    unfold datagrams. rewrite omap_app, serve_app. reflexivity.
  - unfold can_open. rewrite Z.leb_antisym. unfold backend_main, open_socket.
    destruct (c_socket sys2 <? 0); [done|]. cbn [negb andb]. by intros ->.
Qed.

(** ** The main server: the process is the loop over connections *)

(** The connections a turn brings, the client's first. *)
Definition client_conn (a : arrival (bool * nat * list byte)) : option connection :=
  match a with Received (w, pick, bytes) => Some (FromClient w pick (received bytes)) | _ => None end.
Definition monitor_conn (a : arrival (list byte)) : option connection :=
  match a with Received bytes => Some (FromMonitor (received bytes)) | _ => None end.

Definition turn_conns (t : turn) : list connection :=
  match t with
  | Ready c m => option_list (c ≫= client_conn) ++ option_list (m ≫= monitor_conn)
  | _ => []
  end.

Definition fails (t : turn) : bool := match t with SelectFails => true | _ => false end.

Definition is_silent (t : turn) : bool :=
  match t with
  | Ready (Some Silent) _ | Ready _ (Some Silent) => true
  | _ => false
  end.

(** The replies that were sent. *)
Definition sent (rs : list (option (list byte))) : list (list byte) := omap id rs.

Lemma main_loop_app net cs ds :
  main_loop net (cs ++ ds) =
  (let! (r1, net) := main_loop net cs in let! (r2, net) := main_loop net ds in Done (r1 ++ r2, net)).
Proof.
  revert net. induction cs as [|c cs IH]; intros net; cbn [app main_loop].
  - cbn [rbind]. by destruct (main_loop net ds) as [[r n]| |].
  - destruct (handle net c) as [[r n]| |]; cbn [rbind]; [|done..]. rewrite IH.
    destruct (main_loop n cs) as [[r1 n1]| |]; cbn [rbind]; [|done..].
    by destruct (main_loop n1 ds) as [[r2 n2]| |].
Qed.

Lemma sent_app l k : sent (l ++ k) = sent l ++ sent k.
Proof. apply omap_app. Qed.

Lemma client_turn net c out replies net' :
  when_ready on_client net c = Done (out, replies, net') →
  ∃ rs, main_loop net (option_list (c ≫= client_conn)) = Done (rs, net') ∧ replies = sent rs.
Proof.
  destruct c as [[| | |[[w pick] bytes]]|]; cbn -[received handle_client]; try (by (intros [= <- <- <-]; exists [])); try done.
  destruct (handle_client w pick net (received bytes)) as [[r n]| |]; cbn; [|done..].
  intros [= <- <- <-]. exists [r]. split; [done|]. by destruct r.
Qed.

Lemma monitor_turn net m out replies net' :
  when_ready on_monitor net m = Done (out, replies, net') →
  ∃ rs, main_loop net (option_list (m ≫= monitor_conn)) = Done (rs, net') ∧ replies = sent rs.
Proof.
  destruct m as [[| | |bytes]|]; cbn -[received handle_monitor]; try (by (intros [= <- <- <-]; exists [])); try done.
  destruct (handle_monitor net (received bytes)) as [r| |]; cbn; [|done..].
  intros [= <- <- <-]. exists [snd <$> r]. split; [done|]. by destruct r.
Qed.

Lemma select_loop_serves net turns out replies net' e :
  forallb (λ t, negb (fails t)) turns = true → select_loop net turns = Done (out, replies, net', e) →
  e = Turning ∧ ∃ rs, main_loop net (flat_map turn_conns turns) = Done (rs, net') ∧ replies = sent rs.
Proof.
  revert net out replies. induction turns as [|t turns IH]; intros net out replies.
  { intros _ [= <- <- <- <-]. split; [done|]. by exists []. }
  cbn [forallb]. intros [Ht Hts]%andb_true_iff. destruct t as [| |c m]; [by apply IH|done|].
  cbn [select_loop flat_map turn_conns].
  destruct (when_ready on_client net c) as [[[o1 r1] n1]| |] eqn:Hc; cbn [rbind]; [|done..].
  destruct (when_ready on_monitor n1 m) as [[[o2 r2] n2]| |] eqn:Hm; cbn [rbind]; [|done..].
  destruct (select_loop n2 turns) as [[[[o3 r3] n3] e3]| |] eqn:Hl; cbn [rbind]; [|done..].
  intros [= <- <- <- <-]. destruct (IH _ _ _ Hts Hl) as (-> & rs3 & H3 & ->). split; [done|].
  apply client_turn in Hc as (rs1 & H1 & ->). apply monitor_turn in Hm as (rs2 & H2 & ->).
  exists ((rs1 ++ rs2) ++ rs3). rewrite !main_loop_app, H1. cbn [rbind]. rewrite H2. cbn [rbind]. rewrite H3. cbn [rbind].
  by rewrite !sent_app, <- !app_assoc.
Qed.

Lemma silent_turn net t k : is_silent t = true → ∀ x, select_loop net (t :: k) ≠ Done x.
Proof.
  intros Hs x. destruct t as [| |c m]; try done. cbn [select_loop].
  destruct c as [[| | |[[w pick] bytes]]|]; [..|]; try done;
    destruct m as [[| | |mb]|]; try done; cbn -[received handle_client];
    destruct (handle_client w pick net (received bytes)) as [[r n]| |]; done.
Qed.

Lemma select_loop_silent net pre t post :
  forallb (λ t, negb (fails t)) pre = true → is_silent t = true → ∀ x, select_loop net (pre ++ t :: post) ≠ Done x.
Proof.
  revert net. induction pre as [|u pre IH]; intros net; [by intros _ Hs; apply silent_turn|].
  cbn [forallb]. intros [Hu Hpre]%andb_true_iff Hs x. destruct u as [| |c m]; [by apply IH|done|].
  cbn [app select_loop].
  destruct (when_ready on_client net c) as [[[o1 r1] n1]| |]; cbn [rbind]; [|done..].
  destruct (when_ready on_monitor n1 m) as [[[o2 r2] n2]| |]; cbn [rbind]; [|done..].
  pose proof (IH n2 Hpre Hs) as Hn. destruct (select_loop n2 (pre ++ t :: post)) as [y| |] eqn:Hy; [|done..].
  by destruct (Hn y).
Qed.

(** The sockets of the main server can be set up. *)
Definition can_listen (port : Z) (sys : calls) : bool := (0 <=? c_socket sys) && c_bind sys port && c_listen sys.
Definition can_talk (sys : calls) : bool := (0 <=? c_socket sys) && c_bind sys UDP_PORT_M.

Lemma make_tcp_listener_ok sys port label :
  make_tcp_listener sys port label = if can_listen port sys then Up (c_socket sys) else Exits label.
Proof.
  unfold make_tcp_listener, can_listen. rewrite Z.leb_antisym. destruct (c_socket sys <? 0); [done|].
  cbn [negb andb]. destruct (c_bind sys port); [|done]. by destruct (c_listen sys).
Qed.

(** The main server process is the loop over its connections.  It comes up exactly
    when its UDP socket and its two listeners can be set up; then, over any turns of
    [select] (interrupted ones, failing accepts and clients that hang up included),
    the replies it sends and the records it leaves are those of the connections that
    delivered a request, one after another.  But the server is iterative and reads
    without a timeout: from the first client that connects and stays silent on, it
    never completes another turn. *)
Theorem main_server_serves udp client monitor net turns :
  forallb (λ t, negb (fails t)) turns = true →
  ((can_talk udp && can_listen TCP_PORT_CLIENT client && can_listen TCP_PORT_MONITOR monitor = true) ↔
   ∃ r, serverM_main udp client monitor net turns = Up r) ∧
  (∀ out replies net' e,
     serverM_main udp client monitor net turns = Up (Done (out, replies, net', e)) →
     ∃ rs, main_loop net (flat_map turn_conns turns) = Done (rs, net') ∧ replies = sent rs ∧ e = Turning) ∧
  (Exists (λ t, is_silent t = true) turns → ∀ x, serverM_main udp client monitor net turns ≠ Up (Done x)).
Proof.
  intros Hf.
  assert (serverM_main udp client monitor net turns =
    if can_talk udp then
      if can_listen TCP_PORT_CLIENT client then
        if can_listen TCP_PORT_MONITOR monitor then
          Up (let! (out, replies, net, e) := select_loop net turns in
              Done (line [txt "The main server is up and running."] ++ out, replies, net, e))
        else Exits (txt "serverM: monitor listener")
      else Exits (txt "serverM: client listener")
    else Exits (if c_socket udp <? 0 then txt "serverM: udp socket" else txt "serverM: udp bind")) as Hmain.
  { unfold serverM_main. rewrite !make_tcp_listener_ok. unfold init_udp, can_talk. rewrite Z.leb_antisym.
    destruct (c_socket udp <? 0); cbn [negb andb lbind]; [done|].
    destruct (c_bind udp UDP_PORT_M); cbn [negb lbind]; [|done].
    destruct (can_listen TCP_PORT_CLIENT client); cbn [lbind]; [|done].
    by destruct (can_listen TCP_PORT_MONITOR monitor). }
  rewrite Hmain. clear Hmain.
  destruct (can_talk udp), (can_listen TCP_PORT_CLIENT client), (can_listen TCP_PORT_MONITOR monitor); cbn [andb];
    split_and!; try done; try (split; [done|by intros [? ?]]); try (by intros _ ?).
  - split; [by eexists|done].
  - intros out replies net' e.
    destruct (select_loop net turns) as [[[[o rs] n] e0]| |] eqn:Hl; cbn [rbind]; [|done..].
    intros [= <- <- <- <-]. destruct (select_loop_serves _ _ _ _ _ _ Hf Hl) as (-> & rs' & H1 & ->). by exists rs'.
  - intros (t & (pre & post & ->)%list_elem_of_split & Hs)%Exists_exists x.
    rewrite forallb_app in Hf. apply andb_true_iff in Hf as [Hpre _].
    pose proof (select_loop_silent net pre t post Hpre Hs) as Hn.
    destruct (select_loop net (pre ++ t :: post)) as [y| |]; [by destruct (Hn y)|done..].
Qed.

(** ** The theorems on the repository's block files *)

Module ProcessDemo.
Definition works : calls := mkCalls 3 (λ _, true) true.
Definition files : list byte → list byte := λ f, if bool_decide (f = txt "block1.txt") then LegacyDemo.block1 else [].
Definition first : list incoming := [Datagram true (txt "NEW 10 Fklqpdb Rolyhu 53")].
Definition second : list incoming := [RecvFails; Datagram true (txt "QUERY Fklqpdb *")].
Definition life1 : list byte * list (list byte) * Backend :=
  match backend_main serverA works files first with Up x => x | Exits _ => ([], [], boot_backend []) end.

Lemma whole1 : whole_lines (files (BLOCK_FILE serverA)).
Proof.
  right. exists (txt "5 Fklqpdb Rolyhu 452" ++ [newline] ++ txt "1 Udfkhdo Mrkq 78" ++ [newline] ++ txt "9 Dol Oxnh 488").
  by vm_compute.
Qed.
Lemma writable1 : Forall writable_in first.
Proof. by constructor. Qed.
Lemma lived1 : backend_main serverA works files first = Up (life1.1.1, life1.1.2, life1.2).
Proof. by vm_compute. Qed.
Lemma opens : can_open serverA works = true.
Proof. done. Qed.

(** A balance enquiry, a failing accept, and a listing. *)
Definition enquiry : list byte := txt "CHECK_WALLET Chinmay".
Definition turns : list turn :=
  [Ready (Some (Received (true, 0%nat, enquiry))) None; Interrupted; Ready (Some AcceptFails) (Some (Received (txt "TXLIST")))].
Definition ran : list byte * list (list byte) * Net * ending :=
  match serverM_main works works works LegacyDemo.net0 turns with
  | Up (Done x) => x | _ => ([], [], LegacyDemo.net0, Turning) end.

Lemma no_failure : forallb (λ t, negb (fails t)) turns = true.
Proof. done. Qed.
Lemma runs : serverM_main works works works LegacyDemo.net0 turns = Up (Done (ran.1.1.1, ran.1.1.2, ran.1.2, ran.2)).
Proof. by vm_compute. Qed.

Definition silenced : list turn := turns ++ [Ready (Some Silent) None].
Lemma no_failure' : forallb (λ t, negb (fails t)) silenced = true.
Proof. done. Qed.
Lemma one_silent : Exists (λ t, is_silent t = true) silenced.
Proof. by apply Exists_exists; eexists (Ready (Some Silent) None); split; [repeat (left || right)|]. Qed.
End ProcessDemo.

Lemma backend_lives_witness :
  ∃ out2 replies2 b2 out,
    backend_main serverA ProcessDemo.works
      (λ f, if bool_decide (f = BLOCK_FILE serverA) then block (snd ProcessDemo.life1) else ProcessDemo.files f)
      ProcessDemo.second = Up (out2, replies2, b2) ∧
    backend_main serverA ProcessDemo.works ProcessDemo.files (ProcessDemo.first ++ ProcessDemo.second) =
      Up (out, snd (fst ProcessDemo.life1) ++ replies2, b2).
Proof.
  exact (proj1 (backend_lives serverA ProcessDemo.works ProcessDemo.works ProcessDemo.files ProcessDemo.first ProcessDemo.second
    _ _ _ ProcessDemo.whole1 ProcessDemo.writable1 ProcessDemo.lived1) ProcessDemo.opens).
Defined.

Lemma main_server_serves_witness :
  (∃ rs, main_loop LegacyDemo.net0 (flat_map turn_conns ProcessDemo.turns) = Done (rs, snd (fst ProcessDemo.ran)) ∧
         snd (fst (fst ProcessDemo.ran)) = sent rs ∧ snd ProcessDemo.ran = Turning) ∧
  (∀ x, serverM_main ProcessDemo.works ProcessDemo.works ProcessDemo.works LegacyDemo.net0 ProcessDemo.silenced ≠ Up (Done x)).
Proof.
  split.
  - exact (proj1 (proj2 (main_server_serves ProcessDemo.works ProcessDemo.works ProcessDemo.works LegacyDemo.net0
      ProcessDemo.turns ProcessDemo.no_failure)) _ _ _ _ ProcessDemo.runs).
  - exact (proj2 (proj2 (main_server_serves ProcessDemo.works ProcessDemo.works ProcessDemo.works LegacyDemo.net0
      ProcessDemo.silenced ProcessDemo.no_failure')) ProcessDemo.one_silent).
Defined.
